(** * PassPrive backend: a shallow embedding of the REST handlers

    The repository is an Express/TypeScript layer in front of a hosted
    Postgres (through a PostgREST client) and its auth service.  This
    development embeds the route handlers as state-passing functions over
    an explicit world (database tables, auth sessions, a clock, and the
    schedule of backend failures), and proves the properties the
    specification states about them.

    Layout: the JavaScript values the handlers compute with ([Js]), the
    [Map] object ([JsMap]), the data store and its client ([Pg]), one
    module per source file, and then the lemmas and theorems. *)

From Stdlib Require Import ZArith QArith List String Ascii Bool Lia.
From Stdlib Require Import DecimalString Permutation.
Import ListNotations.
Set Warnings "-register-all".
Open Scope string_scope.
Open Scope list_scope.

(* ===================================================================== *)
(** * JavaScript values                                                   *)
(* ===================================================================== *)

Module Js.

(** JSON data as request bodies and table rows carry it.  Objects keep
    their keys in order; numbers stored in rows are integers here. *)
Inductive json : Type :=
| JNull
| JBool (b : bool)
| JNum (z : Z)
| JStr (s : string)
| JArr (xs : list json)
| JObj (fields : list (string * json)).

(** A JavaScript expression may also evaluate to [undefined]: [None]. *)
Definition value := option json.

Fixpoint assoc {A : Type} (k : string) (l : list (string * A)) : option A :=
  match l with
  | [] => None
  | (k', v) :: l' => if String.eqb k k' then Some v else assoc k l'
  end.

(** [o[k] = v] on an object: overwrite in place, or add the key last. *)
Fixpoint assign {A : Type} (k : string) (v : A) (l : list (string * A))
  : list (string * A) :=
  match l with
  | [] => [(k, v)]
  | (k', v') :: l' =>
      if String.eqb k k' then (k, v) :: l' else (k', v') :: assign k v l'
  end.

(** [{...o, ...patch}] restricted to what an UPDATE does: every column of
    the patch is assigned in turn. *)
Definition assign_all {A : Type} (patch o : list (string * A))
  : list (string * A) :=
  fold_left (fun acc kv => assign (fst kv) (snd kv) acc) patch o.

(** [v?.k] *)
Definition prop (v : value) (k : string) : value :=
  match v with
  | Some (JObj fs) => assoc k fs
  | _ => None
  end.

(** [v?.[i]] on arrays *)
Definition index (v : value) (i : nat) : value :=
  match v with
  | Some (JArr xs) => nth_error xs i
  | _ => None
  end.

Definition Array_isArray (v : value) : bool :=
  match v with Some (JArr _) => true | _ => false end.

(** ToBoolean *)
Definition truthy (v : value) : bool :=
  match v with
  | None | Some JNull => false
  | Some (JBool b) => b
  | Some (JNum z) => negb (z =? 0)%Z
  | Some (JStr s) => negb (String.eqb s "")
  | Some (JArr _) | Some (JObj _) => true
  end.

(** [a || b] and [a ?? b] with a defined right operand *)
Definition or_else (a : value) (b : json) : json :=
  match a with
  | Some v => if truthy a then v else b
  | None => b
  end.

Definition nullish (a : value) (b : json) : json :=
  match a with
  | None | Some JNull => b
  | Some v => v
  end.

Definition Z_to_string (z : Z) : string := NilZero.string_of_int (Z.to_int z).

(** [String(v)] *)
Fixpoint ToString (v : json) : string :=
  match v with
  | JNull => "null"
  | JBool true => "true"
  | JBool false => "false"
  | JNum z => Z_to_string z
  | JStr s => s
  | JArr xs =>
      (fix join (l : list json) : string :=
         match l with
         | [] => ""
         | x :: l' =>
             let s := match x with JNull => "" | _ => ToString x end in
             match l' with
             | [] => s
             | _ :: _ => (s ++ "," ++ join l')%string
             end
         end) xs
  | JObj _ => "[object Object]"
  end.

(** An object literal as it is serialised: keys whose value is
    [undefined] are left out. *)
Fixpoint literal_of (kvs : list (string * value)) : list (string * json) :=
  match kvs with
  | [] => []
  | (k, Some v) :: l => (k, v) :: literal_of l
  | (_, None) :: l => literal_of l
  end.

(** ** Numbers

    A JavaScript number is NaN, an infinity, or a finite value; finite
    values are kept as exact rationals. *)
Inductive number : Type :=
| NaN
| Infinity (negative : bool)
| Finite (q : Q).

Definition of_Z (z : Z) : number := Finite (inject_Z z).
Definition of_nat (n : nat) : number := of_Z (Z.of_nat n).

Definition Number_isFinite (n : number) : bool :=
  match n with Finite _ => true | _ => false end.

Definition Qltb (x y : Q) : bool := negb (Qle_bool y x).

(** [a < b], [a <= b], [a > b], [a >= b]: false whenever NaN is involved *)
Definition lt (a b : number) : bool :=
  match a, b with
  | Finite x, Finite y => Qltb x y
  | Infinity true, Finite _ => true
  | Infinity true, Infinity false => true
  | Finite _, Infinity false => true
  | _, _ => false
  end.

Definition le (a b : number) : bool :=
  match a, b with
  | Finite x, Finite y => Qle_bool x y
  | Infinity true, Finite _ => true
  | Infinity true, Infinity _ => true
  | Finite _, Infinity false => true
  | Infinity false, Infinity false => true
  | _, _ => false
  end.

Definition gt (a b : number) : bool := lt b a.
Definition ge (a b : number) : bool := le b a.

Definition neg (a : number) : number :=
  match a with
  | NaN => NaN
  | Infinity s => Infinity (negb s)
  | Finite q => Finite (- q)
  end.

Definition add (a b : number) : number :=
  match a, b with
  | Finite x, Finite y => Finite (x + y)
  | Infinity s, Finite _ => Infinity s
  | Finite _, Infinity s => Infinity s
  | Infinity s, Infinity t => if Bool.eqb s t then Infinity s else NaN
  | _, _ => NaN
  end.

Definition sub (a b : number) : number := add a (neg b).

(** The integer a finite number denotes, when it denotes one. *)
Definition to_integer (n : number) : option Z :=
  match n with
  | Finite q =>
      let r := Qred q in
      if Pos.eqb (Qden r) 1 then Some (Qnum r) else None
  | _ => None
  end.

(** [String(n)]; a finite value that is not whole is shown as a
    fraction. *)
Definition show (n : number) : string :=
  match n with
  | NaN => "NaN"
  | Infinity false => "Infinity"
  | Infinity true => "-Infinity"
  | Finite q =>
      match to_integer n with
      | Some z => Z_to_string z
      | None =>
          (Z_to_string (Qnum (Qred q)) ++ "/"
           ++ Z_to_string (Zpos (Qden (Qred q))))%string
      end
  end.

(** ** Strings

    A string is kept as the bytes of its UTF-8 encoding. *)

(** The white space and line terminators of the language: those of one
    byte (U+0009 to U+000D, U+0020), ... *)
Definition is_space (c : ascii) : bool :=
  let n := nat_of_ascii c in
  (Nat.eqb n 32 || (Nat.leb 9 n && Nat.leb n 13))%bool.

(** ... of two bytes (U+00A0), ... *)
Definition is_space2 (c d : ascii) : bool :=
  (Nat.eqb (nat_of_ascii c) 194 && Nat.eqb (nat_of_ascii d) 160)%bool.

(** ... and of three bytes (U+1680, U+2000 to U+200A, U+2028, U+2029,
    U+202F, U+205F, U+3000, U+FEFF). *)
Definition is_space3 (c d e : ascii) : bool :=
  let a := nat_of_ascii c in
  let b := nat_of_ascii d in
  let k := nat_of_ascii e in
  ((Nat.eqb a 225 && Nat.eqb b 154 && Nat.eqb k 128)
   || (Nat.eqb a 226 && Nat.eqb b 128
       && ((Nat.leb 128 k && Nat.leb k 138) || Nat.eqb k 168 || Nat.eqb k 169
           || Nat.eqb k 175))
   || (Nat.eqb a 226 && Nat.eqb b 129 && Nat.eqb k 159)
   || (Nat.eqb a 227 && Nat.eqb b 128 && Nat.eqb k 128)
   || (Nat.eqb a 239 && Nat.eqb b 187 && Nat.eqb k 191))%bool.

(** White space taken off the front of a string or, on its bytes in
    reverse ([back]), off its end. *)
Fixpoint trim_start (back : bool) (l : list ascii) : list ascii :=
  match l with
  | [] => []
  | c :: l1 =>
      if is_space c then trim_start back l1
      else
        match l1 with
        | [] => l
        | d :: l2 =>
            if (if back then is_space2 d c else is_space2 c d)
            then trim_start back l2
            else
              match l2 with
              | [] => l
              | e :: l3 =>
                  if (if back then is_space3 e d c else is_space3 c d e)
                  then trim_start back l3
                  else l
              end
        end
  end.

(** [s.trim()] *)
Definition trim (s : string) : string :=
  string_of_list_ascii
    (rev (trim_start true (rev (trim_start false (list_ascii_of_string s))))).

Definition lower_ascii (c : ascii) : ascii :=
  let n := nat_of_ascii c in
  if (Nat.leb 65 n && Nat.leb n 90)%bool then ascii_of_nat (n + 32) else c.

(** [s.toLowerCase()] on the letters of the ASCII range *)
Definition toLowerCase (s : string) : string :=
  string_of_list_ascii (map lower_ascii (list_ascii_of_string s)).

(** [s.split(sep)] for a one-character separator *)
Fixpoint split_aux (sep : ascii) (cur : list ascii) (l : list ascii)
  : list string :=
  match l with
  | [] => [string_of_list_ascii (rev cur)]
  | c :: l' =>
      if Ascii.eqb c sep
      then string_of_list_ascii (rev cur) :: split_aux sep [] l'
      else split_aux sep (c :: cur) l'
  end.

Definition split (sep : ascii) (s : string) : list string :=
  split_aux sep [] (list_ascii_of_string s).

(** ** What the runtime and the validation library contribute

    [Number] is the language's string-to-number conversion; [uuid] and
    [email] are the format checks of the schema library; [toISOString]
    prints an instant.  None of them is code of this repository, so the
    handlers take them as a parameter and every theorem holds for all of
    them. *)
Record runtime : Type := {
  Number : string -> number;
  uuid : string -> bool;
  email : string -> bool;
  toISOString : Z -> string
}.

(** [Number(v)] on a value *)
Definition ToNumber (rt : runtime) (v : value) : number :=
  match v with
  | None => NaN
  | Some JNull => of_Z 0
  | Some (JBool b) => of_Z (if b then 1 else 0)
  | Some (JNum z) => of_Z z
  | Some (JStr s) => Number rt s
  | Some (JArr xs) => Number rt (ToString (JArr xs))
  | Some (JObj fs) => Number rt (ToString (JObj fs))
  end.

End Js.

(* ===================================================================== *)
(** * The [Map] object                                                    *)
(* ===================================================================== *)

(** A [Map] keeps its entries in insertion order; [set] on a key that is
    present replaces the value where the entry stands. *)
Module JsMap.
Section WithKey.
Context {K V : Type}.
Variable eqb : K -> K -> bool.

Definition t : Type := list (K * V).

Fixpoint get (k : K) (m : t) : option V :=
  match m with
  | [] => None
  | (k', v) :: m' => if eqb k k' then Some v else get k m'
  end.

Definition has (k : K) (m : t) : bool :=
  match get k m with Some _ => true | None => false end.

Fixpoint set (k : K) (v : V) (m : t) : t :=
  match m with
  | [] => [(k, v)]
  | (k', v') :: m' =>
      if eqb k k' then (k', v) :: m' else (k', v') :: set k v m'
  end.

Definition keys (m : t) : list K := map fst m.
Definition values (m : t) : list V := map snd m.

(** [new Map(entries)] *)
Definition of_entries (es : list (K * V)) : t :=
  fold_left (fun m kv => set (fst kv) (snd kv) m) es [].
End WithKey.
End JsMap.

(* ===================================================================== *)
(** * The data store and its client                                      *)
(* ===================================================================== *)

Module Pg.
Import Js.

(** A row is the JSON object the client receives for it. *)
Definition row : Type := list (string * json).

Inductive table : Type :=
| users | restaurants | stores | store_payment_details
| store_catalogue_items | spotlight_items | corporate.

Definition table_eq_dec (a b : table) : {a = b} + {a <> b}.
Proof. decide equality. Defined.

Definition database : Type := table -> list row.

(** [from(t)] *)
Definition rows_of (t : table) (db : database) : list row := db t.

Definition with_rows (t : table) (rs : list row) (db : database) : database :=
  fun t' => if table_eq_dec t t' then rs else db t'.

(** ** Filters *)

Inductive filter : Type :=
| FEq (c : string) (v : json)
| FIlike (c pat : string)
| FIn (c : string) (vs : list json)
| FContains (c : string) (vs : list string)
| FOr (alts : list (string * string)).   (* column ILIKE pattern, or ... *)

(** Equality of column values: never true of NULL, arrays or objects. *)
Definition scalar_eqb (a b : json) : bool :=
  match a, b with
  | JBool x, JBool y => Bool.eqb x y
  | JNum x, JNum y => (x =? y)%Z
  | JStr x, JStr y => String.eqb x y
  | _, _ => false
  end.

(** SQL LIKE: [%] any run of characters, [_] any one character, and a
    backslash takes the next character literally. *)
Fixpoint like (p s : list ascii) : bool :=
  match p with
  | [] => match s with [] => true | _ :: _ => false end
  | "%"%char :: p' =>
      (fix any (s : list ascii) : bool :=
         (like p' s ||
          match s with [] => false | _ :: s' => any s' end)%bool) s
  | "_"%char :: p' =>
      match s with [] => false | _ :: s' => like p' s' end
  | "\"%char :: c :: p' =>
      match s with
      | [] => false
      | d :: s' => (Ascii.eqb c d && like p' s')%bool
      end
  | c :: p' =>
      match s with
      | [] => false
      | d :: s' => (Ascii.eqb c d && like p' s')%bool
      end
  end.

Definition ilike (pat s : string) : bool :=
  like (list_ascii_of_string (toLowerCase pat))
       (list_ascii_of_string (toLowerCase s)).

Definition col_ilike (c pat : string) (r : row) : bool :=
  match assoc c r with
  | Some (JStr s) => ilike pat s
  | _ => false
  end.

Definition holds (f : filter) (r : row) : bool :=
  match f with
  | FEq c v =>
      match assoc c r with Some x => scalar_eqb x v | None => false end
  | FIlike c pat => col_ilike c pat r
  | FIn c vs =>
      match assoc c r with
      | Some x => existsb (scalar_eqb x) vs
      | None => false
      end
  | FContains c vs =>
      match assoc c r with
      | Some (JArr xs) =>
          forallb (fun v => existsb (scalar_eqb (JStr v)) xs) vs
      | _ => false
      end
  | FOr alts => existsb (fun cp => col_ilike (fst cp) (snd cp) r) alts
  end.

(** ** Ordering

    NULL sorts as larger than every value (last ascending, first
    descending); text compares by character code. *)
Definition rank (v : value) : nat :=
  match v with
  | Some (JBool _) => 0
  | Some (JNum _) => 1
  | Some (JStr _) => 2
  | Some (JArr _) => 3
  | Some (JObj _) => 4
  | Some JNull | None => 5
  end.

Definition compare_value (a b : value) : comparison :=
  match a, b with
  | Some (JBool x), Some (JBool y) =>
      match x, y with
      | false, true => Lt
      | true, false => Gt
      | _, _ => Eq
      end
  | Some (JNum x), Some (JNum y) => Z.compare x y
  | Some (JStr x), Some (JStr y) => String.compare x y
  | _, _ => Nat.compare (rank a) (rank b)
  end.

Fixpoint compare_rows (keys : list (string * bool)) (r1 r2 : row)
  : comparison :=
  match keys with
  | [] => Eq
  | (c, ascending) :: ks =>
      match compare_value (assoc c r1) (assoc c r2) with
      | Eq => compare_rows ks r1 r2
      | o => if ascending then o else CompOpp o
      end
  end.

Fixpoint insert_by (keys : list (string * bool)) (x : row) (l : list row)
  : list row :=
  match l with
  | [] => [x]
  | y :: l' =>
      match compare_rows keys x y with
      | Gt => y :: insert_by keys x l'
      | _ => x :: l
      end
  end.

(** ORDER BY.  Rows that tie on every key come out in the order of the
    table: the store promises no order among them, and this is one it
    may give. *)
Definition order_by (keys : list (string * bool)) (l : list row) : list row :=
  fold_right (insert_by keys) [] l.

(** ** Queries, as the client's builder assembles them *)

Record query : Type := {
  q_cols : option (list string);        (* [None] is "*" *)
  q_filters : list filter;
  q_order : list (string * bool);       (* column, ascending *)
  q_range : option (number * number);   (* from, to: inclusive *)
  q_limit : option nat
}.

Definition select (cols : option (list string)) : query :=
  {| q_cols := cols; q_filters := []; q_order := [];
     q_range := None; q_limit := None |}.

Definition where_ (f : filter) (q : query) : query :=
  {| q_cols := q_cols q; q_filters := q_filters q ++ [f];
     q_order := q_order q; q_range := q_range q; q_limit := q_limit q |}.

Definition eq_ (c : string) (v : json) : query -> query := where_ (FEq c v).
Definition ilike_ (c pat : string) : query -> query := where_ (FIlike c pat).
Definition in_ (c : string) (vs : list json) : query -> query :=
  where_ (FIn c vs).
Definition contains (c : string) (vs : list string) : query -> query :=
  where_ (FContains c vs).
Definition or_ (alts : list (string * string)) : query -> query :=
  where_ (FOr alts).

Definition order (c : string) (ascending : bool) (q : query) : query :=
  {| q_cols := q_cols q; q_filters := q_filters q;
     q_order := q_order q ++ [(c, ascending)];
     q_range := q_range q; q_limit := q_limit q |}.

Definition range (from to : number) (q : query) : query :=
  {| q_cols := q_cols q; q_filters := q_filters q; q_order := q_order q;
     q_range := Some (from, to); q_limit := q_limit q |}.

Definition limit (n : nat) (q : query) : query :=
  {| q_cols := q_cols q; q_filters := q_filters q; q_order := q_order q;
     q_range := q_range q; q_limit := Some n |}.

(** ** Evaluation *)

Definition satisfies (fs : list filter) (r : row) : bool :=
  forallb (fun f => holds f r) fs.

Definition matching (fs : list filter) (rs : list row) : list row :=
  List.filter (satisfies fs) rs.

(** Rows at positions [from .. to] of an ordered result.  The store
    takes whole, non-negative positions; anything else it refuses.  The
    routes that ask for a range ask for the exact count with it, and
    then the store also refuses an offset beyond the count (416,
    PGRST103): the first position may be the count itself, for an empty
    page, and no more. *)
Definition window (from to : number) (l : list row) : option (list row) :=
  match to_integer from, to_integer to with
  | Some a, Some b =>
      if (a <? 0)%Z then None
      else if (Z.of_nat (List.length l) <? a)%Z then None
      else Some (firstn (Z.to_nat (b - a + 1)) (skipn (Z.to_nat a) l))
  | _, _ => None
  end.

Definition project (cols : option (list string)) (r : row) : row :=
  match cols with
  | None => r
  | Some cs => List.filter (fun kv => existsb (String.eqb (fst kv)) cs) r
  end.

(** The page of a query and the exact count of the rows it matches. *)
Definition eval (q : query) (rs : list row) : option (list row * nat) :=
  let hit := matching (q_filters q) rs in
  let sorted := order_by (q_order q) hit in
  let ranged :=
    match q_range q with
    | None => Some sorted
    | Some (from, to) => window from to sorted
    end in
  match ranged with
  | None => None
  | Some page =>
      let page := match q_limit q with
                  | None => page
                  | Some n => firstn n page
                  end in
      Some (map (project (q_cols q)) page, List.length hit)
  end.

(** ** The world a request runs in

    Besides the tables it holds what the platform decides: which session
    tokens the auth service honours, the outcome of each sign-up, the
    instants the clock returns, and, call by call, whether the backend
    fails ([w_faults], consumed one flag per call; an exhausted schedule
    means no failure).  [w_log] records every call made to the platform. *)

Inductive access : Type :=
| GetUser
| SignUp
| Upload (bucket : string)
| Select (t : table)
| Insert (t : table)
| Update (t : table)
| Delete (t : table).

Record pg_error : Type := { code : string; message : string }.

Inductive result (A : Type) : Type :=
| Data (a : A)
| Error (e : pg_error).
Arguments Data {A} a.
Arguments Error {A} e.

Inductive signup : Type :=
| SignUpError (msg : string)
| SignedUp (user_id : option string) (access_token : option string).

Record world : Type := {
  w_db : database;
  w_sessions : list (string * string);   (* bearer token, user id *)
  w_faults : list bool;
  w_signups : list signup;
  w_clock : nat -> Z;
  w_ticks : nat;
  w_log : list access
}.

Definition M (A : Type) : Type := world -> A * world.

Definition ret {A : Type} (a : A) : M A := fun w => (a, w).

Definition bind {A B : Type} (m : M A) (k : A -> M B) : M B :=
  fun w => let (a, w') := m w in k a w'.

Notation "x <- m ;; k" := (bind m (fun x => k))
  (at level 61, m at next level, right associativity).

Definition set_db (db : database) (w : world) : world :=
  {| w_db := db; w_sessions := w_sessions w; w_faults := w_faults w;
     w_signups := w_signups w; w_clock := w_clock w; w_ticks := w_ticks w;
     w_log := w_log w |}.

(** One call to the platform: logged, and failed when the schedule says. *)
Definition backend (a : access) : M bool :=
  fun w =>
    let (failed, rest) :=
      match w_faults w with
      | [] => (false, [])
      | f :: fs => (f, fs)
      end in
    (failed,
     {| w_db := w_db w; w_sessions := w_sessions w; w_faults := rest;
        w_signups := w_signups w; w_clock := w_clock w;
        w_ticks := w_ticks w; w_log := w_log w ++ [a] |}).

Definition get_rows (t : table) : M (list row) :=
  fun w => (rows_of t (w_db w), w).

Definition put_rows (t : table) (rs : list row) : M unit :=
  fun w => (tt, set_db (with_rows t rs (w_db w)) w).

(** [new Date()]: the next instant of the clock, in milliseconds. *)
Definition new_Date : M Z :=
  fun w =>
    (w_clock w (w_ticks w),
     {| w_db := w_db w; w_sessions := w_sessions w; w_faults := w_faults w;
        w_signups := w_signups w; w_clock := w_clock w;
        w_ticks := S (w_ticks w); w_log := w_log w |}).

Definition backend_failure : pg_error :=
  {| code := "XX000"; message := "backend failure" |}.
Definition not_single : pg_error :=
  {| code := "PGRST116";
     message := "JSON object requested, multiple (or no) rows returned" |}.
Definition unique_violation : pg_error :=
  {| code := "23505";
     message := "duplicate key value violates unique constraint" |}.
Definition bad_range : pg_error :=
  {| code := "PGRST103"; message := "Requested range not satisfiable" |}.
Definition invalid_token : pg_error :=
  {| code := "bad_jwt"; message := "invalid JWT" |}.

(** Awaiting a select: page and exact count. *)
Definition run (t : table) (q : query) : M (result (list row * nat)) :=
  failed <- backend (Select t) ;;
  if failed then ret (Error backend_failure)
  else
    rs <- get_rows t ;;
    match eval q rs with
    | None => ret (Error bad_range)
    | Some r => ret (Data r)
    end.

(** [.maybeSingle()]: no row is fine, several are an error. *)
Definition maybeSingle (t : table) (q : query) : M (result (option row)) :=
  r <- run t q ;;
  match r with
  | Error e => ret (Error e)
  | Data ([], _) => ret (Data None)
  | Data ([x], _) => ret (Data (Some x))
  | Data (_ :: _ :: _, _) => ret (Error not_single)
  end.

(** [.single()]: exactly one row. *)
Definition single (t : table) (q : query) : M (result row) :=
  r <- run t q ;;
  match r with
  | Error e => ret (Error e)
  | Data ([x], _) => ret (Data x)
  | Data (_, _) => ret (Error not_single)
  end.

Definition same_id (v : json) (r : row) : bool :=
  match assoc "id" r with
  | Some v' => scalar_eqb v' v
  | None => false
  end.

(** The columns, besides the key, that a table keeps unique: the slug of
    a restaurant (the routes answer its violation, code 23505, with
    "Slug already exists"). *)
Definition unique_columns (t : table) : list string :=
  match t with
  | restaurants => ["slug"]
  | _ => []
  end.

(** A new row repeats, in a unique column, the value a row of the table
    holds.  NULL repeats nothing. *)
Definition repeats (t : table) (r : row) (rs : list row) : bool :=
  existsb
    (fun c =>
       match assoc c r with
       | Some v => existsb (holds (FEq c v)) rs
       | None => false
       end)
    (unique_columns t).

(** [.insert(r).select().single()].  The row is stored with the columns
    it is given; the primary key must be new when it is supplied, and so
    must the values of the unique columns. *)
Definition insert (t : table) (r : row) : M (result row) :=
  failed <- backend (Insert t) ;;
  if failed then ret (Error backend_failure)
  else
    rs <- get_rows t ;;
    let clash :=
      match assoc "id" r with
      | Some v => existsb (same_id v) rs
      | None => false
      end in
    if clash then ret (Error unique_violation)
    else if repeats t r rs then ret (Error unique_violation)
    else
      _ <- put_rows t (rs ++ [r]) ;;
      ret (Data r).

(** An update would leave a value twice in a unique column: it writes
    the column in some row, with a value that a row it does not touch
    holds, or it writes one value to several rows. *)
Definition update_repeats (t : table) (patch : row) (fs : list filter)
    (rs : list row) : bool :=
  existsb
    (fun c =>
       match assoc c patch with
       | Some v =>
           ((negb (Nat.eqb (List.length (matching fs rs)) 0)
             && existsb (fun r => negb (satisfies fs r) && holds (FEq c v) r) rs)
            || (scalar_eqb v v && Nat.ltb 1 (List.length (matching fs rs))))%bool
       | None => false
       end)
    (unique_columns t).

(** [.update(patch)] with filters: every matching row takes the patch;
    the result lists the rows as updated.  An update that a unique
    column forbids changes nothing. *)
Definition update (t : table) (patch : row) (fs : list filter)
  : M (result (list row)) :=
  failed <- backend (Update t) ;;
  if failed then ret (Error backend_failure)
  else
    rs <- get_rows t ;;
    if update_repeats t patch fs rs then ret (Error unique_violation)
    else
      _ <- put_rows t
             (map (fun r => if satisfies fs r then assign_all patch r else r) rs) ;;
      ret (Data (map (assign_all patch) (matching fs rs))).

(** [.update(patch) ... .select(cols).single()] *)
Definition update_single (t : table) (patch : row) (fs : list filter)
    (cols : option (list string)) : M (result row) :=
  r <- update t patch fs ;;
  match r with
  | Error e => ret (Error e)
  | Data [x] => ret (Data (project cols x))
  | Data _ => ret (Error not_single)
  end.

(** [.delete()] with filters *)
Definition delete (t : table) (fs : list filter) : M (result unit) :=
  failed <- backend (Delete t) ;;
  if failed then ret (Error backend_failure)
  else
    rs <- get_rows t ;;
    _ <- put_rows t (List.filter (fun r => negb (satisfies fs r)) rs) ;;
    ret (Data tt).

(** [auth.getUser()] for a client bound to a bearer token *)
Definition getUser (token : string) : M (result string) :=
  failed <- backend GetUser ;;
  if failed then ret (Error backend_failure)
  else
    fun w =>
      match assoc token (w_sessions w) with
      | Some uid => (Data uid, w)
      | None => (Error invalid_token, w)
      end.

(** [auth.signUp()]: the platform's next answer. *)
Definition signUp : M signup :=
  fun w =>
    let (answer, rest) :=
      match w_signups w with
      | [] => (SignUpError "sign-up unavailable", [])
      | a :: l => (a, l)
      end in
    (answer,
     {| w_db := w_db w; w_sessions := w_sessions w; w_faults := w_faults w;
        w_signups := rest; w_clock := w_clock w; w_ticks := w_ticks w;
        w_log := w_log w ++ [SignUp] |}).

(** [storage.from(bucket).upload(path, file)]; the objects a bucket
    holds are not tracked. *)
Definition upload_file (bucket path : string) : M (result unit) :=
  failed <- backend (Upload bucket) ;;
  if failed then ret (Error backend_failure) else ret (Data tt).

(** [storage.from(bucket).getPublicUrl(path).data.publicUrl], relative to
    the project URL *)
Definition getPublicUrl (bucket path : string) : string :=
  ("/storage/v1/object/public/" ++ bucket ++ "/" ++ path)%string.

End Pg.

(* ===================================================================== *)
(** * Requests and responses                                             *)
(* ===================================================================== *)

Module Http.
Import Js.

(** A response body: a JSON document, or the page of a list endpoint,
    [{ items, page: { limit, offset, total } }]. *)
Inductive payload : Type :=
| Json (j : json)
| Listing (items : list Pg.row) (limit offset : number) (total : nat).

Record response : Type := { status : Z; body : payload }.

(** [res.status(s).json(b)] *)
Definition reply (s : Z) (b : json) : response :=
  {| status := s; body := Json b |}.

(** [res.status(s).json({ error: msg })] *)
Definition reply_error (s : Z) (msg : string) : response :=
  reply s (JObj [("error", JStr msg)]).

(** What a handler reads of a request: the Authorization header, the
    route parameters, the parsed query string, the parsed body, and the
    file of a multipart upload. *)
Record upload : Type := { originalname : string; mimetype : string }.

Record request : Type := {
  req_authorization : option string;
  req_params : list (string * string);
  req_query : value;
  req_body : value;
  req_file : option upload
}.

(** [req.params.k] *)
Definition param (req : request) (k : string) : value :=
  option_map JStr (assoc k (req_params req)).

Definition items_of (r : response) : list Pg.row :=
  match body r with
  | Listing items _ _ _ => items
  | Json _ => []
  end.

End Http.

(* ===================================================================== *)
(** * Schemas of the validation library                                  *)
(* ===================================================================== *)

(** A schema reads a value that may be [undefined] and either rejects it
    or yields the parsed output. *)
Module Zod.
Import Js.

Definition schema (A : Type) : Type := value -> option A.

Notation "x <-? m ;; k" := (match m with Some x => k | None => None end)
  (at level 61, m at next level, right associativity).

(** The checks a string schema chains, run in the order written. *)
Inductive check : Type :=
| Trim
| Min (n : nat)
| Uuid
| Email.

Definition run_check (rt : runtime) (c : check) (s : string) : option string :=
  match c with
  | Trim => Some (trim s)
  | Min n => if Nat.leb n (String.length s) then Some s else None
  | Uuid => if uuid rt s then Some s else None
  | Email => if email rt s then Some s else None
  end.

Fixpoint run_checks (rt : runtime) (cs : list check) (s : string)
  : option string :=
  match cs with
  | [] => Some s
  | c :: cs' =>
      match run_check rt c s with
      | Some s' => run_checks rt cs' s'
      | None => None
      end
  end.

(** [z.string()] followed by checks *)
Definition string_ (rt : runtime) (cs : list check) : schema string :=
  fun v =>
    match v with
    | Some (JStr s) => run_checks rt cs s
    | _ => None
    end.

(** [z.number()]; [min] is the lower bound of [.min(n)] when present *)
Definition number_ (min : option Z) : schema Z :=
  fun v =>
    match v with
    | Some (JNum z) =>
        match min with
        | Some m => if (m <=? z)%Z then Some z else None
        | None => Some z
        end
    | _ => None
    end.

Definition boolean : schema bool :=
  fun v => match v with Some (JBool b) => Some b | _ => None end.

Definition any : schema value := fun v => Some v.

Definition enum (allowed : list string) : schema string :=
  fun v =>
    match v with
    | Some (JStr s) => if existsb (String.eqb s) allowed then Some s else None
    | _ => None
    end.

Fixpoint all {A B : Type} (f : A -> option B) (l : list A) : option (list B) :=
  match l with
  | [] => Some []
  | x :: l' =>
      match f x, all f l' with
      | Some y, Some ys => Some (y :: ys)
      | _, _ => None
      end
  end.

(** [z.array(s)], with [.min(n)] as a lower bound on the length *)
Definition array {A : Type} (s : schema A) (min : nat) : schema (list A) :=
  fun v =>
    match v with
    | Some (JArr xs) =>
        if Nat.leb min (List.length xs)
        then all (fun x => s (Some x)) xs
        else None
    | _ => None
    end.

(** [z.record(z.string(), s)] *)
Definition record {A : Type} (s : schema A) : schema (list (string * A)) :=
  fun v =>
    match v with
    | Some (JObj fs) =>
        all (fun kv => match s (Some (snd kv)) with
                       | Some y => Some (fst kv, y)
                       | None => None
                       end) fs
    | _ => None
    end.

Definition optional {A : Type} (s : schema A) : schema (option A) :=
  fun v =>
    match v with
    | None => Some None
    | Some _ => option_map Some (s v)
    end.

Definition nullable {A : Type} (s : schema A) : schema (option A) :=
  fun v =>
    match v with
    | Some JNull => Some None
    | _ => option_map Some (s v)
    end.

Definition default {A : Type} (d : A) (s : schema (option A)) : schema A :=
  fun v =>
    match v with
    | None => Some d
    | Some _ =>
        match s v with
        | Some (Some a) => Some a
        | Some None => Some d
        | None => None
        end
    end.

Definition transform {A B : Type} (f : A -> B) (s : schema A) : schema B :=
  fun v => option_map f (s v).

Definition refine {A : Type} (p : A -> bool) (s : schema A) : schema A :=
  fun v =>
    match s v with
    | Some a => if p a then Some a else None
    | None => None
    end.

(** ** Objects

    A field pairs a key with a schema whose output is written back as a
    value; a field whose output is [undefined] is left out of the parsed
    object, and keys the schema does not name are dropped. *)
Definition field : Type := (string * schema value)%type.

Fixpoint parse_fields (fs : list field) (o : list (string * json))
  : option (list (string * json)) :=
  match fs with
  | [] => Some []
  | (k, s) :: fs' =>
      match s (assoc k o), parse_fields fs' o with
      | Some out, Some rest =>
          Some (match out with
                | Some j => (k, j) :: rest
                | None => rest
                end)
      | _, _ => None
      end
  end.

Definition object (fs : list field) : schema (list (string * json)) :=
  fun v =>
    match v with
    | Some (JObj o) => parse_fields fs o
    | _ => None
    end.

(** Outputs written back as values. *)
Definition as_string (s : schema string) : schema value :=
  transform (fun x => Some (JStr x)) s.
Definition as_number (s : schema Z) : schema value :=
  transform (fun x => Some (JNum x)) s.
Definition as_boolean (s : schema bool) : schema value :=
  transform (fun x => Some (JBool x)) s.
Definition as_strings (s : schema (list string)) : schema value :=
  transform (fun xs => Some (JArr (map JStr xs))) s.
Definition as_object (s : schema (list (string * json))) : schema value :=
  transform (fun o => Some (JObj o)) s.

(** [s.nullable().optional()] and [s.optional().nullable()] over a
    schema of values: [undefined] stays out, [null] stays [null]. *)
Definition nullish_ (s : schema value) : schema value :=
  fun v =>
    match v with
    | None => Some None
    | Some JNull => Some (Some JNull)
    | Some _ => s v
    end.

(** [s.optional()] over a schema of values *)
Definition optional_ (s : schema value) : schema value :=
  fun v => match v with None => Some None | Some _ => s v end.

(** [s.optional().default(d)] over a schema of values *)
Definition default_ (d : json) (s : schema value) : schema value :=
  fun v => match v with None => Some (Some d) | Some _ => s v end.

End Zod.

(* ===================================================================== *)
(** * src/modules/routes/restaurants.ts                                  *)
(* ===================================================================== *)

Module Restaurants.
Import Js Pg Http Zod.

(** ** Helpers *)

Definition getBearerToken (req : request) : option string :=
  let h := match req_authorization req with Some s => s | None => EmptyString end in
  let parts := split " "%char h in
  let type := nth_error parts 0 in
  let token := nth_error parts 1 in
  match type, token with
  | Some ty, Some tok =>
      if (negb (String.eqb ty "Bearer") || String.eqb tok EmptyString)%bool
      then None
      else Some tok
  | _, _ => None
  end.

(** The client bound to the caller's token stands for the token. *)
Definition supabaseAuthed (req : request) : option string :=
  getBearerToken req.

Record auth : Type := { auth_sb : string; auth_user_id : string }.

(** Guards either write a response and return nothing ([inl]) or hand
    their context to the handler ([inr]). *)
Definition requireAuth (req : request) : M (response + auth) :=
  match supabaseAuthed req with
  | None => ret (inl (reply_error 401 "Missing Authorization token"))
  | Some sb =>
      u <- getUser sb ;;
      match u with
      | Error _ => ret (inl (reply_error 401 "Invalid session"))
      | Data uid => ret (inr {| auth_sb := sb; auth_user_id := uid |})
      end
  end.

Definition getCallerRole (sb : string) (callerId : string)
  : M (result (option row)) :=
  maybeSingle users (eq_ "id" (JStr callerId) (select (Some ["id"; "role"]))).

Definition is_string (v : value) (s : string) : bool :=
  match v with
  | Some (JStr x) => String.eqb x s
  | _ => false
  end.

Definition isAdminRole (role : value) : bool :=
  (is_string role "admin" || is_string role "superadmin")%bool.

Definition isPartnerRole (role : value) : bool :=
  (is_string role "restaurantpartner" || is_string role "storepartner")%bool.

Record ctx : Type := { sb : string; callerId : string; role : json }.

(** Admin-only guard (for create) *)
Definition requireAdmin (req : request) : M (response + ctx) :=
  a <- requireAuth req ;;
  match a with
  | inl r => ret (inl r)
  | inr au =>
      let callerId := auth_user_id au in
      rr <- getCallerRole (auth_sb au) callerId ;;
      match rr with
      | Error e => ret (inl (reply_error 500 (message e)))
      | Data row =>
          let role := prop (option_map JObj row) "role" in
          if (negb (truthy role) || negb (isAdminRole role))%bool
          then ret (inl (reply_error 403 "Access denied"))
          else ret (inr {| sb := auth_sb au; callerId := callerId;
                           role := or_else role JNull |})
      end
  end.

(** Write guard for updates and deletes: admin and superadmin pass;
    restaurantpartner and storepartner pass only on a restaurant whose
    owner_user_id is the caller. *)
Definition requireRestaurantWriteAccess (req : request) (restaurantId : string)
  : M (response + ctx) :=
  a <- requireAuth req ;;
  match a with
  | inl r => ret (inl r)
  | inr au =>
      let callerId := auth_user_id au in
      rr <- getCallerRole (auth_sb au) callerId ;;
      match rr with
      | Error e => ret (inl (reply_error 500 (message e)))
      | Data row =>
          let role := or_else (prop (option_map JObj row) "role") JNull in
          if isAdminRole (Some role)
          then ret (inr {| sb := auth_sb au; callerId := callerId; role := role |})
          else if isPartnerRole (Some role)
          then
            rest <- maybeSingle restaurants
                      (eq_ "id" (JStr restaurantId)
                         (select (Some ["id"; "owner_user_id"]))) ;;
            match rest with
            | Error e => ret (inl (reply_error 500 (message e)))
            | Data None => ret (inl (reply_error 404 "Restaurant not found"))
            | Data (Some r) =>
                if negb (is_string (assoc "owner_user_id" r) callerId)
                then ret (inl (reply_error 403 "Access denied"))
                else ret (inr {| sb := auth_sb au; callerId := callerId;
                                 role := role |})
            end
          else ret (inl (reply_error 403 "Access denied"))
      end
  end.

(** ** Schemas *)

Section Schemas.
Variable rt : runtime.

Definition IdSchema : schema string := string_ rt [Uuid].

Record list_query : Type := {
  lq_search : option string;
  lq_city : option string;
  lq_area : option string;
  lq_status : option string;
  lq_includeInactive : bool;
  lq_limit : number;
  lq_offset : number;
  lq_sort : string;
  lq_order : string
}.

(** [(v) => v === "true"] *)
Definition is_true (v : option string) : bool :=
  match v with Some s => String.eqb s "true" | None => false end.

(** [(v) => (v ? Number(v) : d)] *)
Definition number_or (d : Z) (v : option string) : number :=
  match v with
  | Some s => if truthy (Some (JStr s)) then Number rt s else of_Z d
  | None => of_Z d
  end.

Definition limit_ok (n : number) : bool :=
  (Number_isFinite n && gt n (of_Z 0) && le n (of_Z 100))%bool.

Definition offset_ok (n : number) : bool :=
  (Number_isFinite n && ge n (of_Z 0))%bool.

Definition ListQuerySchema : schema list_query :=
  fun v =>
    match v with
    | Some (JObj _) =>
        search <-? optional (string_ rt [Trim; Min 1]) (prop v "search") ;;
        city <-? optional (string_ rt [Trim; Min 1]) (prop v "city") ;;
        area <-? optional (string_ rt [Trim; Min 1]) (prop v "area") ;;
        status <-? optional (enum ["active"; "inactive"]) (prop v "status") ;;
        includeInactive <-?
          transform is_true (optional (string_ rt [])) (prop v "includeInactive") ;;
        limit <-?
          refine limit_ok
            (transform (number_or 20) (optional (string_ rt [])))
            (prop v "limit") ;;
        offset <-?
          refine offset_ok
            (transform (number_or 0) (optional (string_ rt [])))
            (prop v "offset") ;;
        sort <-?
          default "created_at"
            (optional (enum ["created_at"; "name"; "rating"; "distance"]))
            (prop v "sort") ;;
        order <-?
          default "desc" (optional (enum ["asc"; "desc"])) (prop v "order") ;;
        Some {| lq_search := search; lq_city := city; lq_area := area;
                lq_status := status; lq_includeInactive := includeInactive;
                lq_limit := limit; lq_offset := offset;
                lq_sort := sort; lq_order := order |}
    | _ => None
    end.

Definition DeleteQuerySchema : schema bool :=
  fun v =>
    match v with
    | Some (JObj _) =>
        transform is_true (optional (string_ rt [])) (prop v "hard")
    | _ => None
    end.

Definition OpeningHoursSchema : schema value :=
  transform
    (fun o => Some (JObj (map (fun kv => (fst kv, JObj (snd kv))) o)))
    (record (object [("open", as_string (string_ rt []));
                     ("close", as_string (string_ rt []))])).

Definition strings : schema value := as_strings (array (string_ rt []) 0).
Definition text : schema value := as_string (string_ rt [Trim]).
Definition text1 : schema value := as_string (string_ rt [Trim; Min 1]).
Definition num : schema value := as_number (number_ None).

Definition UpdateRestaurantSchema : schema (list (string * json)) :=
  object
    [ ("name", optional_ text1);
      ("phone", nullish_ text);
      ("city", nullish_ text);
      ("area", nullish_ text);
      ("full_address", nullish_ text);
      ("cuisines", optional_ strings);
      ("cost_for_two", nullish_ num);
      ("distance", nullish_ num);
      ("offer", nullish_ text);
      ("facilities", optional_ strings);
      ("highlights", optional_ strings);
      ("worth_visit", optional_ strings);
      ("opening_hours", nullish_ OpeningHoursSchema);
      ("reviews", any);
      ("menu", any);
      ("food_images", optional_ strings);
      ("ambience_images", optional_ strings);
      ("cover_image", nullish_ (as_string (string_ rt [])));
      ("is_active", optional_ (as_boolean boolean));
      ("slug", optional_ text1);
      ("latitude", nullish_ num);
      ("longitude", nullish_ num);
      ("booking_enabled", optional_ (as_boolean boolean));
      ("avg_duration_minutes", optional_ num);
      ("max_bookings_per_slot", nullish_ num);
      ("advance_booking_days", optional_ num);
      ("owner_user_id", nullish_ (as_string (string_ rt [Uuid]))) ].

(** ** Routes *)

(** [search.replace(/"/g, '\\"')] *)
Fixpoint escape_quotes (l : list ascii) : list ascii :=
  match l with
  | [] => []
  | c :: l' =>
      if Ascii.eqb c "034"%char
      then "\"%char :: "034"%char :: escape_quotes l'
      else c :: escape_quotes l'
  end.

Definition around (s : string) : string := ("%" ++ s ++ "%")%string.

Definition when {A : Type} (o : option A) (f : A -> query -> query)
    (q : query) : query :=
  match o with Some a => f a q | None => q end.

(** The query of GET /api/restaurants, before ordering and paging. *)
Definition list_filters (p : list_query) (q : query) : query :=
  let q := if (negb (lq_includeInactive p)
               && negb (truthy (option_map JStr (lq_status p))))%bool
           then eq_ "is_active" (JBool true) q else q in
  let q := when (lq_status p)
             (fun s => eq_ "is_active" (JBool (String.eqb s "active"))) q in
  let q := when (lq_city p) (fun c => ilike_ "city" (around c)) q in
  let q := when (lq_area p) (fun a => ilike_ "area" (around a)) q in
  when (lq_search p)
    (fun search =>
       let s := string_of_list_ascii
                  (escape_quotes (list_ascii_of_string search)) in
       or_ [("name", around s); ("phone", around s);
            ("area", around s); ("city", around s)]) q.

(** Public: GET /api/restaurants *)
Definition get_list (req : request) : M response :=
  match ListQuerySchema (req_query req) with
  | None => ret (reply_error 400 "Invalid query")
  | Some p =>
      let q := list_filters p (select None) in
      let q := order (lq_sort p) (String.eqb (lq_order p) "asc") q in
      let from := lq_offset p in
      let to := sub (add (lq_offset p) (lq_limit p)) (of_Z 1) in
      r <- run restaurants (range from to q) ;;
      match r with
      | Error e => ret (reply_error 500 (message e))
      | Data (data, count) =>
          ret {| status := 200;
                 body := Listing data (lq_limit p) (lq_offset p) count |}
      end
  end.

(** Public: GET /api/restaurants/:id *)
Definition get_by_id (req : request) : M response :=
  match IdSchema (param req "id") with
  | None => ret (reply_error 400 "Invalid restaurant id")
  | Some id =>
      r <- maybeSingle restaurants (eq_ "id" (JStr id) (select None)) ;;
      match r with
      | Error e => ret (reply_error 500 (message e))
      | Data None => ret (reply_error 404 "Restaurant not found")
      | Data (Some data) => ret (reply 200 (JObj [("item", JObj data)]))
      end
  end.

Definition write_error (e : pg_error) : response :=
  if String.eqb (code e) "23505"
  then reply_error 400 "Slug already exists"
  else reply_error 500 (message e).

(** PUT /api/restaurants/:id *)
Definition put_by_id (req : request) : M response :=
  match IdSchema (param req "id") with
  | None => ret (reply_error 400 "Invalid restaurant id")
  | Some id =>
      match UpdateRestaurantSchema (req_body req) with
      | None => ret (reply_error 400 "Invalid body")
      | Some patch =>
          access <- requireRestaurantWriteAccess req id ;;
          match access with
          | inl r => ret r
          | inr _ =>
              r <- update_single restaurants patch [FEq "id" (JStr id)] None ;;
              match r with
              | Error e => ret (write_error e)
              | Data data => ret (reply 200 (JObj [("item", JObj data)]))
              end
          end
      end
  end.

Definition deleted (how id : string) : response :=
  reply 200 (JObj [("ok", JBool true); ("deleted", JStr how); ("id", JStr id)]).

(** DELETE /api/restaurants/:id?hard=true *)
Definition delete_by_id (req : request) : M response :=
  match IdSchema (param req "id") with
  | None => ret (reply_error 400 "Invalid restaurant id")
  | Some id =>
      match DeleteQuerySchema (req_query req) with
      | None => ret (reply_error 400 "Invalid query")
      | Some hard =>
          access <- requireRestaurantWriteAccess req id ;;
          match access with
          | inl r => ret r
          | inr _ =>
              exists_ <- maybeSingle restaurants
                           (eq_ "id" (JStr id)
                              (select (Some ["id"; "is_active"]))) ;;
              match exists_ with
              | Error e => ret (reply_error 500 (message e))
              | Data None => ret (reply_error 404 "Restaurant not found")
              | Data (Some _) =>
                  if hard then
                    d <- delete restaurants [FEq "id" (JStr id)] ;;
                    match d with
                    | Error e => ret (reply_error 500 (message e))
                    | Data _ => ret (deleted "hard" id)
                    end
                  else
                    u <- update restaurants [("is_active", JBool false)]
                           [FEq "id" (JStr id)] ;;
                    match u with
                    | Error e => ret (reply_error 500 (message e))
                    | Data _ => ret (deleted "soft" id)
                    end
              end
          end
      end
  end.

End Schemas.
End Restaurants.

(* ===================================================================== *)
(** * src/modules/routes/stores.ts                                       *)
(* ===================================================================== *)

Module Stores.
Import Js Pg Http Zod.

Section Schemas.
Variable rt : runtime.

Definition IdSchema : schema string := string_ rt [Uuid].

Record list_query : Type := {
  lq_search : option string;
  lq_city : option string;
  lq_region : option string;
  lq_country : option string;
  lq_category : option string;
  lq_subcategory : option string;
  lq_tag : option string;
  lq_is_featured : option bool;
  lq_status : option string;
  lq_includeInactive : bool;
  lq_limit : number;
  lq_offset : number;
  lq_sort : string;
  lq_order : string
}.

Definition is_true (v : option string) : bool :=
  match v with Some s => String.eqb s "true" | None => false end.

(** [(v) => (v === undefined ? undefined : v === "true")] *)
Definition featured (v : option string) : option bool :=
  match v with Some s => Some (String.eqb s "true") | None => None end.

Definition number_or (d : Z) (v : option string) : number :=
  match v with
  | Some s => if truthy (Some (JStr s)) then Number rt s else of_Z d
  | None => of_Z d
  end.

Definition limit_ok (n : number) : bool :=
  (Number_isFinite n && gt n (of_Z 0) && le n (of_Z 100))%bool.

Definition offset_ok (n : number) : bool :=
  (Number_isFinite n && ge n (of_Z 0))%bool.

Definition word : schema (option string) :=
  optional (string_ rt [Trim; Min 1]).

Definition ListQuerySchema : schema list_query :=
  fun v =>
    match v with
    | Some (JObj _) =>
        search <-? word (prop v "search") ;;
        city <-? word (prop v "city") ;;
        region <-? word (prop v "region") ;;
        country <-? word (prop v "country") ;;
        category <-? word (prop v "category") ;;
        subcategory <-? word (prop v "subcategory") ;;
        tag <-? word (prop v "tag") ;;
        is_featured <-?
          transform featured (optional (string_ rt [])) (prop v "is_featured") ;;
        status <-? optional (enum ["active"; "inactive"]) (prop v "status") ;;
        includeInactive <-?
          transform is_true (optional (string_ rt [])) (prop v "includeInactive") ;;
        limit <-?
          refine limit_ok
            (transform (number_or 20) (optional (string_ rt [])))
            (prop v "limit") ;;
        offset <-?
          refine offset_ok
            (transform (number_or 0) (optional (string_ rt [])))
            (prop v "offset") ;;
        sort <-?
          default "created_at"
            (optional (enum ["created_at"; "updated_at"; "name"; "sort_order"]))
            (prop v "sort") ;;
        order <-?
          default "desc" (optional (enum ["asc"; "desc"])) (prop v "order") ;;
        Some {| lq_search := search; lq_city := city; lq_region := region;
                lq_country := country; lq_category := category;
                lq_subcategory := subcategory; lq_tag := tag;
                lq_is_featured := is_featured; lq_status := status;
                lq_includeInactive := includeInactive;
                lq_limit := limit; lq_offset := offset;
                lq_sort := sort; lq_order := order |}
    | _ => None
    end.

Definition DeleteQuerySchema : schema bool :=
  fun v =>
    match v with
    | Some (JObj _) =>
        transform is_true (optional (string_ rt [])) (prop v "hard")
    | _ => None
    end.

Definition around (s : string) : string := ("%" ++ s ++ "%")%string.

Definition when {A : Type} (o : option A) (f : A -> query -> query)
    (q : query) : query :=
  match o with Some a => f a q | None => q end.

(** The query of GET /api/stores, before ordering and paging. *)
Definition list_filters (p : list_query) (q : query) : query :=
  (* default: only active stores *)
  let q := if (negb (lq_includeInactive p)
               && negb (truthy (option_map JStr (lq_status p))))%bool
           then eq_ "is_active" (JBool true) q else q in
  let q := when (lq_status p)
             (fun s => eq_ "is_active" (JBool (String.eqb s "active"))) q in
  let q := when (lq_city p) (fun c => ilike_ "city" (around c)) q in
  let q := when (lq_region p) (fun c => ilike_ "region" (around c)) q in
  let q := when (lq_country p) (fun c => ilike_ "country" (around c)) q in
  let q := when (lq_category p) (fun c => eq_ "category" (JStr c)) q in
  let q := when (lq_subcategory p) (fun c => eq_ "subcategory" (JStr c)) q in
  let q := when (lq_is_featured p) (fun b => eq_ "is_featured" (JBool b)) q in
  let q := when (lq_tag p) (fun t => contains "tags" [t]) q in
  when (lq_search p)
    (fun search =>
       let s := string_of_list_ascii
                  (Restaurants.escape_quotes (list_ascii_of_string search)) in
       or_ [("name", around s); ("slug", around s); ("category", around s);
            ("subcategory", around s); ("city", around s);
            ("region", around s); ("location_name", around s)]) q.

(** GET /api/stores *)
Definition get_list (req : request) : M response :=
  match ListQuerySchema (req_query req) with
  | None => ret (reply_error 400 "Invalid query")
  | Some p =>
      let q := list_filters p (select None) in
      let q := order (lq_sort p) (String.eqb (lq_order p) "asc") q in
      (* for consistent ordering when values tie *)
      let q := if negb (String.eqb (lq_sort p) "created_at")
               then order "created_at" false q else q in
      let from := lq_offset p in
      let to := sub (add (lq_offset p) (lq_limit p)) (of_Z 1) in
      r <- run stores (range from to q) ;;
      match r with
      | Error e => ret (reply_error 500 (message e))
      | Data (data, count) =>
          ret {| status := 200;
                 body := Listing data (lq_limit p) (lq_offset p) count |}
      end
  end.

(** [String(req.query.include ?? "").split(",").map(trim).filter(Boolean)] *)
Definition includes (req : request) : list string :=
  List.filter (fun s => negb (String.eqb s EmptyString))
    (map trim
       (split ","%char
          (ToString (nullish (prop (req_query req) "include")
                       (JStr EmptyString))))).

(** GET /api/stores/:id, with ?include=payment,catalogue *)
Definition get_by_id (req : request) : M response :=
  match IdSchema (param req "id") with
  | None => ret (reply_error 400 "Invalid store id")
  | Some id =>
      let include := includes req in
      let includePayment := existsb (String.eqb "payment") include in
      let includeCatalogue := existsb (String.eqb "catalogue") include in
      r <- maybeSingle stores (eq_ "id" (JStr id) (select None)) ;;
      match r with
      | Error e => ret (reply_error 500 (message e))
      | Data None => ret (reply_error 404 "Store not found")
      | Data (Some store) =>
          let store_id := nullish (assoc "id" store) JNull in
          pay <- (if includePayment
                  then maybeSingle store_payment_details
                         (eq_ "store_id" store_id (select None))
                  else ret (Data None)) ;;
          match pay with
          | Error e => ret (reply_error 500 (message e))
          | Data payment =>
              cat <- (if includeCatalogue
                      then run store_catalogue_items
                             (order "created_at" true
                                (order "sort_order" true
                                   (eq_ "store_id" store_id (select None))))
                      else ret (Data ([], 0%nat))) ;;
              match cat with
              | Error e => ret (reply_error 500 (message e))
              | Data (catalogue, _) =>
                  ret (reply 200
                         (JObj
                            ([("item", JObj store)]
                             ++ (if includePayment
                                 then [("payment",
                                        match payment with
                                        | Some p => JObj p
                                        | None => JNull
                                        end)]
                                 else [])
                             ++ (if includeCatalogue
                                 then [("catalogue", JArr (map JObj catalogue))]
                                 else []))))
              end
          end
      end
  end.

Definition deleted (how id : string) : response :=
  reply 200 (JObj [("ok", JBool true); ("deleted", JStr how); ("id", JStr id)]).

(** DELETE /api/stores/:id?hard=true; default: soft delete *)
Definition delete_by_id (req : request) : M response :=
  match IdSchema (param req "id") with
  | None => ret (reply_error 400 "Invalid store id")
  | Some id =>
      match DeleteQuerySchema (req_query req) with
      | None => ret (reply_error 400 "Invalid query")
      | Some hard =>
          (* confirm exists *)
          exists_ <- maybeSingle stores
                       (eq_ "id" (JStr id) (select (Some ["id"; "is_active"]))) ;;
          match exists_ with
          | Error e => ret (reply_error 500 (message e))
          | Data None => ret (reply_error 404 "Store not found")
          | Data (Some _) =>
              if hard then
                d <- delete stores [FEq "id" (JStr id)] ;;
                match d with
                | Error e => ret (reply_error 500 (message e))
                | Data _ => ret (deleted "hard" id)
                end
              else
                u <- update stores [("is_active", JBool false)]
                       [FEq "id" (JStr id)] ;;
                match u with
                | Error e => ret (reply_error 500 (message e))
                | Data _ => ret (deleted "soft" id)
                end
          end
      end
  end.

End Schemas.
End Stores.

(* ===================================================================== *)
(** * src/modules/routes/spotLight.ts                                    *)
(* ===================================================================== *)

Module SpotLight.
Import Js Pg Http.

Section Routes.
Variable rt : runtime.

(** [file.originalname.split(".").pop()] *)
Definition extension (name : string) : string :=
  last (split "."%char name) EmptyString.

(** Upload to storage and return the public URL; [inl] is the error
    thrown. *)
Definition uploadToSupabase (file : upload) (folder : string)
  : M (pg_error + string) :=
  t <- new_Date ;;
  let ext := extension (originalname file) in
  let name := (Z_to_string t ++ "." ++ ext)%string in
  let path := (folder ++ "/" ++ name)%string in
  u <- upload_file "spotlight" path ;;
  match u with
  | Error e => ret (inl e)
  | Data _ => ret (inr (getPublicUrl "spotlight" path))
  end.

(** GET /api/spotlight, optionally filtered by module_type *)
Definition get_list (req : request) : M response :=
  let module_type := prop (req_query req) "module_type" in
  let q := order "order_index" true
             (eq_ "is_active" (JBool true) (select None)) in
  let q := if truthy module_type
           then eq_ "module_type" (nullish module_type JNull) q else q in
  r <- run spotlight_items q ;;
  match r with
  | Error e => ret (reply_error 500 (message e))
  | Data (data, _) => ret (reply 200 (JArr (map JObj data)))
  end.

(** An integer, a text, or NaN: what [x + 1] can be for a column value. *)
Inductive sum1 : Type :=
| SNaN
| SInt (z : Z)
| SText (s : string).

(** [x + 1] *)
Definition plus_one (x : value) : sum1 :=
  match x with
  | None => SNaN
  | Some JNull => SInt 1
  | Some (JBool b) => SInt (if b then 2 else 1)
  | Some (JNum z) => SInt (z + 1)
  | Some (JStr s) => SText (s ++ "1")
  | Some (JArr xs) => SText (ToString (JArr xs) ++ "1")
  | Some (JObj fs) => SText (ToString (JObj fs) ++ "1")
  end.

(** [s || 1] *)
Definition or_one (s : sum1) : json :=
  match s with
  | SNaN => JNum 1
  | SInt z => if (z =? 0)%Z then JNum 1 else JNum z
  | SText t => if String.eqb t EmptyString then JNum 1 else JStr t
  end.

(** [maxRow?.[0]?.order_index + 1 || 1] *)
Definition nextOrder (maxRow : value) : json :=
  or_one (plus_one (prop (index maxRow 0) "order_index")).

(** POST /api/spotlight *)
Definition create (req : request) : M response :=
  let title := prop (req_body req) "title" in
  let subtitle := prop (req_body req) "subtitle" in
  let media_type := prop (req_body req) "media_type" in
  let module_type := prop (req_body req) "module_type" in
  let is_video := Restaurants.is_string media_type "video" in
  up <- match req_file req with
        | Some file =>
            u <- uploadToSupabase file (if is_video then "videos" else "images") ;;
            match u with
            | inl e => ret (inl e)
            | inr url =>
                ret (inr (url,
                          if is_video
                          then "https://placehold.co/300x400?text=Video+Preview"
                          else EmptyString))
            end
        | None => ret (inr (EmptyString, EmptyString))
        end ;;
  match up with
  | inl e => ret (reply_error 500 (message e))
  | inr (media_url, thumbnail_url) =>
      (* find next order index *)
      m <- run spotlight_items
             (limit 1 (order "order_index" false (select (Some ["order_index"])))) ;;
      let maxRow :=
        match m with
        | Data (rows, _) => Some (JArr (map JObj rows))
        | Error _ => Some JNull
        end in
      let nextOrder := nextOrder maxRow in
      r <- insert spotlight_items
             (literal_of
                [("title", title); ("subtitle", subtitle);
                 ("media_type", media_type);
                 ("media_url", Some (JStr media_url));
                 ("thumbnail_url", Some (JStr thumbnail_url));
                 ("module_type", Some (or_else module_type (JStr "global")));
                 ("order_index", Some nextOrder)]) ;;
      match r with
      | Error e => ret (reply_error 500 (message e))
      | Data data => ret (reply 200 (JObj data))
      end
  end.

(** DELETE /api/spotlight/:id (soft); the outcome of the update is not
    looked at. *)
Definition delete_by_id (req : request) : M response :=
  _ <- update spotlight_items [("is_active", JBool false)]
         [FEq "id" (nullish (param req "id") JNull)] ;;
  ret (reply 200 (JObj [("success", JBool true)])).

(** PUT /api/spotlight/reorder/list: one update per entry of
    [req.body.order], issued in the order of the list.  [None] is the
    exception of [order.map] on a body without that array. *)
Fixpoint reorder_jobs (order : list json) : M unit :=
  match order with
  | [] => ret tt
  | o :: rest =>
      _ <- update spotlight_items
             (literal_of [("order_index", prop (Some o) "order_index")])
             [FEq "id" (nullish (prop (Some o) "id") JNull)] ;;
      reorder_jobs rest
  end.

Definition reorder (req : request) : M response :=
  match prop (req_body req) "order" with
  | Some (JArr order) =>
      if existsb (fun o => match o with JNull => true | _ => false end) order
      then ret (reply_error 500 "Cannot read properties of null")
      else
        _ <- reorder_jobs order ;;
        ret (reply 200 (JObj [("message", JStr "Order updated")]))
  | _ => ret (reply_error 500 "order.map is not a function")
  end.

End Routes.
End SpotLight.

(* ===================================================================== *)
(** * src/modules/routes/corporates.ts (employees of a corporate)        *)
(* ===================================================================== *)

Module Corporates.
Import Js Pg Http Zod.

(** The helpers of this file repeat those of restaurants.ts word for
    word. *)
Definition requireAuth := Restaurants.requireAuth.
Definition getCallerRole := Restaurants.getCallerRole.
Definition isAdminRole := Restaurants.isAdminRole.
Definition requireAdmin := Restaurants.requireAdmin.

Section Routes.
Variable rt : runtime.

Definition text1 : schema value := as_string (string_ rt [Trim; Min 1]).
Definition text : schema value := as_string (string_ rt [Trim]).

Definition EmployeeJsonSchema : schema (list (string * json)) :=
  object
    [ ("user_id", as_string (string_ rt [Uuid]));
      ("name", text1);
      ("email", as_string (string_ rt [Trim; Email]));
      ("phone", text1);
      ("department", nullish_ text);
      ("designation", nullish_ text);
      ("created_at", nullish_ (as_string (string_ rt []))) ].

Definition AddEmployeesSchema : schema (list (list (string * json))) :=
  fun v =>
    match v with
    | Some (JObj _) => array EmployeeJsonSchema 1 (prop v "employees")
    | _ => None
    end.

Definition CorporateIdParamSchema (req : request) : option string :=
  string_ rt [Uuid] (param req "id").

Definition RemoveEmployeeParamSchema (req : request) : option (string * string) :=
  id <-? string_ rt [Uuid] (param req "id") ;;
  userId <-? string_ rt [Uuid] (param req "userId") ;;
  Some (id, userId).

(** A field the schema has checked to be a string. *)
Definition str (o : list (string * json)) (k : string) : string :=
  match assoc k o with
  | Some (JStr s) => s
  | _ => EmptyString
  end.

(** Keys of a [Map]: SameValueZero on the values of a column. *)
Definition same_key (a b : value) : bool :=
  match a, b with
  | None, None => true
  | Some JNull, Some JNull => true
  | Some x, Some y => scalar_eqb x y
  | _, _ => false
  end.

(** [new Map((usersRows || []).map((u) => [u.id, u.email]))] *)
Definition usersMap_of (usersRows : list row) : JsMap.t (K := value) (V := value) :=
  JsMap.of_entries same_key
    (map (fun u => (assoc "id" u, assoc "email" u)) usersRows).

(** The first incoming employee the registry does not vouch for, as the
    response the loop returns for it. *)
Fixpoint check_users (usersMap : JsMap.t (K := value) (V := value))
    (incoming : list (list (string * json))) : option response :=
  match incoming with
  | [] => None
  | emp :: rest =>
      let user_id := str emp "user_id" in
      if negb (JsMap.has same_key (Some (JStr user_id)) usersMap)
      then Some (reply_error 400
                   ("User not found in users table: " ++ user_id)%string)
      else
        let email :=
          toLowerCase
            (ToString
               (or_else
                  (match JsMap.get same_key (Some (JStr user_id)) usersMap with
                   | Some v => v
                   | None => None
                   end)
                  (JStr EmptyString))) in
        if negb (String.eqb email (toLowerCase (str emp "email")))
        then Some (reply_error 400
                     ("Email mismatch for user_id " ++ user_id
                      ++ ": users.email != provided email")%string)
        else check_users usersMap rest
  end.

(** [String(e?.user_id || "")] *)
Definition uid_of (e : json) : string :=
  ToString (or_else (prop (Some e) "user_id") (JStr EmptyString)).

(** [for (const e of existing) { ... if (uid) byUserId.set(uid, e) }] *)
Definition load_existing (existing : list json) : JsMap.t (K := string) (V := json) :=
  fold_left
    (fun m e =>
       let uid := uid_of e in
       if truthy (Some (JStr uid)) then JsMap.set String.eqb uid e m else m)
    existing [].

(** The entry an incoming employee is stored as. *)
Definition entry (emp : list (string * json)) (nowIso : string) : json :=
  JObj
    [ ("user_id", JStr (str emp "user_id"));
      ("name", JStr (str emp "name"));
      ("email", JStr (str emp "email"));
      ("phone", JStr (str emp "phone"));
      ("department", nullish (assoc "department" emp) JNull);
      ("designation", nullish (assoc "designation" emp) JNull);
      ("created_at", nullish (assoc "created_at" emp) (JStr nowIso)) ].

(** [for (const emp of incoming) { nowIso = ...; byUserId.set(...) }] *)
Fixpoint merge_incoming (incoming : list (list (string * json)))
    (byUserId : JsMap.t (K := string) (V := json))
  : M (JsMap.t (K := string) (V := json)) :=
  match incoming with
  | [] => ret byUserId
  | emp :: rest =>
      t <- new_Date ;;
      merge_incoming rest
        (JsMap.set String.eqb (str emp "user_id")
           (entry emp (toISOString rt t)) byUserId)
  end.

(** [Array.isArray(corp.employees) ? corp.employees : []] *)
Definition employees_of (corp : row) : list json :=
  match assoc "employees" corp with
  | Some (JArr xs) => xs
  | _ => []
  end.

Definition seats_exceeded (seats : number) (n : nat) : bool :=
  (gt seats (of_Z 0) && gt (of_nat n) seats)%bool.

(** POST /api/corporates/:id/employees: append into corporate.employees *)
Definition add_employees (req : request) : M response :=
  match CorporateIdParamSchema req with
  | None => ret (reply_error 400 "Invalid corporate id")
  | Some corporateId =>
      match AddEmployeesSchema (req_body req) with
      | None => ret (reply_error 400 "Invalid body")
      | Some incoming =>
          admin <- requireAdmin req ;;
          match admin with
          | inl r => ret r
          | inr _ =>
              (* load corporate row (employees + seats) *)
              c <- single corporate
                     (eq_ "id" (JStr corporateId)
                        (select (Some ["id"; "seats"; "employees"]))) ;;
              match c with
              | Error e => ret (reply_error 500 (message e))
              | Data corp =>
                  let existing := employees_of corp in
                  let seats :=
                    ToNumber rt (Some (or_else (assoc "seats" corp) (JNum 0))) in
                  (* validate users exist *)
                  let ids := map (fun e => JStr (str e "user_id")) incoming in
                  u <- run users
                         (in_ "id" ids (select (Some ["id"; "email"]))) ;;
                  match u with
                  | Error e => ret (reply_error 500 (message e))
                  | Data (usersRows, _) =>
                      match check_users (usersMap_of usersRows) incoming with
                      | Some r => ret r
                      | None =>
                          (* merge + dedupe by user_id *)
                          byUserId <- merge_incoming incoming
                                        (load_existing existing) ;;
                          let merged := JsMap.values byUserId in
                          if seats_exceeded seats (List.length merged)
                          then ret (reply_error 400
                                      ("Seats exceeded. Seats=" ++ show seats
                                       ++ ", requested employees="
                                       ++ Z_to_string (Z.of_nat (List.length merged)))%string)
                          else
                            up <- update_single corporate
                                    [("employees", JArr merged)]
                                    [FEq "id" (JStr corporateId)]
                                    (Some ["id"; "employees"; "seats"]) ;;
                            match up with
                            | Error e => ret (reply_error 500 (message e))
                            | Data updated =>
                                ret (reply 200
                                       (JObj
                                          (("ok", JBool true)
                                           :: literal_of
                                                [("corporate_id", assoc "id" updated);
                                                 ("employees", assoc "employees" updated);
                                                 ("seats", assoc "seats" updated)])))
                            end
                      end
                  end
              end
          end
      end
  end.

(** DELETE /api/corporates/:id/employees/:userId: remove from
    corporate.employees *)
Definition remove_employee (req : request) : M response :=
  match RemoveEmployeeParamSchema req with
  | None => ret (reply_error 400 "Invalid params")
  | Some (corporateId, userId) =>
      admin <- requireAdmin req ;;
      match admin with
      | inl r => ret r
      | inr _ =>
          c <- single corporate
                 (eq_ "id" (JStr corporateId)
                    (select (Some ["id"; "employees"]))) ;;
          match c with
          | Error e => ret (reply_error 500 (message e))
          | Data corp =>
              let existing := employees_of corp in
              let next :=
                List.filter (fun e => negb (String.eqb (uid_of e) userId))
                  existing in
              up <- update_single corporate
                      [("employees", JArr next)]
                      [FEq "id" (JStr corporateId)]
                      (Some ["id"; "employees"]) ;;
              match up with
              | Error e => ret (reply_error 500 (message e))
              | Data updated =>
                  ret (reply 200
                         (JObj
                            (("ok", JBool true)
                             :: literal_of
                                  [("corporate_id", assoc "id" updated);
                                   ("employees", assoc "employees" updated)])))
              end
          end
      end
  end.

End Routes.
End Corporates.

(* ===================================================================== *)
(** * src/modules/auth/auth.auto.ts                                      *)
(* ===================================================================== *)

Module AuthAuto.
Import Js Pg Http.

(** A signed session token: the claims it carries and the secret it was
    signed with.  Verifying with the same secret gives the claims back. *)
Record jwt : Type := { claims : list (string * json); signed_with : string }.

Definition seven_days : Z := 7 * 24 * 60 * 60.

(** [jwt.sign(payload, secret, { expiresIn: "7d" })]: issued-at is the
    clock in seconds; without a secret the call throws ([None]). *)
Definition sign (payload : list (string * value)) (secret : option string)
  : M (option jwt) :=
  match secret with
  | None => ret None
  | Some key =>
      if String.eqb key EmptyString then ret None
      else
        t <- new_Date ;;
        let iat := (t / 1000)%Z in
        ret (Some {| claims :=
                       literal_of payload
                       ++ [("iat", JNum iat); ("exp", JNum (iat + seven_days))];
                     signed_with := key |})
  end.

(** [jwt.verify(token, secret)] at instant [t] (milliseconds) *)
Definition verify (token : jwt) (secret : string) (t : Z)
  : option (list (string * json)) :=
  if String.eqb (signed_with token) secret
  then match assoc "exp" (claims token) with
       | Some (JNum exp) =>
           if (t / 1000 <? exp)%Z then Some (claims token) else None
       | _ => Some (claims token)
       end
  else None.

Section Handler.
Variable rt : runtime.
Variable JWT_SECRET : option string.

Definition failure (s : Z) (msg : string) : response :=
  reply s (JObj [("success", JBool false); ("message", JStr msg)]).

(** The success body; the token is kept beside it so that its claims
    can be read. *)
Record session : Type := {
  mode : string;
  token : jwt;
  user : row
}.

Definition authHandler (req : request) : M (response + session) :=
  let supabase_user := prop (req_body req) "supabase_user" in
  if negb (truthy supabase_user)
  then ret (inl (failure 400 "Supabase user is required."))
  else
    let id := prop supabase_user "id" in
    let email := prop supabase_user "email" in
    r <- maybeSingle users (eq_ "id" (nullish id JNull) (select None)) ;;
    match r with
    | Error _ => ret (inl (failure 500 "DB error"))
    | Data None =>
        (* register (user not found) *)
        t1 <- new_Date ;;
        t2 <- new_Date ;;
        t3 <- new_Date ;;
        i <- insert users
               (literal_of
                  [("id", id); ("email", email);
                   ("role", Some (JStr "user"));
                   ("created_at", Some (JStr (toISOString rt t1)));
                   ("last_login", Some (JStr (toISOString rt t2)));
                   ("last_opened", Some (JStr (toISOString rt t3)))]) ;;
        match i with
        | Error _ => ret (inl (failure 500 "Registration failed"))
        | Data newUser =>
            tk <- sign [("id", id); ("email", email);
                        ("role", assoc "role" newUser)] JWT_SECRET ;;
            match tk with
            | None => ret (inl (failure 500 "Unexpected server error"))
            | Some token =>
                ret (inr {| mode := "registered"; token := token;
                            user := newUser |})
            end
        end
    | Data (Some user) =>
        (* login (user exists) *)
        t1 <- new_Date ;;
        t2 <- new_Date ;;
        _ <- update users
               [("last_login", JStr (toISOString rt t1));
                ("last_opened", JStr (toISOString rt t2))]
               [FEq "id" (nullish id JNull)] ;;
        tk <- sign [("id", id); ("email", email);
                    ("role", assoc "role" user)] JWT_SECRET ;;
        match tk with
        | None => ret (inl (failure 500 "Unexpected server error"))
        | Some token =>
            ret (inr {| mode := "logged_in"; token := token; user := user |})
        end
    end.

End Handler.
End AuthAuto.

(* ===================================================================== *)
(** * POST /api/auth/create-user, single and bulk                        *)
(* ===================================================================== *)

Module CreateUser.
Import Js Pg Http.

(** [body && Array.isArray(body.users)] *)
Definition isBulk (body : value) : bool :=
  (truthy body && Array_isArray (prop body "users"))%bool.

(** What [createOneUser] returns: [{ ok: false, error, hint }] or
    [{ ok: true, user }]. *)
Inductive outcome : Type :=
| Failed (error : string) (hint : option string)
| Created (user : row).

Definition ok (o : outcome) : bool :=
  match o with Created _ => true | Failed _ _ => false end.

Section OneUser.
(** The two versions of the route differ in the columns of the profile
    row beyond the common ones. *)
Variable more_columns : json -> list (string * value).

(** [None] is the exception thrown on destructuring [null]. *)
Definition createOneUser (input : value) : M (option outcome) :=
  match input with
  | None | Some JNull => ret None
  | Some _ =>
      let email := prop input "email" in
      let password := prop input "password" in
      let full_name := prop input "full_name" in
      let phone := prop input "phone" in
      let role := prop input "role" in
      if (negb (truthy email) || negb (truthy password) || negb (truthy role))%bool
      then ret (Some (Failed "Email, password and role are required" None))
      else
        s <- signUp ;;
        match s with
        | SignUpError msg => ret (Some (Failed msg None))
        | SignedUp userId accessToken =>
            if negb (truthy (option_map JStr userId))
            then ret (Some (Failed "User not returned from signUp" None))
            else if negb (truthy (option_map JStr accessToken))
            then ret (Some (Failed
                   "No session returned from signUp. If email confirmation is OFF, this is unexpected."
                   None))
            else
              i <- insert users
                     (literal_of
                        ([("id", option_map JStr userId);
                          ("email", email);
                          ("full_name", Some (or_else full_name JNull));
                          ("phone", Some (or_else phone JNull));
                          ("role", role);
                          ("profile_image", Some JNull);
                          ("gender", Some JNull);
                          ("dob", Some JNull)]
                         ++ match input with
                            | Some j => more_columns j
                            | None => []
                            end)) ;;
              match i with
              | Error e =>
                  ret (Some (Failed (message e)
                     (Some "RLS might block insert. Add policy: WITH CHECK (auth.uid() = id).")))
              | Data user => ret (Some (Created user))
              end
        end
  end.

(** The loop of the bulk mode: [created] and [failed] grow in the order
    of the input; [None] is an exception leaving the loop. *)
Fixpoint bulk_loop (us : list json) (created failed : list json)
  : M (option (list json * list json)) :=
  match us with
  | [] => ret (Some (created, failed))
  | u :: rest =>
      result <- createOneUser (Some u) ;;
      match result with
      | None => ret None
      | Some (Created user) => bulk_loop rest (created ++ [JObj user]) failed
      | Some (Failed error hint) =>
          bulk_loop rest created
            (failed ++
             [JObj (literal_of
                      [("email", prop (Some u) "email");
                       ("error", Some (JStr error));
                       ("hint", option_map JStr hint)])])
      end
  end.

Definition server_error : response := reply_error 500 "Server error".

(** POST /api/auth/create-user *)
Definition create_user (req : request) : M response :=
  if isBulk (req_body req) then
    let users :=
      match prop (req_body req) "users" with
      | Some (JArr us) => us
      | _ => []
      end in
    if Nat.eqb (List.length users) 0
    then ret (reply_error 400 "users[] is required")
    else if Nat.ltb 200 (List.length users)
    then ret (reply_error 400 "Too many users in one request (max 200)")
    else
      r <- bulk_loop users [] [] ;;
      match r with
      | None => ret server_error
      | Some (created, failed) =>
          ret (reply 200
                 (JObj [("created_count", JNum (Z.of_nat (List.length created)));
                        ("failed_count", JNum (Z.of_nat (List.length failed)));
                        ("created", JArr created);
                        ("failed", JArr failed)]))
      end
  else
    result <- createOneUser (req_body req) ;;
    match result with
    | None => ret server_error
    | Some (Failed error hint) =>
        ret (reply 400
               (JObj (literal_of [("ok", Some (JBool false));
                                  ("error", Some (JStr error));
                                  ("hint", option_map JStr hint)])))
    | Some (Created user) => ret (reply 201 (JObj [("user", JObj user)]))
    end.

End OneUser.

(** The route as first written: the common columns only. *)
Definition plain (_ : json) : list (string * value) := [].

(** The later version also records membership and corporate details. *)
Definition membership (input : json) : list (string * value) :=
  [ ("membership", Some (nullish (prop (Some input) "membership") JNull));
    ("membership_tier",
     Some (nullish (prop (Some input) "membership_tier") (JStr "none")));
    ("membership_started",
     Some (nullish (prop (Some input) "membership_started") JNull));
    ("membership_expiry",
     Some (nullish (prop (Some input) "membership_expiry") JNull));
    ("corporate_code",
     Some (nullish (prop (Some input) "corporate_code") JNull));
    ("corporate_code_status",
     Some (nullish (prop (Some input) "corporate_code_status") (JStr "pending"))) ].

End CreateUser.

(* ===================================================================== *)
(** * src/modules/routes/restaurants.ts: creating a restaurant           *)
(* ===================================================================== *)

Module RestaurantsCreate.
Import Js Pg Http Zod.

Section Schemas.
Variable rt : runtime.

Definition CreateRestaurantSchema : schema (list (string * json)) :=
  object
    [ ("name", Restaurants.text1 rt);
      ("phone", nullish_ (Restaurants.text rt));
      ("city", nullish_ (Restaurants.text rt));
      ("area", nullish_ (Restaurants.text rt));
      ("full_address", nullish_ (Restaurants.text rt));
      ("cuisines", default_ (JArr []) (Restaurants.strings rt));
      ("cost_for_two", nullish_ Restaurants.num);
      ("distance", nullish_ Restaurants.num);
      ("offer", nullish_ (Restaurants.text rt));
      ("facilities", default_ (JArr []) (Restaurants.strings rt));
      ("highlights", default_ (JArr []) (Restaurants.strings rt));
      ("worth_visit", default_ (JArr []) (Restaurants.strings rt));
      ("opening_hours", default_ (JObj []) (Restaurants.OpeningHoursSchema rt));
      ("reviews", default_ (JArr []) any);
      ("menu", default_ (JArr []) any);
      ("food_images", default_ (JArr []) (Restaurants.strings rt));
      ("ambience_images", default_ (JArr []) (Restaurants.strings rt));
      ("cover_image", nullish_ (as_string (string_ rt [])));
      ("is_active", default_ (JBool true) (as_boolean boolean));
      ("slug", Restaurants.text1 rt);
      ("latitude", nullish_ Restaurants.num);
      ("longitude", nullish_ Restaurants.num);
      ("booking_enabled", default_ (JBool true) (as_boolean boolean));
      ("avg_duration_minutes", default_ (JNum 90) Restaurants.num);
      ("max_bookings_per_slot", nullish_ Restaurants.num);
      ("advance_booking_days", default_ (JNum 30) Restaurants.num);
      ("owner_user_id", nullish_ (as_string (string_ rt [Uuid]))) ].

(** The row the route inserts for a parsed body: [body.k ?? d] column
    by column. *)
Definition new_row (body : list (string * json)) : row :=
  let or_ (k : string) (d : json) := (k, Some (nullish (assoc k body) d)) in
  literal_of
    [ ("name", assoc "name" body);
      or_ "phone" JNull; or_ "city" JNull; or_ "area" JNull;
      or_ "full_address" JNull;
      or_ "cuisines" (JArr []); or_ "cost_for_two" JNull;
      or_ "distance" JNull; or_ "offer" JNull;
      or_ "facilities" (JArr []); or_ "highlights" (JArr []);
      or_ "worth_visit" (JArr []);
      or_ "opening_hours" (JObj []); or_ "reviews" (JArr []);
      or_ "menu" (JArr []);
      or_ "food_images" (JArr []); or_ "ambience_images" (JArr []);
      or_ "cover_image" JNull;
      or_ "is_active" (JBool true);
      ("slug", assoc "slug" body);
      or_ "latitude" JNull; or_ "longitude" JNull;
      or_ "booking_enabled" (JBool true);
      or_ "avg_duration_minutes" (JNum 90);
      or_ "max_bookings_per_slot" JNull;
      or_ "advance_booking_days" (JNum 30);
      or_ "owner_user_id" JNull ].

(** Admin-only: POST /api/restaurants *)
Definition post (req : request) : M response :=
  match CreateRestaurantSchema (req_body req) with
  | None => ret (reply_error 400 "Invalid body")
  | Some body =>
      admin <- Restaurants.requireAdmin req ;;
      match admin with
      | inl r => ret r
      | inr _ =>
          r <- insert restaurants (new_row body) ;;
          match r with
          | Error e => ret (Restaurants.write_error e)
          | Data data => ret (reply 201 (JObj [("restaurant", JObj data)]))
          end
      end
  end.

End Schemas.
End RestaurantsCreate.

(* ===================================================================== *)
(** * src/modules/routes/spotLight.ts: updating an item                  *)
(* ===================================================================== *)

Module SpotLightUpdate.
Import Js Pg Http.

Section Routes.
Variable rt : runtime.

(** PUT /api/spotlight/:id.  A request without body makes the handler
    throw on its first property read. *)
Definition put_by_id (req : request) : M response :=
  match req_body req with
  | None =>
      ret (reply_error 500 "Cannot read properties of undefined (reading 'title')")
  | Some JNull =>
      ret (reply_error 500 "Cannot read properties of null (reading 'title')")
  | Some _ =>
      let b := req_body req in
      let id := nullish (param req "id") JNull in
      t <- new_Date ;;
      let updateData :=
        literal_of
          [("title", prop b "title"); ("subtitle", prop b "subtitle");
           ("media_type", prop b "media_type");
           ("module_type", prop b "module_type");
           ("updated_at", Some (JStr (toISOString rt t)))] in
      let is_video := Restaurants.is_string (prop b "media_type") "video" in
      up <- match req_file req with
            | Some file =>
                u <- SpotLight.uploadToSupabase file
                       (if is_video then "videos" else "images") ;;
                match u with
                | inl e => ret (inl e)
                | inr url =>
                    let withUrl := assign "media_url" (JStr url) updateData in
                    ret (inr (if is_video
                              then assign "thumbnail_url"
                                     (JStr "https://placehold.co/300x400?text=Preview")
                                     withUrl
                              else withUrl))
                end
            | None => ret (inr updateData)
            end ;;
      match up with
      | inl e => ret (reply_error 500 (message e))
      | inr data =>
          r <- update_single spotlight_items data [FEq "id" id] None ;;
          match r with
          | Error e => ret (reply_error 500 (message e))
          | Data d => ret (reply 200 (JObj d))
          end
      end
  end.

End Routes.
End SpotLightUpdate.

(* ===================================================================== *)
(** * src/controllers/userDetailsController.ts                           *)
(* ===================================================================== *)

Module UserDetails.
Import Js Pg Http.

Section Controller.
Variable rt : runtime.

Definition failure (s : Z) (msg : string) : response :=
  reply s (JObj [("success", JBool false); ("message", JStr msg)]).

Definition saved (user : row) : response :=
  reply 200 (JObj [("success", JBool true);
                   ("message", JStr "User details saved successfully");
                   ("user", JObj user)]).

Definition internal_error : response := failure 500 "Internal server error".

(** POST /api/user/details.  Destructuring a body that is [undefined] or
    [null] throws inside the [try]. *)
Definition saveUserDetails (req : request) : M response :=
  match req_body req with
  | None | Some JNull => ret internal_error
  | Some _ =>
      let id := prop (req_body req) "id" in
      let full_name := prop (req_body req) "full_name" in
      let phone := prop (req_body req) "phone" in
      if (negb (truthy id) || negb (truthy full_name) || negb (truthy phone))%bool
      then ret (failure 400 "Missing required fields")
      else
        (* check if user exists *)
        e <- single users (eq_ "id" (nullish id JNull) (select None)) ;;
        match e with
        | Error selectErr =>
            if negb (String.eqb (code selectErr) "PGRST116")
            then ret (failure 500 "DB error")
            else
              (* create new user *)
              i <- insert users
                     (literal_of [("id", id); ("full_name", full_name);
                                  ("phone", phone)]) ;;
              match i with
              | Error _ => ret internal_error
              | Data data => ret (saved data)
              end
        | Data _ =>
            (* update user *)
            t <- new_Date ;;
            u <- update_single users
                   (literal_of [("full_name", full_name); ("phone", phone);
                                ("updated_at", Some (JStr (toISOString rt t)))])
                   [FEq "id" (nullish id JNull)] None ;;
            match u with
            | Error _ => ret internal_error
            | Data data => ret (saved data)
            end
        end
  end.

End Controller.
End UserDetails.

(* ===================================================================== *)
(** * POST /api/auth/create-user as first written (single user only)     *)
(* ===================================================================== *)

Module CreateUserFirst.
Import Js Pg Http.

Definition no_session_message : string :=
  "Auth user created but no session returned. Email confirmation is likely enabled. After the user confirms email and logs in, create the users profile row OR use a DB trigger.".

(** [None] is the exception of destructuring a body that is [undefined]
    or [null], thrown before the [try]. *)
Definition create_user (req : request) : M (option response) :=
  match req_body req with
  | None | Some JNull => ret None
  | Some _ =>
      let email := prop (req_body req) "email" in
      let password := prop (req_body req) "password" in
      let full_name := prop (req_body req) "full_name" in
      let phone := prop (req_body req) "phone" in
      let role := prop (req_body req) "role" in
      if (negb (truthy email) || negb (truthy password) || negb (truthy role))%bool
      then ret (Some (reply_error 400 "Email, password and role are required"))
      else
        s <- signUp ;;
        match s with
        | SignUpError msg => ret (Some (reply_error 400 msg))
        | SignedUp userId accessToken =>
            if negb (truthy (option_map JStr userId))
            then ret (Some (reply_error 500 "User not returned from signUp"))
            else if negb (truthy (option_map JStr accessToken))
            then ret (Some (reply 202
                   (JObj [("message", JStr no_session_message);
                          ("user",
                           JObj (literal_of
                                   [("id", option_map JStr userId);
                                    ("email", email)]))])))
            else
              i <- insert users
                     (literal_of
                        [("id", option_map JStr userId);
                         ("email", email);
                         ("full_name", Some (or_else full_name JNull));
                         ("phone", Some (or_else phone JNull));
                         ("role", role);
                         ("profile_image", Some JNull);
                         ("gender", Some JNull);
                         ("dob", Some JNull)]) ;;
              match i with
              | Error e =>
                  ret (Some (reply 400
                     (JObj [("error", JStr (message e));
                            ("hint", JStr "RLS likely blocks insert. Add policy: WITH CHECK (auth.uid() = id).")])))
              | Data user => ret (Some (reply 201 (JObj [("user", JObj user)])))
              end
        end
  end.

End CreateUserFirst.
(* ===================================================================== *)
(** * Vocabulary of the statements                                       *)
(* ===================================================================== *)

Module Facts.
Import Js Pg Http.

(** The backend does not fail during the request. *)
Definition clean (w : world) : Prop := w_faults w = [].

(** Whether the [k]-th call from now on fails. *)
Definition fault (k : nat) (w : world) : bool := nth k (w_faults w) false.

(** The world after further calls to the platform. *)
Definition advance (l : list access) (w : world) : world :=
  {| w_db := w_db w; w_sessions := w_sessions w;
     w_faults := skipn (List.length l) (w_faults w);
     w_signups := w_signups w; w_clock := w_clock w; w_ticks := w_ticks w;
     w_log := w_log w ++ l |}.

(** The rows of a table with a given id, and [id] being a key of it. *)
Definition by_id (t : table) (id : string) (w : world) : list row :=
  matching [FEq "id" (JStr id)] (w_db w t).

Fixpoint distinct_ids (rs : list row) : bool :=
  match rs with
  | [] => true
  | r :: rs' =>
      (match assoc "id" r with
       | Some v => negb (existsb (same_id v) rs')
       | None => true
       end && distinct_ids rs')%bool
  end.

Definition keyed (t : table) (w : world) : Prop :=
  distinct_ids (w_db w t) = true.

(** The identity the auth service resolves the request's credential to. *)
Definition identity (req : request) (w : world) : option string :=
  match Restaurants.getBearerToken req with
  | Some tok => assoc tok (w_sessions w)
  | None => None
  end.

(** The role the user registry holds for an identity. *)
Definition role_of (uid : string) (w : world) : value :=
  match by_id users uid w with
  | [r] => assoc "role" r
  | _ => None
  end.

(** The role column the registry returns for an identity. *)
Definition registry_role (uid : string) (w : world) : result value :=
  match by_id users uid w with
  | [] => Data None
  | [r] => Data (assoc "role" r)
  | _ :: _ :: _ => Error not_single
  end.

(** The caller is an admin or a superadmin. *)
Definition is_admin (req : request) (w : world) : Prop :=
  exists uid, identity req w = Some uid /\
              Restaurants.isAdminRole (role_of uid w) = true.

(** The world after [n] readings of the clock. *)
Definition ticked (n : nat) (w : world) : world :=
  {| w_db := w_db w; w_sessions := w_sessions w; w_faults := w_faults w;
     w_signups := w_signups w; w_clock := w_clock w;
     w_ticks := n + w_ticks w; w_log := w_log w |}.

(** The row of a table after one column is written. *)
Definition written (k : string) (v : json) (r : row) : row := assign k v r.

(** The role a guard works with, [row?.role || null], when the registry
    can be read. *)
Definition resolved_role (uid : string) (w : world) : result json :=
  match by_id users uid w with
  | [] => Data JNull
  | [r] => Data (or_else (assoc "role" r) JNull)
  | _ :: _ :: _ => Error not_single
  end.

(** The roles, by the names the registry holds them under. *)
Definition admin_role (v : value) : Prop :=
  v = Some (JStr "admin") \/ v = Some (JStr "superadmin").

Definition partner_role (v : value) : Prop :=
  v = Some (JStr "restaurantpartner") \/ v = Some (JStr "storepartner").

(** How far a guarded request got: the calls it made to the platform,
    in order, and how it ended. *)
Definition stopped (res : response + Restaurants.ctx) (l : list access) : Prop :=
  match l with
  | [] =>
      (* no credential: nothing is asked *)
      exists r, res = inl r /\ status r = 401%Z
  | [GetUser] =>
      (* the credential is not honoured: the role is not looked up *)
      exists r, res = inl r /\ status r = 401%Z
  | [GetUser; Select users] =>
      (* the role decides, or its lookup failed: no restaurant is read *)
      (exists r, res = inl r /\ (status r = 500%Z \/ status r = 403%Z)) \/
      (exists c, res = inr c /\ admin_role (Some (Restaurants.role c)))
  | [GetUser; Select users; Select restaurants] =>
      (* a partner: the restaurant is read and its owner compared *)
      (exists r, res = inl r /\
                 (status r = 500%Z \/ status r = 404%Z \/ status r = 403%Z)) \/
      (exists c, res = inr c /\ partner_role (Some (Restaurants.role c)))
  | _ => False
  end.

(** Who may write a restaurant: an admin or superadmin, or a partner
    who owns it. *)
Definition may_write (req : request) (id : string) (w : world) : Prop :=
  exists uid,
    identity req w = Some uid /\
    (Restaurants.isAdminRole (role_of uid w) = true \/
     (Restaurants.isPartnerRole (role_of uid w) = true /\
      exists r, by_id restaurants id w = [r] /\
                assoc "owner_user_id" r = Some (JStr uid))).

(** Soft deletion of one row: [is_active] becomes false. *)
Definition deactivate (r : row) : row := written "is_active" (JBool false) r.

(** The state a deletion leaves a table in. *)
Definition hard_deleted (t : table) (id : string) (w w' : world) : Prop :=
  w_db w' t =
    List.filter (fun r => negb (satisfies [FEq "id" (JStr id)] r)) (w_db w t)
  /\ by_id t id w' = [].

Definition soft_deleted (t : table) (id : string) (r : row) (w w' : world) : Prop :=
  w_db w' t =
    map (fun x => if satisfies [FEq "id" (JStr id)] x then deactivate x else x)
      (w_db w t)
  /\ by_id t id w' = [deactivate r]
  /\ assoc "is_active" (deactivate r) = Some (JBool false)
  /\ forall k, k <> "is_active" -> assoc k (deactivate r) = assoc k r.

Definition deleted_reply (how id : string) : response :=
  {| status := 200;
     body := Json (JObj [("ok", JBool true); ("deleted", JStr how);
                         ("id", JStr id)]) |}.

Definition asks_hard (req : request) : Prop :=
  prop (req_query req) "hard" = Some (JStr "true").

Definition asks_soft (req : request) : Prop :=
  exists o,
    req_query req = Some (JObj o) /\
    (assoc "hard" o = None \/
     exists s, assoc "hard" o = Some (JStr s) /\ s <> "true").

(** The bounds of a page: [0 < limit <= 100] and [offset >= 0]. *)
Definition limit_in_bounds (n : number) : Prop :=
  exists q, n = Finite q /\ 0 < q /\ q <= 100.

Definition offset_in_bounds (n : number) : Prop :=
  exists q, n = Finite q /\ 0 <= q.

(** A query parameter as the schema reads it: left out, or a string that
    converts to a number. *)
Definition param_number (rt : runtime) (d : Z) (v : value) (n : number) : Prop :=
  (v = None /\ n = of_Z d) \/
  (v = Some (JStr EmptyString) /\ n = of_Z d) \/
  (exists s, v = Some (JStr s) /\ s <> EmptyString /\ n = Number rt s).

(** A limit or offset the list endpoints must refuse: not a string, or a
    string whose number is outside the bounds. *)
Definition refused (rt : runtime) (d : Z) (ok : number -> Prop) (v : value)
  : Prop :=
  (exists j, v = Some j /\ forall s, j <> JStr s) \/
  (exists n, param_number rt d v n /\ ~ ok n).

(** The window [[offset, offset + limit)] of an ordered result. *)
Definition page_of (limit offset : Z) (l : list row) : list row :=
  firstn (Z.to_nat limit) (skipn (Z.to_nat offset) l).

(** One query extends another when it only adds filters to it. *)
Definition extends (q q' : query) : Prop :=
  q_cols q' = q_cols q /\ q_order q' = q_order q /\
  q_range q' = q_range q /\ q_limit q' = q_limit q /\
  exists fs, q_filters q' = q_filters q ++ fs.

(** A list request that asks for active rows only: neither
    includeInactive=true nor a status. *)
Definition active_only (req : request) : Prop :=
  prop (req_query req) "includeInactive" <> Some (JStr "true") /\
  prop (req_query req) "status" = None.

(** The rows a list request matches, in the order the store puts them. *)
Definition restaurants_hits (p : Restaurants.list_query) (w : world) : list row :=
  matching (q_filters (Restaurants.list_filters p (select None)))
    (w_db w restaurants).

Definition restaurants_ordered (p : Restaurants.list_query) (w : world)
  : list row :=
  order_by [(Restaurants.lq_sort p, String.eqb (Restaurants.lq_order p) "asc")]
    (restaurants_hits p w).

Definition stores_hits (p : Stores.list_query) (w : world) : list row :=
  matching (q_filters (Stores.list_filters p (select None))) (w_db w stores).

Definition stores_ordered (p : Stores.list_query) (w : world) : list row :=
  order_by
    ((Stores.lq_sort p, String.eqb (Stores.lq_order p) "asc")
     :: (if negb (String.eqb (Stores.lq_sort p) "created_at")
         then [("created_at", false)] else []))
    (stores_hits p w).

(** The page a list endpoint answers with, or its error. *)
Definition listing (limit offset : number) (ordered : list row) (total : nat)
  : response :=
  match window offset (sub (add offset limit) (of_Z 1)) ordered with
  | None => reply_error 500 (message bad_range)
  | Some page =>
      {| status := 200; body := Listing page limit offset total |}
  end.

Definition is_active (r : row) : Prop := assoc "is_active" r = Some (JBool true).

(** The employees a corporate row holds, after one is removed. *)
Definition without (userId : string) (es : list json) : list json :=
  List.filter (fun e => negb (String.eqb (Corporates.uid_of e) userId)) es.

(** The state a write of the employees column leaves the table in. *)
Definition employees_written (cid : string) (corp : row) (es : list json)
    (w w' : world) : Prop :=
  w_db w' corporate =
    map (fun x => if satisfies [FEq "id" (JStr cid)] x
                  then written "employees" (JArr es) x else x)
      (w_db w corporate)
  /\ by_id corporate cid w' = [written "employees" (JArr es) corp]
  /\ Corporates.employees_of (written "employees" (JArr es) corp) = es
  /\ (forall k, k <> "employees" ->
                assoc k (written "employees" (JArr es) corp) = assoc k corp)
  /\ (forall t, t <> corporate -> w_db w' t = w_db w t)
  /\ w_sessions w' = w_sessions w.

(** ** The employee merge *)

(** The merge loop over incoming employees, reading the clock at
    [tick], [tick + 1], ... *)
Fixpoint merge_at (rt : runtime) (clock : nat -> Z) (tick : nat)
    (incoming : list (list (string * json)))
    (m : JsMap.t (K := string) (V := json)) : JsMap.t (K := string) (V := json) :=
  match incoming with
  | [] => m
  | emp :: rest =>
      merge_at rt clock (S tick) rest
        (JsMap.set String.eqb (Corporates.str emp "user_id")
           (Corporates.entry emp (toISOString rt (clock tick))) m)
  end.

(** A map of employees is tidy when every entry sits under its own
    user_id and no key repeats. *)
Definition tidy (m : JsMap.t (K := string) (V := json)) : Prop :=
  NoDup (JsMap.keys m) /\
  forall k v, In (k, v) m -> Corporates.uid_of v = k.

(** The list a merge writes: existing entries first, then the batch. *)
Definition merged (rt : runtime) (clock : nat -> Z) (tick : nat)
    (existing : list json) (incoming : list (list (string * json)))
  : list json :=
  JsMap.values
    (merge_at rt clock tick incoming (Corporates.load_existing existing)).

(** Last write wins: the entry the batch leaves for a user_id is the one
    of the last incoming record with that user_id, [acc] when there is
    none. *)
Fixpoint latest (rt : runtime) (clock : nat -> Z) (tick : nat) (k : string)
    (incoming : list (list (string * json))) (acc : option json) : option json :=
  match incoming with
  | [] => acc
  | emp :: rest =>
      latest rt clock (S tick) k rest
        (if String.eqb (Corporates.str emp "user_id") k
         then Some (Corporates.entry emp (toISOString rt (clock tick)))
         else acc)
  end.

(** The seat count of a corporate row, [Number(corp.seats || 0)]. *)
Definition seats_of (rt : runtime) (corp : row) : number :=
  ToNumber rt (Some (or_else (assoc "seats" corp) (JNum 0))).

(** The email the registry's rows give for a user id (that of the last
    such row, should there be several). *)
Fixpoint registry_email (uid : string) (rows : list row) : option value :=
  match rows with
  | [] => None
  | u :: rest =>
      match registry_email uid rest with
      | Some e => Some e
      | None =>
          if Corporates.same_key (Some (JStr uid)) (assoc "id" u)
          then Some (assoc "email" u) else None
      end
  end.

(** An incoming record carries its own created_at. *)
Definition stamped (emp : list (string * json)) : Prop :=
  exists s, assoc "created_at" emp = Some (JStr s).

(** The user_ids of a batch are not empty (they are UUIDs). *)
Definition named (incoming : list (list (string * json))) : Prop :=
  forall emp, In emp incoming -> Corporates.str emp "user_id" <> EmptyString.

(** An entry of the employees column whose user_id is [u]. *)
Definition user_id_is (u : string) (e : json) : bool :=
  match prop (Some e) "user_id" with
  | Some (JStr s) => String.eqb s u
  | _ => false
  end.

(** The employees a corporate row holds: the list in its employees
    column, and none when the column is not a list. *)
Definition holds_employees (corp : row) (es : list json) : Prop :=
  assoc "employees" corp = Some (JArr es) \/
  ((forall xs, assoc "employees" corp <> Some (JArr xs)) /\ es = []).

(** Employees with user_ids that are text, not empty, and all
    different. *)
Definition well_kept (es : list json) : Prop :=
  exists us,
    Forall2 (fun e u => prop (Some e) "user_id" = Some (JStr u)) es us /\
    NoDup us /\ ~ In EmptyString us.

(** An employee as a request gives it: a user_id, a name, an email and a
    phone, and maybe a department, a designation and a created_at. *)
Record employee : Type := {
  e_user_id : string;
  e_name : string;
  e_email : string;
  e_phone : string;
  e_department : option string;
  e_designation : option string;
  e_created_at : option string
}.

(** A field that holds this text or, for [None], is null or left out. *)
Definition optional_text (v : value) (o : option string) : Prop :=
  match o with
  | Some s => v = Some (JStr s)
  | None => v = None \/ v = Some JNull
  end.

(** The incoming record of an employee. *)
Definition record_of (p : employee) (emp : list (string * json)) : Prop :=
  assoc "user_id" emp = Some (JStr (e_user_id p)) /\
  assoc "name" emp = Some (JStr (e_name p)) /\
  assoc "email" emp = Some (JStr (e_email p)) /\
  assoc "phone" emp = Some (JStr (e_phone p)) /\
  optional_text (assoc "department" emp) (e_department p) /\
  optional_text (assoc "designation" emp) (e_designation p) /\
  optional_text (assoc "created_at" emp) (e_created_at p).

Definition text_or_null (o : option string) : json :=
  match o with Some s => JStr s | None => JNull end.

(** The entry the employees column is to hold for an employee: the
    seven fields, null for a department or designation that is not
    given, and the instant [now] for a created_at that is not given. *)
Definition entry_of (p : employee) (now : string) : json :=
  JObj
    [ ("user_id", JStr (e_user_id p));
      ("name", JStr (e_name p));
      ("email", JStr (e_email p));
      ("phone", JStr (e_phone p));
      ("department", text_or_null (e_department p));
      ("designation", text_or_null (e_designation p));
      ("created_at",
       JStr (match e_created_at p with Some s => s | None => now end)) ].

(** The users a merge reads from the registry for a batch. *)
Definition batch_users (incoming : list (list (string * json))) (w : world)
  : list row :=
  map (project (Some ["id"; "email"]))
    (matching
       [FIn "id" (map (fun e => JStr (Corporates.str e "user_id")) incoming)]
       (w_db w users)).

(** The registry vouches for an incoming employee: its user_id is that
    of a user whose email is, letter case apart, the one supplied. *)
Definition vouched (emp : list (string * json)) (w : world) : Prop :=
  exists u,
    by_id users (Corporates.str emp "user_id") w = [u] /\
    toLowerCase (ToString (or_else (assoc "email" u) (JStr EmptyString)))
    = toLowerCase (Corporates.str emp "email").

(** ** Sessions *)


(** A registry row after a login at the given instants. *)
Definition logged_in_at (rt : runtime) (t1 t2 : Z) (u : row) : row :=
  written "last_opened" (JStr (toISOString rt t2))
    (written "last_login" (JStr (toISOString rt t1)) u).

(** The identity and email a login-or-register request supplies. *)
Definition supplied (req : request) (k : string) : value :=
  prop (prop (req_body req) "supabase_user") k.

(** ** Bulk creation *)

(** The registrations of a batch, attempted one after the other in the
    order of the input, each on the world the previous one left; the
    list pairs every entry with its outcome.  An entry that is [null]
    ends the attempts (the handler's exception). *)
Fixpoint attempts (more : json -> list (string * value)) (us : list json)
    (w : world) : list (json * CreateUser.outcome) * world :=
  match us with
  | [] => ([], w)
  | u :: rest =>
      match CreateUser.createOneUser more (Some u) w with
      | (Some o, w1) =>
          let (l, w2) := attempts more rest w1 in ((u, o) :: l, w2)
      | (None, w1) => ([], w1)
      end
  end.

(** The two collections of the report. *)
Fixpoint created_of (l : list (json * CreateUser.outcome)) : list json :=
  match l with
  | [] => []
  | (_, CreateUser.Created user) :: l' => JObj user :: created_of l'
  | (_, CreateUser.Failed _ _) :: l' => created_of l'
  end.

Fixpoint failed_of (l : list (json * CreateUser.outcome)) : list json :=
  match l with
  | [] => []
  | (_, CreateUser.Created _) :: l' => failed_of l'
  | (u, CreateUser.Failed error hint) :: l' =>
      JObj (literal_of [("email", prop (Some u) "email");
                        ("error", Some (JStr error));
                        ("hint", option_map JStr hint)])
      :: failed_of l'
  end.

(** The aggregate report of the bulk mode. *)
Definition report (created failed : list json) : payload :=
  Json (JObj [("created_count", JNum (Z.of_nat (List.length created)));
              ("failed_count", JNum (Z.of_nat (List.length failed)));
              ("created", JArr created);
              ("failed", JArr failed)]).

(** A bulk request: the body is an object whose [users] is this array. *)
Definition bulk_of (req : request) (us : list json) : Prop :=
  exists o, req_body req = Some (JObj o) /\ assoc "users" o = Some (JArr us).

(** The claim on batches within the cap, as the specification words it:
    the answer is an aggregate report over all the entries. *)
Definition reported (more : json -> list (string * value)) (req : request)
    (us : list json) (w : world) : Prop :=
  exists l,
    List.length l = List.length us /\
    CreateUser.create_user more req w
    = ({| status := 200; body := report (created_of l) (failed_of l) |},
       snd (attempts more us w)).

(** ** Spotlight *)

(** The largest order_index of a table whose rows carry whole ones. *)
Fixpoint max_order_index (rs : list row) : option Z :=
  match rs with
  | [] => None
  | r :: rs' =>
      match assoc "order_index" r, max_order_index rs' with
      | Some (JNum z), Some m => Some (Z.max z m)
      | Some (JNum z), None => Some z
      | _, m => m
      end
  end.

Definition indexed (rs : list row) : Prop :=
  forall r, In r rs -> exists z, assoc "order_index" r = Some (JNum z).

(** What the create route assigns, given the largest order_index. *)
Definition assigned (top : option Z) : Z :=
  match top with
  | None => 1
  | Some m => if (m + 1 =? 0)%Z then 1 else m + 1
  end.

End Facts.


(* ===================================================================== *)
(** * A small world to run the handlers on                               *)
(* ===================================================================== *)

Module Fixtures.
Import Js Pg Http.

Definition digit (c : ascii) : option Z :=
  let n := nat_of_ascii c in
  if (Nat.leb 48 n && Nat.leb n 57)%bool then Some (Z.of_nat (n - 48)) else None.

Fixpoint digits (acc : Z) (l : list ascii) : option Z :=
  match l with
  | [] => Some acc
  | c :: l' =>
      match digit c with
      | Some d => digits (10 * acc + d) l'
      | None => None
      end
  end.

(** [Number] on strings of decimal digits (white space around them
    allowed, the empty string being 0); NaN on anything else. *)
Definition Number_digits (s : string) : number :=
  match list_ascii_of_string (trim s) with
  | [] => of_Z 0
  | l => match digits 0 l with Some z => of_Z z | None => NaN end
  end.

Definition hex (c : ascii) : bool :=
  let n := nat_of_ascii c in
  ((Nat.leb 48 n && Nat.leb n 57) || (Nat.leb 97 n && Nat.leb n 102)
   || (Nat.leb 65 n && Nat.leb n 70))%bool.

(** Thirty-six characters, hyphens at the four usual places, hexadecimal
    digits elsewhere. *)
Definition uuid_shape (s : string) : bool :=
  let l := list_ascii_of_string s in
  (Nat.eqb (List.length l) 36 &&
   forallb (fun ic =>
              if existsb (Nat.eqb (fst ic)) [8; 13; 18; 23]%nat
              then Ascii.eqb (snd ic) "-"%char else hex (snd ic))
     (combine (seq 0 36) l))%bool.

Definition rt : runtime :=
  {| Number := Number_digits;
     uuid := uuid_shape;
     email := fun s => existsb (Ascii.eqb "@"%char) (list_ascii_of_string s);
     toISOString := fun t => ("T" ++ Z_to_string t)%string |}.

Definition admin_id := "11111111-1111-1111-1111-111111111111".
Definition partner_id := "22222222-2222-2222-2222-222222222222".
Definition other_partner_id := "33333333-3333-3333-3333-333333333333".
Definition member_id := "44444444-4444-4444-4444-444444444444".
Definition newcomer_id := "55555555-5555-5555-5555-555555555555".
Definition restaurant_id := "aaaaaaaa-aaaa-aaaa-aaaa-aaaaaaaaaaaa".
Definition closed_restaurant_id := "bbbbbbbb-bbbb-bbbb-bbbb-bbbbbbbbbbbb".
Definition store_id := "cccccccc-cccc-cccc-cccc-cccccccccccc".
Definition corporate_id := "dddddddd-dddd-dddd-dddd-dddddddddddd".

Definition restaurant : row :=
  [("id", JStr restaurant_id); ("name", JStr "Anise"); ("city", JStr "Pune");
   ("is_active", JBool true); ("owner_user_id", JStr partner_id)].

Definition closed_restaurant : row :=
  [("id", JStr closed_restaurant_id); ("name", JStr "Basil");
   ("city", JStr "Pune"); ("is_active", JBool false);
   ("owner_user_id", JNull)].

Definition store : row :=
  [("id", JStr store_id); ("name", JStr "Corner"); ("is_active", JBool true);
   ("tags", JArr [JStr "vegan"])].

Definition member_entry : json :=
  JObj [("user_id", JStr member_id); ("name", JStr "Mira");
        ("email", JStr "mira@x.io"); ("phone", JStr "1");
        ("department", JNull); ("designation", JNull);
        ("created_at", JStr "T0")].

Definition company : row :=
  [("id", JStr corporate_id); ("seats", JNum 1);
   ("employees", JArr [member_entry])].

Definition db : database :=
  fun t =>
    match t with
    | users =>
        [[("id", JStr admin_id); ("email", JStr "Root@x.io");
          ("role", JStr "admin")];
         [("id", JStr partner_id); ("email", JStr "p@x.io");
          ("role", JStr "restaurantpartner")];
         [("id", JStr other_partner_id); ("email", JStr "q@x.io");
          ("role", JStr "storepartner")];
         [("id", JStr member_id); ("email", JStr "Mira@x.io");
          ("role", JStr "user")]]
    | restaurants => [restaurant; closed_restaurant]
    | stores => [store]
    | spotlight_items =>
        [[("id", JNum 1); ("title", JStr "first"); ("is_active", JBool true);
          ("order_index", JNum (-1))]]
    | corporate => [company]
    | _ => []
    end.

Definition world0 : world :=
  {| w_db := db;
     w_sessions := [("A", admin_id); ("P", partner_id); ("Q", other_partner_id)];
     w_faults := [];
     w_signups := [SignedUp (Some newcomer_id) (Some "N");
                   SignUpError "User already registered"];
     w_clock := fun n => Zpos (Pos.of_succ_nat n * 1000 + 1699999999000);
     w_ticks := 0;
     w_log := [] |}.

Definition request_of (token : option string) (ps : list (string * string))
    (q : list (string * json)) (b : value) : request :=
  {| req_authorization := option_map (fun t => ("Bearer " ++ t)%string) token;
     req_params := ps; req_query := Some (JObj q); req_body := b;
     req_file := None |}.

(** DELETE /api/restaurants/:id by the owning partner *)
Definition owner_deletes (q : list (string * json)) : request :=
  request_of (Some "P") [("id", restaurant_id)] q None.

(** The same by another partner *)
Definition stranger_deletes : request :=
  request_of (Some "Q") [("id", restaurant_id)] [] None.

Definition list_request (q : list (string * json)) : request :=
  request_of None [] q None.

Definition newcomer_entry (mail : string) : json :=
  JObj [("user_id", JStr partner_id); ("name", JStr "Pia");
        ("email", JStr mail); ("phone", JStr "2")].

(** POST /api/corporates/:id/employees by the admin *)
Definition adds (es : list json) : request :=
  request_of (Some "A") [("id", corporate_id)] []
    (Some (JObj [("employees", JArr es)])).

(** DELETE /api/corporates/:id/employees/:userId by the admin *)
Definition removes (userId : string) : request :=
  request_of (Some "A") [("id", corporate_id); ("userId", userId)] [] None.

(** POST /api/auth/login-or-register *)
Definition logs_in (id mail : string) : request :=
  request_of None [] []
    (Some (JObj [("supabase_user",
                  JObj [("id", JStr id); ("email", JStr mail)])])).

(** POST /api/auth/create-user in bulk mode *)
Definition creates (us : list json) : request :=
  request_of None [] [] (Some (JObj [("users", JArr us)])).

Definition candidate (mail : string) : json :=
  JObj [("email", JStr mail); ("password", JStr "secret");
        ("role", JStr "user")].

(** POST /api/spotlight without a file *)
Definition spotlight_post : request :=
  request_of None [] []
    (Some (JObj [("title", JStr "second"); ("media_type", JStr "image")])).

End Fixtures.

(* ===================================================================== *)
(** * Further vocabulary                                                 *)
(* ===================================================================== *)

Module Notions.
Import Js Pg Http Facts.

(** A string without a given character. *)
Definition free_of (c : ascii) (s : string) : Prop :=
  forall d, In d (list_ascii_of_string s) -> d <> c.

(** A request whose Authorization header is this text. *)
Definition authorized_by (req : request) (h : string) : Prop :=
  req_authorization req = Some h.

(** The same table with one more call logged or the backend's failures
    consumed: nothing stored has changed. *)
Definition same_data (w w' : world) : Prop :=
  w_db w' = w_db w /\ w_sessions w' = w_sessions w.

(** ** Updating a restaurant *)

(** The columns a PUT of a restaurant can write. *)
Definition update_columns : list string :=
  ["name"; "phone"; "city"; "area"; "full_address"; "cuisines";
   "cost_for_two"; "distance"; "offer"; "facilities"; "highlights";
   "worth_visit"; "opening_hours"; "reviews"; "menu"; "food_images";
   "ambience_images"; "cover_image"; "is_active"; "slug"; "latitude";
   "longitude"; "booking_enabled"; "avg_duration_minutes";
   "max_bookings_per_slot"; "advance_booking_days"; "owner_user_id"].

(** Bodies the update schema refuses, among others: one that is not an
    object, a name or slug that is [null] or blank, an is_active that is
    not a boolean, an owner_user_id that is not a UUID. *)
Definition bad_update (rt : runtime) (body : value) : Prop :=
  (forall o, body <> Some (JObj o)) \/
  exists o, body = Some (JObj o) /\
    ((exists k, (k = "name" \/ k = "slug") /\
                (assoc k o = Some JNull \/
                 exists s, assoc k o = Some (JStr s) /\ trim s = EmptyString)) \/
     (exists j, assoc "is_active" o = Some j /\ forall b, j <> JBool b) \/
     (exists s, assoc "owner_user_id" o = Some (JStr s) /\ uuid rt s = false)).

(** A row after an update with a patch; the other rows of its table are
    as they were. *)
Definition patched (t : table) (id : string) (patch : row) (w w' : world)
  : Prop :=
  w_db w' t =
    map (fun x => if satisfies [FEq "id" (JStr id)] x
                  then assign_all patch x else x) (w_db w t)
  /\ (forall t', t' <> t -> w_db w' t' = w_db w t')
  /\ w_sessions w' = w_sessions w.

(** A row whose slug is [s]. *)
Definition holds_slug (s : string) (r : row) : Prop :=
  assoc "slug" r = Some (JStr s).

(** The patch gives the restaurant [id] a slug that another restaurant
    holds. *)
Definition slug_taken (patch : row) (id : string) (w : world) : Prop :=
  exists s r,
    assoc "slug" patch = Some (JStr s) /\
    In r (w_db w restaurants) /\
    assoc "id" r <> Some (JStr id) /\
    holds_slug s r.

(** Some restaurant holds the slug [s]. *)
Definition slug_in_use (s : string) (w : world) : Prop :=
  exists r, In r (w_db w restaurants) /\ holds_slug s r.

(** ** Saving user details *)

(** The three fields POST /api/user/details needs, each of them truthy. *)
Definition details (req : request) (i : string) (name phone : json) : Prop :=
  (exists o, req_body req = Some (JObj o)) /\
  prop (req_body req) "id" = Some (JStr i) /\ i <> EmptyString /\
  prop (req_body req) "full_name" = Some name /\ truthy (Some name) = true /\
  prop (req_body req) "phone" = Some phone /\ truthy (Some phone) = true.

(** The columns an update of the details writes, at instant [t]. *)
Definition details_patch (rt : runtime) (name phone : json) (t : Z) : row :=
  [("full_name", name); ("phone", phone);
   ("updated_at", JStr (toISOString rt t))].

(** ** Creating a restaurant *)

(** The columns of the row a created restaurant gets by default. *)
Definition create_defaults : list (string * json) :=
  [("phone", JNull); ("city", JNull); ("area", JNull); ("full_address", JNull);
   ("cuisines", JArr []); ("cost_for_two", JNull); ("distance", JNull);
   ("offer", JNull); ("facilities", JArr []); ("highlights", JArr []);
   ("worth_visit", JArr []); ("opening_hours", JObj []); ("reviews", JArr []);
   ("menu", JArr []); ("food_images", JArr []); ("ambience_images", JArr []);
   ("cover_image", JNull); ("is_active", JBool true); ("latitude", JNull);
   ("longitude", JNull); ("booking_enabled", JBool true);
   ("avg_duration_minutes", JNum 90); ("max_bookings_per_slot", JNull);
   ("advance_booking_days", JNum 30); ("owner_user_id", JNull)].

(** ** Lists *)

(** The filter an optional query parameter contributes. *)
Definition opt_filter {A : Type} (o : option A) (f : A -> filter)
  : list filter :=
  match o with Some a => [f a] | None => [] end.

(** A store as the exact-match parameters of the list want it. *)
Definition tagged (t : string) (r : row) : Prop :=
  exists xs, assoc "tags" r = Some (JArr xs) /\ In (JStr t) xs.

(** Two list queries that differ at most in the page they ask for. *)
Definition same_restaurants (p p' : Restaurants.list_query) : Prop :=
  Restaurants.lq_search p = Restaurants.lq_search p' /\
  Restaurants.lq_city p = Restaurants.lq_city p' /\
  Restaurants.lq_area p = Restaurants.lq_area p' /\
  Restaurants.lq_status p = Restaurants.lq_status p' /\
  Restaurants.lq_includeInactive p = Restaurants.lq_includeInactive p' /\
  Restaurants.lq_sort p = Restaurants.lq_sort p' /\
  Restaurants.lq_order p = Restaurants.lq_order p'.

(** No two of the rows have the same value in a column, NULLs being
    alike: the order of the rows by that column is then the same
    whatever the store does with rows that tie. *)
Definition untied (c : string) (rs : list row) : Prop :=
  ForallOrdPairs
    (fun x y => compare_value (assoc c x) (assoc c y) <> Eq) rs.

(** The page a parsed query asks for. *)
Definition asks_page (p : Restaurants.list_query) (offset limit : Z) : Prop :=
  Restaurants.lq_offset p = of_Z offset /\ Restaurants.lq_limit p = of_Z limit.

(** ** A store and what belongs to it *)

Definition wants (what : string) (req : request) : bool :=
  existsb (String.eqb what) (Stores.includes req).

(** The rows of a related table that belong to a store. *)
Definition belonging (t : table) (id : string) (w : world) : list row :=
  matching [FEq "store_id" (JStr id)] (w_db w t).

(** The catalogue of a store in the order the route asks for. *)
Definition catalogue_of (id : string) (w : world) : list row :=
  order_by [("sort_order", true); ("created_at", true)]
    (belonging store_catalogue_items id w).

(** ** The spotlight *)

(** The ids of a table are text. *)
Definition string_ids (rs : list row) : Prop :=
  forall r, In r rs -> exists s, assoc "id" r = Some (JStr s).

(** A row is the one an entry of a reorder list names. *)
Definition names (o : json) (r : row) : bool :=
  holds (FEq "id" (nullish (prop (Some o) "id") JNull)) r.

(** Every entry of a reorder list names an item by a text id. *)
Definition well_formed (order : list json) : Prop :=
  forall o, In o order -> exists i, prop (Some o) "id" = Some (JStr i).

(** Whole numbers in ascending order. *)
Fixpoint ascending (zs : list Z) : Prop :=
  match zs with
  | x :: ((y :: _) as rest) => (x <= y)%Z /\ ascending rest
  | _ => True
  end.

(** ** The employees of a corporate *)

(** A list of employees whose user_ids are distinct and not empty. *)
Definition listed (es : list json) : Prop :=
  NoDup (map Corporates.uid_of es) /\
  forall e, In e es -> Corporates.uid_of e <> EmptyString.

End Notions.

(* ===================================================================== *)
(** * Further requests on the small world                                *)
(* ===================================================================== *)

Module Cases.
Import Js Pg Http Facts.

(** PUT /api/restaurants/:id by the owning partner *)
Definition owner_puts (body : json) : request :=
  Fixtures.request_of (Some "P") [("id", Fixtures.restaurant_id)] [] (Some body).

(** The same without credentials *)
Definition anonymous_puts (body : json) : request :=
  Fixtures.request_of None [("id", Fixtures.restaurant_id)] [] (Some body).

(** DELETE /api/restaurants/:id by the admin *)
Definition admin_deletes : request :=
  Fixtures.request_of (Some "A") [("id", Fixtures.restaurant_id)] [] None.

(** POST /api/user/details *)
Definition saves (id name phone : json) : request :=
  Fixtures.request_of None [] []
    (Some (JObj [("id", id); ("full_name", name); ("phone", phone)])).

(** POST /api/restaurants by the admin, and by the partner *)
Definition admin_creates (body : json) : request :=
  Fixtures.request_of (Some "A") [] [] (Some body).

Definition partner_creates (body : json) : request :=
  Fixtures.request_of (Some "P") [] [] (Some body).

Definition bistro : json :=
  JObj [("name", JStr " Bistro "); ("slug", JStr "bistro");
        ("city", JStr "Pune"); ("cuisines", JArr [JStr "thai"])].

(** One no-break space, U+00A0, in UTF-8 *)
Definition nbsp : string := String "194"%char (String "160"%char EmptyString).

Definition second_basil : json :=
  JObj [("name", JStr "Basil II"); ("slug", JStr " basil ")].

(** GET /api/stores and GET /api/restaurants with a query *)
Definition lists (q : list (string * json)) : request :=
  Fixtures.list_request q.

(** A page of all the restaurants, closed ones included *)
Definition page (limit offset : string) : request :=
  lists [("includeInactive", JStr "true"); ("limit", JStr limit);
         ("offset", JStr offset)].

(** The same ordered by name, from the last to the first *)
Definition by_name (limit offset : string) : request :=
  lists [("includeInactive", JStr "true"); ("sort", JStr "name");
         ("limit", JStr limit); ("offset", JStr offset)].

(** The small world with payment details and a catalogue for the store *)
Definition payment : row :=
  [("id", JNum 1); ("store_id", JStr Fixtures.store_id); ("upi", JStr "corner@upi")].

Definition tea : row :=
  [("id", JNum 1); ("store_id", JStr Fixtures.store_id); ("title", JStr "tea");
   ("sort_order", JNum 2)].

Definition jam : row :=
  [("id", JNum 2); ("store_id", JStr Fixtures.store_id); ("title", JStr "jam");
   ("sort_order", JNum 1)].

Definition stocked : world :=
  set_db
    (with_rows store_catalogue_items [tea; jam]
       (with_rows store_payment_details [payment] Fixtures.db))
    Fixtures.world0.

(** GET /api/stores/:id?include=... *)
Definition store_with (include : string) : request :=
  Fixtures.request_of None [("id", Fixtures.store_id)]
    [("include", JStr include)] None.

(** A spotlight of two items whose ids are text *)
Definition banner : row :=
  [("id", JStr "s1"); ("title", JStr "first"); ("is_active", JBool true);
   ("order_index", JNum 1); ("module_type", JStr "dining")].

Definition teaser : row :=
  [("id", JStr "s2"); ("title", JStr "second"); ("is_active", JBool true);
   ("order_index", JNum 2); ("module_type", JStr "stores")].

Definition gallery : world :=
  set_db (with_rows spotlight_items [teaser; banner] Fixtures.db) Fixtures.world0.

(** DELETE /api/spotlight/:id *)
Definition spotlight_delete (id : string) : request :=
  Fixtures.request_of None [("id", id)] [] None.

(** GET /api/spotlight *)
Definition spotlight_list (q : list (string * json)) : request :=
  Fixtures.request_of None [] q None.

(** PUT /api/spotlight/reorder/list *)
Definition spotlight_reorder (order : list json) : request :=
  Fixtures.request_of None [] [] (Some (JObj [("order", JArr order)])).

Definition place (id : string) (n : Z) : json :=
  JObj [("id", JStr id); ("order_index", JNum n)].

(** POST /api/spotlight with a video *)
Definition clip : request :=
  {| req_authorization := None; req_params := []; req_query := Some (JObj []);
     req_body := Some (JObj [("title", JStr "clip"); ("media_type", JStr "video")]);
     req_file := Some {| originalname := "clip.final.mp4";
                         mimetype := "video/mp4" |} |}.

(** PUT /api/spotlight/:id *)
Definition spotlight_put (id : string) (body : list (string * json)) : request :=
  Fixtures.request_of None [("id", id)] [] (Some (JObj body)).

(** A world whose next calls to the backend fail as listed *)
Definition failing (fs : list bool) (w : world) : world :=
  {| w_db := w_db w; w_sessions := w_sessions w; w_faults := fs;
     w_signups := w_signups w; w_clock := w_clock w; w_ticks := w_ticks w;
     w_log := w_log w |}.

(** The registry row of the member of the small world *)
Definition member : row :=
  [("id", JStr Fixtures.member_id); ("email", JStr "Mira@x.io");
   ("role", JStr "user")].

(** The small world with five seats at the corporate *)
Definition firm : row :=
  [("id", JStr Fixtures.corporate_id); ("seats", JNum 5);
   ("employees", JArr [Fixtures.member_entry])].

Definition roomy : world :=
  set_db (with_rows corporate [firm] Fixtures.db) Fixtures.world0.

(** The member again, under another name and phone *)
Definition mira_again : json :=
  JObj [("user_id", JStr Fixtures.member_id); ("name", JStr " Mira B ");
        ("email", JStr "MIRA@x.io"); ("phone", JStr "9")].

Definition mira_parsed : list (string * json) :=
  [("user_id", JStr Fixtures.member_id); ("name", JStr "Mira B");
   ("email", JStr "MIRA@x.io"); ("phone", JStr "9")].

Definition mira : employee :=
  {| e_user_id := Fixtures.member_id; e_name := "Mira B";
     e_email := "MIRA@x.io"; e_phone := "9"; e_department := None;
     e_designation := None; e_created_at := None |}.

(** A corporate of five seats and two employees *)
Definition partner_entry : json :=
  JObj [("user_id", JStr Fixtures.partner_id); ("name", JStr "Pia");
        ("email", JStr "p@x.io"); ("phone", JStr "2");
        ("department", JStr "kitchen"); ("designation", JNull);
        ("created_at", JStr "T1")].

Definition pair : row :=
  [("id", JStr Fixtures.corporate_id); ("seats", JNum 5);
   ("employees", JArr [Fixtures.member_entry; partner_entry])].

Definition staffed : world :=
  set_db (with_rows corporate [pair] Fixtures.db) Fixtures.world0.

(** The small world with slugs for its restaurants *)
Definition anise : row := Fixtures.restaurant ++ [("slug", JStr "anise")].

Definition basil : row := Fixtures.closed_restaurant ++ [("slug", JStr "basil")].

Definition town : world :=
  set_db (with_rows restaurants [anise; basil] Fixtures.db) Fixtures.world0.

End Cases.
Import Js Pg Http Facts.

(* ===================================================================== *)
(** * The platform, call by call                                         *)
(* ===================================================================== *)

Lemma order_by_nil (l : list row) : order_by [] l = l.
Proof.
  unfold order_by.
  induction l as [|x l IH]; simpl; [reflexivity|].
  rewrite IH. destruct l; reflexivity.
Qed.

Lemma backend_step (a : access) (w : world) :
  backend a w = (fault 0 w, advance [a] w).
Proof.
  unfold backend, fault, advance. destruct (w_faults w); reflexivity.
Qed.

Lemma advance_advance l1 l2 w :
  advance l2 (advance l1 w) = advance (l1 ++ l2) w.
Proof.
  unfold advance; simpl. rewrite length_app, <- app_assoc.
  rewrite skipn_skipn, (Nat.add_comm (List.length l2)). reflexivity.
Qed.

Lemma fault_advance k l w : fault k (advance l w) = fault (List.length l + k) w.
Proof.
  unfold fault, advance; simpl.
  revert k. generalize (w_faults w) as fs.
  induction (List.length l) as [|n IH]; intros fs k; [reflexivity|].
  destruct fs as [|f fs]; simpl; [now destruct k|]. apply IH.
Qed.

Lemma clean_fault k w : clean w -> fault k w = false.
Proof. unfold clean, fault. intros ->. now destruct k. Qed.

Lemma clean_advance l w : clean w -> clean (advance l w).
Proof. unfold clean, advance; simpl. intros ->. apply skipn_nil. Qed.

Lemma clean_set_db db w : clean w -> clean (set_db db w).
Proof. exact (fun H => H). Qed.

Lemma run_step t q w :
  run t q w =
  (if fault 0 w then Error backend_failure
   else match eval q (w_db w t) with
        | None => Error bad_range
        | Some r => Data r
        end, advance [Select t] w).
Proof.
  unfold run, bind. rewrite backend_step.
  destruct (fault 0 w); [reflexivity|].
  unfold get_rows, rows_of, ret. simpl.
  destruct (eval q (w_db w t)); reflexivity.
Qed.

Lemma eval_by_id cols v rows :
  eval (eq_ "id" v (select cols)) rows =
  Some (map (project cols) (matching [FEq "id" v] rows),
        List.length (matching [FEq "id" v] rows)).
Proof.
  unfold eval, eq_, where_, select. simpl. now rewrite order_by_nil.
Qed.

Lemma maybeSingle_by_id t cols id w :
  maybeSingle t (eq_ "id" (JStr id) (select cols)) w =
  (if fault 0 w then Error backend_failure
   else match by_id t id w with
        | [] => Data None
        | [r] => Data (Some (project cols r))
        | _ :: _ :: _ => Error not_single
        end, advance [Select t] w).
Proof.
  unfold maybeSingle, bind. rewrite run_step.
  destruct (fault 0 w); [reflexivity|].
  rewrite eval_by_id. unfold by_id.
  destruct (matching [FEq "id" (JStr id)] (w_db w t)) as [|r [|r' l]];
    reflexivity.
Qed.

Lemma single_by_id t cols id w :
  single t (eq_ "id" (JStr id) (select cols)) w =
  (if fault 0 w then Error backend_failure
   else match by_id t id w with
        | [r] => Data (project cols r)
        | _ => Error not_single
        end, advance [Select t] w).
Proof.
  unfold single, bind. rewrite run_step.
  destruct (fault 0 w); [reflexivity|].
  rewrite eval_by_id. unfold by_id.
  destruct (matching [FEq "id" (JStr id)] (w_db w t)) as [|r [|r' l]];
    reflexivity.
Qed.

Lemma assoc_project k cs (r : row) :
  existsb (String.eqb k) cs = true ->
  assoc k (project (Some cs) r) = assoc k r.
Proof.
  intros Hk. unfold project.
  induction r as [|[k' v] r IH]; simpl; [reflexivity|].
  destruct (String.eqb k k') eqn:E.
  - apply String.eqb_eq in E. subst k'. rewrite Hk. simpl.
    now rewrite String.eqb_refl.
  - destruct (existsb (String.eqb k') cs); simpl; [rewrite E|]; exact IH.
Qed.

Lemma getUser_step tok w :
  getUser tok w =
  (if fault 0 w then Error backend_failure
   else match assoc tok (w_sessions w) with
        | Some uid => Data uid
        | None => Error invalid_token
        end, advance [GetUser] w).
Proof.
  unfold getUser, bind. rewrite backend_step.
  destruct (fault 0 w); [reflexivity|].
  simpl. destruct (assoc tok (w_sessions w)); reflexivity.
Qed.

(* ===================================================================== *)
(** * The access guards                                                  *)
(* ===================================================================== *)

Lemma is_string_or_null (v : value) (s : string) :
  s <> EmptyString ->
  Restaurants.is_string (Some (or_else v JNull)) s = Restaurants.is_string v s.
Proof.
  intros Hs. destruct v as [[| b | z | x | xs | fs]|]; simpl; try reflexivity.
  - destruct b; reflexivity.
  - destruct (z =? 0)%Z; reflexivity.
  - destruct (String.eqb x EmptyString) eqn:E; simpl; [|reflexivity].
    apply String.eqb_eq in E. subst x.
    destruct (String.eqb EmptyString s) eqn:E'; [|reflexivity].
    apply String.eqb_eq in E'. congruence.
Qed.

Lemma isAdminRole_or_null v :
  Restaurants.isAdminRole (Some (or_else v JNull)) = Restaurants.isAdminRole v.
Proof.
  unfold Restaurants.isAdminRole. now rewrite !is_string_or_null by discriminate.
Qed.

Lemma isPartnerRole_or_null v :
  Restaurants.isPartnerRole (Some (or_else v JNull)) = Restaurants.isPartnerRole v.
Proof.
  unfold Restaurants.isPartnerRole. now rewrite !is_string_or_null by discriminate.
Qed.

Lemma is_string_true v s : Restaurants.is_string v s = true <-> v = Some (JStr s).
Proof.
  unfold Restaurants.is_string. destruct v as [[| | | x | |]|]; split; try discriminate.
  - intros H. apply String.eqb_eq in H. now subst.
  - intros [= ->]. apply String.eqb_refl.
Qed.

(** The write guard, step by step, on any world. *)
Lemma guard_steps req id w :
  Restaurants.requireRestaurantWriteAccess req id w =
  match Restaurants.getBearerToken req with
  | None => (inl (reply_error 401 "Missing Authorization token"), w)
  | Some tok =>
      match (if fault 0 w then None else assoc tok (w_sessions w)) with
      | None => (inl (reply_error 401 "Invalid session"), advance [GetUser] w)
      | Some uid =>
          match (if fault 1 w then Error backend_failure
                 else resolved_role uid w) with
          | Error e =>
              (inl (reply_error 500 (message e)),
               advance [GetUser; Select users] w)
          | Data role =>
              let c := {| Restaurants.sb := tok; Restaurants.callerId := uid;
                          Restaurants.role := role |} in
              if Restaurants.isAdminRole (Some role)
              then (inr c, advance [GetUser; Select users] w)
              else if Restaurants.isPartnerRole (Some role)
              then
                (if fault 2 w
                 then inl (reply_error 500 (message backend_failure))
                 else
                   match by_id restaurants id w with
                   | [] => inl (reply_error 404 "Restaurant not found")
                   | [r] =>
                       if Restaurants.is_string (assoc "owner_user_id" r) uid
                       then inr c
                       else inl (reply_error 403 "Access denied")
                   | _ :: _ :: _ => inl (reply_error 500 (message not_single))
                   end,
                 advance [GetUser; Select users; Select restaurants] w)
              else (inl (reply_error 403 "Access denied"),
                    advance [GetUser; Select users] w)
          end
      end
  end.
Proof.
  unfold Restaurants.requireRestaurantWriteAccess, Restaurants.requireAuth,
    Restaurants.supabaseAuthed, bind.
  destruct (Restaurants.getBearerToken req) as [tok|]; [|reflexivity].
  rewrite getUser_step.
  destruct (fault 0 w); [reflexivity|].
  destruct (assoc tok (w_sessions w)) as [uid|]; [|reflexivity].
  cbn [ret Restaurants.auth_sb Restaurants.auth_user_id].
  unfold Restaurants.getCallerRole.
  rewrite maybeSingle_by_id, fault_advance, advance_advance.
  cbn [app List.length Nat.add].
  destruct (fault 1 w); [reflexivity|].
  unfold resolved_role.
  change (by_id users uid (advance [GetUser] w)) with (by_id users uid w).
  destruct (by_id users uid w) as [|r [|r' l]]; cbn [ret option_map prop].
  - reflexivity.
  - rewrite assoc_project by reflexivity.
    destruct (Restaurants.isAdminRole (Some (or_else (assoc "role" r) JNull)));
      [reflexivity|].
    destruct (Restaurants.isPartnerRole (Some (or_else (assoc "role" r) JNull)));
      [|reflexivity].
    rewrite maybeSingle_by_id, fault_advance, advance_advance.
    cbn [app List.length Nat.add].
    destruct (fault 2 w); [reflexivity|].
    change (by_id restaurants id (advance [GetUser; Select users] w))
      with (by_id restaurants id w).
    destruct (by_id restaurants id w) as [|x [|x' l]]; cbn [ret]; try reflexivity.
    rewrite assoc_project by reflexivity.
    destruct (Restaurants.is_string (assoc "owner_user_id" x) uid); reflexivity.
  - reflexivity.
Qed.

Lemma scalar_eqb_str x s : scalar_eqb x (JStr s) = true <-> x = JStr s.
Proof.
  destruct x; simpl; split; try discriminate.
  - intros H. apply String.eqb_eq in H. now subst.
  - intros [= ->]. apply String.eqb_refl.
Qed.

Lemma holds_id r id :
  holds (FEq "id" (JStr id)) r = true <-> assoc "id" r = Some (JStr id).
Proof.
  simpl. destruct (assoc "id" r) as [x|]; [|split; discriminate].
  rewrite scalar_eqb_str. split; congruence.
Qed.

Lemma matching_cons fs r rs :
  matching fs (r :: rs) =
  if satisfies fs r then r :: matching fs rs else matching fs rs.
Proof. reflexivity. Qed.

Lemma satisfies_one f r : satisfies [f] r = holds f r.
Proof. unfold satisfies. cbn. apply andb_true_r. Qed.

Lemma matching_id_none id rs :
  existsb (same_id (JStr id)) rs = false -> matching [FEq "id" (JStr id)] rs = [].
Proof.
  induction rs as [|r rs IH]; [reflexivity|].
  cbn [existsb]. intros H.
  apply orb_false_iff in H. destruct H as [H1 H2].
  rewrite matching_cons, satisfies_one.
  assert (E : holds (FEq "id" (JStr id)) r = false).
  { unfold same_id in H1. cbn [holds].
    destruct (assoc "id" r); [exact H1|reflexivity]. }
  rewrite E. now apply IH.
Qed.

Lemma distinct_ids_keyed rs id :
  distinct_ids rs = true ->
  (List.length (matching [FEq "id" (JStr id)] rs) <= 1)%nat.
Proof.
  induction rs as [|r rs IH]; cbn [distinct_ids]; [cbn; lia|].
  intros H. apply andb_true_iff in H. destruct H as [H1 H2].
  rewrite matching_cons, satisfies_one.
  destruct (holds (FEq "id" (JStr id)) r) eqn:E; [|now apply IH].
  apply holds_id in E. rewrite E in H1. apply negb_true_iff in H1.
  rewrite (matching_id_none _ _ H1). cbn. lia.
Qed.

Lemma keyed_by_id t w id :
  keyed t w -> by_id t id w = [] \/ exists r, by_id t id w = [r].
Proof.
  intros H. pose proof (distinct_ids_keyed _ id H) as L. unfold by_id.
  destruct (matching _ _) as [|r [|r' l]]; cbn in L; eauto; lia.
Qed.

Lemma partner_not_admin v :
  Restaurants.isPartnerRole v = true -> Restaurants.isAdminRole v = false.
Proof.
  unfold Restaurants.isPartnerRole, Restaurants.isAdminRole. intros H.
  apply orb_true_iff in H.
  destruct H as [H|H]; apply is_string_true in H; subst; reflexivity.
Qed.

Lemma admin_role_iff v : Restaurants.isAdminRole v = true <-> admin_role v.
Proof.
  unfold Restaurants.isAdminRole, admin_role.
  now rewrite orb_true_iff, !is_string_true.
Qed.

Lemma partner_role_iff v :
  Restaurants.isPartnerRole v = true <-> partner_role v.
Proof.
  unfold Restaurants.isPartnerRole, partner_role.
  now rewrite orb_true_iff, !is_string_true.
Qed.

Lemma resolved_role_keyed uid w :
  keyed users w ->
  exists role, resolved_role uid w = Data role /\
    Restaurants.isAdminRole (Some role) = Restaurants.isAdminRole (role_of uid w) /\
    Restaurants.isPartnerRole (Some role) = Restaurants.isPartnerRole (role_of uid w).
Proof.
  intros K. unfold resolved_role, role_of.
  destruct (keyed_by_id users w uid K) as [-> | [r ->]].
  - exists JNull. repeat split.
  - exists (or_else (assoc "role" r) JNull).
    now rewrite isAdminRole_or_null, isPartnerRole_or_null.
Qed.

(** C1.  For the write guard of PUT and DELETE /api/restaurants/:id: the
    guard asks the platform, in this order and once each, to
    authenticate the caller, to resolve the caller's role and, for a
    partner only, to fetch the target restaurant, and it stops at the
    first step that fails without writing anything; when the backend is
    sound it succeeds iff the resolved role is "admin" or "superadmin",
    or the role is "restaurantpartner" or "storepartner" and the
    restaurant's owner_user_id is the caller; a partner who is not the
    owner gets 403 and a partner on a missing restaurant gets 404; both
    routes answer with the guard's response when it refuses. *)
Theorem C1_restaurant_write_guard :
  forall (req : request) (id : string) (w : world),
    let res := fst (Restaurants.requireRestaurantWriteAccess req id w) in
    let w' := snd (Restaurants.requireRestaurantWriteAccess req id w) in
    (w_db w' = w_db w /\
     exists l, w_log w' = w_log w ++ l /\ stopped res l)
    /\
    (clean w -> keyed users w -> keyed restaurants w ->
     ((exists c, res = inr c) <->
      exists uid,
        identity req w = Some uid /\
        (role_of uid w = Some (JStr "admin") \/
         role_of uid w = Some (JStr "superadmin") \/
         ((role_of uid w = Some (JStr "restaurantpartner") \/
           role_of uid w = Some (JStr "storepartner")) /\
          exists r, by_id restaurants id w = [r] /\
                    assoc "owner_user_id" r = Some (JStr uid))))
     /\
     (forall uid r,
         identity req w = Some uid ->
         role_of uid w = Some (JStr "restaurantpartner") \/
         role_of uid w = Some (JStr "storepartner") ->
         by_id restaurants id w = [r] ->
         assoc "owner_user_id" r <> Some (JStr uid) ->
         exists rsp, res = inl rsp /\ status rsp = 403%Z)
     /\
     (forall uid,
         identity req w = Some uid ->
         role_of uid w = Some (JStr "restaurantpartner") \/
         role_of uid w = Some (JStr "storepartner") ->
         by_id restaurants id w = [] ->
         exists rsp, res = inl rsp /\ status rsp = 404%Z))
    /\
    (forall rt rsp,
        Restaurants.IdSchema rt (param req "id") = Some id ->
        res = inl rsp ->
        (forall patch,
            Restaurants.UpdateRestaurantSchema rt (req_body req) = Some patch ->
            Restaurants.put_by_id rt req w = (rsp, w')) /\
        (forall hard,
            Restaurants.DeleteQuerySchema rt (req_query req) = Some hard ->
            Restaurants.delete_by_id rt req w = (rsp, w'))).
Proof.
  intros req id w. cbv zeta. split; [|split].
  - (* order of the checks *)
    rewrite guard_steps.
    destruct (Restaurants.getBearerToken req) as [tok|].
    2:{ cbn. split; [reflexivity|]. exists []. rewrite app_nil_r.
        split; [reflexivity|]. cbn. eauto. }
    destruct (if fault 0 w then None else assoc tok (w_sessions w)) as [uid|].
    2:{ cbn. split; [reflexivity|]. exists [GetUser].
        split; [reflexivity|]. cbn. eauto. }
    destruct (if fault 1 w then Error backend_failure else resolved_role uid w)
      as [role|e].
    2:{ cbn. split; [reflexivity|]. exists [GetUser; Select users].
        split; [reflexivity|]. cbn. left. eauto. }
    cbv zeta.
    destruct (Restaurants.isAdminRole (Some role)) eqn:A.
    { apply admin_role_iff in A.
      cbn. split; [reflexivity|]. exists [GetUser; Select users].
      split; [reflexivity|]. cbn. right. eauto. }
    destruct (Restaurants.isPartnerRole (Some role)) eqn:P.
    2:{ cbn. split; [reflexivity|]. exists [GetUser; Select users].
        split; [reflexivity|]. cbn. left. eauto. }
    apply partner_role_iff in P.
    cbn [fst snd]. split; [reflexivity|].
    exists [GetUser; Select users; Select restaurants].
    split; [reflexivity|]. cbn [stopped].
    destruct (fault 2 w); [left; cbn; eauto|].
    destruct (by_id restaurants id w) as [|r [|r' l]]; [left; cbn; eauto| |left; cbn; eauto].
    destruct (Restaurants.is_string (assoc "owner_user_id" r) uid);
      [right|left]; cbn; eauto.
  - (* outcome on a sound backend *)
    intros C KU KR.
    assert (S : forall uid (l : list row),
               (role_of uid w = Some (JStr "admin") \/
                role_of uid w = Some (JStr "superadmin") \/
                ((role_of uid w = Some (JStr "restaurantpartner") \/
                  role_of uid w = Some (JStr "storepartner")) /\
                 exists r, l = [r] /\
                           assoc "owner_user_id" r = Some (JStr uid)))
               <->
               (Restaurants.isAdminRole (role_of uid w) = true \/
                (Restaurants.isPartnerRole (role_of uid w) = true /\
                 exists r, l = [r] /\
                           assoc "owner_user_id" r = Some (JStr uid)))).
    { intros uid l. rewrite admin_role_iff, partner_role_iff.
      unfold admin_role, partner_role. tauto. }
    assert (T : forall uid,
               role_of uid w = Some (JStr "restaurantpartner") \/
               role_of uid w = Some (JStr "storepartner") ->
               Restaurants.isPartnerRole (role_of uid w) = true)
      by (intros uid; apply partner_role_iff).
    rewrite guard_steps. unfold identity.
    rewrite !(clean_fault _ _ C).
    destruct (Restaurants.getBearerToken req) as [tok|].
    2:{ cbn. repeat split; try discriminate.
        - intros [c Hc]; discriminate.
        - intros [uid [H _]]; discriminate. }
    destruct (assoc tok (w_sessions w)) as [uid|].
    2:{ cbn. repeat split; try discriminate.
        - intros [c Hc]; discriminate.
        - intros [u [H _]]; discriminate. }
    destruct (resolved_role_keyed uid w KU) as [role [-> [HA HP]]].
    cbv zeta. rewrite HA, HP.
    destruct (Restaurants.isAdminRole (role_of uid w)) eqn:A.
    { cbn [fst]. repeat split.
      - intros _. exists uid. split; [reflexivity|]. apply S. now left.
      - eauto.
      - intros u r [= <-] P. apply T, partner_not_admin in P. congruence.
      - intros u [= <-] P. apply T, partner_not_admin in P. congruence. }
    destruct (Restaurants.isPartnerRole (role_of uid w)) eqn:P.
    2:{ cbn [fst]. repeat split.
        - intros [c Hc]; discriminate.
        - intros [u [[= <-] H]]. apply S in H.
          destruct H as [H|[H _]]; congruence.
        - intros u r [= <-] H. apply T in H. congruence.
        - intros u [= <-] H. apply T in H. congruence. }
    cbn [fst].
    destruct (keyed_by_id restaurants w id KR) as [E | [r E]]; rewrite E.
    { repeat split.
      - intros [c Hc]; discriminate.
      - intros [u [[= <-] H]]. apply S in H.
        destruct H as [H|[_ [r [H _]]]]; congruence.
      - intros u r _ _ [=].
      - intros u _ _ _. cbn. eauto. }
    destruct (Restaurants.is_string (assoc "owner_user_id" r) uid) eqn:O.
    { apply is_string_true in O. repeat split.
      - intros _. exists uid. split; [reflexivity|]. apply S. right.
        split; [exact P|]. exists r. split; [reflexivity|exact O].
      - eauto.
      - intros u r' [= <-] _ [= <-] N. congruence.
      - intros u _ _ [=]. }
    repeat split.
    + intros [c Hc]; discriminate.
    + intros [u [[= <-] H]]. apply S in H.
      destruct H as [H|[_ [r' [[= <-] H]]]]; [congruence|].
      apply is_string_true in H. congruence.
    + intros u r' _ _ _ _. cbn. eauto.
    + intros u _ _ [=].
  - (* the two routes *)
    intros rt rsp Hid Hres. split.
    + intros patch Hp. unfold Restaurants.put_by_id. rewrite Hid, Hp.
      unfold bind.
      destruct (Restaurants.requireRestaurantWriteAccess req id w) as [a w1].
      cbn in Hres |- *. subst a. reflexivity.
    + intros hard Hq. unfold Restaurants.delete_by_id. rewrite Hid, Hq.
      unfold bind.
      destruct (Restaurants.requireRestaurantWriteAccess req id w) as [a w1].
      cbn in Hres |- *. subst a. reflexivity.
Qed.


(** In the small world the guard lets the admin and the owning partner
    through, refuses another partner with 403, and answers the owner 404
    on a restaurant that does not exist. *)
Lemma C1_witness :
  clean Fixtures.world0 /\
  keyed users Fixtures.world0 /\
  keyed restaurants Fixtures.world0 /\
  (exists c,
      fst (Restaurants.requireRestaurantWriteAccess Cases.admin_deletes
             Fixtures.restaurant_id Fixtures.world0) = inr c)
  /\
  (exists c,
      fst (Restaurants.requireRestaurantWriteAccess (Fixtures.owner_deletes [])
             Fixtures.restaurant_id Fixtures.world0) = inr c)
  /\
  (exists rsp,
      fst (Restaurants.requireRestaurantWriteAccess Fixtures.stranger_deletes
             Fixtures.restaurant_id Fixtures.world0) = inl rsp
      /\ status rsp = 403%Z)
  /\
  (exists rsp,
      fst (Restaurants.requireRestaurantWriteAccess (Fixtures.owner_deletes [])
             Fixtures.store_id Fixtures.world0) = inl rsp
      /\ status rsp = 404%Z).
Proof.
  assert (C : clean Fixtures.world0) by reflexivity.
  assert (KU : keyed users Fixtures.world0) by reflexivity.
  assert (KR : keyed restaurants Fixtures.world0) by reflexivity.
  split; [exact C|]. split; [exact KU|]. split; [exact KR|].
  split; [|split; [|split]].
  - apply (proj1 (proj1 (proj2 (C1_restaurant_write_guard
                                  Cases.admin_deletes
                                  Fixtures.restaurant_id Fixtures.world0))
                    C KU KR)).
    exists Fixtures.admin_id. split; [reflexivity|]. left. reflexivity.
  - apply (proj1 (proj1 (proj2 (C1_restaurant_write_guard
                                  (Fixtures.owner_deletes [])
                                  Fixtures.restaurant_id Fixtures.world0))
                    C KU KR)).
    exists Fixtures.partner_id. split; [reflexivity|]. right. right.
    split; [left; reflexivity|].
    exists Fixtures.restaurant. split; reflexivity.
  - refine (proj1 (proj2 (proj1 (proj2 (C1_restaurant_write_guard
                                          Fixtures.stranger_deletes
                                          Fixtures.restaurant_id Fixtures.world0))
                            C KU KR))
              Fixtures.other_partner_id Fixtures.restaurant _ _ _ _).
    + reflexivity.
    + right. reflexivity.
    + reflexivity.
    + discriminate.
  - refine (proj2 (proj2 (proj1 (proj2 (C1_restaurant_write_guard
                                          (Fixtures.owner_deletes [])
                                          Fixtures.store_id Fixtures.world0))
                            C KU KR))
              Fixtures.partner_id _ _ _).
    + reflexivity.
    + left. reflexivity.
    + reflexivity.
Defined.

(* ===================================================================== *)
(** * Writes                                                             *)
(* ===================================================================== *)

Lemma with_rows_same t rs db : with_rows t rs db t = rs.
Proof. unfold with_rows. destruct (table_eq_dec t t); congruence. Qed.

Lemma with_rows_other t t' rs db : t <> t' -> with_rows t rs db t' = db t'.
Proof. unfold with_rows. intros H. destruct (table_eq_dec t t'); congruence. Qed.

Lemma update_step_full t patch fs w :
  update t patch fs w =
  if fault 0 w then (Error backend_failure, advance [Update t] w)
  else if update_repeats t patch fs (w_db w t)
  then (Error unique_violation, advance [Update t] w)
  else
    (Data (map (assign_all patch) (matching fs (w_db w t))),
     set_db
       (with_rows t
          (map (fun r => if satisfies fs r then assign_all patch r else r)
             (w_db w t))
          (w_db w))
       (advance [Update t] w)).
Proof.
  unfold update, bind. rewrite backend_step.
  destruct (fault 0 w); [reflexivity|].
  unfold get_rows, rows_of. cbn.
  destruct (update_repeats t patch fs (w_db w t)); reflexivity.
Qed.

(** An update that no unique column stands against. *)
Lemma update_step t patch fs w :
  update_repeats t patch fs (w_db w t) = false ->
  update t patch fs w =
  if fault 0 w then (Error backend_failure, advance [Update t] w)
  else
    (Data (map (assign_all patch) (matching fs (w_db w t))),
     set_db
       (with_rows t
          (map (fun r => if satisfies fs r then assign_all patch r else r)
             (w_db w t))
          (w_db w))
       (advance [Update t] w)).
Proof. intros U. now rewrite update_step_full, U. Qed.

Lemma delete_step t fs w :
  delete t fs w =
  if fault 0 w then (Error backend_failure, advance [Delete t] w)
  else
    (Data tt,
     set_db
       (with_rows t (List.filter (fun r => negb (satisfies fs r)) (w_db w t))
          (w_db w))
       (advance [Delete t] w)).
Proof.
  unfold delete, bind. rewrite backend_step.
  destruct (fault 0 w); reflexivity.
Qed.

Lemma assoc_assign_same {A} k (v : A) l : assoc k (assign k v l) = Some v.
Proof.
  induction l as [|[k' v'] l IH]; simpl.
  - now rewrite String.eqb_refl.
  - destruct (String.eqb k k') eqn:E; simpl; rewrite ?String.eqb_refl, ?E; auto.
Qed.

Lemma assoc_assign_other {A} k k' (v : A) l :
  k <> k' -> assoc k' (assign k v l) = assoc k' l.
Proof.
  intros N. induction l as [|[k0 v0] l IH]; simpl.
  - destruct (String.eqb k' k) eqn:E; [|reflexivity].
    apply String.eqb_eq in E. congruence.
  - destruct (String.eqb k k0) eqn:E; simpl.
    + apply String.eqb_eq in E. subst k0.
      destruct (String.eqb k' k) eqn:E'; [|reflexivity].
      apply String.eqb_eq in E'. congruence.
    + destruct (String.eqb k' k0); [reflexivity|exact IH].
Qed.

Lemma holds_id_written v k x r :
  k <> "id" ->
  holds (FEq "id" v) (written k x r) = holds (FEq "id" v) r.
Proof.
  intros N. unfold written. cbn [holds]. now rewrite assoc_assign_other.
Qed.

Lemma matching_written v k x rs :
  k <> "id" ->
  matching [FEq "id" v]
    (map (fun r => if satisfies [FEq "id" v] r
                   then assign_all [(k, x)] r else r) rs)
  = map (written k x) (matching [FEq "id" v] rs).
Proof.
  intros N. induction rs as [|r rs IH]; [reflexivity|].
  cbn [map]. rewrite !matching_cons, !satisfies_one.
  destruct (holds (FEq "id" v) r) eqn:E.
  - change (assign_all [(k, x)] r) with (written k x r).
    rewrite (holds_id_written _ _ _ _ N), E. cbn [map]. now rewrite IH.
  - rewrite E. exact IH.
Qed.

Lemma matching_removed fs rs :
  matching fs (List.filter (fun r => negb (satisfies fs r)) rs) = [].
Proof.
  induction rs as [|r rs IH]; [reflexivity|].
  cbn [List.filter]. destruct (satisfies fs r) eqn:E; cbn [negb]; [exact IH|].
  rewrite matching_cons, E. exact IH.
Qed.

Lemma guard_grants req id w :
  clean w -> keyed users w -> keyed restaurants w ->
  may_write req id w ->
  exists c l, Restaurants.requireRestaurantWriteAccess req id w
              = (inr c, advance l w).
Proof.
  intros C KU KR [uid [I G]]. rewrite guard_steps.
  unfold identity in I. rewrite !(clean_fault _ _ C).
  destruct (Restaurants.getBearerToken req) as [tok|]; [|discriminate].
  rewrite I.
  destruct (resolved_role_keyed uid w KU) as [role [-> [HA HP]]].
  cbv zeta. rewrite HA, HP.
  destruct G as [A | [P [r [E O]]]].
  - rewrite A. eauto.
  - rewrite (partner_not_admin _ P), P, E.
    apply is_string_true in O. rewrite O. eauto.
Qed.

Lemma is_true_hard rt (q : value) (hard : bool) :
  Restaurants.DeleteQuerySchema rt q = Some hard ->
  hard = true <-> prop q "hard" = Some (JStr "true").
Proof.
  unfold Restaurants.DeleteQuerySchema, Zod.transform, Zod.optional, Zod.string_.
  destruct q as [[| | | | |o]|]; try discriminate.
  destruct (prop (Some (JObj o)) "hard") as [[| | | s | |]|]; cbn; try discriminate.
  - intros [= <-]. split.
    + intros H. apply String.eqb_eq in H. now subst.
    + intros [= ->]. reflexivity.
  - intros [= <-]. split; discriminate.
Qed.

Lemma by_id_advance t id l w : by_id t id (advance l w) = by_id t id w.
Proof. reflexivity. Qed.

Lemma by_id_written t id rs w :
  by_id t id (set_db (with_rows t rs (w_db w)) w) = matching [FEq "id" (JStr id)] rs.
Proof. unfold by_id. cbn [w_db set_db]. now rewrite with_rows_same. Qed.

Lemma DeleteQuerySchema_hard rt o :
  assoc "hard" o = Some (JStr "true") ->
  Restaurants.DeleteQuerySchema rt (Some (JObj o)) = Some true.
Proof.
  intros H. unfold Restaurants.DeleteQuerySchema, Zod.transform, Zod.optional,
    Zod.string_. cbn [prop]. rewrite H. reflexivity.
Qed.

Lemma DeleteQuerySchema_soft rt o :
  (assoc "hard" o = None \/
   exists s, assoc "hard" o = Some (JStr s) /\ s <> "true") ->
  Restaurants.DeleteQuerySchema rt (Some (JObj o)) = Some false.
Proof.
  unfold Restaurants.DeleteQuerySchema, Zod.transform, Zod.optional,
    Zod.string_. cbn [prop].
  intros [-> | [s [-> N]]]; [reflexivity|]. cbn.
  destruct (String.eqb s "true") eqn:E; [|reflexivity].
  apply String.eqb_eq in E. congruence.
Qed.

Lemma soft_deleted_intro t id r w w0 :
  by_id t id w = [r] ->
  soft_deleted t id r w
    (set_db
       (with_rows t
          (map (fun x => if satisfies [FEq "id" (JStr id)] x
                         then assign_all [("is_active", JBool false)] x else x)
             (w_db w t))
          (w_db w)) w0).
Proof.
  intros E. unfold soft_deleted.
  refine (conj _ (conj _ (conj _ _))).
  - cbn [w_db set_db]. now rewrite with_rows_same.
  - unfold by_id. cbn [w_db set_db]. rewrite with_rows_same.
    rewrite matching_written by discriminate. unfold by_id in E. now rewrite E.
  - apply assoc_assign_same.
  - intros k N. apply assoc_assign_other. congruence.
Qed.

Lemma hard_deleted_intro t id w w0 :
  hard_deleted t id w
    (set_db
       (with_rows t
          (List.filter (fun r => negb (satisfies [FEq "id" (JStr id)] r))
             (w_db w t))
          (w_db w)) w0).
Proof.
  unfold hard_deleted. split.
  - cbn [w_db set_db]. now rewrite with_rows_same.
  - unfold by_id. cbn [w_db set_db]. rewrite with_rows_same.
    apply matching_removed.
Qed.

Lemma restaurants_get_by_id rt req id w :
  clean w ->
  Restaurants.IdSchema rt (param req "id") = Some id ->
  fst (Restaurants.get_by_id rt req w) =
  match by_id restaurants id w with
  | [] => reply_error 404 "Restaurant not found"
  | [r] => reply 200 (JObj [("item", JObj r)])
  | _ :: _ :: _ => reply_error 500 (message not_single)
  end.
Proof.
  intros C Hid. unfold Restaurants.get_by_id. rewrite Hid. unfold bind.
  rewrite maybeSingle_by_id, (clean_fault _ _ C).
  destruct (by_id restaurants id w) as [|r [|r' l]]; reflexivity.
Qed.

Lemma restaurants_delete rt req id w r :
  clean w -> keyed users w -> keyed restaurants w ->
  Restaurants.IdSchema rt (param req "id") = Some id ->
  may_write req id w ->
  by_id restaurants id w = [r] ->
  (asks_hard req ->
   exists w', Restaurants.delete_by_id rt req w = (deleted_reply "hard" id, w')
              /\ clean w' /\ hard_deleted restaurants id w w')
  /\
  (asks_soft req ->
   exists w', Restaurants.delete_by_id rt req w = (deleted_reply "soft" id, w')
              /\ clean w' /\ soft_deleted restaurants id r w w').
Proof.
  intros C KU KR Hid G E.
  destruct (guard_grants req id w C KU KR G) as [c [l HG]].
  split.
  - intros H. unfold asks_hard in H.
    destruct (req_query req) as [[| | | | |o]|] eqn:Q; try discriminate.
    unfold Restaurants.delete_by_id. rewrite Hid, Q.
    rewrite (DeleteQuerySchema_hard rt o H). unfold bind. rewrite HG.
    rewrite maybeSingle_by_id, (clean_fault _ _ (clean_advance l w C)).
    rewrite by_id_advance, E, delete_step.
    rewrite (clean_fault _ _ (clean_advance _ _ (clean_advance l w C))).
    eexists. split; [reflexivity|]. split.
    + apply clean_set_db. now repeat apply clean_advance.
    + apply (hard_deleted_intro restaurants id w).
  - intros [o [Q H]].
    unfold Restaurants.delete_by_id. rewrite Hid, Q.
    rewrite (DeleteQuerySchema_soft rt o H). unfold bind. rewrite HG.
    rewrite maybeSingle_by_id, (clean_fault _ _ (clean_advance l w C)).
    rewrite by_id_advance, E, update_step by reflexivity.
    rewrite (clean_fault _ _ (clean_advance _ _ (clean_advance l w C))).
    eexists. split; [reflexivity|]. split.
    + apply clean_set_db. now repeat apply clean_advance.
    + apply (soft_deleted_intro restaurants id r w). exact E.
Qed.

Lemma stores_delete rt req id w r :
  clean w ->
  Stores.IdSchema rt (param req "id") = Some id ->
  by_id stores id w = [r] ->
  (asks_hard req ->
   exists w', Stores.delete_by_id rt req w = (deleted_reply "hard" id, w')
              /\ clean w' /\ hard_deleted stores id w w')
  /\
  (asks_soft req ->
   exists w', Stores.delete_by_id rt req w = (deleted_reply "soft" id, w')
              /\ clean w' /\ soft_deleted stores id r w w').
Proof.
  intros C Hid E. split.
  - intros H. unfold asks_hard in H.
    destruct (req_query req) as [[| | | | |o]|] eqn:Q; try discriminate.
    unfold Stores.delete_by_id. rewrite Hid, Q.
    change (Stores.DeleteQuerySchema rt) with (Restaurants.DeleteQuerySchema rt).
    rewrite (DeleteQuerySchema_hard rt o H). unfold bind.
    rewrite maybeSingle_by_id, (clean_fault _ _ C).
    rewrite E, delete_step.
    rewrite (clean_fault _ _ (clean_advance _ _ C)).
    eexists. split; [reflexivity|]. split.
    + apply clean_set_db. now repeat apply clean_advance.
    + apply (hard_deleted_intro stores id w).
  - intros [o [Q H]].
    unfold Stores.delete_by_id. rewrite Hid, Q.
    change (Stores.DeleteQuerySchema rt) with (Restaurants.DeleteQuerySchema rt).
    rewrite (DeleteQuerySchema_soft rt o H). unfold bind.
    rewrite maybeSingle_by_id, (clean_fault _ _ C).
    rewrite E, update_step by reflexivity.
    rewrite (clean_fault _ _ (clean_advance _ _ C)).
    eexists. split; [reflexivity|]. split.
    + apply clean_set_db. now repeat apply clean_advance.
    + apply (soft_deleted_intro stores id r w). exact E.
Qed.

Lemma stores_get_by_id rt req id w :
  clean w ->
  Stores.IdSchema rt (param req "id") = Some id ->
  prop (req_query req) "include" = None ->
  fst (Stores.get_by_id rt req w) =
  match by_id stores id w with
  | [] => reply_error 404 "Store not found"
  | [r] => reply 200 (JObj [("item", JObj r)])
  | _ :: _ :: _ => reply_error 500 (message not_single)
  end.
Proof.
  intros C Hid Inc. unfold Stores.get_by_id. rewrite Hid. unfold bind.
  rewrite maybeSingle_by_id, (clean_fault _ _ C).
  unfold Stores.includes. rewrite Inc.
  destruct (by_id stores id w) as [|r [|r' l]]; reflexivity.
Qed.

(** C7.  DELETE of a restaurant or a store by id, on a sound backend and
    for a row that exists (and, for a restaurant, a caller allowed to
    write it): with hard=true the response is
    [{ok: true, deleted: "hard", id}] and the row is gone from the table
    for good, so that reading it by id gives 404; with hard omitted or
    anything but "true" the response is [{ok: true, deleted: "soft", id}],
    the row's is_active is false and every other field is as before, and
    reading it by id (whatever includeInactive says) returns it. *)
Theorem C7_delete_hard_or_soft :
  forall (rt : runtime) (req : request) (id : string) (w : world) (r : row),
    clean w ->
    Restaurants.IdSchema rt (param req "id") = Some id ->
    (keyed users w -> keyed restaurants w -> may_write req id w ->
     by_id restaurants id w = [r] ->
     (asks_hard req ->
      exists w',
        Restaurants.delete_by_id rt req w = (deleted_reply "hard" id, w') /\
        hard_deleted restaurants id w w' /\
        forall req', Restaurants.IdSchema rt (param req' "id") = Some id ->
          status (fst (Restaurants.get_by_id rt req' w')) = 404%Z)
     /\
     (asks_soft req ->
      exists w',
        Restaurants.delete_by_id rt req w = (deleted_reply "soft" id, w') /\
        soft_deleted restaurants id r w w' /\
        forall req', Restaurants.IdSchema rt (param req' "id") = Some id ->
          fst (Restaurants.get_by_id rt req' w')
          = reply 200 (JObj [("item", JObj (deactivate r))])))
    /\
    (by_id stores id w = [r] ->
     (asks_hard req ->
      exists w',
        Stores.delete_by_id rt req w = (deleted_reply "hard" id, w') /\
        hard_deleted stores id w w' /\
        forall req', Stores.IdSchema rt (param req' "id") = Some id ->
          prop (req_query req') "include" = None ->
          status (fst (Stores.get_by_id rt req' w')) = 404%Z)
     /\
     (asks_soft req ->
      exists w',
        Stores.delete_by_id rt req w = (deleted_reply "soft" id, w') /\
        soft_deleted stores id r w w' /\
        forall req', Stores.IdSchema rt (param req' "id") = Some id ->
          prop (req_query req') "include" = None ->
          fst (Stores.get_by_id rt req' w')
          = reply 200 (JObj [("item", JObj (deactivate r))]))).
Proof.
  intros rt req id w r C Hid. split.
  - intros KU KR G E.
    destruct (restaurants_delete rt req id w r C KU KR Hid G E) as [Hh Hs].
    split; intros A.
    + destruct (Hh A) as [w' [D [C' HD]]]. exists w'. repeat split; try assumption.
      * apply HD.
      * apply HD.
      * intros req' Hid'. rewrite (restaurants_get_by_id rt req' id w' C' Hid').
        destruct HD as [_ ->]. reflexivity.
    + destruct (Hs A) as [w' [D [C' HD]]]. exists w'. split; [exact D|].
      split; [exact HD|].
      intros req' Hid'. rewrite (restaurants_get_by_id rt req' id w' C' Hid').
      destruct HD as [_ [-> _]]. reflexivity.
  - intros E.
    destruct (stores_delete rt req id w r C Hid E) as [Hh Hs].
    split; intros A.
    + destruct (Hh A) as [w' [D [C' HD]]]. exists w'. repeat split; try assumption.
      * apply HD.
      * apply HD.
      * intros req' Hid' Inc.
        rewrite (stores_get_by_id rt req' id w' C' Hid' Inc).
        destruct HD as [_ ->]. reflexivity.
    + destruct (Hs A) as [w' [D [C' HD]]]. exists w'. split; [exact D|].
      split; [exact HD|].
      intros req' Hid' Inc.
      rewrite (stores_get_by_id rt req' id w' C' Hid' Inc).
      destruct HD as [_ [-> _]]. reflexivity.
Qed.

(* ===================================================================== *)
(** * The list endpoints                                                 *)
(* ===================================================================== *)

Lemma Qltb_iff x y : Qltb x y = true <-> x < y.
Proof.
  unfold Qltb. rewrite negb_true_iff. split.
  - intros H. apply Qnot_le_lt. intros L.
    apply Qle_bool_iff in L. congruence.
  - intros H. destruct (Qle_bool y x) eqn:E; [|reflexivity].
    apply Qle_bool_iff in E. exfalso. exact (Qlt_not_le _ _ H E).
Qed.

Lemma limit_ok_iff n :
  Restaurants.limit_ok n = true <-> limit_in_bounds n.
Proof.
  unfold Restaurants.limit_ok, limit_in_bounds, gt, le, lt, of_Z.
  destruct n as [|s|q]; cbn.
  - split; [discriminate|]. intros [q [H _]]. discriminate.
  - split; [discriminate|]. intros [q [H _]]. discriminate.
  - rewrite !andb_true_iff, Qltb_iff, Qle_bool_iff. split.
    + intros [H1 H2]. exists q. repeat split; assumption.
    + intros [q' [[= <-] [H1 H2]]]. split; assumption.
Qed.

Lemma offset_ok_iff n :
  Restaurants.offset_ok n = true <-> offset_in_bounds n.
Proof.
  unfold Restaurants.offset_ok, offset_in_bounds, ge, le, of_Z.
  destruct n as [|s|q]; cbn.
  - split; [discriminate|]. intros [q [H _]]. discriminate.
  - split; [discriminate|]. intros [q [H _]]. discriminate.
  - rewrite Qle_bool_iff. split.
    + intros H. exists q. split; [reflexivity|assumption].
    + intros [q' [[= <-] H]]. assumption.
Qed.

Lemma refine_Some {A} (p : A -> bool) (s : Zod.schema A) v a :
  Zod.refine p s v = Some a -> s v = Some a /\ p a = true.
Proof.
  unfold Zod.refine. destruct (s v) as [x|]; [|discriminate].
  destruct (p x) eqn:E; [|discriminate]. intros [= <-]. auto.
Qed.

(** What the schema makes of a limit or an offset. *)
Lemma number_param_Some rt d v n :
  Zod.transform (Restaurants.number_or rt d) (Zod.optional (Zod.string_ rt [])) v
  = Some n -> param_number rt d v n.
Proof.
  unfold Zod.transform, Zod.optional, Zod.string_, param_number.
  destruct v as [[| | | s | |]|]; cbn; try discriminate.
  - intros [= <-]. destruct (String.eqb s EmptyString) eqn:E; cbn.
    + apply String.eqb_eq in E. subst. right. left. split; reflexivity.
    + right. right. exists s. repeat split.
      intros ->. discriminate.
  - intros [= <-]. left. split; reflexivity.
Qed.

Lemma number_param_None rt d v :
  Zod.transform (Restaurants.number_or rt d) (Zod.optional (Zod.string_ rt [])) v
  = None -> exists j, v = Some j /\ forall s, j <> JStr s.
Proof.
  unfold Zod.transform, Zod.optional, Zod.string_.
  destruct v as [[| | | s | |]|]; cbn; try discriminate;
    intros _; eexists; (split; [reflexivity|]); discriminate.
Qed.

Lemma param_number_fun rt d v n n' :
  param_number rt d v n -> param_number rt d v n' -> n = n'.
Proof.
  unfold param_number.
  intros [[-> ->]|[[-> ->]|[s [-> [N ->]]]]] [[H ->]|[[H ->]|[s' [H [N' ->]]]]];
    try discriminate; try reflexivity; try congruence.
Qed.

Ltac schema_cases :=
  repeat match goal with
  | |- context [match ?x with Some _ => _ | None => _ end] =>
      destruct x eqn:?; try discriminate
  end.

(** What a successful parse of the restaurants list query tells. *)
Lemma restaurants_query_inv rt v p :
  Restaurants.ListQuerySchema rt v = Some p ->
  Zod.refine Restaurants.limit_ok
    (Zod.transform (Restaurants.number_or rt 20) (Zod.optional (Zod.string_ rt [])))
    (prop v "limit") = Some (Restaurants.lq_limit p) /\
  Zod.refine Restaurants.offset_ok
    (Zod.transform (Restaurants.number_or rt 0) (Zod.optional (Zod.string_ rt [])))
    (prop v "offset") = Some (Restaurants.lq_offset p) /\
  Zod.optional (Zod.enum ["active"; "inactive"]) (prop v "status")
    = Some (Restaurants.lq_status p) /\
  Zod.transform Restaurants.is_true (Zod.optional (Zod.string_ rt []))
    (prop v "includeInactive") = Some (Restaurants.lq_includeInactive p).
Proof.
  unfold Restaurants.ListQuerySchema.
  destruct v as [[| | | | |o]|]; try discriminate.
  schema_cases. intros [= <-]. cbn. auto.
Qed.

Lemma stores_query_inv rt v p :
  Stores.ListQuerySchema rt v = Some p ->
  Zod.refine Restaurants.limit_ok
    (Zod.transform (Restaurants.number_or rt 20) (Zod.optional (Zod.string_ rt [])))
    (prop v "limit") = Some (Stores.lq_limit p) /\
  Zod.refine Restaurants.offset_ok
    (Zod.transform (Restaurants.number_or rt 0) (Zod.optional (Zod.string_ rt [])))
    (prop v "offset") = Some (Stores.lq_offset p) /\
  Zod.optional (Zod.enum ["active"; "inactive"]) (prop v "status")
    = Some (Stores.lq_status p) /\
  Zod.transform Restaurants.is_true (Zod.optional (Zod.string_ rt []))
    (prop v "includeInactive") = Some (Stores.lq_includeInactive p).
Proof.
  unfold Stores.ListQuerySchema.
  destruct v as [[| | | | |o]|]; try discriminate.
  schema_cases. intros [= <-]. cbn. auto.
Qed.

(** A refused limit or offset makes the whole query invalid. *)
Lemma refused_refine rt d ok okb v :
  (forall n, okb n = true <-> ok n) ->
  refused rt d ok v ->
  Zod.refine okb
    (Zod.transform (Restaurants.number_or rt d) (Zod.optional (Zod.string_ rt [])))
    v = None.
Proof.
  intros Hok R.
  destruct (Zod.refine okb _ v) as [n|] eqn:E; [|reflexivity]. exfalso.
  apply refine_Some in E. destruct E as [E O].
  apply number_param_Some in E. apply Hok in O.
  destruct R as [[j [-> N]] | [n' [P N]]].
  - destruct E as [[H _]|[[H _]|[s [H _]]]]; try discriminate.
    + injection H as ->. now apply (N EmptyString).
    + injection H as ->. now apply (N s).
  - rewrite (param_number_fun _ _ _ _ _ P E) in N. contradiction.
Qed.

Lemma restaurants_query_refused rt v :
  refused rt 20 limit_in_bounds (prop v "limit") \/
  refused rt 0 offset_in_bounds (prop v "offset") ->
  Restaurants.ListQuerySchema rt v = None.
Proof.
  intros R.
  destruct (Restaurants.ListQuerySchema rt v) as [p|] eqn:E; [|reflexivity].
  exfalso. apply restaurants_query_inv in E. destruct E as [L [O _]].
  destruct R as [R|R].
  - rewrite (refused_refine rt 20 _ _ _ limit_ok_iff R) in L. discriminate.
  - rewrite (refused_refine rt 0 _ _ _ offset_ok_iff R) in O. discriminate.
Qed.

Lemma stores_query_refused rt v :
  refused rt 20 limit_in_bounds (prop v "limit") \/
  refused rt 0 offset_in_bounds (prop v "offset") ->
  Stores.ListQuerySchema rt v = None.
Proof.
  intros R.
  destruct (Stores.ListQuerySchema rt v) as [p|] eqn:E; [|reflexivity].
  exfalso. apply stores_query_inv in E. destruct E as [L [O _]].
  destruct R as [R|R].
  - rewrite (refused_refine rt 20 _ _ _ limit_ok_iff R) in L. discriminate.
  - rewrite (refused_refine rt 0 _ _ _ offset_ok_iff R) in O. discriminate.
Qed.

(** ** Whole numbers *)

Lemma Qred_inject_Z z : Qred (inject_Z z) = inject_Z z.
Proof.
  unfold inject_Z, Qred.
  pose proof (Z.ggcd_correct_divisors z 1) as D.
  pose proof (Z.ggcd_gcd z 1) as G.
  destruct (Z.ggcd z 1) as [g [aa bb]]. cbn in G.
  rewrite Z.gcd_1_r in G. subst g. destruct D as [D1 D2].
  rewrite !Z.mul_1_l in *. subst. reflexivity.
Qed.

Lemma to_integer_Some q z : to_integer (Finite q) = Some z <-> q == inject_Z z.
Proof.
  unfold to_integer. cbv zeta. split.
  - destruct (Pos.eqb (Qden (Qred q)) 1) eqn:E; [|discriminate].
    intros [= <-]. apply Pos.eqb_eq in E.
    rewrite <- (Qred_correct q) at 1.
    destruct (Qred q) as [n d]. cbn in *. subst d. reflexivity.
  - intros H. apply Qred_complete in H. rewrite H.
    rewrite Qred_inject_Z. reflexivity.
Qed.

Lemma to_integer_window a l (x y : Q) :
  to_integer (Finite x) = Some a ->
  to_integer (Finite y) = Some l ->
  to_integer (sub (add (Finite x) (Finite y)) (of_Z 1)) = Some (a + l - 1)%Z.
Proof.
  rewrite !to_integer_Some. intros Hx Hy.
  change (sub (add (Finite x) (Finite y)) (of_Z 1))
    with (Finite (x + y + - inject_Z 1)).
  apply to_integer_Some.
  rewrite Hx, Hy. unfold Z.sub. rewrite !inject_Z_plus, inject_Z_opp. reflexivity.
Qed.

(** ** Queries *)

Lemma extends_refl q : extends q q.
Proof. unfold extends. repeat split. exists []. now rewrite app_nil_r. Qed.

Lemma extends_trans q1 q2 q3 : extends q1 q2 -> extends q2 q3 -> extends q1 q3.
Proof.
  unfold extends. intros [A1 [A2 [A3 [A4 [f1 A5]]]]] [B1 [B2 [B3 [B4 [f2 B5]]]]].
  repeat split; try congruence.
  exists (f1 ++ f2). rewrite B5, A5. now rewrite app_assoc.
Qed.

Lemma extends_where f q : extends q (where_ f q).
Proof. unfold extends, where_. cbn. repeat split. now exists [f]. Qed.

Lemma In_extends f q q' :
  extends q q' -> In f (q_filters q) -> In f (q_filters q').
Proof.
  intros [_ [_ [_ [_ [fs E]]]]] H. rewrite E. apply in_or_app. now left.
Qed.

Lemma restaurants_when {A} (o : option A) g q0 q :
  (forall a q, extends q (g a q)) ->
  extends q0 q -> extends q0 (Restaurants.when o g q).
Proof.
  intros G E. destruct o as [a|]; cbn; [|exact E].
  eapply extends_trans; [exact E|apply G].
Qed.

Lemma stores_when {A} (o : option A) g q0 q :
  (forall a q, extends q (g a q)) ->
  extends q0 q -> extends q0 (Stores.when o g q).
Proof.
  intros G E. destruct o as [a|]; cbn; [|exact E].
  eapply extends_trans; [exact E|apply G].
Qed.

Ltac filters_extend :=
  repeat (first [ apply restaurants_when | apply stores_when ];
          [intros; apply extends_where|]).

Lemma restaurants_filters_active p q :
  Restaurants.lq_includeInactive p = false ->
  Restaurants.lq_status p = None ->
  In (FEq "is_active" (JBool true)) (q_filters (Restaurants.list_filters p q)).
Proof.
  intros I S. unfold Restaurants.list_filters. cbv zeta. rewrite I, S. cbn [negb andb option_map truthy].
  eapply In_extends with (q := eq_ "is_active" (JBool true) q).
  - unfold eq_, ilike_, or_. filters_extend. apply extends_refl.
  - unfold eq_, where_. cbn. apply in_or_app. right. now left.
Qed.

Lemma restaurants_filters_extend p q : extends q (Restaurants.list_filters p q).
Proof.
  unfold Restaurants.list_filters. cbv zeta. unfold eq_, ilike_, or_.
  filters_extend.
  destruct (_ && _)%bool; [apply extends_where|apply extends_refl].
Qed.

Lemma stores_filters_active p q :
  Stores.lq_includeInactive p = false ->
  Stores.lq_status p = None ->
  In (FEq "is_active" (JBool true)) (q_filters (Stores.list_filters p q)).
Proof.
  intros I S. unfold Stores.list_filters. cbv zeta. rewrite I, S. cbn [negb andb option_map truthy].
  eapply In_extends with (q := eq_ "is_active" (JBool true) q).
  - unfold eq_, ilike_, or_, contains. filters_extend. apply extends_refl.
  - unfold eq_, where_. cbn. apply in_or_app. right. now left.
Qed.

Lemma stores_filters_extend p q : extends q (Stores.list_filters p q).
Proof.
  unfold Stores.list_filters. cbv zeta. unfold eq_, ilike_, or_, contains.
  filters_extend.
  destruct (_ && _)%bool; [apply extends_where|apply extends_refl].
Qed.

Lemma map_project_all (l : list row) : map (project None) l = l.
Proof. apply map_id. Qed.

(** A query for whole rows that is ordered and then paged. *)
Lemma eval_page q keys from to rows :
  q_cols q = None -> q_order q = keys -> q_limit q = None ->
  eval (range from to q) rows =
  match window from to (order_by keys (matching (q_filters q) rows)) with
  | None => None
  | Some page => Some (page, List.length (matching (q_filters q) rows))
  end.
Proof.
  intros C O L. unfold eval, range. cbn. rewrite C, O, L.
  destruct (window from to _); [|reflexivity]. now rewrite map_project_all.
Qed.

Lemma restaurants_get_list rt req w :
  Restaurants.get_list rt req w =
  match Restaurants.ListQuerySchema rt (req_query req) with
  | None => (reply_error 400 "Invalid query", w)
  | Some p =>
      (if fault 0 w then reply_error 500 (message backend_failure)
       else listing (Restaurants.lq_limit p) (Restaurants.lq_offset p)
              (restaurants_ordered p w) (List.length (restaurants_hits p w)),
       advance [Select restaurants] w)
  end.
Proof.
  unfold Restaurants.get_list.
  destruct (Restaurants.ListQuerySchema rt (req_query req)) as [p|]; [|reflexivity].
  cbv zeta. unfold bind. rewrite run_step.
  destruct (fault 0 w); [reflexivity|].
  destruct (restaurants_filters_extend p (select None)) as [C [O [R [L _]]]].
  rewrite (eval_page _ [(Restaurants.lq_sort p,
                         String.eqb (Restaurants.lq_order p) "asc")]).
  - unfold listing, restaurants_ordered, restaurants_hits.
    destruct (window _ _ _); reflexivity.
  - cbn. exact C.
  - cbn. rewrite O. reflexivity.
  - cbn. exact L.
Qed.

Lemma stores_get_list rt req w :
  Stores.get_list rt req w =
  match Stores.ListQuerySchema rt (req_query req) with
  | None => (reply_error 400 "Invalid query", w)
  | Some p =>
      (if fault 0 w then reply_error 500 (message backend_failure)
       else listing (Stores.lq_limit p) (Stores.lq_offset p)
              (stores_ordered p w) (List.length (stores_hits p w)),
       advance [Select stores] w)
  end.
Proof.
  unfold Stores.get_list.
  destruct (Stores.ListQuerySchema rt (req_query req)) as [p|]; [|reflexivity].
  cbv zeta. unfold bind. rewrite run_step.
  destruct (fault 0 w); [reflexivity|].
  destruct (stores_filters_extend p (select None)) as [C [O [R [L _]]]].
  unfold listing, stores_ordered, stores_hits.
  destruct (negb (String.eqb (Stores.lq_sort p) "created_at")).
  - rewrite (eval_page _
               [(Stores.lq_sort p, String.eqb (Stores.lq_order p) "asc");
                ("created_at", false)]).
    + cbn [q_filters order]. destruct (window _ _ _); reflexivity.
    + cbn. exact C.
    + cbn. rewrite O. reflexivity.
    + cbn. exact L.
  - rewrite (eval_page _
               [(Stores.lq_sort p, String.eqb (Stores.lq_order p) "asc")]).
    + cbn [q_filters order]. destruct (window _ _ _); reflexivity.
    + cbn. exact C.
    + cbn. rewrite O. reflexivity.
    + cbn. exact L.
Qed.

Lemma to_integer_Finite n z : to_integer n = Some z -> exists q, n = Finite q.
Proof. destruct n; try discriminate. eauto. Qed.

Lemma listing_page limit offset ordered total :
  status (listing limit offset ordered total) = 200%Z ->
  exists page,
    body (listing limit offset ordered total) = Listing page limit offset total /\
    forall l o,
      to_integer limit = Some l -> to_integer offset = Some o ->
      page = page_of l o ordered.
Proof.
  unfold listing, window.
  destruct (to_integer offset) as [a|] eqn:A; [|discriminate].
  destruct (to_integer (sub (add offset limit) (of_Z 1))) as [b|] eqn:B;
    [|discriminate].
  destruct (a <? 0)%Z; [discriminate|].
  destruct (Z.of_nat (List.length ordered) <? a)%Z; [discriminate|]. intros _.
  eexists. split; [reflexivity|].
  intros l o Hl [= <-].
  destruct (to_integer_Finite _ _ Hl) as [y ->].
  destruct (to_integer_Finite _ _ A) as [x ->].
  rewrite (to_integer_window a l x y A Hl) in B. injection B as <-.
  unfold page_of. f_equal. f_equal. lia.
Qed.

Lemma param_bounds rt d okb ok v n :
  (forall n, okb n = true <-> ok n) ->
  Zod.refine okb
    (Zod.transform (Restaurants.number_or rt d) (Zod.optional (Zod.string_ rt [])))
    v = Some n ->
  ok n /\ (v = None -> n = of_Z d).
Proof.
  intros Hok E. apply refine_Some in E. destruct E as [E O]. split.
  - now apply Hok.
  - intros ->. cbn in E. now injection E as <-.
Qed.

Lemma insert_by_length keys x l :
  List.length (insert_by keys x l) = S (List.length l).
Proof.
  induction l as [|y l IH]; [reflexivity|].
  cbn [insert_by]. destruct (compare_rows keys x y); cbn [List.length];
    try reflexivity. now rewrite IH.
Qed.

Lemma order_by_length keys l : List.length (order_by keys l) = List.length l.
Proof.
  unfold order_by. induction l as [|x l IH]; [reflexivity|].
  cbn [fold_right]. now rewrite insert_by_length, IH.
Qed.

Lemma insert_by_perm keys x l : Permutation (insert_by keys x l) (x :: l).
Proof.
  induction l as [|y l IH]; [apply Permutation_refl|].
  cbn [insert_by]. destruct (compare_rows keys x y); try apply Permutation_refl.
  eapply perm_trans; [apply perm_skip, IH|apply perm_swap].
Qed.

Lemma order_by_perm keys l : Permutation (order_by keys l) l.
Proof.
  unfold order_by. induction l as [|x l IH]; [apply perm_nil|].
  cbn [fold_right]. eapply perm_trans; [apply insert_by_perm|].
  now apply perm_skip.
Qed.

(** A whole offset within the count, and a whole limit: the page. *)
Lemma listing_ok limit offset ordered total l o :
  to_integer limit = Some l -> to_integer offset = Some o ->
  (0 <= o)%Z -> (o <= Z.of_nat (List.length ordered))%Z ->
  listing limit offset ordered total
  = {| status := 200;
       body := Listing (page_of l o ordered) limit offset total |}.
Proof.
  intros Hl Ho P B. unfold listing, window. rewrite Ho.
  destruct (to_integer_Finite _ _ Hl) as [y ->].
  destruct (to_integer_Finite _ _ Ho) as [x ->].
  rewrite (to_integer_window o l x y Ho Hl).
  destruct (o <? 0)%Z eqn:E; [apply Z.ltb_lt in E; lia|].
  destruct (Z.of_nat (List.length ordered) <? o)%Z eqn:F;
    [apply Z.ltb_lt in F; lia|].
  unfold page_of. do 3 f_equal. lia.
Qed.

Lemma offset_whole n o :
  offset_in_bounds n -> to_integer n = Some o -> (0 <= o)%Z.
Proof.
  intros [q [-> H]] T. apply to_integer_Some in T. rewrite T in H.
  change (inject_Z 0 <= inject_Z o) in H. now rewrite Zle_Qle.
Qed.

(** C5.  For GET /api/restaurants and GET /api/stores: a query that
    validates has [0 < limit <= 100] and [offset >= 0], with limit 20
    and offset 0 when the parameter is left out; a limit or offset that
    is not a string, or whose number is outside these bounds, is answered
    400 with the world untouched, so before any access to the store; a
    200 answer carries the total count of the matching rows together
    with the page, which for a whole limit and offset is the window
    [[offset, offset + limit)] of the ordered result; and the answer is
    200, with that window and that count, whenever the query validates
    with a whole limit and a whole offset that is not beyond the count,
    and the read does not fail. *)
Theorem C5_pagination :
  forall (rt : runtime) (req : request) (w : world),
    ((forall p,
         Restaurants.ListQuerySchema rt (req_query req) = Some p ->
         limit_in_bounds (Restaurants.lq_limit p) /\
         offset_in_bounds (Restaurants.lq_offset p) /\
         (prop (req_query req) "limit" = None ->
          Restaurants.lq_limit p = of_Z 20) /\
         (prop (req_query req) "offset" = None ->
          Restaurants.lq_offset p = of_Z 0))
     /\
     (refused rt 20 limit_in_bounds (prop (req_query req) "limit") \/
      refused rt 0 offset_in_bounds (prop (req_query req) "offset") ->
      Restaurants.get_list rt req w = (reply_error 400 "Invalid query", w))
     /\
     (status (fst (Restaurants.get_list rt req w)) = 200%Z ->
      exists p page,
        Restaurants.ListQuerySchema rt (req_query req) = Some p /\
        body (fst (Restaurants.get_list rt req w))
        = Listing page (Restaurants.lq_limit p) (Restaurants.lq_offset p)
            (List.length (restaurants_hits p w)) /\
        forall l o,
          to_integer (Restaurants.lq_limit p) = Some l ->
          to_integer (Restaurants.lq_offset p) = Some o ->
          page = page_of l o (restaurants_ordered p w))
     /\
     (forall p l o,
         Restaurants.ListQuerySchema rt (req_query req) = Some p ->
         fault 0 w = false ->
         to_integer (Restaurants.lq_limit p) = Some l ->
         to_integer (Restaurants.lq_offset p) = Some o ->
         (o <= Z.of_nat (List.length (restaurants_hits p w)))%Z ->
         fst (Restaurants.get_list rt req w)
         = {| status := 200;
              body := Listing (page_of l o (restaurants_ordered p w))
                        (Restaurants.lq_limit p) (Restaurants.lq_offset p)
                        (List.length (restaurants_hits p w)) |}))
    /\
    ((forall p,
         Stores.ListQuerySchema rt (req_query req) = Some p ->
         limit_in_bounds (Stores.lq_limit p) /\
         offset_in_bounds (Stores.lq_offset p) /\
         (prop (req_query req) "limit" = None ->
          Stores.lq_limit p = of_Z 20) /\
         (prop (req_query req) "offset" = None ->
          Stores.lq_offset p = of_Z 0))
     /\
     (refused rt 20 limit_in_bounds (prop (req_query req) "limit") \/
      refused rt 0 offset_in_bounds (prop (req_query req) "offset") ->
      Stores.get_list rt req w = (reply_error 400 "Invalid query", w))
     /\
     (status (fst (Stores.get_list rt req w)) = 200%Z ->
      exists p page,
        Stores.ListQuerySchema rt (req_query req) = Some p /\
        body (fst (Stores.get_list rt req w))
        = Listing page (Stores.lq_limit p) (Stores.lq_offset p)
            (List.length (stores_hits p w)) /\
        forall l o,
          to_integer (Stores.lq_limit p) = Some l ->
          to_integer (Stores.lq_offset p) = Some o ->
          page = page_of l o (stores_ordered p w))
     /\
     (forall p l o,
         Stores.ListQuerySchema rt (req_query req) = Some p ->
         fault 0 w = false ->
         to_integer (Stores.lq_limit p) = Some l ->
         to_integer (Stores.lq_offset p) = Some o ->
         (o <= Z.of_nat (List.length (stores_hits p w)))%Z ->
         fst (Stores.get_list rt req w)
         = {| status := 200;
              body := Listing (page_of l o (stores_ordered p w))
                        (Stores.lq_limit p) (Stores.lq_offset p)
                        (List.length (stores_hits p w)) |})).
Proof.
  intros rt req w. split; (split; [|split; [|split]]).
  - intros p E. apply restaurants_query_inv in E. destruct E as [L [O _]].
    destruct (param_bounds rt 20 _ _ _ _ limit_ok_iff L) as [L1 L2].
    destruct (param_bounds rt 0 _ _ _ _ offset_ok_iff O) as [O1 O2].
    auto.
  - intros R. rewrite restaurants_get_list.
    now rewrite (restaurants_query_refused rt _ R).
  - rewrite restaurants_get_list.
    destruct (Restaurants.ListQuerySchema rt (req_query req)) as [p|];
      [|discriminate].
    cbn [fst]. destruct (fault 0 w); [discriminate|]. intros S.
    destruct (listing_page _ _ _ _ S) as [page [B W]].
    exists p, page. auto.
  - intros p l o E F Hl Ho B. rewrite restaurants_get_list, E, F. cbn [fst].
    apply restaurants_query_inv in E. destruct E as [_ [O _]].
    destruct (param_bounds rt 0 _ _ _ _ offset_ok_iff O) as [O1 _].
    apply listing_ok; [exact Hl|exact Ho|exact (offset_whole _ _ O1 Ho)|].
    unfold restaurants_ordered. now rewrite order_by_length.
  - intros p E. apply stores_query_inv in E. destruct E as [L [O _]].
    destruct (param_bounds rt 20 _ _ _ _ limit_ok_iff L) as [L1 L2].
    destruct (param_bounds rt 0 _ _ _ _ offset_ok_iff O) as [O1 O2].
    auto.
  - intros R. rewrite stores_get_list.
    now rewrite (stores_query_refused rt _ R).
  - rewrite stores_get_list.
    destruct (Stores.ListQuerySchema rt (req_query req)) as [p|];
      [|discriminate].
    cbn [fst]. destruct (fault 0 w); [discriminate|]. intros S.
    destruct (listing_page _ _ _ _ S) as [page [B W]].
    exists p, page. auto.
  - intros p l o E F Hl Ho B. rewrite stores_get_list, E, F. cbn [fst].
    apply stores_query_inv in E. destruct E as [_ [O _]].
    destruct (param_bounds rt 0 _ _ _ _ offset_ok_iff O) as [O1 _].
    apply listing_ok; [exact Hl|exact Ho|exact (offset_whole _ _ O1 Ho)|].
    unfold stores_ordered. now rewrite order_by_length.
Qed.

Lemma In_insert_by keys x y l : In x (insert_by keys y l) <-> x = y \/ In x l.
Proof.
  induction l as [|z l IH]; cbn.
  - intuition congruence.
  - destruct (compare_rows keys y z); cbn; rewrite ?IH; intuition congruence.
Qed.

Lemma In_order_by keys x l : In x (order_by keys l) <-> In x l.
Proof.
  unfold order_by. induction l as [|y l IH]; cbn; [reflexivity|].
  rewrite In_insert_by, IH. intuition congruence.
Qed.

Lemma In_firstn {A} n (x : A) l : In x (firstn n l) -> In x l.
Proof.
  revert l. induction n as [|n IH]; intros [|y l]; cbn; try tauto.
  intros [H|H]; auto.
Qed.

Lemma In_skipn {A} n (x : A) l : In x (skipn n l) -> In x l.
Proof.
  revert l. induction n as [|n IH]; intros [|y l]; cbn; try tauto.
  intros H. right. now apply IH.
Qed.

Lemma In_window from to l page x :
  window from to l = Some page -> In x page -> In x l.
Proof.
  unfold window.
  destruct (to_integer from); [|discriminate].
  destruct (to_integer to); [|discriminate].
  destruct (_ <? _)%Z; [discriminate|].
  destruct (_ <? _)%Z; [discriminate|]. intros [= <-] H.
  eapply In_skipn, In_firstn, H.
Qed.

Lemma In_matching fs x rs : In x (matching fs rs) -> satisfies fs x = true.
Proof. unfold matching. intros H. now apply filter_In in H. Qed.

Lemma satisfies_In fs f x : satisfies fs x = true -> In f fs -> holds f x = true.
Proof.
  unfold satisfies. rewrite forallb_forall. intros H I. now apply H.
Qed.

Lemma holds_active x : holds (FEq "is_active" (JBool true)) x = true -> is_active x.
Proof.
  unfold is_active. cbn.
  destruct (assoc "is_active" x) as [[| [|] | | | |]|]; try discriminate.
  reflexivity.
Qed.

Lemma In_listing limit offset keys fs rows total x :
  In (FEq "is_active" (JBool true)) fs ->
  In x (items_of (listing limit offset (order_by keys (matching fs rows)) total)) ->
  is_active x.
Proof.
  intros F. unfold listing, items_of.
  destruct (window _ _ _) as [page|] eqn:W; cbn; [|tauto].
  intros H. apply (In_window _ _ _ _ _ W), In_order_by, In_matching in H.
  apply holds_active. eapply satisfies_In; eassumption.
Qed.

Lemma active_only_parsed rt (v : value) status includeInactive :
  prop v "includeInactive" <> Some (JStr "true") ->
  prop v "status" = None ->
  Zod.optional (Zod.enum ["active"; "inactive"]) (prop v "status") = Some status ->
  Zod.transform Restaurants.is_true (Zod.optional (Zod.string_ rt []))
    (prop v "includeInactive") = Some includeInactive ->
  includeInactive = false /\ status = None.
Proof.
  intros NI -> S I. cbn in S. injection S as <-. split; [|reflexivity].
  unfold Zod.transform, Zod.optional, Zod.string_ in I.
  destruct (prop v "includeInactive") as [[| | | s | |]|]; cbn in I; try discriminate.
  - injection I as <-. destruct (String.eqb s "true") eqn:E; [|reflexivity].
    apply String.eqb_eq in E. subst. congruence.
  - now injection I as <-.
Qed.

(** C6.  A list call without includeInactive=true and without a status
    returns only rows whose is_active is true, for restaurants and for
    stores; the spotlight list returns only such rows whatever the
    query. *)
Theorem C6_lists_return_active_rows :
  forall (rt : runtime) (req : request) (w : world),
    (active_only req ->
     forall r, In r (items_of (fst (Restaurants.get_list rt req w))) ->
               is_active r)
    /\
    (active_only req ->
     forall r, In r (items_of (fst (Stores.get_list rt req w))) ->
               is_active r)
    /\
    (forall xs,
        body (fst (SpotLight.get_list req w)) = Json (JArr xs) ->
        forall x, In x xs -> exists r, x = JObj r /\ is_active r).
Proof.
  intros rt req w. split; [|split].
  - intros [NI NS] r. rewrite restaurants_get_list.
    destruct (Restaurants.ListQuerySchema rt (req_query req)) as [p|] eqn:E;
      [|cbn; tauto].
    cbn [fst]. destruct (fault 0 w); [cbn; tauto|].
    apply restaurants_query_inv in E. destruct E as [_ [_ [S I]]].
    destruct (active_only_parsed rt _ _ _ NI NS S I) as [I' S'].
    apply In_listing. now apply restaurants_filters_active.
  - intros [NI NS] r. rewrite stores_get_list.
    destruct (Stores.ListQuerySchema rt (req_query req)) as [p|] eqn:E;
      [|cbn; tauto].
    cbn [fst]. destruct (fault 0 w); [cbn; tauto|].
    apply stores_query_inv in E. destruct E as [_ [_ [S I]]].
    destruct (active_only_parsed rt _ _ _ NI NS S I) as [I' S'].
    apply In_listing. now apply stores_filters_active.
  - intros xs. unfold SpotLight.get_list. cbv zeta. unfold bind.
    rewrite run_step. destruct (fault 0 w); [discriminate|].
    set (q := if truthy _ then _ else _).
    assert (F : In (FEq "is_active" (JBool true)) (q_filters q)
                /\ q_range q = None /\ q_limit q = None /\ q_cols q = None).
    { subst q. destruct (truthy _); cbn; auto. }
    destruct F as [F [R [L C]]].
    unfold eval. rewrite R, L, C. cbn [ret fst body reply].
    intros [= <-] x H. rewrite map_project_all in H.
    apply in_map_iff in H. destruct H as [r [<- H]].
    exists r. split; [reflexivity|].
    apply In_order_by, In_matching in H.
    apply holds_active. eapply satisfies_In; eassumption.
Qed.

(* ===================================================================== *)
(** * Corporates: the admin guard and the employees column                *)
(* ===================================================================== *)

Lemma requireAdmin_steps req w :
  Restaurants.requireAdmin req w =
  match Restaurants.getBearerToken req with
  | None => (inl (reply_error 401 "Missing Authorization token"), w)
  | Some tok =>
      match (if fault 0 w then None else assoc tok (w_sessions w)) with
      | None => (inl (reply_error 401 "Invalid session"), advance [GetUser] w)
      | Some uid =>
          (match (if fault 1 w then Error backend_failure
                  else registry_role uid w) with
           | Error e => inl (reply_error 500 (message e))
           | Data role =>
               if Restaurants.isAdminRole role
               then inr {| Restaurants.sb := tok; Restaurants.callerId := uid;
                           Restaurants.role := or_else role JNull |}
               else inl (reply_error 403 "Access denied")
           end, advance [GetUser; Select users] w)
      end
  end.
Proof.
  unfold Restaurants.requireAdmin, Restaurants.requireAuth,
    Restaurants.supabaseAuthed, bind.
  destruct (Restaurants.getBearerToken req) as [tok|]; [|reflexivity].
  rewrite getUser_step.
  destruct (fault 0 w); [reflexivity|].
  destruct (assoc tok (w_sessions w)) as [uid|]; [|reflexivity].
  cbn [ret Restaurants.auth_sb Restaurants.auth_user_id].
  unfold Restaurants.getCallerRole.
  rewrite maybeSingle_by_id, fault_advance, advance_advance.
  cbn [app List.length Nat.add].
  destruct (fault 1 w); [reflexivity|].
  unfold registry_role.
  change (by_id users uid (advance [GetUser] w)) with (by_id users uid w).
  destruct (by_id users uid w) as [|r [|r' l]]; cbn [ret option_map prop];
    try reflexivity.
  rewrite assoc_project by reflexivity.
  destruct (Restaurants.isAdminRole (assoc "role" r)) eqn:A.
  - unfold Restaurants.isAdminRole in A. apply orb_true_iff in A.
    destruct A as [A|A]; apply is_string_true in A; rewrite A; reflexivity.
  - rewrite orb_true_r. reflexivity.
Qed.

(** The admin guard never writes, and refuses with 401, 403 or 500. *)
Lemma requireAdmin_refuses req w r w' :
  Restaurants.requireAdmin req w = (inl r, w') ->
  w_db w' = w_db w /\ (status r = 401 \/ status r = 403 \/ status r = 500)%Z.
Proof.
  rewrite requireAdmin_steps.
  destruct (Restaurants.getBearerToken req) as [tok|].
  2:{ intros [= <- <-]. cbn. auto. }
  destruct (if fault 0 w then None else assoc tok (w_sessions w)) as [uid|].
  2:{ intros [= <- <-]. cbn. auto. }
  destruct (if fault 1 w then Error backend_failure else registry_role uid w)
    as [role|e].
  2:{ intros [= <- <-]. cbn. auto. }
  destruct (Restaurants.isAdminRole role); [discriminate|].
  intros [= <- <-]. cbn. auto.
Qed.


Lemma admin_grants req w :
  clean w -> keyed users w -> is_admin req w ->
  exists c, Restaurants.requireAdmin req w
            = (inr c, advance [GetUser; Select users] w).
Proof.
  intros C K [uid [I A]]. rewrite requireAdmin_steps.
  unfold identity in I. rewrite !(clean_fault _ _ C).
  destruct (Restaurants.getBearerToken req) as [tok|]; [|discriminate].
  rewrite I. unfold registry_role. unfold role_of in A.
  destruct (keyed_by_id users w uid K) as [E | [r E]]; rewrite E in *.
  - discriminate.
  - rewrite A. eauto.
Qed.

Lemma update_single_by_id t k x cid cols corp w :
  unique_columns t = [] ->
  k <> "id" ->
  fault 0 w = false ->
  by_id t cid w = [corp] ->
  update_single t [(k, x)] [FEq "id" (JStr cid)] cols w =
  (Data (project cols (written k x corp)),
   set_db
     (with_rows t
        (map (fun r => if satisfies [FEq "id" (JStr cid)] r
                       then written k x r else r) (w_db w t))
        (w_db w))
     (advance [Update t] w)).
Proof.
  intros U N F E. unfold update_single, bind.
  rewrite update_step, F by (unfold update_repeats; now rewrite U).
  unfold by_id in E. rewrite E. reflexivity.
Qed.

Lemma employees_written_intro cid corp es w w1 :
  by_id corporate cid w = [corp] ->
  w_sessions w1 = w_sessions w ->
  employees_written cid corp es w
    (set_db
       (with_rows corporate
          (map (fun r => if satisfies [FEq "id" (JStr cid)] r
                         then written "employees" (JArr es) r else r)
             (w_db w corporate))
          (w_db w)) w1).
Proof.
  intros E S. unfold employees_written.
  refine (conj _ (conj _ (conj _ (conj _ (conj _ S))))).
  - cbn [w_db set_db]. now rewrite with_rows_same.
  - unfold by_id. cbn [w_db set_db]. rewrite with_rows_same.
    change (fun r => if satisfies [FEq "id" (JStr cid)] r
                     then written "employees" (JArr es) r else r)
      with (fun r => if satisfies [FEq "id" (JStr cid)] r
                     then assign_all [("employees", JArr es)] r else r).
    rewrite matching_written by discriminate. unfold by_id in E. now rewrite E.
  - unfold Corporates.employees_of, written. now rewrite assoc_assign_same.
  - intros k N. apply assoc_assign_other. congruence.
  - intros t N. cbn [w_db set_db]. apply with_rows_other. congruence.
Qed.

Lemma employees_of_project cols corp :
  existsb (String.eqb "employees") cols = true ->
  Corporates.employees_of (project (Some cols) corp) = Corporates.employees_of corp.
Proof.
  intros H. unfold Corporates.employees_of. now rewrite assoc_project.
Qed.

Lemma without_idem userId es : without userId (without userId es) = without userId es.
Proof.
  unfold without. induction es as [|e es IH]; [reflexivity|].
  cbn [List.filter].
  destruct (negb (String.eqb (Corporates.uid_of e) userId)) eqn:E; cbn [List.filter].
  - rewrite E. now rewrite IH.
  - exact IH.
Qed.

Lemma without_absent userId es :
  (forall e, In e es -> Corporates.uid_of e <> userId) -> without userId es = es.
Proof.
  unfold without. induction es as [|e es IH]; [reflexivity|]. intros H.
  cbn [List.filter].
  destruct (String.eqb (Corporates.uid_of e) userId) eqn:E.
  - apply String.eqb_eq in E. exfalso. apply (H e); [now left|exact E].
  - cbn. rewrite IH; [reflexivity|]. intros x I. apply H. now right.
Qed.

Lemma In_without userId e es :
  In e (without userId es) <-> In e es /\ Corporates.uid_of e <> userId.
Proof.
  unfold without. rewrite filter_In, negb_true_iff.
  split; intros [H1 H2]; split; try assumption.
  - intros U. rewrite U, String.eqb_refl in H2. discriminate.
  - destruct (String.eqb _ _) eqn:E; [|reflexivity].
    apply String.eqb_eq in E. contradiction.
Qed.

(** Removal on a sound backend, by an admin, from a corporate that
    exists. *)
Lemma remove_employee_clean rt req w cid userId corp :
  clean w -> keyed users w -> is_admin req w ->
  Corporates.RemoveEmployeeParamSchema rt req = Some (cid, userId) ->
  by_id corporate cid w = [corp] ->
  exists res w',
    Corporates.remove_employee rt req w = (res, w') /\
    status res = 200%Z /\
    clean w' /\
    employees_written cid corp (without userId (Corporates.employees_of corp)) w w'.
Proof.
  intros C K A P E.
  destruct (admin_grants req w C K A) as [c G].
  unfold Corporates.remove_employee. rewrite P. unfold bind.
  unfold Corporates.requireAdmin. rewrite G.
  rewrite single_by_id, (clean_fault _ _ (clean_advance _ _ C)).
  rewrite by_id_advance, E.
  rewrite (update_single_by_id corporate "employees" _ cid _ corp _ eq_refl).
  - rewrite employees_of_project by reflexivity.
    eexists. eexists. split; [reflexivity|].
    split; [reflexivity|]. split.
    + apply clean_set_db. now repeat apply clean_advance.
    + now apply (employees_written_intro cid corp _ w).
  - discriminate.
  - apply clean_fault. now repeat apply clean_advance.
  - exact E.
Qed.

Lemma uid_of_string e u :
  prop (Some e) "user_id" = Some (JStr u) -> Corporates.uid_of e = u.
Proof.
  unfold Corporates.uid_of. intros ->. cbn.
  destruct (String.eqb u EmptyString) eqn:E; cbn; [|reflexivity].
  apply String.eqb_eq in E. now subst.
Qed.

Lemma is_admin_transfer req w w' :
  w_db w' users = w_db w users -> w_sessions w' = w_sessions w ->
  is_admin req w -> is_admin req w'.
Proof.
  intros D S [uid [I A]]. exists uid.
  unfold identity, role_of, by_id in *. now rewrite D, S.
Qed.

Lemma keyed_transfer t w w' : w_db w' t = w_db w t -> keyed t w -> keyed t w'.
Proof. unfold keyed. now intros ->. Qed.

Lemma without_by_text userId es :
  (forall e, In e es -> exists u, prop (Some e) "user_id" = Some (JStr u)) ->
  without userId es = List.filter (fun e => negb (user_id_is userId e)) es.
Proof.
  intros T. unfold without. apply filter_ext_in. intros e I.
  destruct (T e I) as [u U]. unfold user_id_is.
  now rewrite (uid_of_string e u U), U.
Qed.

Lemma holds_employees_of corp es :
  holds_employees corp es -> Corporates.employees_of corp = es.
Proof.
  unfold Corporates.employees_of. intros [E|[N ->]]; [now rewrite E|].
  destruct (assoc "employees" corp) as [[| | | |xs|]|]; try reflexivity.
  now destruct (N xs).
Qed.

(** C8.  DELETE /api/corporates/:id/employees/:userId, on a sound
    backend, by an admin, for a corporate that exists and whose
    employees column holds entries with text user_ids: the request
    answers 200, and the employees column is written back as the list
    it held without the entries whose user_id is the given one, in the
    order they had, nothing else of the row or of the other rows
    changing; the request succeeds whether or not such an entry exists,
    and when none does the list is written back as it was; a second
    removal of the same user_id writes the same list again. *)
Theorem C8_remove_employee :
  forall (rt : runtime) (req : request) (w : world)
         (cid userId : string) (corp : row) (es : list json),
    clean w -> keyed users w -> is_admin req w ->
    Corporates.RemoveEmployeeParamSchema rt req = Some (cid, userId) ->
    by_id corporate cid w = [corp] ->
    holds_employees corp es ->
    (forall e, In e es -> exists u, prop (Some e) "user_id" = Some (JStr u)) ->
    let kept := List.filter (fun e => negb (user_id_is userId e)) es in
    exists res w',
      Corporates.remove_employee rt req w = (res, w') /\
      status res = 200%Z /\
      employees_written cid corp kept w w' /\
      (exists corp',
          by_id corporate cid w' = [corp'] /\
          assoc "employees" corp' = Some (JArr kept) /\
          forall k, k <> "employees" -> assoc k corp' = assoc k corp) /\
      (forall e, In e kept <->
                 In e es /\ prop (Some e) "user_id" <> Some (JStr userId)) /\
      ((forall e, In e es -> prop (Some e) "user_id" <> Some (JStr userId)) ->
       kept = es) /\
      (exists res2 w'',
          Corporates.remove_employee rt req w' = (res2, w'') /\
          status res2 = 200%Z /\
          employees_written cid (written "employees" (JArr kept) corp) kept w' w'' /\
          exists corp'',
            by_id corporate cid w'' = [corp''] /\
            assoc "employees" corp'' = Some (JArr kept)).
Proof.
  intros rt req w cid userId corp es C K A P E HE T kept.
  assert (Q : forall e, In e es ->
                (user_id_is userId e = true
                 <-> prop (Some e) "user_id" = Some (JStr userId))).
  { intros e I. destruct (T e I) as [u U]. unfold user_id_is. rewrite U.
    rewrite String.eqb_eq. split; congruence. }
  destruct (remove_employee_clean rt req w cid userId corp C K A P E)
    as [res [w' [R [S [C' W]]]]].
  rewrite (holds_employees_of corp es HE), (without_by_text userId es T) in W.
  fold kept in W.
  exists res, w'.
  refine (conj R (conj S (conj W (conj _ (conj _ (conj _ _)))))).
  - exists (written "employees" (JArr kept) corp).
    split; [apply W|]. split; [apply assoc_assign_same|].
    intros k N. apply assoc_assign_other. congruence.
  - intros e. unfold kept. rewrite filter_In. split.
    + intros [I N]. split; [exact I|]. intros H. apply (Q e I) in H.
      rewrite H in N. discriminate.
    + intros [I N]. split; [exact I|].
      destruct (user_id_is userId e) eqn:U; [|reflexivity].
      apply (Q e I) in U. now destruct N.
  - intros N. unfold kept. rewrite <- (without_by_text userId es T).
    apply without_absent. intros e I H. apply (N e I).
    destruct (T e I) as [u U]. rewrite U. f_equal. f_equal.
    now rewrite <- (uid_of_string e u U).
  - destruct W as [_ [E' [EO [_ [O SS]]]]].
    assert (U : w_db w' users = w_db w users) by (apply O; discriminate).
    destruct (remove_employee_clean rt req w' cid userId _ C'
                (keyed_transfer users w w' U K)
                (is_admin_transfer req w w' U SS A) P E')
      as [res2 [w'' [R2 [S2 [_ W2]]]]].
    exists res2, w''. split; [exact R2|]. split; [exact S2|].
    rewrite EO in W2. unfold kept in *.
    rewrite <- (without_by_text userId es T) in *.
    rewrite without_idem in W2. split; [exact W2|].
    eexists. split; [apply W2|]. apply assoc_assign_same.
Qed.

(* ===================================================================== *)
(** * A [Map] keyed by strings                                           *)
(* ===================================================================== *)

Section StringMap.
Context {V : Type}.
Abbreviation smap := (JsMap.t (K := string) (V := V)).
Abbreviation sget := (JsMap.get (V := V) String.eqb).
Abbreviation shas := (JsMap.has (V := V) String.eqb).
Abbreviation sset := (JsMap.set (V := V) String.eqb).

Lemma sget_set k k' v (m : smap) :
  sget k' (sset k v m) = if String.eqb k k' then Some v else sget k' m.
Proof.
  induction m as [|[k0 v0] m IH]; cbn.
  - now rewrite (String.eqb_sym k' k).
  - destruct (String.eqb k k0) eqn:E; cbn.
    + apply String.eqb_eq in E. subst k0.
      rewrite (String.eqb_sym k' k). destruct (String.eqb k k'); reflexivity.
    + destruct (String.eqb k' k0) eqn:E'.
      * apply String.eqb_eq in E'. subst k0. now rewrite E.
      * exact IH.
Qed.

Lemma shas_In k (m : smap) : shas k m = true <-> In k (JsMap.keys m).
Proof.
  unfold JsMap.has, JsMap.keys. induction m as [|[k0 v0] m IH]; cbn.
  - split; [discriminate|tauto].
  - destruct (String.eqb k k0) eqn:E.
    + apply String.eqb_eq in E. subst. tauto.
    + rewrite IH. split; [tauto|]. intros [H|H]; [|exact H].
      subst. rewrite String.eqb_refl in E. discriminate.
Qed.

Lemma sset_fresh k v (m : smap) : shas k m = false -> sset k v m = m ++ [(k, v)].
Proof.
  unfold JsMap.has. induction m as [|[k0 v0] m IH]; cbn; [reflexivity|].
  destruct (String.eqb k k0); [discriminate|]. intros H. now rewrite IH.
Qed.

Lemma skeys_set k v (m : smap) :
  JsMap.keys (sset k v m)
  = if shas k m then JsMap.keys m else JsMap.keys m ++ [k].
Proof.
  unfold JsMap.has, JsMap.keys. induction m as [|[k0 v0] m IH]; cbn; [reflexivity|].
  destruct (String.eqb k k0) eqn:E; cbn; [reflexivity|].
  rewrite IH. destruct (JsMap.get String.eqb k m); reflexivity.
Qed.

Lemma shas_set k k' v (m : smap) :
  shas k' (sset k v m) = (String.eqb k k' || shas k' m)%bool.
Proof.
  unfold JsMap.has. rewrite sget_set. destruct (String.eqb k k'); reflexivity.
Qed.

Lemma NoDup_keys_set k v (m : smap) :
  NoDup (JsMap.keys m) -> NoDup (JsMap.keys (sset k v m)).
Proof.
  intros N. rewrite skeys_set. destruct (shas k m) eqn:E; [exact N|].
  apply NoDup_app; [exact N|repeat constructor; cbn; tauto|].
  intros x I [<-|[]]. apply shas_In in I. congruence.
Qed.

Lemma In_set kv k v (m : smap) :
  In kv (sset k v m) -> kv = (k, v) \/ In kv m.
Proof.
  induction m as [|[k0 v0] m IH]; cbn.
  - intros [H|[]]. now left.
  - destruct (String.eqb k k0) eqn:E; cbn.
    + apply String.eqb_eq in E. subst. intros [H|H]; auto.
    + intros [H|H]; auto. destruct (IH H); auto.
Qed.

Lemma sget_None k (m : smap) : sget k m = None <-> ~ In k (JsMap.keys m).
Proof.
  rewrite <- shas_In. unfold JsMap.has.
  destruct (sget k m); split; try congruence; try discriminate.
Qed.

(** Two maps with the same keys in the same order and the same value at
    every key are the same map. *)
Lemma smap_ext (m m' : smap) :
  NoDup (JsMap.keys m) ->
  JsMap.keys m = JsMap.keys m' ->
  (forall k, sget k m = sget k m') ->
  m = m'.
Proof.
  revert m'. induction m as [|[k v] m IH]; intros [|[k' v'] m'] N K G;
    try discriminate; [reflexivity|].
  cbn in K. injection K as <- K. inversion N as [|? ? N1 N2]; subst.
  pose proof (G k) as Gk. cbn in Gk. rewrite String.eqb_refl in Gk.
  injection Gk as <-. f_equal. apply IH; [exact N2|exact K|].
  intros k2. specialize (G k2). cbn in G.
  destruct (String.eqb k2 k) eqn:E; [|exact G].
  apply String.eqb_eq in E. subst k2.
  transitivity (@None V); [|symmetry]; apply sget_None; [exact N1|].
  change (map fst m') with (JsMap.keys m') in K.
  change (map fst m) with (JsMap.keys m) in K. now rewrite <- K.
Qed.

End StringMap.

(* ===================================================================== *)
(** * The employee merge                                                 *)
(* ===================================================================== *)

Lemma uid_of_entry emp t :
  Corporates.uid_of (Corporates.entry emp t) = Corporates.str emp "user_id".
Proof.
  unfold Corporates.uid_of, Corporates.entry. cbn.
  destruct (String.eqb (Corporates.str emp "user_id") EmptyString) eqn:E; cbn;
    [|reflexivity].
  apply String.eqb_eq in E. now rewrite E.
Qed.

Lemma tidy_nil : tidy [].
Proof. split; [constructor|]. intros k v []. Qed.

Lemma tidy_set k v m : tidy m -> Corporates.uid_of v = k -> tidy (JsMap.set String.eqb k v m).
Proof.
  intros [N U] E. split; [now apply NoDup_keys_set|].
  intros k' v' I. apply In_set in I. destruct I as [[= -> ->]|I]; auto.
Qed.

Lemma load_existing_tidy_from existing m :
  tidy m ->
  tidy (fold_left
          (fun m e =>
             if truthy (Some (JStr (Corporates.uid_of e)))
             then JsMap.set String.eqb (Corporates.uid_of e) e m else m)
          existing m).
Proof.
  revert m. induction existing as [|e es IH]; intros m T; cbn [fold_left];
    [exact T|].
  apply IH. destruct (truthy _); [|exact T]. now apply tidy_set.
Qed.

Lemma load_existing_tidy existing : tidy (Corporates.load_existing existing).
Proof. apply load_existing_tidy_from, tidy_nil. Qed.

Lemma merge_at_tidy rt clock tick incoming m :
  tidy m -> tidy (merge_at rt clock tick incoming m).
Proof.
  revert tick m. induction incoming as [|emp rest IH]; intros tick m T;
    cbn [merge_at]; [exact T|].
  apply IH, tidy_set; [exact T|apply uid_of_entry].
Qed.

Lemma tidy_uids m : tidy m -> map Corporates.uid_of (JsMap.values m) = JsMap.keys m.
Proof.
  intros [_ U]. unfold JsMap.values, JsMap.keys.
  induction m as [|[k v] m IH]; cbn; [reflexivity|].
  rewrite (U k v) by now left. f_equal. apply IH.
  intros k' v' I. apply U. now right.
Qed.

Lemma sget_merge_at rt clock tick k incoming m :
  JsMap.get String.eqb k (merge_at rt clock tick incoming m)
  = latest rt clock tick k incoming (JsMap.get String.eqb k m).
Proof.
  revert tick m. induction incoming as [|emp rest IH]; intros tick m;
    cbn [merge_at latest]; [reflexivity|].
  now rewrite IH, sget_set.
Qed.

Lemma latest_absent rt clock tick k incoming acc :
  (forall emp, In emp incoming -> Corporates.str emp "user_id" <> k) ->
  latest rt clock tick k incoming acc = acc.
Proof.
  revert tick acc. induction incoming as [|emp rest IH]; intros tick acc H;
    cbn [latest]; [reflexivity|].
  rewrite IH by (intros e I; apply H; now right).
  destruct (String.eqb _ k) eqn:E; [|reflexivity].
  apply String.eqb_eq in E. exfalso. apply (H emp); [now left|exact E].
Qed.

Lemma latest_snoc rt clock tick k incoming emp acc :
  latest rt clock tick k (incoming ++ [emp]) acc
  = if String.eqb (Corporates.str emp "user_id") k
    then Some (Corporates.entry emp
                 (toISOString rt (clock (tick + List.length incoming)%nat)))
    else latest rt clock tick k incoming acc.
Proof.
  revert tick acc. induction incoming as [|e rest IH]; intros tick acc;
    cbn [app latest List.length].
  - now rewrite Nat.add_0_r.
  - rewrite IH. now rewrite Nat.add_succ_r.
Qed.

(** Every incoming user_id ends up with an entry made from an incoming
    record of that user_id. *)
Lemma latest_present rt clock tick incoming emp acc :
  In emp incoming ->
  exists emp' t,
    In emp' incoming /\
    Corporates.str emp' "user_id" = Corporates.str emp "user_id" /\
    latest rt clock tick (Corporates.str emp "user_id") incoming acc
    = Some (Corporates.entry emp' t).
Proof.
  revert tick acc. induction incoming as [|e rest IH] using rev_ind;
    intros tick acc I; [destruct I|].
  rewrite latest_snoc.
  destruct (String.eqb (Corporates.str e "user_id") (Corporates.str emp "user_id"))
    eqn:E.
  - apply String.eqb_eq in E. exists e. eexists.
    split; [apply in_or_app; right; now left|]. split; [exact E|reflexivity].
  - apply in_app_or in I. destruct I as [I|[->|[]]].
    + destruct (IH tick acc I) as [emp' [t [I' [K L]]]].
      exists emp', t. split; [apply in_or_app; now left|]. auto.
    + rewrite String.eqb_refl in E. discriminate.
Qed.

Lemma shas_merge_at rt clock tick k incoming m :
  JsMap.has String.eqb k m = true ->
  JsMap.has String.eqb k (merge_at rt clock tick incoming m) = true.
Proof.
  revert tick m. induction incoming as [|emp rest IH]; intros tick m H;
    cbn [merge_at]; [exact H|].
  apply IH. rewrite shas_set, H. apply orb_true_r.
Qed.

Lemma shas_merge_at_incoming rt clock tick incoming emp m :
  In emp incoming ->
  JsMap.has String.eqb (Corporates.str emp "user_id")
    (merge_at rt clock tick incoming m) = true.
Proof.
  revert tick m. induction incoming as [|e rest IH]; intros tick m I;
    [destruct I|].
  cbn [merge_at]. destruct I as [->|I]; [|now apply IH].
  apply shas_merge_at. rewrite shas_set, String.eqb_refl. reflexivity.
Qed.

Lemma keys_merge_at_present rt clock tick incoming m :
  (forall emp, In emp incoming ->
               JsMap.has String.eqb (Corporates.str emp "user_id") m = true) ->
  JsMap.keys (merge_at rt clock tick incoming m) = JsMap.keys m.
Proof.
  revert tick m. induction incoming as [|e rest IH]; intros tick m H;
    cbn [merge_at]; [reflexivity|].
  rewrite IH.
  - rewrite skeys_set, (H e) by now left. reflexivity.
  - intros emp I. rewrite shas_set, (H emp) by now right. apply orb_true_r.
Qed.

Lemma keys_merge_at rt clock tick incoming m k :
  In k (JsMap.keys (merge_at rt clock tick incoming m)) ->
  In k (JsMap.keys m) \/
  exists emp, In emp incoming /\ Corporates.str emp "user_id" = k.
Proof.
  revert tick m. induction incoming as [|e rest IH]; intros tick m I;
    cbn [merge_at] in I; [now left|].
  apply IH in I. destruct I as [I|[emp [I E]]].
  - rewrite skeys_set in I. destruct (JsMap.has _ _ _); [now left|].
    apply in_app_or in I. destruct I as [I|[<-|[]]]; [now left|].
    right. exists e. split; [now left|reflexivity].
  - right. exists emp. split; [now right|exact E].
Qed.

Lemma keys_load_existing_from existing m k :
  In k (JsMap.keys
          (fold_left
             (fun m e =>
                if truthy (Some (JStr (Corporates.uid_of e)))
                then JsMap.set String.eqb (Corporates.uid_of e) e m else m)
             existing m)) ->
  In k (JsMap.keys m) \/ k <> EmptyString.
Proof.
  revert m. induction existing as [|e es IH]; intros m I; cbn [fold_left] in I;
    [now left|].
  apply IH in I. destruct I as [I|I]; [|now right].
  destruct (truthy _) eqn:T; [|now left].
  rewrite skeys_set in I. destruct (JsMap.has _ _ _); [now left|].
  apply in_app_or in I. destruct I as [I|[<-|[]]]; [now left|].
  right. intros E. rewrite E in T. discriminate.
Qed.

Lemma keys_load_existing existing k :
  In k (JsMap.keys (Corporates.load_existing existing)) -> k <> EmptyString.
Proof.
  intros I. apply keys_load_existing_from in I. destruct I as [[]|I]. exact I.
Qed.

(** Reading back a tidy map whose keys are not empty gives the map. *)
Lemma load_existing_values_from m2 m1 :
  tidy (m1 ++ m2) ->
  (forall k, In k (JsMap.keys m2) -> k <> EmptyString) ->
  fold_left
    (fun m e =>
       if truthy (Some (JStr (Corporates.uid_of e)))
       then JsMap.set String.eqb (Corporates.uid_of e) e m else m)
    (JsMap.values m2) m1
  = m1 ++ m2.
Proof.
  revert m1. induction m2 as [|[k v] m2 IH]; intros m1 T NE; cbn [fold_left JsMap.values map].
  - now rewrite app_nil_r.
  - destruct T as [N U].
    assert (Uv : Corporates.uid_of v = k).
    { apply U, in_or_app. right. now left. }
    cbn [snd]. rewrite Uv.
    assert (K : k <> EmptyString) by (apply NE; now left).
    replace (truthy (Some (JStr k))) with true.
    2:{ cbn. destruct (String.eqb k EmptyString) eqn:E; [|reflexivity].
        apply String.eqb_eq in E. contradiction. }
    rewrite sset_fresh.
    + change (JsMap.values m2) with (map snd m2) in IH.
      rewrite IH.
      * now rewrite <- app_assoc.
      * rewrite <- app_assoc. split; assumption.
      * intros k' I. apply NE. now right.
    + destruct (JsMap.has String.eqb k m1) eqn:H; [|reflexivity].
      apply shas_In in H. exfalso.
      unfold JsMap.keys in N. rewrite map_app in N. cbn in N.
      apply NoDup_remove_2 in N. apply N, in_or_app. now left.
Qed.

Lemma load_existing_values m :
  tidy m ->
  (forall k, In k (JsMap.keys m) -> k <> EmptyString) ->
  Corporates.load_existing (JsMap.values m) = m.
Proof.
  intros T NE. unfold Corporates.load_existing.
  now rewrite (load_existing_values_from m []).
Qed.

(** With entries that do not depend on the instant, merging a batch a
    second time leaves the latest entries as they are. *)
Lemma latest_twice rt clock tick clock' tick' k incoming acc :
  (forall emp t t', In emp incoming ->
                    Corporates.entry emp t = Corporates.entry emp t') ->
  latest rt clock' tick' k incoming (latest rt clock tick k incoming acc)
  = latest rt clock tick k incoming acc.
Proof.
  revert acc. induction incoming as [|e rest IH] using rev_ind; intros acc H;
    [reflexivity|].
  rewrite !latest_snoc.
  destruct (String.eqb (Corporates.str e "user_id") k).
  - f_equal. apply H, in_or_app. right. now left.
  - apply IH. intros emp t t' I. apply H, in_or_app. now left.
Qed.

Lemma load_existing_from_list existing (m : JsMap.t (K := string) (V := json)) :
  NoDup (JsMap.keys m ++ map Corporates.uid_of existing) ->
  (forall e, In e existing -> Corporates.uid_of e <> EmptyString) ->
  fold_left
    (fun m e =>
       let uid := Corporates.uid_of e in
       if truthy (Some (JStr uid)) then JsMap.set String.eqb uid e m else m)
    existing m
  = m ++ map (fun e => (Corporates.uid_of e, e)) existing.
Proof.
  revert m. induction existing as [|e rest IH]; intros m D N.
  - cbn. now rewrite app_nil_r.
  - cbn [fold_left map]. cbv zeta.
    assert (T : truthy (Some (JStr (Corporates.uid_of e))) = true).
    { cbn [truthy]. destruct (String.eqb _ EmptyString) eqn:E; [|reflexivity].
      apply String.eqb_eq in E. now destruct (N e (or_introl eq_refl)). }
    rewrite T.
    assert (F : JsMap.has String.eqb (Corporates.uid_of e) m = false).
    { destruct (JsMap.has String.eqb (Corporates.uid_of e) m) eqn:H;
        [|reflexivity].
      apply shas_In in H. exfalso.
      apply NoDup_remove_2 in D. apply D, in_or_app. now left. }
    rewrite (sset_fresh _ _ _ F), IH.
    + now rewrite <- app_assoc.
    + unfold JsMap.keys in *. rewrite map_app. cbn [map fst].
      now rewrite <- app_assoc.
    + intros x I. apply N. now right.
Qed.

Lemma load_existing_list existing :
  Notions.listed existing ->
  Corporates.load_existing existing
  = map (fun e => (Corporates.uid_of e, e)) existing.
Proof.
  intros [D N]. exact (load_existing_from_list existing [] D N).
Qed.


(* ===================================================================== *)
(** * The registry check of the employee merge                            *)
(* ===================================================================== *)

Lemma same_key_eq a b : Corporates.same_key a b = true -> a = b.
Proof.
  destruct a as [[| x | x | x | |]|], b as [[| y | y | y | |]|]; cbn;
    try discriminate; try reflexivity.
  - intros H. apply Bool.eqb_prop in H. now subst.
  - intros H. apply Z.eqb_eq in H. now subst.
  - intros H. apply String.eqb_eq in H. now subst.
Qed.

Lemma vget_set (q k : value) (v : value) (m : JsMap.t (K := value) (V := value)) :
  JsMap.get Corporates.same_key q (JsMap.set Corporates.same_key k v m)
  = if Corporates.same_key q k then Some v
    else JsMap.get Corporates.same_key q m.
Proof.
  induction m as [|[k0 v0] m IH]; cbn; [reflexivity|].
  destruct (Corporates.same_key k k0) eqn:E; cbn.
  - apply same_key_eq in E. subst k0.
    destruct (Corporates.same_key q k); reflexivity.
  - destruct (Corporates.same_key q k0) eqn:E'.
    + pose proof (same_key_eq _ _ E') as Q. subst k0.
      destruct (Corporates.same_key q k) eqn:E''; [|reflexivity].
      apply same_key_eq in E''. subst k. congruence.
    + exact IH.
Qed.

Lemma usersMap_get_from uid rows m :
  JsMap.get Corporates.same_key (Some (JStr uid))
    (fold_left
       (fun m kv => JsMap.set Corporates.same_key (fst kv) (snd kv) m)
       (map (fun u => (assoc "id" u, assoc "email" u)) rows) m)
  = match registry_email uid rows with
    | Some e => Some e
    | None => JsMap.get Corporates.same_key (Some (JStr uid)) m
    end.
Proof.
  revert m. induction rows as [|u rest IH]; intros m; cbn [map fold_left registry_email];
    [reflexivity|].
  rewrite IH. destruct (registry_email uid rest); [reflexivity|].
  cbn [fst snd]. rewrite vget_set.
  destruct (Corporates.same_key (Some (JStr uid)) (assoc "id" u)); reflexivity.
Qed.

Lemma usersMap_get uid rows :
  JsMap.get Corporates.same_key (Some (JStr uid)) (Corporates.usersMap_of rows)
  = registry_email uid rows.
Proof.
  unfold Corporates.usersMap_of, JsMap.of_entries. rewrite usersMap_get_from.
  destruct (registry_email uid rows); reflexivity.
Qed.

Lemma registry_email_projected uid rows :
  registry_email uid (map (project (Some ["id"; "email"])) rows)
  = registry_email uid rows.
Proof.
  induction rows as [|u rest IH]; cbn [map registry_email]; [reflexivity|].
  rewrite IH. now rewrite !assoc_project by reflexivity.
Qed.

Lemma registry_email_in uid ids rows :
  In (JStr uid) ids ->
  registry_email uid (matching [FIn "id" ids] rows) = registry_email uid rows.
Proof.
  intros I. induction rows as [|u rest IH]; [reflexivity|].
  rewrite matching_cons, satisfies_one. cbn [registry_email holds].
  destruct (assoc "id" u) as [x|] eqn:E.
  - destruct (existsb (scalar_eqb x) ids) eqn:X.
    + cbn [registry_email]. now rewrite IH, E.
    + rewrite IH. destruct (registry_email uid rest); [reflexivity|].
      destruct (Corporates.same_key (Some (JStr uid)) (Some x)) eqn:S;
        [|reflexivity].
      apply same_key_eq in S. injection S as <-.
      assert (existsb (scalar_eqb (JStr uid)) ids = true); [|congruence].
      apply existsb_exists. exists (JStr uid). split; [exact I|].
      cbn. apply String.eqb_refl.
  - rewrite IH. cbn. destruct (registry_email uid rest); reflexivity.
Qed.

Lemma same_key_holds uid (u : row) :
  Corporates.same_key (Some (JStr uid)) (assoc "id" u)
  = holds (FEq "id" (JStr uid)) u.
Proof.
  cbn. destruct (assoc "id" u) as [[| | | s | |]|]; cbn; try reflexivity.
  apply String.eqb_sym.
Qed.

Lemma registry_email_none uid rows :
  matching [FEq "id" (JStr uid)] rows = [] -> registry_email uid rows = None.
Proof.
  induction rows as [|u rest IH]; [reflexivity|].
  rewrite matching_cons, satisfies_one. cbn [registry_email].
  rewrite same_key_holds.
  destruct (holds (FEq "id" (JStr uid)) u); [discriminate|].
  intros H. now rewrite IH.
Qed.

Lemma registry_email_keyed uid rows :
  distinct_ids rows = true ->
  registry_email uid rows
  = match matching [FEq "id" (JStr uid)] rows with
    | [u] => Some (assoc "email" u)
    | _ => None
    end.
Proof.
  induction rows as [|u rest IH]; [reflexivity|].
  cbn [distinct_ids]. intros D. apply andb_true_iff in D. destruct D as [D1 D2].
  rewrite matching_cons, satisfies_one. cbn [registry_email].
  rewrite same_key_holds.
  destruct (holds (FEq "id" (JStr uid)) u) eqn:H.
  - apply holds_id in H. rewrite H in D1. apply negb_true_iff in D1.
    apply matching_id_none in D1. rewrite D1.
    now rewrite (registry_email_none _ _ D1).
  - rewrite (IH D2).
    destruct (matching [FEq "id" (JStr uid)] rest) as [|x [|y l]]; reflexivity.
Qed.



Lemma check_users_vouched um incoming :
  (forall emp, In emp incoming ->
     exists e,
       JsMap.get Corporates.same_key
         (Some (JStr (Corporates.str emp "user_id"))) um = Some e /\
       toLowerCase (ToString (or_else e (JStr EmptyString)))
       = toLowerCase (Corporates.str emp "email")) ->
  Corporates.check_users um incoming = None.
Proof.
  induction incoming as [|x rest IH]; intros H; cbn [Corporates.check_users];
    [reflexivity|].
  destruct (H x (or_introl eq_refl)) as [e [G E]].
  unfold JsMap.has. rewrite G. cbn [negb]. rewrite E, String.eqb_refl. cbn [negb].
  apply IH. intros emp I. apply H. now right.
Qed.

(** The users the handler reads for a batch. *)
Lemma registry_of_batch (incoming : list (list (string * json))) emp w :
  keyed users w ->
  In emp incoming ->
  JsMap.get Corporates.same_key (Some (JStr (Corporates.str emp "user_id")))
    (Corporates.usersMap_of
       (map (project (Some ["id"; "email"]))
          (matching
             [FIn "id" (map (fun e => JStr (Corporates.str e "user_id")) incoming)]
             (w_db w users))))
  = match by_id users (Corporates.str emp "user_id") w with
    | [u] => Some (assoc "email" u)
    | _ => None
    end.
Proof.
  intros K I. rewrite usersMap_get, registry_email_projected.
  rewrite registry_email_in.
  - now apply registry_email_keyed.
  - apply in_map_iff. exists emp. split; [reflexivity|exact I].
Qed.

(* ===================================================================== *)
(** * POST /api/corporates/:id/employees                                  *)
(* ===================================================================== *)

Lemma ticked_ticked n m w : ticked n (ticked m w) = ticked (n + m) w.
Proof. unfold ticked. cbn. f_equal. lia. Qed.

Lemma new_Date_step w : new_Date w = (w_clock w (w_ticks w), ticked 1 w).
Proof. reflexivity. Qed.

Lemma merge_incoming_eq rt incoming m w :
  Corporates.merge_incoming rt incoming m w
  = (merge_at rt (w_clock w) (w_ticks w) incoming m,
     ticked (List.length incoming) w).
Proof.
  revert m w. induction incoming as [|emp rest IH]; intros m w;
    cbn [Corporates.merge_incoming merge_at List.length].
  - unfold ret, ticked. destruct w; reflexivity.
  - unfold bind. rewrite new_Date_step, IH, ticked_ticked.
    f_equal. f_equal. lia.
Qed.

Lemma clean_ticked n w : clean w -> clean (ticked n w).
Proof. exact (fun H => H). Qed.

Lemma eval_in cols ids rows :
  eval (in_ "id" ids (select cols)) rows =
  Some (map (project cols) (matching [FIn "id" ids] rows),
        List.length (matching [FIn "id" ids] rows)).
Proof.
  unfold eval, in_, where_, select. simpl. now rewrite order_by_nil.
Qed.

Lemma seats_of_project rt corp :
  ToNumber rt
    (Some (or_else (assoc "seats" (project (Some ["id"; "seats"; "employees"]) corp))
             (JNum 0)))
  = seats_of rt corp.
Proof. unfold seats_of. now rewrite assoc_project. Qed.

(** The merge on a sound backend, by an admin, into a corporate that
    exists. *)
Lemma add_employees_clean rt req w cid incoming corp :
  clean w -> keyed users w -> is_admin req w ->
  Corporates.CorporateIdParamSchema rt req = Some cid ->
  Corporates.AddEmployeesSchema rt (req_body req) = Some incoming ->
  by_id corporate cid w = [corp] ->
  let w3 := advance [GetUser; Select users; Select corporate; Select users] w in
  let w4 := ticked (List.length incoming) w3 in
  let list := merged rt (w_clock w) (w_ticks w)
                (Corporates.employees_of corp) incoming in
  match Corporates.check_users
          (Corporates.usersMap_of (batch_users incoming w)) incoming with
  | Some r => Corporates.add_employees rt req w = (r, w3)
  | None =>
      if Corporates.seats_exceeded (seats_of rt corp) (List.length list)
      then exists r, Corporates.add_employees rt req w = (r, w4) /\
                     status r = 400%Z
      else exists r w',
          Corporates.add_employees rt req w = (r, w') /\
          status r = 200%Z /\ clean w' /\
          employees_written cid corp list w w' /\
          w_log w' = w_log w4 ++ [Update corporate]
  end.
Proof.
  intros C K A P B E w3 w4 list.
  destruct (admin_grants req w C K A) as [c G].
  unfold Corporates.add_employees. rewrite P, B. unfold bind.
  unfold Corporates.requireAdmin. rewrite G.
  rewrite single_by_id, (clean_fault _ _ (clean_advance _ _ C)).
  rewrite by_id_advance, E, advance_advance. cbn [app].
  rewrite run_step, (clean_fault _ _ (clean_advance _ _ C)), eval_in.
  rewrite advance_advance. cbn [app].
  change (w_db (advance [GetUser; Select users; Select corporate] w) users)
    with (w_db w users).
  fold (batch_users incoming w). fold w3.
  destruct (Corporates.check_users _ incoming) as [r|]; [reflexivity|].
  rewrite merge_incoming_eq. fold w4.
  rewrite employees_of_project by reflexivity.
  rewrite seats_of_project.
  change (w_clock w3) with (w_clock w). change (w_ticks w3) with (w_ticks w).
  fold (merged rt (w_clock w) (w_ticks w) (Corporates.employees_of corp) incoming).
  fold list.
  destruct (Corporates.seats_exceeded (seats_of rt corp) (List.length list)).
  { eexists. split; reflexivity. }
  rewrite (update_single_by_id corporate "employees" _ cid _ corp _ eq_refl);
    [|discriminate|apply clean_fault; apply clean_ticked; apply clean_advance; exact C
     |exact E].
  eexists. eexists.
  split; [reflexivity|]. split; [reflexivity|]. split; [|split].
  - apply clean_set_db, clean_advance, clean_ticked, clean_advance, C.
  - now apply (employees_written_intro cid corp list w).
  - reflexivity.
Qed.


Lemma check_of_vouched incoming w :
  keyed users w ->
  (forall emp, In emp incoming -> vouched emp w) ->
  Corporates.check_users
    (Corporates.usersMap_of (batch_users incoming w)) incoming = None.
Proof.
  intros K V. apply check_users_vouched. intros emp I.
  destruct (V emp I) as [u [B L]].
  exists (assoc "email" u). split; [|exact L].
  unfold batch_users. rewrite (registry_of_batch incoming emp w K I).
  now rewrite B.
Qed.



Lemma merged_NoDup rt clock tick existing incoming :
  NoDup (map Corporates.uid_of (merged rt clock tick existing incoming)).
Proof.
  unfold merged.
  pose proof (merge_at_tidy rt clock tick incoming _
                (load_existing_tidy existing)) as T.
  rewrite (tidy_uids _ T). apply T.
Qed.

Lemma merge_keys_named rt clock tick existing incoming k :
  named incoming ->
  In k (JsMap.keys
          (merge_at rt clock tick incoming (Corporates.load_existing existing))) ->
  k <> EmptyString.
Proof.
  intros N I. apply keys_merge_at in I. destruct I as [I|[emp [I <-]]].
  - now apply keys_load_existing in I.
  - now apply N.
Qed.

Lemma load_merged rt clock tick existing incoming :
  named incoming ->
  Corporates.load_existing (merged rt clock tick existing incoming)
  = merge_at rt clock tick incoming (Corporates.load_existing existing).
Proof.
  intros N. unfold merged. apply load_existing_values.
  - apply merge_at_tidy, load_existing_tidy.
  - intros k. now apply merge_keys_named.
Qed.

Lemma entry_stamped emp t t' :
  stamped emp -> Corporates.entry emp t = Corporates.entry emp t'.
Proof. intros [s E]. unfold Corporates.entry. now rewrite E. Qed.

Lemma merged_twice rt clock tick clock' tick' existing incoming :
  named incoming ->
  let once := merged rt clock tick existing incoming in
  let twice := merged rt clock' tick' once incoming in
  map Corporates.uid_of twice = map Corporates.uid_of once /\
  ((forall emp, In emp incoming -> stamped emp) -> twice = once).
Proof.
  intros N once twice.
  set (m0 := Corporates.load_existing existing).
  set (m1 := merge_at rt clock tick incoming m0).
  assert (T1 : tidy m1) by apply merge_at_tidy, load_existing_tidy.
  assert (L : Corporates.load_existing once = m1)
    by (apply load_merged; exact N).
  assert (K : JsMap.keys (merge_at rt clock' tick' incoming m1) = JsMap.keys m1).
  { apply keys_merge_at_present. intros emp I.
    now apply shas_merge_at_incoming. }
  assert (T2 : tidy (merge_at rt clock' tick' incoming m1))
    by now apply merge_at_tidy.
  assert (Tw : twice = JsMap.values (merge_at rt clock' tick' incoming m1)).
  { unfold twice, merged. now rewrite L. }
  assert (On : once = JsMap.values m1) by reflexivity.
  rewrite Tw, On. split.
  - rewrite (tidy_uids _ T2), K. symmetry. apply (tidy_uids _ T1).
  - intros S. f_equal.
    apply smap_ext; [apply T2|exact K|].
    intros k. unfold m1 at 1. rewrite !sget_merge_at.
    unfold m1. rewrite sget_merge_at.
    apply latest_twice. intros emp t t' I. apply entry_stamped, S, I.
Qed.

Lemma seats_exceeded_int rt corp s n :
  assoc "seats" corp = Some (JNum s) ->
  Corporates.seats_exceeded (seats_of rt corp) n = true
  <-> (0 < s /\ s < Z.of_nat n)%Z.
Proof.
  intros E. unfold seats_of. rewrite E.
  replace (or_else (Some (JNum s)) (JNum 0)) with (JNum s).
  2:{ cbn. destruct (s =? 0)%Z eqn:Z0; cbn; [|reflexivity].
      apply Z.eqb_eq in Z0. now subst. }
  unfold Corporates.seats_exceeded, gt, lt, of_nat, of_Z. cbn [ToNumber of_Z].
  rewrite andb_true_iff, !Qltb_iff, <- !Zlt_Qlt. reflexivity.
Qed.

Lemma latest_app rt clock tick k l1 l2 acc :
  latest rt clock tick k (l1 ++ l2) acc
  = latest rt clock (tick + List.length l1)%nat k l2 (latest rt clock tick k l1 acc).
Proof.
  revert tick acc. induction l1 as [|e l1 IH]; intros tick acc;
    cbn [app latest List.length].
  - now rewrite Nat.add_0_r.
  - rewrite IH. now rewrite Nat.add_succ_r.
Qed.

Lemma sget_In {V} k (v : V) (m : JsMap.t (K := string) (V := V)) :
  JsMap.get String.eqb k m = Some v -> In v (JsMap.values m).
Proof.
  induction m as [|[k' v'] m IH]; cbn; [discriminate|].
  destruct (String.eqb k k'); [intros [= ->]; now left|].
  intros H. right. now apply IH.
Qed.

Lemma sget_listed (f : json -> string) e l :
  NoDup (map f l) -> In e l ->
  JsMap.get String.eqb (f e) (map (fun x => (f x, x)) l) = Some e.
Proof.
  induction l as [|a l IH]; intros D I; [destruct I|].
  cbn [map] in D |- *. inversion D as [|? ? N D']; subst. cbn [JsMap.get].
  destruct I as [->|I]; [now rewrite String.eqb_refl|].
  destruct (String.eqb (f e) (f a)) eqn:E; [|now apply IH].
  apply String.eqb_eq in E. exfalso. apply N. rewrite <- E. now apply in_map.
Qed.

(** Among entries with different keys, a test that picks one key picks
    at most one entry. *)
Lemma filter_unique {A} (f : A -> string) (p : A -> bool) k l :
  NoDup (map f l) ->
  (forall x, In x l -> p x = true -> f x = k) ->
  List.filter p l = [] \/ exists e, List.filter p l = [e] /\ In e l.
Proof.
  induction l as [|a l IH]; intros D H; [now left|].
  cbn [map] in D. inversion D as [|? ? N D']; subst. cbn [List.filter].
  destruct (IH D' (fun x I => H x (or_intror I))) as [E|[e [E I]]].
  - rewrite E. destruct (p a); [right; exists a; split; [reflexivity|now left]
                               |now left].
  - destruct (p a) eqn:P.
    + exfalso. apply N.
      rewrite (H a (or_introl eq_refl) P).
      assert (Pe : p e = true).
      { assert (X : In e (List.filter p l)) by (rewrite E; now left).
        now apply filter_In in X. }
      rewrite <- (H e (or_intror I) Pe). now apply in_map.
    + right. exists e. split; [exact E|now right].
Qed.

Lemma filter_the_one {A} (f : A -> string) (p : A -> bool) k l e :
  NoDup (map f l) ->
  (forall x, In x l -> p x = true -> f x = k) ->
  In e l -> p e = true -> List.filter p l = [e].
Proof.
  intros D H I P. destruct (filter_unique f p k l D H) as [E|[e' [E _]]].
  - assert (X : In e (List.filter p l)) by (apply filter_In; now split).
    rewrite E in X. destruct X.
  - assert (X : In e (List.filter p l)) by (apply filter_In; now split).
    rewrite E in X. destruct X as [->|[]]. exact E.
Qed.

Lemma user_id_is_uid u e : user_id_is u e = true -> Corporates.uid_of e = u.
Proof.
  unfold user_id_is.
  destruct (prop (Some e) "user_id") as [[| | |s| |]|] eqn:E; try discriminate.
  intros H. apply String.eqb_eq in H. subst. now apply uid_of_string.
Qed.

Lemma user_id_is_text u e :
  prop (Some e) "user_id" = Some (JStr u) -> user_id_is u e = true.
Proof. unfold user_id_is. intros ->. apply String.eqb_refl. Qed.

(** The entry the route builds is the one the column is to hold. *)
Lemma entry_entry_of p emp now :
  record_of p emp -> Corporates.entry emp now = entry_of p now.
Proof.
  intros [U [N [E [P [D [G C]]]]]].
  assert (Hd : nullish (assoc "department" emp) JNull
               = text_or_null (e_department p)).
  { destruct (e_department p); cbn in D |- *;
      [now rewrite D|destruct D as [-> | ->]; reflexivity]. }
  assert (Hg : nullish (assoc "designation" emp) JNull
               = text_or_null (e_designation p)).
  { destruct (e_designation p); cbn in G |- *;
      [now rewrite G|destruct G as [-> | ->]; reflexivity]. }
  assert (Hc : nullish (assoc "created_at" emp) (JStr now)
               = JStr (match e_created_at p with Some s => s | None => now end)).
  { destruct (e_created_at p); cbn in C |- *;
      [now rewrite C|destruct C as [-> | ->]; reflexivity]. }
  unfold Corporates.entry, entry_of, Corporates.str.
  now rewrite U, N, E, P, Hd, Hg, Hc.
Qed.

Lemma str_differs x u :
  u <> EmptyString -> assoc "user_id" x <> Some (JStr u) ->
  Corporates.str x "user_id" <> u.
Proof.
  intros N H. unfold Corporates.str.
  destruct (assoc "user_id" x) as [[| | |s| |]|]; try congruence.
Qed.

Lemma well_kept_listed es : well_kept es -> Notions.listed es.
Proof.
  intros [us [F [D N]]].
  assert (M : map Corporates.uid_of es = us).
  { clear D N. induction F as [|e u es us H F IH]; [reflexivity|].
    cbn [map]. now rewrite (uid_of_string e u H), IH. }
  split; [now rewrite M|].
  intros e I E. apply N. rewrite <- M, <- E. now apply in_map.
Qed.

Lemma merged_overwrites rt clock tick existing before emp after p :
  record_of p emp -> e_user_id p <> EmptyString ->
  (forall x, In x after -> assoc "user_id" x <> Some (JStr (e_user_id p))) ->
  List.filter (user_id_is (e_user_id p))
    (merged rt clock tick existing (before ++ emp :: after))
  = [entry_of p (toISOString rt (clock (tick + List.length before)%nat))].
Proof.
  intros R N A.
  apply (filter_the_one Corporates.uid_of _ (e_user_id p)).
  - apply merged_NoDup.
  - intros x _. apply user_id_is_uid.
  - unfold merged. apply (sget_In (e_user_id p)).
    rewrite sget_merge_at, latest_app. cbn [latest].
    assert (S : Corporates.str emp "user_id" = e_user_id p)
      by (unfold Corporates.str; now rewrite (proj1 R)).
    rewrite S, String.eqb_refl, latest_absent.
    + now rewrite (entry_entry_of p emp _ R).
    + intros x I. apply str_differs; [exact N|now apply A].
  - apply user_id_is_text. reflexivity.
Qed.

Lemma merged_keeps rt clock tick existing incoming e u :
  well_kept existing -> In e existing ->
  prop (Some e) "user_id" = Some (JStr u) ->
  (forall x, In x incoming -> assoc "user_id" x <> Some (JStr u)) ->
  List.filter (user_id_is u) (merged rt clock tick existing incoming) = [e].
Proof.
  intros W I U A. pose proof (well_kept_listed _ W) as L.
  pose proof (uid_of_string e u U) as Ue.
  assert (N : u <> EmptyString) by (rewrite <- Ue; now apply (proj2 L)).
  apply (filter_the_one Corporates.uid_of _ u).
  - apply merged_NoDup.
  - intros x _. apply user_id_is_uid.
  - unfold merged. apply (sget_In u).
    rewrite sget_merge_at, latest_absent.
    + rewrite (load_existing_list existing L), <- Ue.
      apply sget_listed; [apply L|exact I].
    + intros x Ix. apply str_differs; [exact N|now apply A].
  - now apply user_id_is_text.
Qed.

(** C3.  The employee merge keys the embedded list by user_id.  The
    merged list never holds two entries with the same user_id.  For an
    incoming record that no later record of the batch repeats, the list
    holds under its user_id one entry and no other: the record's
    user_id, name, email and phone, its department and designation or
    null, and its created_at or else the instant of the merge; so a
    record whose user_id is present overwrites and does not add.  An
    existing entry whose user_id the batch does not name stays, when the
    existing user_ids are text and distinct.  Submitting a batch again
    yields the same user_ids in the same order, and the same list when
    the records carry their created_at.  And, for an admin on a sound
    backend with a vouched batch, a positive seat count smaller than the
    merged size gives 400 with no write and no update call, anything
    else a 200 with the merged list written to the employees column. *)
Theorem C3_employee_merge :
  forall (rt : runtime),
    (forall clock tick existing incoming,
        NoDup (map Corporates.uid_of (merged rt clock tick existing incoming))
        /\
        forall u,
          (List.length (List.filter (user_id_is u)
                          (merged rt clock tick existing incoming)) <= 1)%nat)
    /\
    (forall clock tick existing before emp after p,
        record_of p emp -> e_user_id p <> EmptyString ->
        (forall x, In x after ->
                   assoc "user_id" x <> Some (JStr (e_user_id p))) ->
        List.filter (user_id_is (e_user_id p))
          (merged rt clock tick existing (before ++ emp :: after))
        = [entry_of p
             (toISOString rt (clock (tick + List.length before)%nat))])
    /\
    (forall clock tick existing incoming e u,
        well_kept existing -> In e existing ->
        prop (Some e) "user_id" = Some (JStr u) ->
        (forall x, In x incoming -> assoc "user_id" x <> Some (JStr u)) ->
        List.filter (user_id_is u) (merged rt clock tick existing incoming)
        = [e])
    /\
    (forall clock tick clock' tick' existing incoming,
        named incoming ->
        let once := merged rt clock tick existing incoming in
        let twice := merged rt clock' tick' once incoming in
        map Corporates.uid_of twice = map Corporates.uid_of once /\
        List.length twice = List.length once /\
        ((forall emp, In emp incoming -> stamped emp) -> twice = once))
    /\
    (forall req w cid incoming corp es s,
        clean w -> keyed users w -> is_admin req w ->
        Corporates.CorporateIdParamSchema rt req = Some cid ->
        Corporates.AddEmployeesSchema rt (req_body req) = Some incoming ->
        by_id corporate cid w = [corp] ->
        holds_employees corp es ->
        (forall emp, In emp incoming -> vouched emp w) ->
        assoc "seats" corp = Some (JNum s) ->
        let list := merged rt (w_clock w) (w_ticks w) es incoming in
        let res := fst (Corporates.add_employees rt req w) in
        let w' := snd (Corporates.add_employees rt req w) in
        ((0 < s /\ s < Z.of_nat (List.length list))%Z ->
         status res = 400%Z /\ w_db w' = w_db w /\
         w_log w' = w_log w ++ [GetUser; Select users; Select corporate; Select users])
        /\
        (~ (0 < s /\ s < Z.of_nat (List.length list))%Z ->
         status res = 200%Z /\ employees_written cid corp list w w' /\
         exists corp',
           by_id corporate cid w' = [corp'] /\
           assoc "employees" corp' = Some (JArr list))).
Proof.
  intros rt. split; [|split; [|split; [|split]]].
  - intros clock tick existing incoming.
    pose proof (merged_NoDup rt clock tick existing incoming) as D.
    split; [exact D|]. intros u.
    destruct (filter_unique Corporates.uid_of (user_id_is u) u _ D
                (fun x _ => user_id_is_uid u x)) as [->|[e [-> _]]];
      cbn; lia.
  - intros clock tick existing before emp after p.
    apply merged_overwrites.
  - intros clock tick existing incoming e u. apply merged_keeps.
  - intros clock tick clock' tick' existing incoming N once twice.
    destruct (merged_twice rt clock tick clock' tick' existing incoming N)
      as [U S].
    split; [exact U|]. split; [|exact S].
    apply (f_equal (@List.length _)) in U. now rewrite !length_map in U.
  - intros req w cid incoming corp es s C K A P B E HE V S list res w'.
    pose proof (add_employees_clean rt req w cid incoming corp C K A P B E) as H.
    cbv zeta in H. rewrite (check_of_vouched incoming w K V) in H.
    rewrite (holds_employees_of corp es HE) in H.
    fold list in H.
    pose proof (seats_exceeded_int rt corp s (List.length list) S) as X.
    destruct (Corporates.seats_exceeded (seats_of rt corp) (List.length list)).
    + destruct H as [r [H R]]. split.
      * intros _. unfold res, w'. rewrite H. cbn. auto.
      * intros N. exfalso. apply N, X. reflexivity.
    + destruct H as [r [w1 [H [R [_ [W _]]]]]]. split.
      * intros Y. apply X in Y. discriminate.
      * intros _. unfold res, w'. rewrite H. cbn [fst snd].
        split; [exact R|]. split; [exact W|].
        exists (written "employees" (JArr list) corp).
        split; [apply W|]. apply assoc_assign_same.
Qed.

(* ===================================================================== *)
(** * Login or register                                                  *)
(* ===================================================================== *)

Lemma insert_step_full t r w :
  insert t r w =
  if fault 0 w then (Error backend_failure, advance [Insert t] w)
  else if match assoc "id" r with
          | Some v => existsb (same_id v) (w_db w t)
          | None => false
          end
  then (Error unique_violation, advance [Insert t] w)
  else if repeats t r (w_db w t)
  then (Error unique_violation, advance [Insert t] w)
  else (Data r,
        set_db (with_rows t (w_db w t ++ [r]) (w_db w)) (advance [Insert t] w)).
Proof.
  unfold insert, bind. rewrite backend_step.
  destruct (fault 0 w); [reflexivity|].
  unfold get_rows, rows_of. cbn.
  destruct (match assoc "id" r with Some v => _ | None => _ end); [reflexivity|].
  destruct (repeats t r (w_db w t)); reflexivity.
Qed.

(** An insertion into a table without unique columns. *)
Lemma insert_step t r w :
  unique_columns t = [] ->
  insert t r w =
  if fault 0 w then (Error backend_failure, advance [Insert t] w)
  else if match assoc "id" r with
          | Some v => existsb (same_id v) (w_db w t)
          | None => false
          end
  then (Error unique_violation, advance [Insert t] w)
  else (Data r,
        set_db (with_rows t (w_db w t ++ [r]) (w_db w)) (advance [Insert t] w)).
Proof.
  intros U. rewrite insert_step_full. unfold repeats. rewrite U. reflexivity.
Qed.

Lemma no_row_no_clash id rs :
  matching [FEq "id" (JStr id)] rs = [] -> existsb (same_id (JStr id)) rs = false.
Proof.
  induction rs as [|r rs IH]; [reflexivity|].
  rewrite matching_cons, satisfies_one. cbn [existsb].
  unfold same_id at 1. cbn [holds].
  destruct (assoc "id" r) as [x|].
  - destruct (scalar_eqb x (JStr id)); [discriminate|]. exact IH.
  - exact IH.
Qed.

Lemma matching_app fs rs rs' :
  matching fs (rs ++ rs') = matching fs rs ++ matching fs rs'.
Proof. unfold matching. apply filter_app. Qed.

Lemma sign_step payload key w :
  key <> EmptyString ->
  AuthAuto.sign payload (Some key) w =
  (Some {| AuthAuto.claims :=
             literal_of payload
             ++ [("iat", JNum (w_clock w (w_ticks w) / 1000));
                 ("exp", JNum (w_clock w (w_ticks w) / 1000 + AuthAuto.seven_days))];
           AuthAuto.signed_with := key |},
   ticked 1 w).
Proof.
  intros K. unfold AuthAuto.sign.
  destruct (String.eqb key EmptyString) eqn:E.
  - apply String.eqb_eq in E. contradiction.
  - reflexivity.
Qed.


(** The row a registration stores. *)
Lemma registered_row (i : string) (e : value) c l o :
  let r := literal_of (([("id", Some (JStr i)); ("email", e);
                         ("role", Some (JStr "user"));
                         ("created_at", Some c); ("last_login", Some l);
                         ("last_opened", Some o)]) : list (string * value)) in
  assoc "id" r = Some (JStr i) /\ assoc "email" r = e /\
  assoc "role" r = Some (JStr "user") /\
  assoc "created_at" r = Some c /\ assoc "last_login" r = Some l /\
  assoc "last_opened" r = Some o.
Proof. destruct e; cbn; repeat split. Qed.

Lemma supplied_truthy req i :
  supplied req "id" = Some (JStr i) ->
  truthy (prop (req_body req) "supabase_user") = true.
Proof.
  unfold supplied.
  destruct (prop (req_body req) "supabase_user") as [[| | | | |]|]; cbn;
    try discriminate. reflexivity.
Qed.


Lemma matching_mapped v (f : row -> row) rs :
  (forall r, holds (FEq "id" v) (f r) = holds (FEq "id" v) r) ->
  matching [FEq "id" v]
    (map (fun r => if satisfies [FEq "id" v] r then f r else r) rs)
  = map f (matching [FEq "id" v] rs).
Proof.
  intros F. induction rs as [|r rs IH]; [reflexivity|].
  cbn [map]. rewrite !matching_cons, !satisfies_one.
  destruct (holds (FEq "id" v) r) eqn:E.
  - rewrite F, E. cbn [map]. now rewrite IH.
  - rewrite E. exact IH.
Qed.


Lemma by_id_registered i rows r :
  matching [FEq "id" (JStr i)] rows = [] ->
  assoc "id" r = Some (JStr i) ->
  matching [FEq "id" (JStr i)] (rows ++ [r]) = [r].
Proof.
  intros E R. rewrite matching_app, E. cbn [app].
  rewrite matching_cons, satisfies_one. apply holds_id in R. now rewrite R.
Qed.



(* ===================================================================== *)
(** * Bulk creation of users                                             *)
(* ===================================================================== *)

Lemma isBulk_of req us : bulk_of req us -> CreateUser.isBulk (req_body req) = true.
Proof. intros [o [-> U]]. unfold CreateUser.isBulk. cbn. now rewrite U. Qed.

Lemma users_of req us :
  bulk_of req us ->
  match prop (req_body req) "users" with
  | Some (JArr l) => l
  | _ => []
  end = us.
Proof. intros [o [-> U]]. cbn. now rewrite U. Qed.

Lemma createOneUser_total more u w :
  u <> JNull ->
  exists o w', CreateUser.createOneUser more (Some u) w = (Some o, w').
Proof.
  intros N. unfold CreateUser.createOneUser.
  destruct u; try contradiction.
  all: destruct (_ || _)%bool; [eexists; eexists; reflexivity|].
  all: unfold bind; destruct (signUp w) as [[msg|uid tok] w1];
    [eexists; eexists; reflexivity|].
  all: destruct (negb (truthy (option_map JStr uid)));
    [eexists; eexists; reflexivity|].
  all: destruct (negb (truthy (option_map JStr tok)));
    [eexists; eexists; reflexivity|].
  all: destruct (insert users _ w1) as [[user|e] w2];
    eexists; eexists; reflexivity.
Qed.

Lemma attempts_all more us w :
  (forall u, In u us -> u <> JNull) ->
  map fst (fst (attempts more us w)) = us.
Proof.
  revert w. induction us as [|u rest IH]; intros w N; [reflexivity|].
  cbn [attempts].
  destruct (createOneUser_total more u w (N u (or_introl eq_refl)))
    as [o [w1 ->]].
  specialize (IH w1 (fun x I => N x (or_intror I))).
  destruct (attempts more rest w1) as [l w2]. cbn in *. now rewrite IH.
Qed.

Lemma bulk_loop_eq more us created failed w :
  (forall u, In u us -> u <> JNull) ->
  CreateUser.bulk_loop more us created failed w
  = (Some (created ++ created_of (fst (attempts more us w)),
           failed ++ failed_of (fst (attempts more us w))),
     snd (attempts more us w)).
Proof.
  revert created failed w.
  induction us as [|u rest IH]; intros created failed w N.
  - cbn. now rewrite !app_nil_r.
  - cbn [CreateUser.bulk_loop attempts]. unfold bind.
    destruct (createOneUser_total more u w (N u (or_introl eq_refl)))
      as [o [w1 ->]].
    assert (N' : forall x, In x rest -> x <> JNull)
      by (intros x I; apply N; now right).
    destruct o as [error hint|user]; rewrite (IH _ _ w1 N');
      destruct (attempts more rest w1) as [l w2]; cbn [fst snd created_of failed_of];
      now rewrite <- app_assoc.
Qed.

Lemma created_failed_length l :
  (List.length (created_of l) + List.length (failed_of l))%nat = List.length l.
Proof.
  induction l as [|[u [e h|user]] l IH]; cbn; lia.
Qed.

Lemma create_user_bulk more req us w :
  bulk_of req us ->
  CreateUser.create_user more req w =
  if Nat.eqb (List.length us) 0
  then (reply_error 400 "users[] is required", w)
  else if Nat.ltb 200 (List.length us)
  then (reply_error 400 "Too many users in one request (max 200)", w)
  else
    match CreateUser.bulk_loop more us [] [] w with
    | (None, w') => (CreateUser.server_error, w')
    | (Some (created, failed), w') =>
        ({| status := 200; body := report created failed |}, w')
    end.
Proof.
  intros B. unfold CreateUser.create_user.
  rewrite (isBulk_of req us B), (users_of req us B).
  destruct (Nat.eqb (List.length us) 0); [reflexivity|].
  destruct (Nat.ltb 200 (List.length us)); [reflexivity|].
  unfold bind.
  destruct (CreateUser.bulk_loop more us [] [] w) as [[[c f]|] w']; reflexivity.
Qed.

(** C9 as the specification states it fails on the empty batch: a batch
    of no users is within the cap of 200, and it is answered 400
    ("users[] is required"), not with a report. *)
Lemma C9_empty_batch_refused :
  bulk_of (Fixtures.creates []) [] /\
  (List.length (@nil json) <= 200)%nat /\
  status (fst (CreateUser.create_user CreateUser.plain (Fixtures.creates [])
                 Fixtures.world0)) = 400%Z /\
  ~ reported CreateUser.plain (Fixtures.creates []) [] Fixtures.world0.
Proof.
  split; [eexists; split; reflexivity|].
  split; [apply Nat.le_0_l|].
  split; [reflexivity|].
  intros [l [_ E]].
  apply (f_equal (fun p => status (fst p))) in E. vm_compute in E.
  discriminate.
Qed.

(** C9, amended.  POST /api/auth/create-user with a [users] array, in
    both versions of the route: more than 200 entries are answered 400
    with the world untouched, so before any creation is attempted; an
    empty array is answered 400 as well; for 1 to 200 entries, none of
    them [null], every entry is attempted once, in the order of the
    input and each on the world the previous attempt left, whether or
    not earlier ones failed, and the answer is 200 with the created and
    the failed entries in two collections whose counts add up to the
    size of the batch. *)
Theorem C9_bulk_create_users :
  forall (more : json -> list (string * value)) (req : request)
         (us : list json) (w : world),
    bulk_of req us ->
    ((200 < List.length us)%nat ->
     CreateUser.create_user more req w
     = (reply_error 400 "Too many users in one request (max 200)", w))
    /\
    (us = [] ->
     CreateUser.create_user more req w
     = (reply_error 400 "users[] is required", w))
    /\
    (us <> [] -> (List.length us <= 200)%nat ->
     (forall u, In u us -> u <> JNull) ->
     let l := fst (attempts more us w) in
     map fst l = us /\
     CreateUser.create_user more req w
     = ({| status := 200; body := report (created_of l) (failed_of l) |},
        snd (attempts more us w)) /\
     (List.length (created_of l) + List.length (failed_of l))%nat
     = List.length us).
Proof.
  intros more req us w B. rewrite (create_user_bulk more req us w B).
  split; [|split].
  - intros L. destruct us as [|u us]; [cbn in L; lia|]. cbn [List.length Nat.eqb].
    apply Nat.ltb_lt in L. cbn [List.length] in L. now rewrite L.
  - intros ->. reflexivity.
  - intros NE L N l. destruct us as [|u us]; [congruence|].
    assert (F : Nat.ltb 200 (List.length (u :: us)) = false)
      by (apply Nat.ltb_ge; exact L).
    cbn [List.length Nat.eqb] in F |- *. rewrite F.
    rewrite (bulk_loop_eq more (u :: us) [] [] w N). cbn [app].
    pose proof (attempts_all more (u :: us) w N) as A. fold l in A.
    split; [exact A|]. split; [reflexivity|].
    rewrite created_failed_length.
    rewrite <- (length_map fst l), A. reflexivity.
Qed.

Lemma C9_witness :
  bulk_of (Fixtures.creates [Fixtures.candidate "n@x.io"; Fixtures.candidate "p@x.io"])
    [Fixtures.candidate "n@x.io"; Fixtures.candidate "p@x.io"] /\
  status (fst (CreateUser.create_user CreateUser.membership
                 (Fixtures.creates [Fixtures.candidate "n@x.io";
                                    Fixtures.candidate "p@x.io"])
                 Fixtures.world0)) = 200%Z /\
  List.length
    (created_of (fst (attempts CreateUser.membership
                        [Fixtures.candidate "n@x.io"; Fixtures.candidate "p@x.io"]
                        Fixtures.world0))) = 1%nat /\
  List.length
    (failed_of (fst (attempts CreateUser.membership
                       [Fixtures.candidate "n@x.io"; Fixtures.candidate "p@x.io"]
                       Fixtures.world0))) = 1%nat.
Proof.
  assert (B : bulk_of (Fixtures.creates [Fixtures.candidate "n@x.io";
                                         Fixtures.candidate "p@x.io"])
                [Fixtures.candidate "n@x.io"; Fixtures.candidate "p@x.io"]).
  { eexists. split; reflexivity. }
  split; [exact B|].
  destruct (proj2 (proj2 (C9_bulk_create_users CreateUser.membership _ _
                            Fixtures.world0 B)))
    as [_ [E _]].
  - discriminate.
  - cbn. lia.
  - intros u [<-|[<-|[]]]; discriminate.
  - rewrite E. split; [reflexivity|]. split; reflexivity.
Defined.

(* ===================================================================== *)
(** * Spotlight: the next order index                                    *)
(* ===================================================================== *)

Lemma matching_all rs : matching [] rs = rs.
Proof.
  unfold matching. induction rs as [|r rs IH]; [reflexivity|].
  cbn. now rewrite IH.
Qed.

(** Ordering by order_index, largest first, puts a row with the largest
    order_index in front. *)
Lemma top_of_order rs :
  indexed rs ->
  match order_by [("order_index", false)] rs with
  | [] => max_order_index rs = None
  | h :: _ =>
      exists m, assoc "order_index" h = Some (JNum m) /\
                max_order_index rs = Some m
  end.
Proof.
  unfold order_by. induction rs as [|x rs IH]; intros I; [reflexivity|].
  cbn [fold_right max_order_index].
  destruct (I x (or_introl eq_refl)) as [z X].
  specialize (IH (fun r H => I r (or_intror H))).
  rewrite X.
  destruct (fold_right (insert_by [("order_index", false)]) [] rs) as [|h t].
  - rewrite IH. cbn. exists z. split; [exact X|reflexivity].
  - destruct IH as [m [H M]]. rewrite M.
    cbn [insert_by compare_rows]. rewrite X, H. cbn [compare_value].
    destruct (Z.compare_spec z m) as [E|E|E]; cbn [CompOpp].
    + subst m. exists z. split; [exact X|]. now rewrite Z.max_id.
    + exists m. split; [exact H|]. f_equal. apply Z.max_r. lia.
    + exists z. split; [exact X|]. f_equal. apply Z.max_l. lia.
Qed.

Lemma nextOrder_top rs :
  indexed rs ->
  SpotLight.nextOrder
    (Some (JArr (map JObj
                   (map (project (Some ["order_index"]))
                      (firstn 1 (order_by [("order_index", false)] rs))))))
  = JNum (assigned (max_order_index rs)).
Proof.
  intros I. pose proof (top_of_order rs I) as T.
  destruct (order_by [("order_index", false)] rs) as [|h t].
  - rewrite T. reflexivity.
  - destruct T as [m [H ->]].
    unfold SpotLight.nextOrder. cbn [firstn map index nth_error prop].
    rewrite assoc_project by reflexivity. rewrite H.
    cbn [SpotLight.or_one SpotLight.plus_one assigned].
    destruct (m + 1 =? 0)%Z; reflexivity.
Qed.

(** What a create without file stores and answers, on a sound backend
    and a table whose rows carry whole order indexes. *)
Lemma spotlight_next_order req w :
  clean w -> req_file req = None -> indexed (w_db w spotlight_items) ->
  exists r w',
    SpotLight.create req w = (reply 200 (JObj r), w') /\
    w_db w' spotlight_items = w_db w spotlight_items ++ [r] /\
    assoc "order_index" r
    = Some (JNum (assigned (max_order_index (w_db w spotlight_items)))).
Proof.
  intros C F I. unfold SpotLight.create. rewrite F. cbv zeta. unfold bind, ret.
  rewrite run_step, (clean_fault _ _ C).
  unfold eval, limit, order, select. cbn [q_filters q_order q_range q_limit q_cols app].
  rewrite matching_all, (nextOrder_top _ I), insert_step by reflexivity.
  rewrite (clean_fault _ _ (clean_advance _ _ C)).
  set (n := JNum (assigned _)).
  match goal with
  | |- context [assoc "id" (literal_of ?l)] =>
      assert (R : assoc "id" (literal_of l) = None /\
                  assoc "order_index" (literal_of l) = Some n)
        by (destruct (prop (req_body req) "title"),
                     (prop (req_body req) "subtitle"),
                     (prop (req_body req) "media_type"); split; reflexivity);
      destruct R as [R1 R2]
  end.
  rewrite R1. eexists. eexists. split; [reflexivity|]. split.
  - cbn [w_db set_db]. now rewrite with_rows_same.
  - exact R2.
Qed.

(** C10 at a table whose largest order_index is -1: the new item gets
    order_index 1, where one more than the largest is 0. *)
Theorem C10_next_order_after_minus_one :
  max_order_index (w_db Fixtures.world0 spotlight_items) = Some (-1)%Z /\
  exists r w',
    SpotLight.create Fixtures.spotlight_post Fixtures.world0
    = (reply 200 (JObj r), w') /\
    w_db w' spotlight_items = w_db Fixtures.world0 spotlight_items ++ [r] /\
    assoc "order_index" r = Some (JNum 1) /\
    assoc "order_index" r <> Some (JNum (-1 + 1)).
Proof.
  split; [reflexivity|].
  destruct (spotlight_next_order Fixtures.spotlight_post Fixtures.world0)
    as [r [w' [E [D O]]]].
  - reflexivity.
  - reflexivity.
  - intros r [<-|[]]. eexists. reflexivity.
  - change (assoc "order_index" r = Some (JNum 1)) in O.
    exists r, w'. split; [exact E|]. split; [exact D|]. split; [exact O|].
    rewrite O. discriminate.
Qed.

(* ===================================================================== *)
(** * The theorems at work on the small world                            *)
(* ===================================================================== *)


(** A member logs in again. *)
Lemma member_logs_in_again :
  exists s w',
    AuthAuto.authHandler Fixtures.rt (Some "k")
      (Fixtures.logs_in Fixtures.member_id "Mira@x.io") Fixtures.world0
    = (inr s, w') /\
    AuthAuto.mode s = "logged_in" /\
    List.length (w_db w' users) = List.length (w_db Fixtures.world0 users).
Proof.
  eexists. eexists. split; [vm_compute; reflexivity|]. split; reflexivity.
Qed.

(** Five seats: the member is submitted again and her entry is
    replaced.  One seat, one employee, and a second one asked for:
    refused. *)
Lemma C3_witness :
  (Corporates.AddEmployeesSchema Fixtures.rt
     (req_body (Fixtures.adds [Cases.mira_again])) = Some [Cases.mira_parsed] /\
   record_of Cases.mira Cases.mira_parsed /\
   List.filter (user_id_is Fixtures.member_id)
     (merged Fixtures.rt (w_clock Cases.roomy) 0 [Fixtures.member_entry]
        [Cases.mira_parsed])
   = [entry_of Cases.mira "T1700000000000"] /\
   status (fst (Corporates.add_employees Fixtures.rt
                  (Fixtures.adds [Cases.mira_again]) Cases.roomy)) = 200%Z /\
   exists corp',
     by_id corporate Fixtures.corporate_id
       (snd (Corporates.add_employees Fixtures.rt
               (Fixtures.adds [Cases.mira_again]) Cases.roomy)) = [corp'] /\
     assoc "employees" corp'
     = Some (JArr [entry_of Cases.mira "T1700000000000"])) /\
  Corporates.AddEmployeesSchema Fixtures.rt
    (req_body (Fixtures.adds [Fixtures.newcomer_entry "P@X.IO"]))
  = Some [[("user_id", JStr Fixtures.partner_id); ("name", JStr "Pia");
           ("email", JStr "P@X.IO"); ("phone", JStr "2")]] /\
  status (fst (Corporates.add_employees Fixtures.rt
                 (Fixtures.adds [Fixtures.newcomer_entry "P@X.IO"])
                 Fixtures.world0)) = 400%Z /\
  w_db (snd (Corporates.add_employees Fixtures.rt
               (Fixtures.adds [Fixtures.newcomer_entry "P@X.IO"])
               Fixtures.world0)) = w_db Fixtures.world0.
Proof.
  assert (R : record_of Cases.mira Cases.mira_parsed).
  { repeat split; try reflexivity; left; reflexivity. }
  assert (P : Corporates.AddEmployeesSchema Fixtures.rt
                (req_body (Fixtures.adds [Fixtures.newcomer_entry "P@X.IO"]))
              = Some [[("user_id", JStr Fixtures.partner_id); ("name", JStr "Pia");
                       ("email", JStr "P@X.IO"); ("phone", JStr "2")]])
    by reflexivity.
  split; [|split; [exact P|]].
  - split; [reflexivity|]. split; [exact R|]. split.
    + exact (proj1 (proj2 (C3_employee_merge Fixtures.rt))
               (w_clock Cases.roomy) 0%nat [Fixtures.member_entry] []
               Cases.mira_parsed [] Cases.mira R
               ltac:(discriminate) ltac:(intros x [])).
    + refine ((fun H => conj (proj1 H) (proj2 (proj2 H)))
                (proj2 (proj2 (proj2 (proj2 (proj2
                          (C3_employee_merge Fixtures.rt))))
                          (Fixtures.adds [Cases.mira_again])
                          Cases.roomy Fixtures.corporate_id
                          [Cases.mira_parsed] Cases.firm
                          [Fixtures.member_entry] 5%Z
                          _ _ _ _ _ _ _ _ _) _)).
      * reflexivity.
      * reflexivity.
      * exists Fixtures.admin_id. split; reflexivity.
      * reflexivity.
      * reflexivity.
      * reflexivity.
      * left. reflexivity.
      * intros emp [<-|[]]. eexists. split; reflexivity.
      * reflexivity.
      * vm_compute. intros [_ H]. discriminate H.
  - refine ((fun H => conj (proj1 H) (proj1 (proj2 H)))
              (proj1 (proj2 (proj2 (proj2 (proj2 (C3_employee_merge Fixtures.rt))))
                        (Fixtures.adds [Fixtures.newcomer_entry "P@X.IO"])
                        Fixtures.world0 Fixtures.corporate_id _ Fixtures.company
                        [Fixtures.member_entry] 1%Z
                        _ _ _ _ P _ _ _ _) _)).
    + reflexivity.
    + reflexivity.
    + exists Fixtures.admin_id. split; reflexivity.
    + reflexivity.
    + reflexivity.
    + left. reflexivity.
    + intros emp [<-|[]]. eexists. split; reflexivity.
    + reflexivity.
    + vm_compute. split; reflexivity.
Defined.


(** The stores listed with the defaults, the second page of one
    restaurant, and a limit of zero. *)
Lemma C5_witness :
  (status (fst (Stores.get_list Fixtures.rt (Fixtures.list_request [])
                  Fixtures.world0)) = 200%Z /\
   body (fst (Stores.get_list Fixtures.rt (Fixtures.list_request [])
                Fixtures.world0))
   = Listing [Fixtures.store] (of_Z 20) (of_Z 0) 1) /\
  (exists p,
      body (fst (Restaurants.get_list Fixtures.rt
                   (Fixtures.list_request
                      [("limit", JStr "1"); ("offset", JStr "1");
                       ("includeInactive", JStr "true")])
                   Fixtures.world0))
      = Listing (page_of 1 1 (restaurants_ordered p Fixtures.world0))
          (of_Z 1) (of_Z 1) 2) /\
  Stores.get_list Fixtures.rt (Fixtures.list_request [("limit", JStr "0")])
    Fixtures.world0
  = (reply_error 400 "Invalid query", Fixtures.world0).
Proof.
  split; [|split].
  - destruct (Stores.ListQuerySchema Fixtures.rt
                (req_query (Fixtures.list_request []))) as [p|] eqn:P;
      [|vm_compute in P; discriminate].
    destruct (proj1 (proj2 (C5_pagination Fixtures.rt
                              (Fixtures.list_request []) Fixtures.world0))
                p P) as [_ [_ [L O]]].
    specialize (L eq_refl). specialize (O eq_refl).
    pose proof (proj2 (proj2 (proj2 (proj2 (C5_pagination Fixtures.rt
                  (Fixtures.list_request []) Fixtures.world0))))
                  p 20%Z 0%Z P eq_refl) as H.
    rewrite L, O in H. specialize (H eq_refl eq_refl (Nat2Z.is_nonneg _)).
    rewrite H. vm_compute in P. injection P as <-.
    split; [reflexivity|]. vm_compute. reflexivity.
  - destruct (proj1 (proj2 (proj2 (proj1 (C5_pagination Fixtures.rt
                (Fixtures.list_request
                   [("limit", JStr "1"); ("offset", JStr "1");
                    ("includeInactive", JStr "true")])
                Fixtures.world0)))) eq_refl) as [p [page [P [B W]]]].
    exists p. rewrite B. vm_compute in P. injection P as <-.
    rewrite (W 1%Z 1%Z eq_refl eq_refl). reflexivity.
  - apply (proj1 (proj2 (proj2 (C5_pagination Fixtures.rt
                (Fixtures.list_request [("limit", JStr "0")])
                Fixtures.world0)))).
    left. right. exists (of_Z 0). split.
    + right. right. exists "0". split; [reflexivity|].
      split; [discriminate|reflexivity].
    + intros [q [E [L _]]]. injection E as <-. vm_compute in L. discriminate.
Defined.

(** Only the open restaurant is listed. *)
Lemma C6_witness :
  active_only (Fixtures.list_request []) /\
  items_of (fst (Restaurants.get_list Fixtures.rt (Fixtures.list_request [])
                   Fixtures.world0)) = [Fixtures.restaurant] /\
  is_active Fixtures.restaurant.
Proof.
  assert (A : active_only (Fixtures.list_request []))
    by (split; [discriminate|reflexivity]).
  split; [exact A|]. split; [reflexivity|].
  apply (proj1 (C6_lists_return_active_rows Fixtures.rt
                  (Fixtures.list_request []) Fixtures.world0) A).
  left. reflexivity.
Defined.

(** The owner closes the restaurant, and it can still be fetched. *)
Lemma C7_witness :
  clean Fixtures.world0 /\
  asks_soft (Fixtures.owner_deletes []) /\
  may_write (Fixtures.owner_deletes []) Fixtures.restaurant_id Fixtures.world0 /\
  exists w',
    Restaurants.delete_by_id Fixtures.rt (Fixtures.owner_deletes [])
      Fixtures.world0
    = (deleted_reply "soft" Fixtures.restaurant_id, w') /\
    soft_deleted restaurants Fixtures.restaurant_id Fixtures.restaurant
      Fixtures.world0 w'.
Proof.
  assert (C : clean Fixtures.world0) by reflexivity.
  assert (S : asks_soft (Fixtures.owner_deletes []))
    by (exists []; split; [reflexivity|left; reflexivity]).
  assert (M : may_write (Fixtures.owner_deletes []) Fixtures.restaurant_id
                Fixtures.world0).
  { exists Fixtures.partner_id. split; [reflexivity|]. right.
    split; [reflexivity|]. exists Fixtures.restaurant. split; reflexivity. }
  split; [exact C|]. split; [exact S|]. split; [exact M|].
  destruct (proj2 (proj1 (C7_delete_hard_or_soft Fixtures.rt
                            (Fixtures.owner_deletes []) Fixtures.restaurant_id
                            Fixtures.world0 Fixtures.restaurant C eq_refl)
                     eq_refl eq_refl M eq_refl) S)
    as [w' [E [D _]]].
  exists w'. split; [exact E|exact D].
Defined.

(** The owner deletes the restaurant for good. *)
Lemma owner_deletes_for_good :
  asks_hard (Fixtures.owner_deletes [("hard", JStr "true")]) /\
  exists w',
    Restaurants.delete_by_id Fixtures.rt
      (Fixtures.owner_deletes [("hard", JStr "true")]) Fixtures.world0
    = (deleted_reply "hard" Fixtures.restaurant_id, w') /\
    w_db w' restaurants = [Fixtures.closed_restaurant].
Proof.
  split; [reflexivity|]. eexists. split; [vm_compute; reflexivity|reflexivity].
Qed.

(** Of two employees the admin removes one, and then one who is not
    there. *)
Lemma C8_witness :
  clean Cases.staffed /\
  is_admin (Fixtures.removes Fixtures.member_id) Cases.staffed /\
  holds_employees Cases.pair [Fixtures.member_entry; Cases.partner_entry] /\
  (exists res w',
      Corporates.remove_employee Fixtures.rt (Fixtures.removes Fixtures.member_id)
        Cases.staffed = (res, w') /\
      status res = 200%Z /\
      exists corp',
        by_id corporate Fixtures.corporate_id w' = [corp'] /\
        assoc "employees" corp' = Some (JArr [Cases.partner_entry]) /\
        assoc "seats" corp' = Some (JNum 5)) /\
  (exists res w',
      Corporates.remove_employee Fixtures.rt
        (Fixtures.removes Fixtures.newcomer_id) Cases.staffed = (res, w') /\
      status res = 200%Z /\
      exists corp',
        by_id corporate Fixtures.corporate_id w' = [corp'] /\
        assoc "employees" corp'
        = Some (JArr [Fixtures.member_entry; Cases.partner_entry])).
Proof.
  assert (C : clean Cases.staffed) by reflexivity.
  assert (A : forall u, is_admin (Fixtures.removes u) Cases.staffed)
    by (intros u; exists Fixtures.admin_id; split; reflexivity).
  assert (H : holds_employees Cases.pair
                [Fixtures.member_entry; Cases.partner_entry])
    by (left; reflexivity).
  assert (T : forall e, In e [Fixtures.member_entry; Cases.partner_entry] ->
                exists u, prop (Some e) "user_id" = Some (JStr u)).
  { intros e [<-|[<-|[]]]; eexists; reflexivity. }
  split; [exact C|]. split; [apply A|]. split; [exact H|]. split.
  - destruct (C8_remove_employee Fixtures.rt (Fixtures.removes Fixtures.member_id)
                Cases.staffed Fixtures.corporate_id Fixtures.member_id
                Cases.pair _ C eq_refl (A _) eq_refl eq_refl H T)
      as [res [w' [E [S [_ [[corp' [B [Em O]]] _]]]]]].
    exists res, w'. split; [exact E|]. split; [exact S|].
    exists corp'. split; [exact B|]. split; [exact Em|].
    rewrite O by discriminate. reflexivity.
  - destruct (C8_remove_employee Fixtures.rt
                (Fixtures.removes Fixtures.newcomer_id)
                Cases.staffed Fixtures.corporate_id Fixtures.newcomer_id
                Cases.pair _ C eq_refl (A _) eq_refl eq_refl H T)
      as [res [w' [E [S [_ [[corp' [B [Em _]]] _]]]]]].
    exists res, w'. split; [exact E|]. split; [exact S|].
    exists corp'. split; [exact B|exact Em].
Defined.

(* ===================================================================== *)
(** * Reading the credential                                             *)
(* ===================================================================== *)

Import Notions.

Lemma split_aux_free sep cur l :
  (forall d, In d l -> d <> sep) ->
  split_aux sep cur l = [string_of_list_ascii (rev cur ++ l)].
Proof.
  revert cur. induction l as [|c l IH]; intros cur F.
  - cbn. now rewrite app_nil_r.
  - cbn [split_aux].
    destruct (Ascii.eqb c sep) eqn:E.
    + apply Ascii.eqb_eq in E. exfalso. apply (F c); [now left|exact E].
    + rewrite IH by (intros d H; apply F; now right).
      cbn [rev]. now rewrite <- app_assoc.
Qed.

Lemma split_aux_sep sep cur l1 l2 :
  (forall d, In d l1 -> d <> sep) ->
  split_aux sep cur (l1 ++ sep :: l2)
  = string_of_list_ascii (rev cur ++ l1) :: split_aux sep [] l2.
Proof.
  revert cur. induction l1 as [|c l1 IH]; intros cur F.
  - cbn [app split_aux]. rewrite Ascii.eqb_refl. now rewrite app_nil_r.
  - cbn [app split_aux].
    destruct (Ascii.eqb c sep) eqn:E.
    + apply Ascii.eqb_eq in E. exfalso. apply (F c); [now left|exact E].
    + rewrite IH by (intros d H; apply F; now right).
      cbn [rev]. now rewrite <- app_assoc.
Qed.

Lemma list_ascii_app (a b : string) :
  list_ascii_of_string (a ++ b)
  = list_ascii_of_string a ++ list_ascii_of_string b.
Proof. induction a as [|c a IH]; cbn; [reflexivity|now rewrite IH]. Qed.

Lemma split_free sep s : free_of sep s -> split sep s = [s].
Proof.
  intros F. unfold split. rewrite split_aux_free by exact F.
  cbn. now rewrite string_of_list_ascii_of_string.
Qed.

Lemma split_at sep a b :
  free_of sep a ->
  split sep (a ++ String sep b) = a :: split sep b.
Proof.
  intros F. unfold split. rewrite list_ascii_app. cbn [list_ascii_of_string].
  rewrite split_aux_sep by exact F.
  cbn. now rewrite string_of_list_ascii_of_string.
Qed.

Lemma split_head sep s : exists a l, split sep s = a :: l.
Proof.
  unfold split. generalize (@nil ascii).
  induction (list_ascii_of_string s) as [|c l IH]; intros cur.
  - cbn. eauto.
  - cbn. destruct (Ascii.eqb c sep); eauto.
Qed.

(** The token a header of the form [Bearer t] or [Bearer t more] carries. *)
Lemma getBearerToken_bearer req t more :
  t <> EmptyString -> free_of " " t ->
  (authorized_by req ("Bearer " ++ t) \/
   authorized_by req ("Bearer " ++ t ++ " " ++ more)) ->
  Restaurants.getBearerToken req = Some t.
Proof.
  intros N F A. unfold Restaurants.getBearerToken.
  assert (B : free_of " " "Bearer")
    by (intros d H; cbn in H; intuition (subst; discriminate)).
  destruct A as [A|A]; unfold authorized_by in A; rewrite A.
  - change ("Bearer " ++ t)%string with ("Bearer" ++ String " " t)%string.
    rewrite (split_at " " "Bearer" t B), (split_free " " t F).
    cbn [nth_error]. cbn [String.eqb Ascii.eqb Bool.eqb negb orb].
    destruct (String.eqb t EmptyString) eqn:E; [|reflexivity].
    apply String.eqb_eq in E. contradiction.
  - change ("Bearer " ++ t ++ " " ++ more)%string
      with ("Bearer" ++ String " " (t ++ String " " more))%string.
    rewrite (split_at " " "Bearer" _ B), (split_at " " t more F).
    cbn [nth_error]. cbn [String.eqb Ascii.eqb Bool.eqb negb orb].
    destruct (String.eqb t EmptyString) eqn:E; [|reflexivity].
    apply String.eqb_eq in E. contradiction.
Qed.

(** No token is read from a header of another scheme, from one that
    carries nothing after the scheme, or from no header. *)
Lemma getBearerToken_none req :
  (req_authorization req = None \/
   (exists h, authorized_by req h /\ free_of " " h) \/
   (exists scheme rest, authorized_by req (scheme ++ String " " rest) /\
                        free_of " " scheme /\ scheme <> "Bearer") \/
   (exists more, authorized_by req ("Bearer " ++ String " " more)) \/
   authorized_by req "Bearer ") ->
  Restaurants.getBearerToken req = None.
Proof.
  unfold Restaurants.getBearerToken, authorized_by.
  intros [A|[[h [A F]]|[[s [r [A [F N]]]]|[[more A]|A]]]]; rewrite A.
  - reflexivity.
  - now rewrite (split_free " " h F).
  - rewrite (split_at " " s r F).
    destruct (split_head " " r) as [a [l ->]]. cbn [nth_error].
    destruct (String.eqb s "Bearer") eqn:E; [|reflexivity].
    apply String.eqb_eq in E. contradiction.
  - assert (B : free_of " " "Bearer")
      by (intros d H; cbn in H; intuition (subst; discriminate)).
    assert (E : free_of " " EmptyString) by (intros d []).
    change ("Bearer " ++ String " " more)%string
      with ("Bearer" ++ String " " (EmptyString ++ String " " more))%string.
    rewrite (split_at " " "Bearer" _ B), (split_at " " EmptyString more E).
    reflexivity.
  - reflexivity.
Qed.

Lemma requireAuth_steps req w :
  Restaurants.requireAuth req w =
  match Restaurants.getBearerToken req with
  | None => (inl (reply_error 401 "Missing Authorization token"), w)
  | Some tok =>
      (match (if fault 0 w then None else assoc tok (w_sessions w)) with
       | None => inl (reply_error 401 "Invalid session")
       | Some uid => inr {| Restaurants.auth_sb := tok;
                            Restaurants.auth_user_id := uid |}
       end, advance [GetUser] w)
  end.
Proof.
  unfold Restaurants.requireAuth, Restaurants.supabaseAuthed.
  destruct (Restaurants.getBearerToken req) as [tok|]; [|reflexivity].
  unfold bind. rewrite getUser_step.
  destruct (fault 0 w); [reflexivity|].
  destruct (assoc tok (w_sessions w)); reflexivity.
Qed.

(** X1.  Authentication reads the credential from the Authorization
    header: without a header, with a scheme other than [Bearer] (the
    comparison minds the letter case) or with nothing after the scheme,
    the answer is 401 "Missing Authorization token" and the platform is
    not asked; with [Bearer t], whatever follows a further space being
    ignored, the auth service is asked exactly once about [t], nothing
    stored changes, and the request is taken for the user the service
    resolves [t] to, or answered 401 "Invalid session" when the service
    fails or does not honour [t]. *)
Theorem X1_require_auth :
  forall (req : request) (w : world),
    ((req_authorization req = None \/
      (exists h, authorized_by req h /\ free_of " " h) \/
      (exists scheme rest, authorized_by req (scheme ++ String " " rest) /\
                           free_of " " scheme /\ scheme <> "Bearer") \/
      (exists more, authorized_by req ("Bearer " ++ String " " more)) \/
      authorized_by req "Bearer ") ->
     Restaurants.requireAuth req w
     = (inl (reply_error 401 "Missing Authorization token"), w))
    /\
    (forall t more,
        t <> EmptyString -> free_of " " t ->
        (authorized_by req ("Bearer " ++ t) \/
         authorized_by req ("Bearer " ++ t ++ " " ++ more)) ->
        let res := fst (Restaurants.requireAuth req w) in
        let w' := snd (Restaurants.requireAuth req w) in
        same_data w w' /\ w_log w' = w_log w ++ [GetUser] /\
        (forall uid,
            fault 0 w = false -> assoc t (w_sessions w) = Some uid ->
            res = inr {| Restaurants.auth_sb := t;
                         Restaurants.auth_user_id := uid |}) /\
        (fault 0 w = true \/ assoc t (w_sessions w) = None ->
         res = inl (reply_error 401 "Invalid session"))).
Proof.
  intros req w. split.
  - intros H. rewrite requireAuth_steps, (getBearerToken_none req H).
    reflexivity.
  - intros t more N F A. rewrite requireAuth_steps.
    rewrite (getBearerToken_bearer req t more N F A). cbn [fst snd].
    split; [split; reflexivity|]. split; [reflexivity|]. split.
    + intros uid F0 S. now rewrite F0, S.
    + intros [F0|S]; [now rewrite F0|].
      rewrite S. now destruct (fault 0 w).
Qed.

Lemma X1_witness :
  authorized_by (Fixtures.owner_deletes []) ("Bearer " ++ "P") /\
  fst (Restaurants.requireAuth (Fixtures.owner_deletes []) Fixtures.world0)
  = inr {| Restaurants.auth_sb := "P";
           Restaurants.auth_user_id := Fixtures.partner_id |}.
Proof.
  assert (A : authorized_by (Fixtures.owner_deletes []) ("Bearer " ++ "P"))
    by reflexivity.
  split; [exact A|].
  refine (proj1 (proj2 (proj2 (proj2 (X1_require_auth (Fixtures.owner_deletes [])
            Fixtures.world0) "P" EmptyString _ _ (or_introl A))))
            Fixtures.partner_id eq_refl eq_refl).
  - discriminate.
  - intros d [<-|[]]. discriminate.
Defined.

(* ===================================================================== *)
(** * The admin guard                                                    *)
(* ===================================================================== *)

Lemma identity_token req w uid :
  identity req w = Some uid ->
  exists tok, Restaurants.getBearerToken req = Some tok /\
              assoc tok (w_sessions w) = Some uid.
Proof.
  unfold identity. destruct (Restaurants.getBearerToken req) as [tok|]; [|discriminate].
  intros H. now exists tok.
Qed.

Lemma registry_role_admin uid w role :
  registry_role uid w = Data role ->
  Restaurants.isAdminRole role = Restaurants.isAdminRole (role_of uid w).
Proof.
  unfold registry_role, role_of.
  destruct (by_id users uid w) as [|r [|r' l]]; intros [= <-]; reflexivity.
Qed.

Lemma registry_role_keyed uid w :
  keyed users w -> registry_role uid w = Data (role_of uid w).
Proof.
  intros K. unfold registry_role, role_of.
  destruct (keyed_by_id users w uid K) as [->|[r ->]]; reflexivity.
Qed.

(** X2.  The admin guard of the create routes and of the corporate
    routes: whatever the backend does it writes nothing, asks at most
    for the session and then for the caller's role, and lets through
    only a caller whose registry role is admin or superadmin; on a sound
    backend every such caller passes, a request without an honoured
    credential gets 401, and any other caller (a partner, a plain user,
    a user without role or without registry row) gets 403. *)
Theorem X2_require_admin :
  forall (req : request) (w : world),
    let res := fst (Restaurants.requireAdmin req w) in
    let w' := snd (Restaurants.requireAdmin req w) in
    (same_data w w' /\
     (w_log w' = w_log w \/ w_log w' = w_log w ++ [GetUser] \/
      w_log w' = w_log w ++ [GetUser; Select users]))
    /\
    (forall c, res = inr c ->
               is_admin req w /\
               identity req w = Some (Restaurants.callerId c) /\
               Restaurants.isAdminRole (Some (Restaurants.role c)) = true)
    /\
    (clean w -> keyed users w ->
     (is_admin req w -> exists c, res = inr c) /\
     (identity req w = None -> exists r, res = inl r /\ status r = 401%Z) /\
     (forall uid, identity req w = Some uid ->
                  Restaurants.isAdminRole (role_of uid w) = false ->
                  res = inl (reply_error 403 "Access denied"))).
Proof.
  intros req w. cbv zeta. rewrite requireAdmin_steps.
  unfold is_admin, identity.
  destruct (Restaurants.getBearerToken req) as [tok|].
  2:{ cbn [fst snd]. split; [split; [split; reflexivity|now left]|]. split.
      - intros c [=].
      - intros _ _. split; [intros [u [[=] _]]|]. split.
        + intros _. eexists. split; reflexivity.
        + intros u [=]. }
  destruct (fault 0 w) eqn:F0.
  { cbn [fst snd]. split; [split; [split; reflexivity|right; now left]|]. split.
    - intros c [=].
    - intros C. now rewrite (clean_fault 0 w C) in F0. }
  destruct (assoc tok (w_sessions w)) as [uid|] eqn:S.
  2:{ cbn [fst snd]. split; [split; [split; reflexivity|right; now left]|]. split.
      - intros c [=].
      - intros _ _. split; [intros [u [[=] _]]|]. split.
        + intros _. eexists. split; reflexivity.
        + intros u [=]. }
  cbn [fst snd]. split; [split; [split; reflexivity|right; now right]|]. split.
  - intros c H. destruct (fault 1 w); [discriminate|].
    destruct (registry_role uid w) as [role|e] eqn:R; [|discriminate].
    destruct (Restaurants.isAdminRole role) eqn:A; [|discriminate].
    injection H as <-. cbn [Restaurants.callerId Restaurants.role].
    split; [|split; [reflexivity|now rewrite isAdminRole_or_null]].
    exists uid. split; [reflexivity|].
    now rewrite <- (registry_role_admin uid w role R).
  - intros C K. rewrite (clean_fault 1 w C), (registry_role_keyed uid w K).
    split; [|split].
    + intros [u [[= <-] A]]. rewrite A. eauto.
    + intros [=].
    + intros u [= <-] A. now rewrite A.
Qed.

Lemma X2_witness :
  clean Fixtures.world0 /\ keyed users Fixtures.world0 /\
  is_admin (Fixtures.removes Fixtures.member_id) Fixtures.world0 /\
  (exists c, fst (Restaurants.requireAdmin (Fixtures.removes Fixtures.member_id)
                    Fixtures.world0) = inr c) /\
  fst (Restaurants.requireAdmin (Fixtures.owner_deletes []) Fixtures.world0)
  = inl (reply_error 403 "Access denied").
Proof.
  assert (C : clean Fixtures.world0) by reflexivity.
  assert (K : keyed users Fixtures.world0) by reflexivity.
  assert (A : is_admin (Fixtures.removes Fixtures.member_id) Fixtures.world0)
    by (exists Fixtures.admin_id; split; reflexivity).
  split; [exact C|]. split; [exact K|]. split; [exact A|]. split.
  - exact (proj1 (proj2 (proj2 (X2_require_admin _ Fixtures.world0)) C K) A).
  - exact (proj2 (proj2 (proj2 (proj2 (X2_require_admin (Fixtures.owner_deletes [])
                                         Fixtures.world0)) C K))
             Fixtures.partner_id eq_refl eq_refl).
Defined.

(* ===================================================================== *)
(** * Updating a restaurant                                              *)
(* ===================================================================== *)

Lemma assoc_assign_all_other {A} k (patch o : list (string * A)) :
  ~ In k (map fst patch) -> assoc k (assign_all patch o) = assoc k o.
Proof.
  unfold assign_all. revert o.
  induction patch as [|[k' v] patch IH]; intros o N; [reflexivity|].
  cbn [fold_left fst snd]. rewrite IH by (intros H; apply N; now right).
  apply assoc_assign_other. intros ->. apply N. now left.
Qed.

Lemma assoc_assign_all_in {A} k (v : A) (patch o : list (string * A)) :
  NoDup (map fst patch) -> In (k, v) patch ->
  assoc k (assign_all patch o) = Some v.
Proof.
  unfold assign_all. revert o.
  induction patch as [|[k' v'] patch IH]; intros o D H; [destruct H|].
  cbn [map fst] in D. inversion D as [|? ? N D']; subst.
  cbn [fold_left fst snd]. destruct H as [[= -> ->]|H].
  - change (fold_left _ patch ?x) with (assign_all patch x).
    rewrite assoc_assign_all_other by exact N. apply assoc_assign_same.
  - now apply IH.
Qed.

Lemma parse_fields_keys fs o out :
  Zod.parse_fields fs o = Some out ->
  (forall k, In k (map fst out) -> In k (map fst fs)) /\
  (NoDup (map fst fs) -> NoDup (map fst out)).
Proof.
  revert out. induction fs as [|[k s] fs IH]; intros out H.
  - injection H as <-. split; [intros k []|intros _; constructor].
  - cbn [Zod.parse_fields] in H.
    destruct (s (assoc k o)) as [v|]; [|discriminate].
    destruct (Zod.parse_fields fs o) as [rest|]; [|discriminate].
    destruct (IH rest eq_refl) as [I D]. injection H as <-.
    destruct v as [j|].
    + split.
      * intros k' [<-|H]; [now left|right; now apply I].
      * intros N. cbn [map fst] in N |- *. inversion N as [|? ? N1 N2]; subst.
        constructor; [|now apply D]. intros H. apply N1. now apply I.
    + split.
      * intros k' H. right. now apply I.
      * intros N. cbn [map fst] in N. inversion N; subst. now apply D.
Qed.

Lemma assoc_absent_key {A} k (l : list (string * A)) :
  ~ In k (map fst l) -> assoc k l = None.
Proof.
  induction l as [|[k' v] l IH]; [reflexivity|]. cbn. intros N.
  destruct (String.eqb k k') eqn:E.
  - apply String.eqb_eq in E. subst. destruct N. now left.
  - apply IH. intros H. apply N. now right.
Qed.

(** What the parsed object holds under a key of the schema. *)
Lemma parse_fields_at fs o out k s :
  Zod.parse_fields fs o = Some out -> NoDup (map fst fs) -> In (k, s) fs ->
  assoc k out = match s (assoc k o) with Some x => x | None => None end.
Proof.
  revert out. induction fs as [|[k' s'] fs IH]; intros out H D I; [destruct I|].
  cbn [Zod.parse_fields] in H.
  destruct (s' (assoc k' o)) as [v|] eqn:V; [|discriminate].
  destruct (Zod.parse_fields fs o) as [rest|] eqn:R; [|discriminate].
  cbn [map fst] in D. inversion D as [|? ? N D']; subst.
  destruct (parse_fields_keys _ _ _ R) as [K _].
  injection H as <-. destruct I as [[= -> ->]|I].
  - rewrite V. destruct v as [j|].
    + cbn. now rewrite String.eqb_refl.
    + apply assoc_absent_key. intros H. apply N. now apply K.
  - assert (E : String.eqb k k' = false).
    { apply String.eqb_neq. intros ->. apply N.
      change k' with (fst (k', s)). now apply in_map. }
    rewrite <- (IH rest eq_refl D' I).
    destruct v as [j|]; [|reflexivity]. cbn. now rewrite E.
Qed.

(** The slug of a parsed update is text, when there is one. *)
Lemma update_schema_slug rt body patch :
  Restaurants.UpdateRestaurantSchema rt body = Some patch ->
  assoc "slug" patch = None \/ exists s, assoc "slug" patch = Some (JStr s).
Proof.
  unfold Restaurants.UpdateRestaurantSchema, Zod.object.
  destruct body as [[| | | | |o]|]; try discriminate.
  intros H.
  rewrite (parse_fields_at _ _ _ "slug"
             (Zod.optional_ (Restaurants.text1 rt)) H).
  - unfold Zod.optional_, Restaurants.text1, Zod.as_string, Zod.transform.
    destruct (assoc "slug" o) as [v|]; [|now left].
    destruct (Zod.string_ rt _ (Some v)) as [x|]; [right; now exists x|now left].
  - cbn. repeat constructor; cbn; intuition discriminate.
  - cbn. do 19 right. now left.
Qed.

Lemma parse_fields_fail fs o k s :
  In (k, s) fs -> s (assoc k o) = None -> Zod.parse_fields fs o = None.
Proof.
  induction fs as [|[k' s'] fs IH]; intros H F; [destruct H|].
  cbn [Zod.parse_fields]. destruct H as [[= -> ->]|H].
  - now rewrite F.
  - rewrite (IH H F). now destruct (s' (assoc k' o)).
Qed.

Lemma update_schema_keys rt body patch :
  Restaurants.UpdateRestaurantSchema rt body = Some patch ->
  (forall k, In k (map fst patch) -> In k update_columns) /\
  NoDup (map fst patch).
Proof.
  unfold Restaurants.UpdateRestaurantSchema, Zod.object.
  destruct body as [[| | | | |o]|]; try discriminate.
  intros H. destruct (parse_fields_keys _ _ _ H) as [I D]. split.
  - exact I.
  - apply D. cbn. repeat constructor; cbn; intuition discriminate.
Qed.

Lemma text1_blank rt v :
  (v = Some JNull \/ exists s, v = Some (JStr s) /\ trim s = EmptyString) ->
  Zod.optional_ (Restaurants.text1 rt) v = None.
Proof.
  intros [->|[s [-> B]]]; [reflexivity|].
  unfold Zod.optional_, Restaurants.text1, Zod.as_string, Zod.transform,
    Zod.string_.
  cbn [Zod.run_checks Zod.run_check]. rewrite B. reflexivity.
Qed.

Lemma bad_update_refused rt body :
  bad_update rt body -> Restaurants.UpdateRestaurantSchema rt body = None.
Proof.
  unfold Restaurants.UpdateRestaurantSchema, Zod.object.
  intros [N|[o [-> H]]].
  - destruct body as [[| | | | |o]|]; try reflexivity. now destruct (N o).
  - destruct H as [[k [K B]]|[[j [E N]]|[s [E U]]]].
    + destruct K as [->| ->].
      * eapply parse_fields_fail; [left; reflexivity|]. now apply text1_blank.
      * eapply parse_fields_fail;
          [do 19 right; left; reflexivity|]. now apply text1_blank.
    + eapply parse_fields_fail; [do 18 right; left; reflexivity|].
      rewrite E. destruct j; try reflexivity. now destruct (N b).
    + eapply parse_fields_fail; [do 26 right; left; reflexivity|].
      rewrite E.
      unfold Zod.nullish_, Zod.as_string, Zod.transform, Zod.string_.
      cbn [Zod.run_checks Zod.run_check]. now rewrite U.
Qed.

(** X3.  PUT /api/restaurants/:id validates before it authenticates: an
    id that is not a UUID is answered 400 "Invalid restaurant id", and
    with a valid id a body the schema refuses (for one: not an object, a
    name or slug given as [null] or blank, an is_active that is not a
    boolean, an owner_user_id that is not a UUID) is answered 400
    "Invalid body"; in both cases the platform is not asked anything,
    whoever the caller is. *)
Theorem X3_put_validates_first :
  forall (rt : runtime) (req : request) (w : world),
    ((param req "id" = None \/
      exists s, param req "id" = Some (JStr s) /\ uuid rt s = false) ->
     Restaurants.put_by_id rt req w
     = (reply_error 400 "Invalid restaurant id", w))
    /\
    (forall id,
        Restaurants.IdSchema rt (param req "id") = Some id ->
        bad_update rt (req_body req) ->
        Restaurants.put_by_id rt req w = (reply_error 400 "Invalid body", w)).
Proof.
  intros rt req w. unfold Restaurants.put_by_id. split.
  - intros [E|[s [E U]]]; rewrite E; [reflexivity|].
    unfold Restaurants.IdSchema, Zod.string_.
    cbn [Zod.run_checks Zod.run_check]. now rewrite U.
  - intros id -> B. now rewrite (bad_update_refused rt _ B).
Qed.

Lemma X3_witness :
  Restaurants.IdSchema Fixtures.rt
    (param (Cases.anonymous_puts (JObj [("name", JStr "  ")])) "id")
  = Some Fixtures.restaurant_id /\
  bad_update Fixtures.rt
    (req_body (Cases.anonymous_puts (JObj [("name", JStr "  ")]))) /\
  Restaurants.put_by_id Fixtures.rt
    (Cases.anonymous_puts (JObj [("name", JStr "  ")])) Fixtures.world0
  = (reply_error 400 "Invalid body", Fixtures.world0).
Proof.
  assert (B : bad_update Fixtures.rt
                (req_body (Cases.anonymous_puts (JObj [("name", JStr "  ")])))).
  { right. eexists. split; [reflexivity|]. left. exists "name".
    split; [now left|]. right. eexists. split; reflexivity. }
  split; [reflexivity|]. split; [exact B|].
  exact (proj2 (X3_put_validates_first Fixtures.rt
                  (Cases.anonymous_puts (JObj [("name", JStr "  ")]))
                  Fixtures.world0)
           Fixtures.restaurant_id eq_refl B).
Defined.

Lemma guard_world req id w :
  exists l, snd (Restaurants.requireRestaurantWriteAccess req id w) = advance l w.
Proof.
  rewrite guard_steps.
  destruct (Restaurants.getBearerToken req) as [tok|];
    [|exists []; cbn; unfold advance; cbn; rewrite app_nil_r; now destruct w].
  destruct (if fault 0 w then None else assoc tok (w_sessions w)) as [uid|];
    [|eexists; reflexivity].
  destruct (if fault 1 w then Error backend_failure else resolved_role uid w)
    as [role|e]; [|eexists; reflexivity].
  cbv zeta. destruct (Restaurants.isAdminRole (Some role)); [eexists; reflexivity|].
  destruct (Restaurants.isPartnerRole (Some role)); eexists; reflexivity.
Qed.

Lemma patched_intro t id patch w w0 :
  w_db w0 = w_db w -> w_sessions w0 = w_sessions w ->
  patched t id patch w
    (set_db
       (with_rows t
          (map (fun r => if satisfies [FEq "id" (JStr id)] r
                         then assign_all patch r else r) (w_db w t))
          (w_db w0)) w0).
Proof.
  intros D S. split; [|split].
  - cbn. now rewrite with_rows_same.
  - intros t' N. cbn. rewrite with_rows_other by congruence. now rewrite D.
  - exact S.
Qed.

(** What a PUT leaves of the stored data, whatever the backend does:
    nothing changed, or the patch applied to the rows with that id. *)
Lemma put_world rt req w :
  let w' := snd (Restaurants.put_by_id rt req w) in
  same_data w w' \/
  exists id patch,
    Restaurants.IdSchema rt (param req "id") = Some id /\
    Restaurants.UpdateRestaurantSchema rt (req_body req) = Some patch /\
    patched restaurants id patch w w'.
Proof.
  cbv zeta. unfold Restaurants.put_by_id.
  destruct (Restaurants.IdSchema rt (param req "id")) as [id|];
    [|left; split; reflexivity].
  destruct (Restaurants.UpdateRestaurantSchema rt (req_body req)) as [patch|];
    [|left; split; reflexivity].
  unfold bind.
  destruct (guard_world req id w) as [l G].
  destruct (Restaurants.requireRestaurantWriteAccess req id w) as [[r|c] w1];
    cbn [snd] in G; subst w1.
  - left. split; reflexivity.
  - unfold update_single, bind. rewrite update_step_full.
    destruct (fault 0 (advance l w)); [left; split; reflexivity|].
    destruct (update_repeats restaurants patch [FEq "id" (JStr id)]
                (w_db (advance l w) restaurants)).
    + left. split; reflexivity.
    + right. exists id, patch. split; [reflexivity|]. split; [reflexivity|].
      destruct (map (assign_all patch)
                  (matching [FEq "id" (JStr id)] (w_db (advance l w) restaurants)))
        as [|a [|b m]]; cbn [snd ret project];
        try destruct (Restaurants.write_error not_single);
      apply (patched_intro restaurants id patch w
               (advance [Update restaurants] (advance l w))); reflexivity.
Qed.

(** X4.  A PUT of a restaurant, whatever its body, its caller and the
    backend do, leaves the other tables alone, neither adds nor removes
    a row, and leaves every column the update schema does not name as it
    was in every row: the schema drops the keys it does not know, so the
    id of a row, for one, cannot be rewritten. *)
Theorem X4_put_keeps_other_columns :
  forall (rt : runtime) (req : request) (w : world),
    let w' := snd (Restaurants.put_by_id rt req w) in
    (forall t, t <> restaurants -> w_db w' t = w_db w t) /\
    List.length (w_db w' restaurants) = List.length (w_db w restaurants) /\
    (forall k, ~ In k update_columns ->
               map (assoc k) (w_db w' restaurants)
               = map (assoc k) (w_db w restaurants)) /\
    map (assoc "id") (w_db w' restaurants)
    = map (assoc "id") (w_db w restaurants).
Proof.
  intros rt req w. cbv zeta.
  assert (H : (forall t, t <> restaurants ->
                 w_db (snd (Restaurants.put_by_id rt req w)) t = w_db w t) /\
              List.length (w_db (snd (Restaurants.put_by_id rt req w)) restaurants)
              = List.length (w_db w restaurants) /\
              (forall k, ~ In k update_columns ->
                 map (assoc k) (w_db (snd (Restaurants.put_by_id rt req w)) restaurants)
                 = map (assoc k) (w_db w restaurants))).
  { destruct (put_world rt req w) as [[D _]|[id [patch [_ [P [R [O _]]]]]]].
    - rewrite D. repeat split; reflexivity.
    - destruct (update_schema_keys rt _ _ P) as [K _].
      split; [exact O|]. rewrite R. split; [apply length_map|].
      intros k N. rewrite map_map. apply map_ext. intros x.
      destruct (satisfies [FEq "id" (JStr id)] x); [|reflexivity].
      apply assoc_assign_all_other. intros I. apply N. now apply K. }
  destruct H as [O [L C]]. split; [exact O|]. split; [exact L|].
  split; [exact C|]. apply C. cbn. intuition discriminate.
Qed.

Lemma X4_witness :
  ~ In "id" update_columns /\
  map (assoc "id")
    (w_db (snd (Restaurants.put_by_id Fixtures.rt
                  (Cases.owner_puts (JObj [("city", JStr "Goa"); ("id", JStr "x")]))
                  Fixtures.world0)) restaurants)
  = map (assoc "id") (w_db Fixtures.world0 restaurants) /\
  map (assoc "city")
    (w_db (snd (Restaurants.put_by_id Fixtures.rt
                  (Cases.owner_puts (JObj [("city", JStr "Goa"); ("id", JStr "x")]))
                  Fixtures.world0)) restaurants)
  = [Some (JStr "Goa"); Some (JStr "Pune")].
Proof.
  assert (N : ~ In "id" update_columns) by (cbn; intuition discriminate).
  split; [exact N|]. split; [|reflexivity].
  exact (proj1 (proj2 (proj2 (X4_put_keeps_other_columns Fixtures.rt
           (Cases.owner_puts (JObj [("city", JStr "Goa"); ("id", JStr "x")]))
           Fixtures.world0))) "id" N).
Defined.

Lemma put_grants rt req id patch w :
  clean w -> keyed users w -> keyed restaurants w ->
  Restaurants.IdSchema rt (param req "id") = Some id ->
  Restaurants.UpdateRestaurantSchema rt (req_body req) = Some patch ->
  may_write req id w ->
  update_repeats restaurants patch [FEq "id" (JStr id)] (w_db w restaurants)
  = false ->
  exists w',
    Restaurants.put_by_id rt req w =
    (match map (assign_all patch) (by_id restaurants id w) with
     | [x] => reply 200 (JObj [("item", JObj x)])
     | _ => reply_error 500 (message not_single)
     end, w') /\
    clean w' /\ patched restaurants id patch w w'.
Proof.
  intros C KU KR Hid Hp G U.
  destruct (guard_grants req id w C KU KR G) as [c [l HG]].
  unfold Restaurants.put_by_id. rewrite Hid, Hp. unfold bind. rewrite HG.
  unfold update_single, bind. rewrite update_step by exact U.
  rewrite (clean_fault _ _ (clean_advance l w C)).
  change (w_db (advance l w) restaurants) with (w_db w restaurants).
  fold (by_id restaurants id w).
  eexists. split; [|split].
  - destruct (map (assign_all patch) (by_id restaurants id w)) as [|a [|b m]];
      reflexivity.
  - apply clean_set_db. now repeat apply clean_advance.
  - apply (patched_intro restaurants id patch w
             (advance [Update restaurants] (advance l w))); reflexivity.
Qed.

(** The store refuses the update, and the route says why. *)
Lemma put_refused rt req id patch w :
  clean w -> keyed users w -> keyed restaurants w ->
  Restaurants.IdSchema rt (param req "id") = Some id ->
  Restaurants.UpdateRestaurantSchema rt (req_body req) = Some patch ->
  may_write req id w ->
  update_repeats restaurants patch [FEq "id" (JStr id)] (w_db w restaurants)
  = true ->
  exists w',
    Restaurants.put_by_id rt req w
    = (reply_error 400 "Slug already exists", w') /\
    same_data w w'.
Proof.
  intros C KU KR Hid Hp G U.
  destruct (guard_grants req id w C KU KR G) as [c [l HG]].
  unfold Restaurants.put_by_id. rewrite Hid, Hp. unfold bind. rewrite HG.
  unfold update_single, bind. rewrite update_step_full.
  rewrite (clean_fault _ _ (clean_advance l w C)).
  change (w_db (advance l w) restaurants) with (w_db w restaurants).
  rewrite U. eexists. split; [reflexivity|]. split; reflexivity.
Qed.

Lemma differs_id id r :
  satisfies [FEq "id" (JStr id)] r = false <-> assoc "id" r <> Some (JStr id).
Proof.
  rewrite satisfies_one. cbn [holds].
  destruct (assoc "id" r) as [x|]; [|split; [discriminate|reflexivity]].
  destruct (scalar_eqb x (JStr id)) eqn:E.
  - apply scalar_eqb_str in E. subst. split; [discriminate|congruence].
  - split; [|reflexivity]. intros _ [= ->].
    assert (H : scalar_eqb (JStr id) (JStr id) = true) by now apply scalar_eqb_str.
    congruence.
Qed.

Lemma holds_slug_iff s r :
  holds (FEq "slug" (JStr s)) r = true <-> holds_slug s r.
Proof.
  unfold holds_slug. cbn [holds].
  destruct (assoc "slug" r) as [x|]; [|split; discriminate].
  rewrite scalar_eqb_str. split; congruence.
Qed.

(** When the restaurant exists, the store refuses exactly the patches
    whose slug another restaurant holds. *)
Lemma update_repeats_taken rt body id patch w r :
  Restaurants.UpdateRestaurantSchema rt body = Some patch ->
  by_id restaurants id w = [r] ->
  update_repeats restaurants patch [FEq "id" (JStr id)] (w_db w restaurants)
  = true <-> slug_taken patch id w.
Proof.
  intros P B. unfold update_repeats, unique_columns. cbn [existsb].
  rewrite orb_false_r. unfold by_id in B. rewrite B.
  destruct (update_schema_slug rt body patch P) as [E|[s E]]; rewrite E.
  - split; [discriminate|]. intros [s [x [H _]]]. congruence.
  - cbn [List.length Nat.eqb Nat.ltb Nat.leb negb andb].
    rewrite andb_false_r, orb_false_r.
    rewrite existsb_exists. split.
    + intros [x [I H]]. apply andb_prop in H. destruct H as [N H].
      exists s, x. split; [exact E|]. split; [exact I|]. split.
      * apply differs_id. now apply negb_true_iff.
      * now apply holds_slug_iff.
    + intros [s' [x [S [I [N H]]]]]. rewrite E in S. injection S as <-.
      exists x. split; [exact I|].
      apply andb_true_intro. split.
      * apply negb_true_iff. now apply differs_id.
      * now apply holds_slug_iff.
Qed.

Lemma update_repeats_missing patch id w :
  by_id restaurants id w = [] ->
  update_repeats restaurants patch [FEq "id" (JStr id)] (w_db w restaurants)
  = false.
Proof.
  intros B. unfold update_repeats, unique_columns. cbn [existsb].
  unfold by_id in B. rewrite B.
  destruct (assoc "slug" patch) as [v|]; [|reflexivity].
  cbn. now rewrite andb_false_r.
Qed.

Lemma by_id_patched id patch w w' :
  ~ In "id" (map fst patch) ->
  patched restaurants id patch w w' ->
  by_id restaurants id w' = map (assign_all patch) (by_id restaurants id w).
Proof.
  intros N [R _]. unfold by_id. rewrite R.
  apply matching_mapped. intros r. cbn [holds].
  now rewrite assoc_assign_all_other.
Qed.

(** X5.  A PUT of a restaurant by a caller allowed to write it, on a
    sound backend, with a body the schema accepts.  When the restaurant
    exists and the body gives no slug that another restaurant holds, the
    answer is 200 with the row as updated, in which every column of the
    parsed body has the value given and every other column the value it
    had, while the other rows and tables stay as they were.  When the
    restaurant exists and the body gives the slug of another restaurant,
    the answer is 400 "Slug already exists" and nothing changes.  When
    the restaurant does not exist (which only an admin can get to see, a
    partner being stopped with 404 by the guard) the answer is 500 and
    nothing changes. *)
Theorem X5_put_updates_the_row :
  forall (rt : runtime) (req : request) (id : string) (patch : row) (w : world),
    clean w -> keyed users w -> keyed restaurants w ->
    Restaurants.IdSchema rt (param req "id") = Some id ->
    Restaurants.UpdateRestaurantSchema rt (req_body req) = Some patch ->
    may_write req id w ->
    (forall r,
        by_id restaurants id w = [r] ->
        ~ slug_taken patch id w ->
        exists w',
          Restaurants.put_by_id rt req w
          = (reply 200 (JObj [("item", JObj (assign_all patch r))]), w') /\
          patched restaurants id patch w w' /\
          by_id restaurants id w' = [assign_all patch r] /\
          (forall k v, In (k, v) patch ->
                       assoc k (assign_all patch r) = Some v) /\
          (forall k, ~ In k (map fst patch) ->
                     assoc k (assign_all patch r) = assoc k r))
    /\
    (forall r,
        by_id restaurants id w = [r] ->
        slug_taken patch id w ->
        exists w',
          Restaurants.put_by_id rt req w
          = (reply_error 400 "Slug already exists", w') /\
          w_db w' = w_db w)
    /\
    (by_id restaurants id w = [] ->
     exists w',
       Restaurants.put_by_id rt req w
       = (reply_error 500 (message not_single), w') /\
       w_db w' restaurants = w_db w restaurants /\
       (forall t, t <> restaurants -> w_db w' t = w_db w t)).
Proof.
  intros rt req id patch w C KU KR Hid Hp G.
  destruct (update_schema_keys rt _ _ Hp) as [K D].
  assert (N : ~ In "id" (map fst patch)).
  { intros H. apply K in H. cbn in H. intuition discriminate. }
  split; [|split].
  - intros r B T.
    assert (U : update_repeats restaurants patch [FEq "id" (JStr id)]
                  (w_db w restaurants) = false).
    { apply not_true_is_false. intros H. apply T.
      now apply (update_repeats_taken rt _ id patch w r Hp B). }
    destruct (put_grants rt req id patch w C KU KR Hid Hp G U) as [w' [E [_ P]]].
    rewrite B in E. exists w'. split; [exact E|].
    split; [exact P|]. split.
    + rewrite (by_id_patched id patch w w' N P), B. reflexivity.
    + split.
      * intros k v H. now apply assoc_assign_all_in.
      * intros k H. now apply assoc_assign_all_other.
  - intros r B T.
    apply (update_repeats_taken rt _ id patch w r Hp B) in T.
    destruct (put_refused rt req id patch w C KU KR Hid Hp G T) as [w' [E [S _]]].
    exists w'. split; [exact E|exact S].
  - intros B.
    destruct (put_grants rt req id patch w C KU KR Hid Hp G
                (update_repeats_missing patch id w B)) as [w' [E [_ P]]].
    rewrite B in E. exists w'. split; [exact E|].
    destruct P as [R [O _]]. split; [|exact O].
    rewrite R. rewrite <- (map_id (w_db w restaurants)) at 2.
    apply map_ext_in. intros x I.
    destruct (satisfies [FEq "id" (JStr id)] x) eqn:S; [|reflexivity].
    exfalso. unfold by_id, matching in B.
    assert (H : In x (List.filter (satisfies [FEq "id" (JStr id)])
                        (w_db w restaurants)))
      by (apply filter_In; now split).
    now rewrite B in H.
Qed.

(** In the town the owner of Anise moves it to Goa under a slug of its
    own, and is refused the slug of Basil. *)
Lemma X5_witness :
  clean Cases.town /\
  may_write (Cases.owner_puts (JObj [("city", JStr " Goa "); ("slug", JStr "anise")]))
    Fixtures.restaurant_id Cases.town /\
  by_id restaurants Fixtures.restaurant_id Cases.town = [Cases.anise] /\
  ~ slug_taken [("city", JStr "Goa"); ("slug", JStr "anise")]
      Fixtures.restaurant_id Cases.town /\
  slug_taken [("slug", JStr "basil")] Fixtures.restaurant_id Cases.town /\
  (exists w',
      Restaurants.put_by_id Fixtures.rt
        (Cases.owner_puts (JObj [("city", JStr " Goa "); ("slug", JStr "anise")]))
        Cases.town
      = (reply 200
           (JObj [("item",
                   JObj (assign_all [("city", JStr "Goa"); ("slug", JStr "anise")]
                           Cases.anise))]),
         w') /\
      by_id restaurants Fixtures.restaurant_id w'
      = [assign_all [("city", JStr "Goa"); ("slug", JStr "anise")] Cases.anise]) /\
  (exists w',
      Restaurants.put_by_id Fixtures.rt
        (Cases.owner_puts (JObj [("slug", JStr " basil ")])) Cases.town
      = (reply_error 400 "Slug already exists", w') /\
      w_db w' = w_db Cases.town).
Proof.
  assert (C : clean Cases.town) by reflexivity.
  assert (M : forall b, may_write (Cases.owner_puts b) Fixtures.restaurant_id
                          Cases.town).
  { intros b. exists Fixtures.partner_id. split; [reflexivity|]. right.
    split; [reflexivity|]. exists Cases.anise. split; reflexivity. }
  assert (F : ~ slug_taken [("city", JStr "Goa"); ("slug", JStr "anise")]
                  Fixtures.restaurant_id Cases.town).
  { intros [s [r [E [I [N H]]]]]. injection E as <-.
    destruct I as [<-|[<-|[]]]; [now apply N|discriminate H]. }
  assert (T : slug_taken [("slug", JStr "basil")] Fixtures.restaurant_id
                Cases.town).
  { exists "basil", Cases.basil. split; [reflexivity|].
    split; [right; now left|]. split; [discriminate|reflexivity]. }
  split; [exact C|]. split; [apply M|]. split; [reflexivity|].
  split; [exact F|]. split; [exact T|]. split.
  - destruct (proj1 (X5_put_updates_the_row Fixtures.rt
                       (Cases.owner_puts
                          (JObj [("city", JStr " Goa "); ("slug", JStr "anise")]))
                       Fixtures.restaurant_id
                       [("city", JStr "Goa"); ("slug", JStr "anise")]
                       Cases.town C eq_refl eq_refl eq_refl eq_refl (M _))
                Cases.anise eq_refl F) as [w' [E [_ [B _]]]].
    exists w'. split; [exact E|exact B].
  - exact (proj1 (proj2 (X5_put_updates_the_row Fixtures.rt
                           (Cases.owner_puts (JObj [("slug", JStr " basil ")]))
                           Fixtures.restaurant_id [("slug", JStr "basil")]
                           Cases.town C eq_refl eq_refl eq_refl eq_refl (M _)))
             Cases.anise eq_refl T).
Defined.

(** ** Closing a restaurant and opening it again *)

Lemma assign_assign {A} k (v v' : A) l : assign k v (assign k v' l) = assign k v l.
Proof.
  induction l as [|[k' x] l IH]; cbn.
  - now rewrite String.eqb_refl.
  - destruct (String.eqb k k') eqn:E; cbn.
    + now rewrite String.eqb_refl.
    + now rewrite E, IH.
Qed.

Lemma assign_same {A} k (v : A) l : assoc k l = Some v -> assign k v l = l.
Proof.
  induction l as [|[k' x] l IH]; cbn; [discriminate|].
  destruct (String.eqb k k') eqn:E.
  - apply String.eqb_eq in E. intros [= ->]. now subst.
  - intros H. now rewrite IH.
Qed.

Lemma satisfies_id_in id rs r x :
  matching [FEq "id" (JStr id)] rs = [r] -> In x rs ->
  satisfies [FEq "id" (JStr id)] x = true -> x = r.
Proof.
  intros B I S.
  assert (H : In x (matching [FEq "id" (JStr id)] rs))
    by (apply filter_In; now split).
  rewrite B in H. destruct H as [<-|[]]. reflexivity.
Qed.

Lemma same_id_mapped (f : row -> row) v rs :
  (forall y, assoc "id" (f y) = assoc "id" y) ->
  existsb (same_id v) (map f rs) = existsb (same_id v) rs.
Proof.
  intros I. induction rs as [|x rs IH]; [reflexivity|].
  cbn [map existsb]. rewrite IH. unfold same_id. now rewrite I.
Qed.

Lemma distinct_ids_mapped (f : row -> row) rs :
  (forall y, assoc "id" (f y) = assoc "id" y) ->
  distinct_ids (map f rs) = distinct_ids rs.
Proof.
  intros I. induction rs as [|x rs IH]; [reflexivity|].
  cbn [map distinct_ids]. rewrite IH, I.
  destruct (assoc "id" x); [|reflexivity].
  now rewrite same_id_mapped.
Qed.

Lemma may_write_transfer req req' id w w' :
  req_authorization req' = req_authorization req ->
  w_sessions w' = w_sessions w ->
  w_db w' users = w_db w users ->
  (forall r, by_id restaurants id w = [r] ->
             exists r', by_id restaurants id w' = [r'] /\
                        assoc "owner_user_id" r' = assoc "owner_user_id" r) ->
  may_write req id w -> may_write req' id w'.
Proof.
  intros A S U R [uid [I G]]. exists uid.
  assert (T : Restaurants.getBearerToken req' = Restaurants.getBearerToken req)
    by (unfold Restaurants.getBearerToken; now rewrite A).
  split; [unfold identity in *; now rewrite T, S|].
  unfold role_of, by_id in *. rewrite U.
  destruct G as [G|[P [r [B O]]]]; [now left|right].
  split; [exact P|]. destruct (R r B) as [r' [B' O']].
  exists r'. split; [exact B'|congruence].
Qed.

(** X6.  Closing a restaurant and opening it again: after a soft
    DELETE, a PUT of [{is_active: true}] by the same caller brings the
    table back to what it was before the deletion, and answers with the
    row as it was. *)
Theorem X6_soft_delete_then_restore :
  forall (rt : runtime) (del put : request) (id : string) (w : world) (r : row),
    clean w -> keyed users w -> keyed restaurants w ->
    Restaurants.IdSchema rt (param del "id") = Some id ->
    Restaurants.IdSchema rt (param put "id") = Some id ->
    req_authorization put = req_authorization del ->
    req_body put = Some (JObj [("is_active", JBool true)]) ->
    may_write del id w -> asks_soft del ->
    by_id restaurants id w = [r] ->
    assoc "is_active" r = Some (JBool true) ->
    let w1 := snd (Restaurants.delete_by_id rt del w) in
    let w2 := snd (Restaurants.put_by_id rt put w1) in
    by_id restaurants id w1 = [deactivate r] /\
    fst (Restaurants.put_by_id rt put w1) = reply 200 (JObj [("item", JObj r)]) /\
    w_db w2 restaurants = w_db w restaurants /\
    (forall t, t <> restaurants -> w_db w2 t = w_db w t).
Proof.
  intros rt del put id w r C KU KR Hd Hp A Hb G S B T. cbv zeta.
  destruct (proj2 (restaurants_delete rt del id w r C KU KR Hd G B) S)
    as [w1 [E1 [C1 [R1 [B1 _]]]]].
  rewrite E1. cbn [snd].
  assert (O1 : forall t, t <> restaurants -> w_db w1 t = w_db w t /\
                                             w_sessions w1 = w_sessions w).
  { intros t N. pose proof (f_equal snd E1) as W. cbn [snd] in W.
    (* the world of a soft deletion *)
    destruct S as [o [Q H]].
    unfold Restaurants.delete_by_id in W. rewrite Hd, Q in W.
    rewrite (DeleteQuerySchema_soft rt o H) in W. unfold bind in W.
    destruct (guard_grants del id w C KU KR G) as [c [l HG]].
    rewrite HG in W.
    rewrite maybeSingle_by_id, (clean_fault _ _ (clean_advance l w C)) in W.
    rewrite by_id_advance, B, update_step in W by reflexivity.
    rewrite (clean_fault _ _ (clean_advance _ _ (clean_advance l w C))) in W.
    cbn [snd ret] in W. subst w1. split; [|reflexivity].
    cbn. now rewrite with_rows_other by congruence. }
  assert (KU1 : keyed users w1).
  { apply (keyed_transfer users w w1); [|exact KU].
    apply O1. discriminate. }
  assert (KR1 : keyed restaurants w1).
  { unfold keyed. rewrite R1, distinct_ids_mapped; [exact KR|].
    intros y. destruct (satisfies _ y); [|reflexivity].
    apply assoc_assign_other. discriminate. }
  assert (G1 : may_write put id w1).
  { apply (may_write_transfer del put id w w1 A); try exact G.
    - apply (O1 users). discriminate.
    - apply (O1 users). discriminate.
    - intros r0 B0. rewrite B in B0. injection B0 as <-.
      exists (deactivate r). split; [exact B1|].
      apply assoc_assign_other. discriminate. }
  assert (P : Restaurants.UpdateRestaurantSchema rt (req_body put)
              = Some [("is_active", JBool true)])
    by (rewrite Hb; reflexivity).
  destruct (put_grants rt put id _ w1 C1 KU1 KR1 Hp P G1 eq_refl)
    as [w2 [E2 [_ [R2 [O2 _]]]]].
  rewrite E2, B1. cbn [fst snd map].
  assert (U : assign_all [("is_active", JBool true)] (deactivate r) = r).
  { unfold assign_all, deactivate, written. cbn [fold_left fst snd].
    rewrite assign_assign. now apply assign_same. }
  rewrite U. split; [reflexivity|]. split; [reflexivity|]. split.
  - rewrite R2, R1, map_map. rewrite <- (map_id (w_db w restaurants)) at 2.
    apply map_ext_in. intros x I.
    destruct (satisfies [FEq "id" (JStr id)] x) eqn:Sx.
    + rewrite (satisfies_id_in id _ r x B I Sx).
      assert (Sd : satisfies [FEq "id" (JStr id)] (deactivate r) = true).
      { rewrite satisfies_one. unfold deactivate.
        rewrite holds_id_written by discriminate.
        rewrite <- satisfies_one.
        now rewrite <- (satisfies_id_in id _ r x B I Sx). }
      now rewrite Sd.
    + now rewrite Sx.
  - intros t N. rewrite (O2 t N). now apply O1.
Qed.

Lemma X6_witness :
  clean Fixtures.world0 /\
  asks_soft (Fixtures.owner_deletes []) /\
  by_id restaurants Fixtures.restaurant_id Fixtures.world0 = [Fixtures.restaurant] /\
  w_db (snd (Restaurants.put_by_id Fixtures.rt
               (Cases.owner_puts (JObj [("is_active", JBool true)]))
               (snd (Restaurants.delete_by_id Fixtures.rt
                       (Fixtures.owner_deletes []) Fixtures.world0))))
    restaurants
  = w_db Fixtures.world0 restaurants.
Proof.
  assert (C : clean Fixtures.world0) by reflexivity.
  assert (S : asks_soft (Fixtures.owner_deletes []))
    by (exists []; split; [reflexivity|left; reflexivity]).
  assert (M : may_write (Fixtures.owner_deletes []) Fixtures.restaurant_id
                Fixtures.world0).
  { exists Fixtures.partner_id. split; [reflexivity|]. right.
    split; [reflexivity|]. exists Fixtures.restaurant. split; reflexivity. }
  split; [exact C|]. split; [exact S|]. split; [reflexivity|].
  exact (proj1 (proj2 (proj2
           (X6_soft_delete_then_restore Fixtures.rt (Fixtures.owner_deletes [])
              (Cases.owner_puts (JObj [("is_active", JBool true)]))
              Fixtures.restaurant_id Fixtures.world0 Fixtures.restaurant
              C eq_refl eq_refl eq_refl eq_refl eq_refl eq_refl M S
              eq_refl eq_refl)))).
Defined.

(* ===================================================================== *)
(** * Saving user details                                                *)
(* ===================================================================== *)

Lemma eval_eq_id cols v rows :
  eval (eq_ "id" v (select cols)) rows =
  Some (map (project cols) (matching [FEq "id" v] rows),
        List.length (matching [FEq "id" v] rows)).
Proof. apply eval_by_id. Qed.

Lemma by_id_set_db t id rs db w0 :
  by_id t id (set_db (with_rows t rs db) w0) = matching [FEq "id" (JStr id)] rs.
Proof. unfold by_id. cbn [w_db set_db]. now rewrite with_rows_same. Qed.

Lemma save_steps rt req w i name phone :
  details req i name phone ->
  UserDetails.saveUserDetails rt req w =
  if fault 0 w
  then (UserDetails.failure 500 "DB error", advance [Select users] w)
  else
    match by_id users i w with
    | [u] =>
        let w1 := ticked 1 (advance [Select users] w) in
        let patch := details_patch rt name phone (w_clock w (w_ticks w)) in
        if fault 1 w
        then (UserDetails.internal_error, advance [Update users] w1)
        else
          (match map (assign_all patch) (by_id users i w) with
           | [x] => UserDetails.saved x
           | _ => UserDetails.internal_error
           end,
           set_db
             (with_rows users
                (map (fun r => if satisfies [FEq "id" (JStr i)] r
                               then assign_all patch r else r) (w_db w users))
                (w_db w))
             (advance [Update users] w1))
    | _ =>
        let w1 := advance [Select users] w in
        let r := [("id", JStr i); ("full_name", name); ("phone", phone)] in
        if fault 1 w
        then (UserDetails.internal_error, advance [Insert users] w1)
        else if existsb (same_id (JStr i)) (w_db w users)
        then (UserDetails.internal_error, advance [Insert users] w1)
        else
          (UserDetails.saved r,
           set_db (with_rows users (w_db w users ++ [r]) (w_db w))
             (advance [Insert users] w1))
    end.
Proof.
  intros [[o B] [I [N [F [TF [P TP]]]]]].
  unfold UserDetails.saveUserDetails. rewrite B in *. rewrite I, F, P.
  assert (TI : truthy (Some (JStr i)) = true).
  { cbn. destruct (String.eqb i EmptyString) eqn:E; [|reflexivity].
    apply String.eqb_eq in E. contradiction. }
  rewrite TI, TF, TP. cbn [negb orb nullish].
  unfold bind. rewrite single_by_id.
  destruct (fault 0 w) eqn:F0; [reflexivity|].
  assert (F1 : fault 0 (advance [Select users] w) = fault 1 w)
    by (rewrite fault_advance; reflexivity).
  destruct (by_id users i w) as [|u [|u' l]] eqn:E.
  - cbn [code not_single String.eqb Ascii.eqb Bool.eqb negb project].
    cbn [literal_of]. rewrite insert_step, F1 by reflexivity.
    destruct (fault 1 w); [reflexivity|].
    cbn [assoc String.eqb Ascii.eqb Bool.eqb].
    change (w_db (advance [Select users] w) users) with (w_db w users).
    destruct (existsb (same_id (JStr i)) (w_db w users)); reflexivity.
  - cbn [project]. rewrite new_Date_step. cbn [literal_of].
    unfold update_single, bind. rewrite update_step by reflexivity.
    assert (F2 : fault 0 (ticked 1 (advance [Select users] w)) = fault 1 w)
      by exact F1.
    rewrite F2. destruct (fault 1 w); [reflexivity|].
    change (w_db (ticked 1 (advance [Select users] w)) users) with (w_db w users).
    fold (by_id users i w). rewrite E. cbn [map]. reflexivity.
  - cbn [code not_single String.eqb Ascii.eqb Bool.eqb negb project].
    cbn [literal_of]. rewrite insert_step, F1 by reflexivity.
    destruct (fault 1 w); [reflexivity|].
    cbn [assoc String.eqb Ascii.eqb Bool.eqb].
    change (w_db (advance [Select users] w) users) with (w_db w users).
    destruct (existsb (same_id (JStr i)) (w_db w users)); reflexivity.
Qed.

Lemma details_patch_columns rt name phone t u :
  let u' := assign_all (details_patch rt name phone t) u in
  assoc "full_name" u' = Some name /\ assoc "phone" u' = Some phone /\
  assoc "updated_at" u' = Some (JStr (toISOString rt t)) /\
  (forall k, k <> "full_name" -> k <> "phone" -> k <> "updated_at" ->
             assoc k u' = assoc k u).
Proof.
  cbv zeta.
  assert (D : NoDup (map fst (details_patch rt name phone t)))
    by (cbn; repeat constructor; cbn; intuition discriminate).
  split; [|split; [|split]].
  - apply assoc_assign_all_in; [exact D|now left].
  - apply assoc_assign_all_in; [exact D|right; now left].
  - apply assoc_assign_all_in; [exact D|right; right; now left].
  - intros k N1 N2 N3. apply assoc_assign_all_other.
    cbn. intros [H|[H|[H|[]]]]; congruence.
Qed.

Lemma save_new rt req w i name phone :
  clean w -> details req i name phone -> by_id users i w = [] ->
  let r := [("id", JStr i); ("full_name", name); ("phone", phone)] in
  exists w',
    UserDetails.saveUserDetails rt req w = (UserDetails.saved r, w') /\
    clean w' /\
    w_db w' users = w_db w users ++ [r] /\
    (forall t, t <> users -> w_db w' t = w_db w t) /\
    by_id users i w' = [r].
Proof.
  intros C D B.
  rewrite (save_steps rt req w i name phone D), !(clean_fault _ _ C).
  rewrite B, (no_row_no_clash i _ B). cbv zeta.
  eexists. split; [reflexivity|]. split; [|split; [|split]].
  - apply clean_set_db. now repeat apply clean_advance.
  - cbn [w_db set_db]. now rewrite with_rows_same.
  - intros t N. cbn [w_db set_db]. now rewrite with_rows_other by congruence.
  - rewrite by_id_set_db. now apply by_id_registered.
Qed.

Lemma save_known rt req w i name phone u :
  clean w -> details req i name phone -> by_id users i w = [u] ->
  let patch := details_patch rt name phone (w_clock w (w_ticks w)) in
  let u' := assign_all patch u in
  exists w',
    UserDetails.saveUserDetails rt req w = (UserDetails.saved u', w') /\
    clean w' /\
    patched users i patch w w' /\
    List.length (w_db w' users) = List.length (w_db w users) /\
    by_id users i w' = [u'].
Proof.
  intros C D B.
  rewrite (save_steps rt req w i name phone D), !(clean_fault _ _ C).
  rewrite B. cbv zeta. cbn [map].
  eexists. split; [reflexivity|]. split; [|split; [|split]].
  - apply clean_set_db. apply clean_advance. apply clean_ticked.
    now apply clean_advance.
  - apply (patched_intro users i _ w
             (advance [Update users] (ticked 1 (advance [Select users] w))));
      reflexivity.
  - cbn [w_db set_db]. rewrite with_rows_same. apply length_map.
  - rewrite by_id_set_db, matching_mapped.
    + fold (by_id users i w). now rewrite B.
    + intros r. cbn [holds]. rewrite assoc_assign_all_other; [reflexivity|].
      cbn. intros [H|[H|[H|[]]]]; discriminate.
Qed.

(** X7.  POST /api/user/details on a sound backend, with an id, a name
    and a phone: when the registry has no row for the id, a row of
    exactly these three columns is added; when it has one, that row
    takes the name and the phone given and the current instant as
    updated_at, keeps every other column, and no row is added; either
    way the answer is 200 with the row as stored, and afterwards the
    registry has exactly one row for the id. *)
Theorem X7_save_user_details :
  forall (rt : runtime) (req : request) (w : world) (i : string)
         (name phone : json),
    clean w -> details req i name phone ->
    (by_id users i w = [] ->
     let r := [("id", JStr i); ("full_name", name); ("phone", phone)] in
     exists w',
       UserDetails.saveUserDetails rt req w = (UserDetails.saved r, w') /\
       w_db w' users = w_db w users ++ [r] /\
       (forall t, t <> users -> w_db w' t = w_db w t) /\
       by_id users i w' = [r])
    /\
    (forall u,
        by_id users i w = [u] ->
        let patch := details_patch rt name phone (w_clock w (w_ticks w)) in
        let u' := assign_all patch u in
        exists w',
          UserDetails.saveUserDetails rt req w = (UserDetails.saved u', w') /\
          patched users i patch w w' /\
          List.length (w_db w' users) = List.length (w_db w users) /\
          by_id users i w' = [u'] /\
          assoc "full_name" u' = Some name /\ assoc "phone" u' = Some phone /\
          assoc "updated_at" u'
          = Some (JStr (toISOString rt (w_clock w (w_ticks w)))) /\
          (forall k, k <> "full_name" -> k <> "phone" -> k <> "updated_at" ->
                     assoc k u' = assoc k u)).
Proof.
  intros rt req w i name phone C D. split.
  - intros B. destruct (save_new rt req w i name phone C D B)
      as [w' [E [_ [R [O B']]]]].
    exists w'. repeat split; assumption.
  - intros u B. destruct (save_known rt req w i name phone u C D B)
      as [w' [E [_ [P [L B']]]]].
    pose proof (details_patch_columns rt name phone (w_clock w (w_ticks w)) u)
      as [H1 [H2 [H3 H4]]].
    exists w'. repeat split; try assumption; apply P.
Qed.

Lemma X7_witness :
  clean Fixtures.world0 /\
  details (Cases.saves (JStr Fixtures.member_id) (JStr "Mira K") (JNum 98))
    Fixtures.member_id (JStr "Mira K") (JNum 98) /\
  exists w',
    snd (UserDetails.saveUserDetails Fixtures.rt
           (Cases.saves (JStr Fixtures.member_id) (JStr "Mira K") (JNum 98))
           Fixtures.world0) = w' /\
    by_id users Fixtures.member_id w'
    = [[("id", JStr Fixtures.member_id); ("email", JStr "Mira@x.io");
        ("role", JStr "user"); ("full_name", JStr "Mira K"); ("phone", JNum 98);
        ("updated_at", JStr "T1700000000000")]].
Proof.
  assert (C : clean Fixtures.world0) by reflexivity.
  assert (D : details (Cases.saves (JStr Fixtures.member_id) (JStr "Mira K") (JNum 98))
                Fixtures.member_id (JStr "Mira K") (JNum 98)).
  { split; [eexists; reflexivity|]. split; [reflexivity|].
    split; [discriminate|]. repeat split; reflexivity. }
  split; [exact C|]. split; [exact D|].
  destruct (proj2 (X7_save_user_details Fixtures.rt _ Fixtures.world0 _ _ _ C D)
              _ eq_refl) as [w' [E [_ [_ [B _]]]]].
  exists w'. split; [now rewrite E|exact B].
Defined.

(** X8.  POST /api/user/details refuses and fails without writing: an
    id, a name or a phone that is missing or falsy (an empty string, 0,
    [false], [null]) is answered 400 before the registry is read; a
    request without body is answered 500; when the lookup of the user
    fails the answer is 500 "DB error"; and whatever the backend does, a
    request that is not answered 200 has stored nothing. *)
Theorem X8_save_user_details_refuses :
  forall (rt : runtime) (req : request) (w : world),
    let res := fst (UserDetails.saveUserDetails rt req w) in
    let w' := snd (UserDetails.saveUserDetails rt req w) in
    (forall o,
        req_body req = Some (JObj o) ->
        (truthy (assoc "id" o) = false \/ truthy (assoc "full_name" o) = false \/
         truthy (assoc "phone" o) = false) ->
        UserDetails.saveUserDetails rt req w
        = (UserDetails.failure 400 "Missing required fields", w))
    /\
    (req_body req = None ->
     UserDetails.saveUserDetails rt req w = (UserDetails.internal_error, w))
    /\
    (forall i name phone,
        details req i name phone -> fault 0 w = true ->
        res = UserDetails.failure 500 "DB error" /\ same_data w w')
    /\
    (forall i name phone,
        details req i name phone -> status res <> 200%Z -> same_data w w').
Proof.
  intros rt req w. cbv zeta. split; [|split; [|split]].
  - intros o B H. unfold UserDetails.saveUserDetails. rewrite B.
    cbn [prop].
    destruct H as [H|[H|H]]; rewrite H; cbn [negb orb];
      try reflexivity;
      destruct (truthy (assoc "id" o)); cbn [negb orb]; try reflexivity;
      destruct (truthy (assoc "full_name" o)); reflexivity.
  - intros B. unfold UserDetails.saveUserDetails. now rewrite B.
  - intros i name phone D F.
    rewrite (save_steps rt req w i name phone D), F. split; [reflexivity|].
    split; reflexivity.
  - intros i name phone D.
    rewrite (save_steps rt req w i name phone D).
    destruct (fault 0 w); [intros _; split; reflexivity|].
    destruct (by_id users i w) as [|u [|u' l]]; cbv zeta;
      destruct (fault 1 w); try (intros _; split; reflexivity);
      try (destruct (existsb (same_id (JStr i)) (w_db w users));
           [intros _; split; reflexivity|intros H; now destruct H]).
    cbn [map fst]. intros H. now destruct H.
Qed.

Lemma X8_witness :
  UserDetails.saveUserDetails Fixtures.rt
    (Cases.saves (JStr Fixtures.member_id) (JStr "Mira") (JStr EmptyString))
    Fixtures.world0
  = (UserDetails.failure 400 "Missing required fields", Fixtures.world0).
Proof.
  apply (proj1 (X8_save_user_details_refuses Fixtures.rt
                  (Cases.saves (JStr Fixtures.member_id) (JStr "Mira")
                     (JStr EmptyString))
                  Fixtures.world0) _ eq_refl).
  right. right. reflexivity.
Defined.

(** X9.  Saving the details of a new user and then saving again for the
    same id: the second call updates the row the first one created, so
    the registry has grown by one row only, and that row carries the
    name and the phone of the second call. *)
Theorem X9_save_twice_keeps_one_row :
  forall (rt : runtime) (req1 req2 : request) (w : world) (i : string)
         (name1 phone1 name2 phone2 : json),
    clean w ->
    details req1 i name1 phone1 -> details req2 i name2 phone2 ->
    by_id users i w = [] ->
    let w1 := snd (UserDetails.saveUserDetails rt req1 w) in
    let res2 := fst (UserDetails.saveUserDetails rt req2 w1) in
    let w2 := snd (UserDetails.saveUserDetails rt req2 w1) in
    status res2 = 200%Z /\
    List.length (w_db w2 users) = S (List.length (w_db w users)) /\
    exists u,
      by_id users i w2 = [u] /\
      assoc "id" u = Some (JStr i) /\
      assoc "full_name" u = Some name2 /\ assoc "phone" u = Some phone2.
Proof.
  intros rt req1 req2 w i name1 phone1 name2 phone2 C D1 D2 B. cbv zeta.
  destruct (save_new rt req1 w i name1 phone1 C D1 B)
    as [w1 [E1 [C1 [R1 [_ B1]]]]].
  rewrite E1. cbn [snd].
  destruct (save_known rt req2 w1 i name2 phone2 _ C1 D2 B1)
    as [w2 [E2 [_ [_ [L2 B2]]]]].
  rewrite E2. cbn [fst snd]. split; [reflexivity|]. split.
  - rewrite L2, R1, length_app. cbn. lia.
  - eexists. split; [exact B2|].
    match goal with
    | |- context [assign_all ?p ?u] =>
        pose proof (details_patch_columns rt name2 phone2 (w_clock w1 (w_ticks w1)) u)
          as [H1 [H2 [_ H4]]]
    end.
    split; [|split; assumption].
    rewrite H4 by discriminate. reflexivity.
Qed.

Lemma X9_witness :
  clean Fixtures.world0 /\
  by_id users Fixtures.newcomer_id Fixtures.world0 = [] /\
  List.length
    (w_db (snd (UserDetails.saveUserDetails Fixtures.rt
                  (Cases.saves (JStr Fixtures.newcomer_id) (JStr "Nia") (JStr "7"))
                  (snd (UserDetails.saveUserDetails Fixtures.rt
                          (Cases.saves (JStr Fixtures.newcomer_id) (JStr "N")
                             (JStr "6"))
                          Fixtures.world0)))) users)
  = 5%nat.
Proof.
  assert (C : clean Fixtures.world0) by reflexivity.
  assert (D : forall n p, n <> EmptyString -> p <> EmptyString ->
                details (Cases.saves (JStr Fixtures.newcomer_id) (JStr n) (JStr p))
                  Fixtures.newcomer_id (JStr n) (JStr p)).
  { intros n p Hn Hp.
    split; [eexists; reflexivity|]. split; [reflexivity|].
    split; [discriminate|]. split; [reflexivity|]. split.
    - cbn. destruct (String.eqb n EmptyString) eqn:E; [|reflexivity].
      apply String.eqb_eq in E. contradiction.
    - split; [reflexivity|]. cbn.
      destruct (String.eqb p EmptyString) eqn:E; [|reflexivity].
      apply String.eqb_eq in E. contradiction. }
  split; [exact C|]. split; [reflexivity|].
  exact (proj1 (proj2 (X9_save_twice_keeps_one_row Fixtures.rt _ _ Fixtures.world0
                         Fixtures.newcomer_id _ _ _ _ C
                         (D "N" "6" ltac:(discriminate) ltac:(discriminate))
                         (D "Nia" "7" ltac:(discriminate) ltac:(discriminate))
                         eq_refl))).
Defined.

(* ===================================================================== *)
(** * Creating a restaurant                                              *)
(* ===================================================================== *)

Lemma requireAdmin_sound req w c w' :
  Restaurants.requireAdmin req w = (inr c, w') -> is_admin req w.
Proof.
  rewrite requireAdmin_steps. unfold is_admin, identity.
  destruct (Restaurants.getBearerToken req) as [tok|]; [|discriminate].
  destruct (fault 0 w); [discriminate|].
  destruct (assoc tok (w_sessions w)) as [uid|]; [|discriminate].
  destruct (fault 1 w); [discriminate|].
  destruct (registry_role uid w) as [role|e] eqn:R; [|discriminate].
  destruct (Restaurants.isAdminRole role) eqn:A; [|discriminate].
  intros _. exists uid. split; [reflexivity|].
  now rewrite <- (registry_role_admin uid w role R).
Qed.

Lemma requireAdmin_world req w :
  exists l, snd (Restaurants.requireAdmin req w) = advance l w.
Proof.
  rewrite requireAdmin_steps.
  destruct (Restaurants.getBearerToken req) as [tok|];
    [|exists []; cbn; unfold advance; cbn; rewrite app_nil_r; now destruct w].
  destruct (if fault 0 w then None else assoc tok (w_sessions w)) as [uid|];
    eexists; reflexivity.
Qed.

Lemma write_error_status e :
  status (Restaurants.write_error e) = 400%Z \/
  status (Restaurants.write_error e) = 500%Z.
Proof.
  unfold Restaurants.write_error.
  destruct (String.eqb (code e) "23505"); [now left|now right].
Qed.

Lemma parse_fields_assoc fs o out k s :
  NoDup (map fst fs) ->
  Zod.parse_fields fs o = Some out -> In (k, s) fs ->
  exists v, s (assoc k o) = Some v /\ assoc k out = v.
Proof.
  revert out. induction fs as [|[k' s'] fs IH]; intros out D P H; [destruct H|].
  cbn [Zod.parse_fields] in P. cbn [map fst] in D.
  inversion D as [|? ? N D']; subst.
  destruct (s' (assoc k' o)) as [v'|] eqn:E'; [|discriminate].
  destruct (Zod.parse_fields fs o) as [rest|] eqn:R; [|discriminate].
  destruct (parse_fields_keys fs o rest R) as [K _].
  assert (A : assoc k' rest = None).
  { destruct (assoc k' rest) as [x|] eqn:A; [|reflexivity].
    exfalso. apply N. apply K. clear - A.
    induction rest as [|[a b] rest IH]; [discriminate|].
    cbn in A |- *. destruct (String.eqb k' a) eqn:E.
    - apply String.eqb_eq in E. now left.
    - right. now apply IH. }
  destruct H as [[= -> ->]|H].
  - exists v'. split; [exact E'|]. injection P as <-.
    destruct v' as [j|]; [cbn; now rewrite String.eqb_refl|exact A].
  - destruct (IH rest D' eq_refl H) as [v [Ev Av]].
    exists v. split; [exact Ev|]. injection P as <-.
    assert (NE : k <> k').
    { intros ->. apply N. apply in_map_iff. now exists (k', s). }
    destruct v' as [j|]; [|exact Av].
    cbn. apply String.eqb_neq in NE. now rewrite NE.
Qed.

Lemma create_fields_distinct rt :
  NoDup (map fst
           [ ("name", Restaurants.text1 rt);
             ("phone", Zod.nullish_ (Restaurants.text rt));
             ("city", Zod.nullish_ (Restaurants.text rt));
             ("area", Zod.nullish_ (Restaurants.text rt));
             ("full_address", Zod.nullish_ (Restaurants.text rt));
             ("cuisines", Zod.default_ (JArr []) (Restaurants.strings rt));
             ("cost_for_two", Zod.nullish_ Restaurants.num);
             ("distance", Zod.nullish_ Restaurants.num);
             ("offer", Zod.nullish_ (Restaurants.text rt));
             ("facilities", Zod.default_ (JArr []) (Restaurants.strings rt));
             ("highlights", Zod.default_ (JArr []) (Restaurants.strings rt));
             ("worth_visit", Zod.default_ (JArr []) (Restaurants.strings rt));
             ("opening_hours",
              Zod.default_ (JObj []) (Restaurants.OpeningHoursSchema rt));
             ("reviews", Zod.default_ (JArr []) Zod.any);
             ("menu", Zod.default_ (JArr []) Zod.any);
             ("food_images", Zod.default_ (JArr []) (Restaurants.strings rt));
             ("ambience_images", Zod.default_ (JArr []) (Restaurants.strings rt));
             ("cover_image", Zod.nullish_ (Zod.as_string (Zod.string_ rt [])));
             ("is_active", Zod.default_ (JBool true) (Zod.as_boolean Zod.boolean));
             ("slug", Restaurants.text1 rt);
             ("latitude", Zod.nullish_ Restaurants.num);
             ("longitude", Zod.nullish_ Restaurants.num);
             ("booking_enabled",
              Zod.default_ (JBool true) (Zod.as_boolean Zod.boolean));
             ("avg_duration_minutes", Zod.default_ (JNum 90) Restaurants.num);
             ("max_bookings_per_slot", Zod.nullish_ Restaurants.num);
             ("advance_booking_days", Zod.default_ (JNum 30) Restaurants.num);
             ("owner_user_id",
              Zod.nullish_ (Zod.as_string (Zod.string_ rt [Zod.Uuid]))) ]).
Proof. cbn. repeat constructor; cbn; intuition discriminate. Qed.

Ltac field_of P k :=
  let H := fresh "H" in
  let v := fresh "v" in
  let E := fresh "E" in
  let A := fresh "A" in
  pose proof P as H;
  unfold RestaurantsCreate.CreateRestaurantSchema, Zod.object in H;
  eapply (parse_fields_assoc _ _ _ k) in H;
  [destruct H as [v [E A]]
  |apply create_fields_distinct
  |cbn [In]; repeat first [left; reflexivity | right]].

Lemma new_row_assoc body k d :
  In (k, d) create_defaults ->
  assoc k (RestaurantsCreate.new_row body) = Some (nullish (assoc k body) d).
Proof.
  intros H. unfold RestaurantsCreate.new_row.
  cbn [In create_defaults] in H.
  destruct (assoc "name" body), (assoc "slug" body);
    repeat (destruct H as [H|H]; [injection H as <- <-; reflexivity|]);
    destruct H.
Qed.

Lemma optional_default_absent (d : json) (s : Zod.schema value) :
  Zod.default_ d s None = Some (Some d).
Proof. reflexivity. Qed.

Lemma nullish_absent (s : Zod.schema value) : Zod.nullish_ s None = Some None.
Proof. reflexivity. Qed.

Lemma text1_parsed rt v out :
  Restaurants.text1 rt v = Some out ->
  exists s, v = Some (JStr s) /\ trim s <> EmptyString /\
            out = Some (JStr (trim s)).
Proof.
  unfold Restaurants.text1, Zod.as_string, Zod.transform, Zod.string_.
  destruct v as [[| | |s| |]|]; try discriminate.
  cbn [Zod.run_checks Zod.run_check].
  destruct (Nat.leb 1 (String.length (trim s))) eqn:L; [|discriminate].
  intros [= <-]. exists s. split; [reflexivity|]. split; [|reflexivity].
  intros E. rewrite E in L. discriminate.
Qed.

Lemma create_post_steps rt req w :
  RestaurantsCreate.post rt req w =
  match RestaurantsCreate.CreateRestaurantSchema rt (req_body req) with
  | None => (reply_error 400 "Invalid body", w)
  | Some body =>
      match Restaurants.requireAdmin req w with
      | (inl r, w1) => (r, w1)
      | (inr _, w1) =>
          if fault 0 w1
          then (Restaurants.write_error backend_failure,
                advance [Insert restaurants] w1)
          else if repeats restaurants (RestaurantsCreate.new_row body)
                    (w_db w1 restaurants)
          then (reply_error 400 "Slug already exists",
                advance [Insert restaurants] w1)
          else
            (reply 201 (JObj [("restaurant",
                               JObj (RestaurantsCreate.new_row body))]),
             set_db
               (with_rows restaurants
                  (w_db w1 restaurants ++ [RestaurantsCreate.new_row body])
                  (w_db w1))
               (advance [Insert restaurants] w1))
      end
  end.
Proof.
  unfold RestaurantsCreate.post.
  destruct (RestaurantsCreate.CreateRestaurantSchema rt (req_body req))
    as [body|]; [|reflexivity].
  unfold bind. destruct (Restaurants.requireAdmin req w) as [[r|c] w1];
    [reflexivity|].
  rewrite insert_step_full. destruct (fault 0 w1); [reflexivity|].
  assert (N : assoc "id" (RestaurantsCreate.new_row body) = None).
  { unfold RestaurantsCreate.new_row.
    destruct (assoc "name" body), (assoc "slug" body); reflexivity. }
  rewrite N.
  destruct (repeats restaurants (RestaurantsCreate.new_row body)
              (w_db w1 restaurants)); reflexivity.
Qed.

(** The slug of a parsed body is text, and the row takes it. *)
Lemma created_slug rt v body :
  RestaurantsCreate.CreateRestaurantSchema rt v = Some body ->
  exists s, assoc "slug" body = Some (JStr s) /\
            assoc "slug" (RestaurantsCreate.new_row body) = Some (JStr s).
Proof.
  intros P.
  assert (O : exists o, v = Some (JObj o)).
  { unfold RestaurantsCreate.CreateRestaurantSchema, Zod.object in P.
    destruct v as [[| | | | |o]|]; try discriminate. now exists o. }
  destruct O as [o ->].
  field_of P "name". field_of P "slug".
  destruct (text1_parsed rt _ _ E) as [s [_ [_ ->]]].
  destruct (text1_parsed rt _ _ E0) as [s0 [_ [_ ->]]].
  exists (trim s0). split; [exact A0|].
  unfold RestaurantsCreate.new_row. rewrite A, A0. reflexivity.
Qed.

Lemma repeats_in_use r s w :
  assoc "slug" r = Some (JStr s) ->
  repeats restaurants r (w_db w restaurants) = true <-> slug_in_use s w.
Proof.
  intros E. unfold repeats, unique_columns. cbn [existsb]. rewrite E.
  rewrite orb_false_r, existsb_exists. unfold slug_in_use, holds_slug.
  split; intros [x [I H]]; exists x; (split; [exact I|]).
  - cbn [holds] in H. destruct (assoc "slug" x) as [y|]; [|discriminate].
    apply scalar_eqb_str in H. now subst.
  - cbn [holds]. rewrite H. now apply scalar_eqb_str.
Qed.

(** X10.  POST /api/restaurants: a body the schema refuses is answered
    400 "Invalid body" before the caller is looked at; whatever the
    backend does, only the restaurants table can change, it changes only
    by one row added at its end and only when the answer is 201, and a
    201 is only ever given to a caller who is admin or superadmin; on a
    sound backend such a caller with a valid body is answered 400 "Slug
    already exists", with nothing stored, when a restaurant holds the
    slug of the body, and gets 201 and the row when none does. *)
Theorem X10_only_admins_create :
  forall (rt : runtime) (req : request) (w : world),
    let res := fst (RestaurantsCreate.post rt req w) in
    let w' := snd (RestaurantsCreate.post rt req w) in
    (RestaurantsCreate.CreateRestaurantSchema rt (req_body req) = None ->
     RestaurantsCreate.post rt req w = (reply_error 400 "Invalid body", w))
    /\
    (forall t, t <> restaurants -> w_db w' t = w_db w t)
    /\
    (status res <> 201%Z -> w_db w' restaurants = w_db w restaurants)
    /\
    (status res = 201%Z ->
     is_admin req w /\
     exists body,
       RestaurantsCreate.CreateRestaurantSchema rt (req_body req) = Some body /\
       res = reply 201 (JObj [("restaurant",
                               JObj (RestaurantsCreate.new_row body))]) /\
       w_db w' restaurants
       = w_db w restaurants ++ [RestaurantsCreate.new_row body])
    /\
    (clean w -> keyed users w -> is_admin req w ->
     forall body,
       RestaurantsCreate.CreateRestaurantSchema rt (req_body req) = Some body ->
       exists s,
         assoc "slug" body = Some (JStr s) /\
         (slug_in_use s w ->
          res = reply_error 400 "Slug already exists" /\ w_db w' = w_db w) /\
         (~ slug_in_use s w ->
          res = reply 201 (JObj [("restaurant",
                                  JObj (RestaurantsCreate.new_row body))]))).
Proof.
  intros rt req w. cbv zeta. rewrite create_post_steps.
  destruct (RestaurantsCreate.CreateRestaurantSchema rt (req_body req))
    as [body|] eqn:P.
  2:{ cbn [fst snd]. split; [reflexivity|]. split; [reflexivity|].
      split; [reflexivity|]. split; [discriminate|]. intros _ _ _ b H.
      discriminate. }
  split; [discriminate|].
  destruct (created_slug rt _ body P) as [s [Sb Sr]].
  destruct (requireAdmin_world req w) as [l W].
  destruct (Restaurants.requireAdmin req w) as [[r|c] w1] eqn:G;
    cbn [snd] in W; subst w1.
  - cbn [fst snd].
    destruct (requireAdmin_refuses req w r _ G) as [_ S].
    split; [reflexivity|]. split; [reflexivity|]. split; [lia|].
    intros C K A. destruct (admin_grants req w C K A) as [c G'].
    rewrite G in G'. discriminate.
  - pose proof (requireAdmin_sound req w c _ G) as A.
    destruct (fault 0 (advance l w)) eqn:F; cbn [fst snd].
    + split; [reflexivity|]. split; [reflexivity|].
      destruct (write_error_status backend_failure) as [S|S].
      * split; [rewrite S; discriminate|]. intros C.
        rewrite (clean_fault _ _ (clean_advance l w C)) in F. discriminate.
      * split; [rewrite S; discriminate|]. intros C.
        rewrite (clean_fault _ _ (clean_advance l w C)) in F. discriminate.
    + change (w_db (advance l w) restaurants) with (w_db w restaurants).
      pose proof (repeats_in_use _ s w Sr) as U.
      destruct (repeats restaurants (RestaurantsCreate.new_row body)
                  (w_db w restaurants)) eqn:Rp; cbn [fst snd].
      * split; [reflexivity|]. split; [reflexivity|].
        split; [discriminate|]. intros _ _ _ b [= <-]. exists s.
        split; [exact Sb|]. split; [intros _; split; reflexivity|].
        intros N. destruct N. now apply U.
      * split; [intros t N; cbn [w_db set_db];
                now rewrite with_rows_other by congruence|].
        split; [intros H; now destruct H|]. split.
        -- intros _. split; [exact A|]. exists body.
           split; [reflexivity|]. split; [reflexivity|].
           cbn [w_db set_db]. now rewrite with_rows_same.
        -- intros _ _ _ b [= <-]. exists s. split; [exact Sb|].
           split; [|reflexivity]. intros I. apply U in I. discriminate.
Qed.

(** In the town the admin opens a bistro, is refused a second Basil, and
    the partner is not let in. *)
Lemma X10_witness :
  clean Cases.town /\ keyed users Cases.town /\
  is_admin (Cases.admin_creates Cases.bistro) Cases.town /\
  ~ slug_in_use "bistro" Cases.town /\ slug_in_use "basil" Cases.town /\
  status (fst (RestaurantsCreate.post Fixtures.rt
                 (Cases.admin_creates Cases.bistro) Cases.town)) = 201%Z /\
  fst (RestaurantsCreate.post Fixtures.rt
         (Cases.admin_creates Cases.second_basil) Cases.town)
  = reply_error 400 "Slug already exists" /\
  status (fst (RestaurantsCreate.post Fixtures.rt
                 (Cases.partner_creates Cases.bistro) Cases.town)) = 403%Z.
Proof.
  assert (C : clean Cases.town) by reflexivity.
  assert (K : keyed users Cases.town) by reflexivity.
  assert (A : forall b, is_admin (Cases.admin_creates b) Cases.town)
    by (intros b; exists Fixtures.admin_id; split; reflexivity).
  assert (F : ~ slug_in_use "bistro" Cases.town).
  { intros [r [[<-|[<-|[]]] H]]; discriminate H. }
  assert (T : slug_in_use "basil" Cases.town).
  { exists Cases.basil. split; [right; now left|reflexivity]. }
  split; [exact C|]. split; [exact K|]. split; [apply A|].
  split; [exact F|]. split; [exact T|]. split; [|split; [|reflexivity]].
  - destruct (RestaurantsCreate.CreateRestaurantSchema Fixtures.rt
                (req_body (Cases.admin_creates Cases.bistro)))
      as [body|] eqn:P; [|vm_compute in P; discriminate].
    destruct (proj2 (proj2 (proj2 (proj2
                (X10_only_admins_create Fixtures.rt
                   (Cases.admin_creates Cases.bistro) Cases.town))))
                C K (A _) body P) as [s [S [_ H]]].
    vm_compute in P. injection P as <-. injection S as <-.
    now rewrite (H F).
  - destruct (RestaurantsCreate.CreateRestaurantSchema Fixtures.rt
                (req_body (Cases.admin_creates Cases.second_basil)))
      as [body|] eqn:P; [|vm_compute in P; discriminate].
    destruct (proj2 (proj2 (proj2 (proj2
                (X10_only_admins_create Fixtures.rt
                   (Cases.admin_creates Cases.second_basil) Cases.town))))
                C K (A _) body P) as [s [S [H _]]].
    vm_compute in P. injection P as <-. injection S as <-.
    exact (proj1 (H T)).
Defined.

(** X11.  The row POST /api/restaurants stores for a body the schema
    accepts: it has the 27 columns of a restaurant, in the schema's
    order; name and slug are the strings given, trimmed of the white
    space of the language at both ends (the no-break space and the other
    spaces beyond ASCII included), and not blank; and every other column
    the body leaves out gets its default: [true]
    for is_active and booking_enabled, 90 and 30 for
    avg_duration_minutes and advance_booking_days, an empty list for the
    list columns, an empty object for opening_hours, [null] for the
    rest. *)
Theorem X11_created_row_defaults :
  forall (rt : runtime) (o : list (string * json)) (body : list (string * json)),
    RestaurantsCreate.CreateRestaurantSchema rt (Some (JObj o)) = Some body ->
    let r := RestaurantsCreate.new_row body in
    map fst r = update_columns /\
    (exists s, assoc "name" o = Some (JStr s) /\ trim s <> EmptyString /\
               assoc "name" r = Some (JStr (trim s))) /\
    (exists s, assoc "slug" o = Some (JStr s) /\ trim s <> EmptyString /\
               assoc "slug" r = Some (JStr (trim s))) /\
    (forall k d, In (k, d) create_defaults -> assoc k o = None ->
                 assoc k r = Some d).
Proof.
  intros rt o body P. cbv zeta.
  field_of P "name". field_of P "slug".
  destruct (text1_parsed rt _ _ E) as [s [Es [Ns ->]]].
  destruct (text1_parsed rt _ _ E0) as [s0 [Es0 [Ns0 ->]]].
  assert (R : forall k, (k = "name" \/ k = "slug") ->
                assoc k (RestaurantsCreate.new_row body) = assoc k body).
  { intros k [->| ->]; unfold RestaurantsCreate.new_row; rewrite A, A0;
      reflexivity. }
  split; [unfold RestaurantsCreate.new_row; rewrite A, A0; reflexivity|].
  split; [exists s; rewrite (R "name") by (now left); rewrite A; auto|].
  split; [exists s0; rewrite (R "slug") by (now right); rewrite A0; auto|].
  intros k d H N. rewrite (new_row_assoc body k d H).
  cbn [In create_defaults] in H.
  repeat (destruct H as [H|H];
          [injection H as <- <-;
           match goal with
           | N : assoc ?k o = None |- _ =>
               let H1 := fresh in
               pose proof P as H1;
               unfold RestaurantsCreate.CreateRestaurantSchema, Zod.object in H1;
               eapply (parse_fields_assoc _ _ _ k) in H1;
               [
               |apply create_fields_distinct
               |cbn [In]; repeat first [left; reflexivity | right]];
               destruct H1 as [v1 [E1 A1]]; rewrite N in E1;
               first [rewrite optional_default_absent in E1
                     |rewrite nullish_absent in E1];
               injection E1 as <-; rewrite A1; reflexivity
           end|]).
  destruct H.
Qed.

(** The bistro gets the defaults; a name of one no-break space (U+00A0)
    is blank, and no body with it is accepted. *)
Lemma X11_witness :
  (exists body,
      RestaurantsCreate.CreateRestaurantSchema Fixtures.rt (Some Cases.bistro)
      = Some body /\
      assoc "name" (RestaurantsCreate.new_row body) = Some (JStr "Bistro") /\
      assoc "is_active" (RestaurantsCreate.new_row body) = Some (JBool true) /\
      assoc "advance_booking_days" (RestaurantsCreate.new_row body)
      = Some (JNum 30)) /\
  trim Cases.nbsp = EmptyString /\
  RestaurantsCreate.CreateRestaurantSchema Fixtures.rt
    (Some (JObj [("name", JStr Cases.nbsp); ("slug", JStr "bistro")]))
  = None.
Proof.
  split; [|split; [reflexivity|]].
  - destruct (RestaurantsCreate.CreateRestaurantSchema Fixtures.rt
                (Some Cases.bistro)) as [body|] eqn:P;
      [|vm_compute in P; discriminate].
    exists body. split; [reflexivity|].
    pose proof (X11_created_row_defaults Fixtures.rt _ body P)
      as [_ [[s [E [_ N]]] [_ D]]].
    injection E as <-. split; [exact N|].
    split; apply D;
      first [reflexivity
            |cbn [In create_defaults]; repeat first [left; reflexivity | right]].
  - destruct (RestaurantsCreate.CreateRestaurantSchema Fixtures.rt
                (Some (JObj [("name", JStr Cases.nbsp); ("slug", JStr "bistro")])))
      as [body|] eqn:P; [|reflexivity].
    destruct (X11_created_row_defaults Fixtures.rt _ body P)
      as [_ [[s [E [B _]]] _]].
    injection E as <-. now destruct B.
Defined.

(* ===================================================================== *)
(** * What the list endpoints select                                     *)
(* ===================================================================== *)

Lemma listing_items_hold limit offset keys fs rows total x f :
  In f fs ->
  In x (items_of (listing limit offset (order_by keys (matching fs rows)) total)) ->
  holds f x = true.
Proof.
  intros F. unfold listing, items_of.
  destruct (window _ _ _) as [page|] eqn:W; cbn; [|tauto].
  intros H. apply (In_window _ _ _ _ _ W), In_order_by, In_matching in H.
  eapply satisfies_In; eassumption.
Qed.

Lemma restaurants_when_filters {A} (o : option A) (f : A -> filter) q :
  q_filters (Restaurants.when o (fun a => where_ (f a)) q)
  = q_filters q ++ opt_filter o f.
Proof. destruct o; cbn; [reflexivity|now rewrite app_nil_r]. Qed.

Lemma stores_when_filters {A} (o : option A) (f : A -> filter) q :
  q_filters (Stores.when o (fun a => where_ (f a)) q)
  = q_filters q ++ opt_filter o f.
Proof. destruct o; cbn; [reflexivity|now rewrite app_nil_r]. Qed.

Lemma restaurants_filters_eq p q :
  q_filters (Restaurants.list_filters p q) =
  ((((q_filters q
      ++ (if (negb (Restaurants.lq_includeInactive p)
              && negb (truthy (option_map JStr (Restaurants.lq_status p))))%bool
          then [FEq "is_active" (JBool true)] else []))
     ++ opt_filter (Restaurants.lq_status p)
          (fun s => FEq "is_active" (JBool (String.eqb s "active"))))
    ++ opt_filter (Restaurants.lq_city p)
         (fun c => FIlike "city" (Restaurants.around c)))
   ++ opt_filter (Restaurants.lq_area p)
        (fun a => FIlike "area" (Restaurants.around a)))
  ++ opt_filter (Restaurants.lq_search p)
       (fun search =>
          let s := string_of_list_ascii
                     (Restaurants.escape_quotes (list_ascii_of_string search)) in
          FOr [("name", Restaurants.around s); ("phone", Restaurants.around s);
               ("area", Restaurants.around s); ("city", Restaurants.around s)]).
Proof.
  unfold Restaurants.list_filters. cbv zeta.
  unfold or_, ilike_, eq_.
  rewrite !restaurants_when_filters.
  destruct (_ && _)%bool; cbn [q_filters where_]; [reflexivity|].
  now rewrite app_nil_r.
Qed.

Lemma stores_filters_eq p q :
  q_filters (Stores.list_filters p q) =
  (((((((((q_filters q
           ++ (if (negb (Stores.lq_includeInactive p)
                   && negb (truthy (option_map JStr (Stores.lq_status p))))%bool
               then [FEq "is_active" (JBool true)] else []))
          ++ opt_filter (Stores.lq_status p)
               (fun s => FEq "is_active" (JBool (String.eqb s "active"))))
         ++ opt_filter (Stores.lq_city p)
              (fun c => FIlike "city" (Stores.around c)))
        ++ opt_filter (Stores.lq_region p)
             (fun c => FIlike "region" (Stores.around c)))
       ++ opt_filter (Stores.lq_country p)
            (fun c => FIlike "country" (Stores.around c)))
      ++ opt_filter (Stores.lq_category p) (fun c => FEq "category" (JStr c)))
     ++ opt_filter (Stores.lq_subcategory p)
          (fun c => FEq "subcategory" (JStr c)))
    ++ opt_filter (Stores.lq_is_featured p)
         (fun b => FEq "is_featured" (JBool b)))
   ++ opt_filter (Stores.lq_tag p) (fun t => FContains "tags" [t]))
  ++ opt_filter (Stores.lq_search p)
       (fun search =>
          let s := string_of_list_ascii
                     (Restaurants.escape_quotes (list_ascii_of_string search)) in
          FOr [("name", Stores.around s); ("slug", Stores.around s);
               ("category", Stores.around s); ("subcategory", Stores.around s);
               ("city", Stores.around s); ("region", Stores.around s);
               ("location_name", Stores.around s)]).
Proof.
  unfold Stores.list_filters. cbv zeta.
  unfold or_, ilike_, contains, eq_.
  rewrite !stores_when_filters.
  destruct (_ && _)%bool; cbn [q_filters where_]; [reflexivity|].
  now rewrite app_nil_r.
Qed.

Ltac find_filter :=
  first [ now left
        | apply in_or_app; first [ right; now left | left; find_filter ] ].

Lemma stores_query_more rt v p :
  Stores.ListQuerySchema rt v = Some p ->
  Stores.word rt (prop v "category") = Some (Stores.lq_category p) /\
  Stores.word rt (prop v "subcategory") = Some (Stores.lq_subcategory p) /\
  Stores.word rt (prop v "tag") = Some (Stores.lq_tag p) /\
  Zod.transform Stores.featured (Zod.optional (Zod.string_ rt []))
    (prop v "is_featured") = Some (Stores.lq_is_featured p).
Proof.
  unfold Stores.ListQuerySchema.
  destruct v as [[| | | | |o]|]; try discriminate.
  schema_cases. intros [= <-]. cbn. auto.
Qed.

Lemma word_given rt s o :
  Stores.word rt (Some (JStr s)) = Some o ->
  o = Some (trim s) /\ trim s <> EmptyString.
Proof.
  unfold Stores.word, Zod.optional, Zod.string_.
  cbn [Zod.run_checks Zod.run_check option_map].
  destruct (Nat.leb 1 (String.length (trim s))) eqn:L; [|discriminate].
  intros [= <-]. split; [reflexivity|]. intros E. now rewrite E in L.
Qed.

Lemma status_given s o :
  Zod.optional (Zod.enum ["active"; "inactive"]) (Some (JStr s)) = Some o ->
  o = Some s /\ (s = "active" \/ s = "inactive").
Proof.
  unfold Zod.optional, Zod.enum. cbn [existsb option_map].
  destruct (String.eqb s "active") eqn:A.
  - intros [= <-]. apply String.eqb_eq in A. auto.
  - destruct (String.eqb s "inactive") eqn:I; [|discriminate].
    intros [= <-]. apply String.eqb_eq in I. auto.
Qed.

Lemma holds_eq c v r :
  holds (FEq c v) r = true ->
  (forall b, v = JBool b -> assoc c r = Some (JBool b)) /\
  (forall s, v = JStr s -> assoc c r = Some (JStr s)).
Proof.
  cbn [holds]. destruct (assoc c r) as [x|]; [|discriminate].
  intros H. split.
  - intros b ->. destruct x; try discriminate.
    cbn in H. apply Bool.eqb_prop in H. now subst.
  - intros s ->. apply scalar_eqb_str in H. now subst.
Qed.

(** X12.  A list call with a status: every restaurant returned, and
    every store returned, has is_active true for status=active and false
    for status=inactive, whatever includeInactive says. *)
Theorem X12_status_selects :
  forall (rt : runtime) (req : request) (w : world) (s : string),
    prop (req_query req) "status" = Some (JStr s) ->
    (forall r, In r (items_of (fst (Restaurants.get_list rt req w))) ->
               assoc "is_active" r = Some (JBool (String.eqb s "active")))
    /\
    (forall r, In r (items_of (fst (Stores.get_list rt req w))) ->
               assoc "is_active" r = Some (JBool (String.eqb s "active"))).
Proof.
  intros rt req w s Q. split; intros r.
  - rewrite restaurants_get_list.
    destruct (Restaurants.ListQuerySchema rt (req_query req)) as [p|] eqn:E;
      [|cbn; tauto].
    cbn [fst]. destruct (fault 0 w); [cbn; tauto|].
    apply restaurants_query_inv in E. destruct E as [_ [_ [S _]]].
    rewrite Q in S. apply status_given in S. destruct S as [S _].
    intros H. unfold restaurants_ordered, restaurants_hits in H.
    assert (G : holds (FEq "is_active" (JBool (String.eqb s "active"))) r = true).
    { eapply listing_items_hold; [|exact H].
      rewrite restaurants_filters_eq, S. cbn [opt_filter]. find_filter. }
    apply holds_eq in G. exact (proj1 G _ eq_refl).
  - rewrite stores_get_list.
    destruct (Stores.ListQuerySchema rt (req_query req)) as [p|] eqn:E;
      [|cbn; tauto].
    cbn [fst]. destruct (fault 0 w); [cbn; tauto|].
    apply stores_query_inv in E. destruct E as [_ [_ [S _]]].
    rewrite Q in S. apply status_given in S. destruct S as [S _].
    intros H. unfold stores_ordered, stores_hits in H.
    assert (G : holds (FEq "is_active" (JBool (String.eqb s "active"))) r = true).
    { eapply listing_items_hold; [|exact H].
      rewrite stores_filters_eq, S. cbn [opt_filter]. find_filter. }
    apply holds_eq in G. exact (proj1 G _ eq_refl).
Qed.

Lemma X12_witness :
  prop (req_query (Cases.lists [("status", JStr "inactive")])) "status"
  = Some (JStr "inactive") /\
  items_of (fst (Restaurants.get_list Fixtures.rt
                   (Cases.lists [("status", JStr "inactive")]) Fixtures.world0))
  = [Fixtures.closed_restaurant] /\
  assoc "is_active" Fixtures.closed_restaurant = Some (JBool false).
Proof.
  split; [reflexivity|]. split; [vm_compute; reflexivity|].
  apply (proj1 (X12_status_selects Fixtures.rt
                  (Cases.lists [("status", JStr "inactive")]) Fixtures.world0
                  "inactive" eq_refl)).
  vm_compute. left. reflexivity.
Defined.

(** X13.  The exact-match parameters of GET /api/stores: every store
    returned has the category and the subcategory asked for (trimmed),
    holds the tag asked for among its tags, and has is_featured true
    when is_featured=true was asked and false when is_featured was
    given as any other string. *)
Theorem X13_store_filters :
  forall (rt : runtime) (req : request) (w : world) (r : row),
    In r (items_of (fst (Stores.get_list rt req w))) ->
    (forall c, prop (req_query req) "category" = Some (JStr c) ->
               assoc "category" r = Some (JStr (trim c))) /\
    (forall c, prop (req_query req) "subcategory" = Some (JStr c) ->
               assoc "subcategory" r = Some (JStr (trim c))) /\
    (forall t, prop (req_query req) "tag" = Some (JStr t) ->
               tagged (trim t) r) /\
    (forall f, prop (req_query req) "is_featured" = Some (JStr f) ->
               assoc "is_featured" r = Some (JBool (String.eqb f "true"))).
Proof.
  intros rt req w r. rewrite stores_get_list.
  destruct (Stores.ListQuerySchema rt (req_query req)) as [p|] eqn:E;
    [|cbn; tauto].
  cbn [fst]. destruct (fault 0 w); [cbn; tauto|].
  apply stores_query_more in E. destruct E as [C [S [T F]]].
  intros H. unfold stores_ordered, stores_hits in H.
  assert (G : forall f,
             In f (q_filters (Stores.list_filters p (select None))) ->
             holds f r = true)
    by (intros f I; eapply listing_items_hold; eassumption).
  clear H. rewrite stores_filters_eq in G.
  split; [|split; [|split]].
  - intros c Q. rewrite Q in C. apply word_given in C. destruct C as [C _].
    assert (H : holds (FEq "category" (JStr (trim c))) r = true).
    { apply G. rewrite C. cbn [opt_filter].
      find_filter. }
    apply holds_eq in H. exact (proj2 H _ eq_refl).
  - intros c Q. rewrite Q in S. apply word_given in S. destruct S as [S _].
    assert (H : holds (FEq "subcategory" (JStr (trim c))) r = true).
    { apply G. rewrite S. cbn [opt_filter].
      find_filter. }
    apply holds_eq in H. exact (proj2 H _ eq_refl).
  - intros t Q. rewrite Q in T. apply word_given in T. destruct T as [T _].
    assert (H : holds (FContains "tags" [trim t]) r = true).
    { apply G. rewrite T. cbn [opt_filter].
      find_filter. }
    cbn [holds] in H. unfold tagged.
    destruct (assoc "tags" r) as [[| | | |xs|]|]; try discriminate.
    exists xs. split; [reflexivity|].
    cbn [forallb] in H. apply andb_true_iff in H. destruct H as [H _].
    apply existsb_exists in H. destruct H as [x [I X]].
    cbn [scalar_eqb] in X. destruct x; try discriminate.
    apply String.eqb_eq in X. now rewrite X.
  - intros f Q. rewrite Q in F. cbn in F. injection F as F.
    assert (H : holds (FEq "is_featured" (JBool (String.eqb f "true"))) r = true).
    { apply G. rewrite <- F. cbn [opt_filter].
      find_filter. }
    apply holds_eq in H. exact (proj1 H _ eq_refl).
Qed.

Lemma X13_witness :
  items_of (fst (Stores.get_list Fixtures.rt
                   (Cases.lists [("tag", JStr " vegan ")]) Fixtures.world0))
  = [Fixtures.store] /\
  tagged "vegan" Fixtures.store.
Proof.
  assert (I : items_of (fst (Stores.get_list Fixtures.rt
                               (Cases.lists [("tag", JStr " vegan ")])
                               Fixtures.world0)) = [Fixtures.store])
    by (vm_compute; reflexivity).
  split; [exact I|].
  assert (H : In Fixtures.store
                (items_of (fst (Stores.get_list Fixtures.rt
                                  (Cases.lists [("tag", JStr " vegan ")])
                                  Fixtures.world0))))
    by (rewrite I; now left).
  exact (proj1 (proj2 (proj2 (X13_store_filters Fixtures.rt _ Fixtures.world0
                                Fixtures.store H))) " vegan " eq_refl).
Defined.

(* ===================================================================== *)
(** * Walking the pages                                                  *)
(* ===================================================================== *)

Lemma firstn_adjoin {A} a b (l : list A) :
  firstn a l ++ firstn b (skipn a l) = firstn (a + b) l.
Proof.
  revert l. induction a as [|a IH]; intros l; [reflexivity|].
  destruct l as [|x l]; cbn.
  - now rewrite firstn_nil.
  - now rewrite IH.
Qed.

Lemma skipn_add {A} a b (l : list A) : skipn (a + b) l = skipn b (skipn a l).
Proof.
  revert l. induction a as [|a IH]; intros l; [reflexivity|].
  destruct l as [|x l]; cbn; [now rewrite skipn_nil|apply IH].
Qed.

Lemma to_integer_of_Z z : to_integer (of_Z z) = Some z.
Proof. apply to_integer_Some. reflexivity. Qed.

Lemma listing_whole o l ordered total :
  (0 <= o)%Z -> (o <= Z.of_nat (List.length ordered))%Z ->
  listing (of_Z l) (of_Z o) ordered total
  = {| status := 200;
       body := Listing (page_of l o ordered) (of_Z l) (of_Z o) total |}.
Proof.
  intros O B. apply listing_ok; auto using to_integer_of_Z.
Qed.

Lemma compare_value_refl v : compare_value v v = Eq.
Proof.
  destruct v as [[|b|z|s|l|o]|]; cbn; try reflexivity.
  - now destruct b.
  - apply Z.compare_refl.
  - pose proof (String.compare_antisym s s) as H.
    destruct (String.compare s s); [reflexivity|discriminate|discriminate].
Qed.

Lemma untied_NoDup c rs : untied c rs -> NoDup rs.
Proof.
  unfold untied. induction 1 as [|x l F _ IH]; constructor; [|exact IH].
  intros I. rewrite Forall_forall in F. apply (F x I), compare_value_refl.
Qed.

Lemma NoDup_page {A} (l : list A) a b :
  NoDup l -> NoDup (firstn a (skipn b l)).
Proof.
  intros D. rewrite <- (firstn_skipn b l) in D.
  apply NoDup_app_remove_l in D.
  rewrite <- (firstn_skipn a (skipn b l)) in D.
  now apply NoDup_app_remove_r in D.
Qed.

Lemma restaurants_ordered_same p p' w :
  same_restaurants p p' -> restaurants_ordered p w = restaurants_ordered p' w.
Proof.
  intros [S [C [A [T [I [So O]]]]]].
  unfold restaurants_ordered, restaurants_hits.
  rewrite !restaurants_filters_eq, S, C, A, T, I, So, O. reflexivity.
Qed.

(** X14.  Walking the pages of GET /api/restaurants, when no two of
    the selected rows have the same value in the column the list is
    ordered by (the route names no second column, and the store does not
    say in what order it gives rows that tie) and the second page starts
    within the count (beyond it the store refuses the range): for whole
    offsets and limits, the items at offset [o] with limit [l] followed
    by the items at offset [o + l] with limit [l'] are exactly the items
    at offset [o] with limit [l + l'] of the same selection, no row comes
    twice in them, and the three answers are 200 and carry the same
    total, the number of selected rows; so consecutive pages neither skip
    nor repeat a row. *)
Theorem X14_pages_adjoin :
  forall (rt : runtime) (r1 r2 r3 : request) (w : world)
         (p1 p2 p3 : Restaurants.list_query) (o l l' : Z),
    Restaurants.ListQuerySchema rt (req_query r1) = Some p1 ->
    Restaurants.ListQuerySchema rt (req_query r2) = Some p2 ->
    Restaurants.ListQuerySchema rt (req_query r3) = Some p3 ->
    same_restaurants p1 p2 -> same_restaurants p1 p3 ->
    asks_page p1 o l -> asks_page p2 (o + l) l' -> asks_page p3 o (l + l') ->
    (0 <= o)%Z -> (0 < l)%Z -> (0 < l')%Z ->
    untied (Restaurants.lq_sort p1) (restaurants_hits p1 w) ->
    (o + l <= Z.of_nat (List.length (restaurants_hits p1 w)))%Z ->
    fault 0 w = false ->
    let page r := fst (Restaurants.get_list rt r w) in
    let total := List.length (restaurants_hits p1 w) in
    items_of (page r1) ++ items_of (page r2) = items_of (page r3) /\
    NoDup (items_of (page r3)) /\
    status (page r1) = 200%Z /\ status (page r2) = 200%Z /\
    status (page r3) = 200%Z /\
    body (page r1) = Listing (items_of (page r1)) (of_Z l) (of_Z o) total /\
    body (page r2)
    = Listing (items_of (page r2)) (of_Z l') (of_Z (o + l)) total /\
    body (page r3)
    = Listing (items_of (page r3)) (of_Z (l + l')) (of_Z o) total.
Proof.
  intros rt r1 r2 r3 w p1 p2 p3 o l l' P1 P2 P3 S2 S3 [O1 L1] [O2 L2] [O3 L3]
    Ho Hl Hl' U B F. cbv beta zeta.
  rewrite !restaurants_get_list, P1, P2, P3, F. cbn [fst].
  rewrite O1, L1, O2, L2, O3, L3.
  rewrite <- (restaurants_ordered_same p1 p2 w S2).
  rewrite <- (restaurants_ordered_same p1 p3 w S3).
  assert (T : forall p, same_restaurants p1 p ->
                List.length (restaurants_hits p w)
                = List.length (restaurants_hits p1 w)).
  { intros p [S [C [A [T [I _]]]]]. unfold restaurants_hits.
    rewrite !restaurants_filters_eq, S, C, A, T, I. reflexivity. }
  rewrite (T p2 S2), (T p3 S3).
  assert (Len : List.length (restaurants_ordered p1 w)
                = List.length (restaurants_hits p1 w))
    by apply order_by_length.
  rewrite !listing_whole by lia.
  cbn [items_of body status]. split; [|split].
  - unfold page_of.
    replace (Z.to_nat (o + l)) with (Z.to_nat o + Z.to_nat l)%nat by lia.
    replace (Z.to_nat (l + l')) with (Z.to_nat l + Z.to_nat l')%nat by lia.
    rewrite skipn_add. apply firstn_adjoin.
  - unfold page_of. apply NoDup_page.
    apply (Permutation_NoDup (l := restaurants_hits p1 w)).
    + apply Permutation_sym, order_by_perm.
    + exact (untied_NoDup _ _ U).
  - repeat split.
Qed.

(** The two restaurants of the small world by name, one to a page. *)
Lemma X14_witness :
  fault 0 Fixtures.world0 = false /\
  items_of (fst (Restaurants.get_list Fixtures.rt (Cases.by_name "1" "0")
                   Fixtures.world0))
  ++ items_of (fst (Restaurants.get_list Fixtures.rt (Cases.by_name "1" "1")
                      Fixtures.world0))
  = items_of (fst (Restaurants.get_list Fixtures.rt (Cases.by_name "2" "0")
                     Fixtures.world0)) /\
  items_of (fst (Restaurants.get_list Fixtures.rt (Cases.by_name "2" "0")
                   Fixtures.world0))
  = [Fixtures.closed_restaurant; Fixtures.restaurant] /\
  status (fst (Restaurants.get_list Fixtures.rt (Cases.by_name "1" "1")
                 Fixtures.world0)) = 200%Z.
Proof.
  split; [reflexivity|].
  destruct (Restaurants.ListQuerySchema Fixtures.rt
              (req_query (Cases.by_name "1" "0"))) as [p1|] eqn:P1;
    [|vm_compute in P1; discriminate].
  destruct (Restaurants.ListQuerySchema Fixtures.rt
              (req_query (Cases.by_name "1" "1"))) as [p2|] eqn:P2;
    [|vm_compute in P2; discriminate].
  destruct (Restaurants.ListQuerySchema Fixtures.rt
              (req_query (Cases.by_name "2" "0"))) as [p3|] eqn:P3;
    [|vm_compute in P3; discriminate].
  pose proof P1 as Q1. vm_compute in Q1. injection Q1 as <-.
  pose proof P2 as Q2. vm_compute in Q2. injection Q2 as <-.
  pose proof P3 as Q3. vm_compute in Q3. injection Q3 as <-.
  refine ((fun H => conj (proj1 H)
                      (conj _ (proj1 (proj2 (proj2 (proj2 H))))))
            (X14_pages_adjoin Fixtures.rt _ _ _ Fixtures.world0 _ _ _
               0%Z 1%Z 1%Z P1 P2 P3 _ _ _ _ _ _ _ _ _ _ eq_refl)).
  - vm_compute. reflexivity.
  - repeat split.
  - repeat split.
  - split; reflexivity.
  - split; reflexivity.
  - split; reflexivity.
  - lia.
  - lia.
  - lia.
  - repeat constructor; discriminate.
  - vm_compute. discriminate.
Defined.

(* ===================================================================== *)
(** * A store with its payment details and catalogue                     *)
(* ===================================================================== *)

Lemma maybeSingle_eq t c v w :
  maybeSingle t (eq_ c v (select None)) w =
  (if fault 0 w then Error backend_failure
   else match matching [FEq c v] (w_db w t) with
        | [] => Data None
        | [r] => Data (Some r)
        | _ :: _ :: _ => Error not_single
        end, advance [Select t] w).
Proof.
  unfold maybeSingle, bind. rewrite run_step.
  destruct (fault 0 w); [reflexivity|].
  unfold eval. cbn [q_filters q_order q_range q_limit q_cols eq_ where_ select app].
  rewrite order_by_nil, map_project_all.
  destruct (matching [FEq c v] (w_db w t)) as [|a [|b l]]; reflexivity.
Qed.

Lemma by_id_has_id t id w r : by_id t id w = [r] -> assoc "id" r = Some (JStr id).
Proof.
  intros B. assert (I : In r (by_id t id w)) by (rewrite B; now left).
  apply In_matching in I. rewrite satisfies_one in I. now apply holds_id.
Qed.

Lemma store_steps rt req id w :
  Stores.IdSchema rt (param req "id") = Some id ->
  clean w ->
  Stores.get_by_id rt req w =
  match by_id stores id w with
  | [] => (reply_error 404 "Store not found", advance [Select stores] w)
  | [store] =>
      let l1 := if wants "payment" req
                then [Select store_payment_details] else [] in
      let l2 := if wants "catalogue" req
                then [Select store_catalogue_items] else [] in
      match (if wants "payment" req
             then match belonging store_payment_details id w with
                  | [] => Some JNull
                  | [p] => Some (JObj p)
                  | _ :: _ :: _ => None
                  end
             else Some JNull) with
      | None =>
          (reply_error 500 (message not_single),
           advance ([Select stores] ++ l1) w)
      | Some payment =>
          (reply 200
             (JObj ([("item", JObj store)]
                    ++ (if wants "payment" req then [("payment", payment)] else [])
                    ++ (if wants "catalogue" req
                        then [("catalogue", JArr (map JObj (catalogue_of id w)))]
                        else []))),
           advance ([Select stores] ++ l1 ++ l2) w)
      end
  | _ :: _ :: _ =>
      (reply_error 500 (message not_single), advance [Select stores] w)
  end.
Proof.
  intros Hid C. unfold Stores.get_by_id. rewrite Hid. cbv zeta. unfold bind.
  rewrite maybeSingle_by_id, (clean_fault _ _ C).
  destruct (by_id stores id w) as [|store [|s' l]] eqn:B; try reflexivity.
  cbn [project]. rewrite (by_id_has_id stores id w store B). cbn [nullish].
  fold (wants "payment" req). fold (wants "catalogue" req).
  destruct (wants "payment" req).
  - rewrite maybeSingle_eq, (clean_fault _ _ (clean_advance _ _ C)).
    change (matching [FEq "store_id" (JStr id)]
              (w_db (advance [Select stores] w) store_payment_details))
      with (belonging store_payment_details id w).
    destruct (belonging store_payment_details id w) as [|p [|p' l]].
    + destruct (wants "catalogue" req).
      * rewrite run_step, (clean_fault _ _ (clean_advance _ _ (clean_advance _ _ C))).
        unfold eval.
        cbn [q_filters q_order q_range q_limit q_cols eq_ where_ select app order].
        rewrite map_project_all, !advance_advance. reflexivity.
      * cbn [ret]. rewrite !advance_advance. reflexivity.
    + destruct (wants "catalogue" req).
      * rewrite run_step, (clean_fault _ _ (clean_advance _ _ (clean_advance _ _ C))).
        unfold eval.
        cbn [q_filters q_order q_range q_limit q_cols eq_ where_ select app order].
        rewrite map_project_all, !advance_advance. reflexivity.
      * cbn [ret]. rewrite !advance_advance. reflexivity.
    + cbn [ret]. rewrite !advance_advance. reflexivity.
  - cbn [ret]. destruct (wants "catalogue" req).
    + rewrite run_step, (clean_fault _ _ (clean_advance _ _ C)).
      unfold eval.
      cbn [q_filters q_order q_range q_limit q_cols eq_ where_ select app order].
      rewrite map_project_all, !advance_advance. reflexivity.
    + cbn [ret app]. reflexivity.
Qed.

(** X15.  GET /api/stores/:id on a sound backend: a store that does not
    exist is answered 404 after the one read of the stores table; for a
    store that exists the payment details are read only when [include]
    names "payment" and the catalogue only when it names "catalogue";
    the answer then is 200 with the store under [item], with [payment]
    (the store's payment row, or [null] when it has none) exactly when
    asked for, and with [catalogue] (the store's items by sort_order,
    then created_at) exactly when asked for; without [include] neither
    is asked; and nothing stored changes. *)
Theorem X15_store_with_relations :
  forall (rt : runtime) (req : request) (id : string) (w : world),
    clean w ->
    Stores.IdSchema rt (param req "id") = Some id ->
    let res := fst (Stores.get_by_id rt req w) in
    let w' := snd (Stores.get_by_id rt req w) in
    same_data w w' /\
    (prop (req_query req) "include" = None ->
     wants "payment" req = false /\ wants "catalogue" req = false) /\
    (by_id stores id w = [] ->
     res = reply_error 404 "Store not found" /\
     w_log w' = w_log w ++ [Select stores]) /\
    (forall store,
        by_id stores id w = [store] ->
        (List.length (belonging store_payment_details id w) <= 1)%nat ->
        res = reply 200
                (JObj ([("item", JObj store)]
                       ++ (if wants "payment" req
                           then [("payment",
                                  match belonging store_payment_details id w with
                                  | [p] => JObj p
                                  | _ => JNull
                                  end)]
                           else [])
                       ++ (if wants "catalogue" req
                           then [("catalogue",
                                  JArr (map JObj (catalogue_of id w)))]
                           else []))) /\
        w_log w' = w_log w ++ [Select stores]
                   ++ (if wants "payment" req
                       then [Select store_payment_details] else [])
                   ++ (if wants "catalogue" req
                       then [Select store_catalogue_items] else [])).
Proof.
  intros rt req id w C Hid. cbv zeta.
  rewrite (store_steps rt req id w Hid C).
  split; [|split; [|split]].
  - destruct (by_id stores id w) as [|store [|s' l]]; try (split; reflexivity).
    cbv zeta.
    destruct (if wants "payment" req then _ else _); split; reflexivity.
  - intros Q. unfold wants, Stores.includes. rewrite Q. split; reflexivity.
  - intros ->. split; reflexivity.
  - intros store -> L. cbv zeta.
    destruct (wants "payment" req).
    + destruct (belonging store_payment_details id w) as [|p [|p' l]];
        [split; reflexivity|split; reflexivity|cbn in L; lia].
    + split; reflexivity.
Qed.

Lemma X15_witness :
  clean Cases.stocked /\
  fst (Stores.get_by_id Fixtures.rt (Cases.store_with "payment, catalogue")
         Cases.stocked)
  = reply 200
      (JObj [("item", JObj Fixtures.store); ("payment", JObj Cases.payment);
             ("catalogue", JArr [JObj Cases.jam; JObj Cases.tea])]) /\
  fst (Stores.get_by_id Fixtures.rt (Cases.store_with "catalogue")
         Fixtures.world0)
  = reply 200 (JObj [("item", JObj Fixtures.store); ("catalogue", JArr [])]).
Proof.
  assert (C : clean Cases.stocked) by reflexivity.
  split; [exact C|]. split.
  - exact (proj1 (proj2 (proj2 (proj2
             (X15_store_with_relations Fixtures.rt
                (Cases.store_with "payment, catalogue") Fixtures.store_id
                Cases.stocked C eq_refl))) Fixtures.store eq_refl
             (le_n 1))).
  - exact (proj1 (proj2 (proj2 (proj2
             (X15_store_with_relations Fixtures.rt
                (Cases.store_with "catalogue") Fixtures.store_id
                Fixtures.world0 eq_refl eq_refl))) Fixtures.store eq_refl
             (Nat.le_0_l 1))).
Defined.

(* ===================================================================== *)
(** * The spotlight: hiding, listing and reordering                      *)
(* ===================================================================== *)

Lemma spotlight_delete_steps req w :
  SpotLight.delete_by_id req w =
  (reply 200 (JObj [("success", JBool true)]),
   snd (update spotlight_items [("is_active", JBool false)]
          [FEq "id" (nullish (param req "id") JNull)] w)).
Proof.
  unfold SpotLight.delete_by_id, bind.
  destruct (update spotlight_items _ _ w). reflexivity.
Qed.

Lemma spotlight_list_steps req w :
  SpotLight.get_list req w =
  (if fault 0 w then reply_error 500 (message backend_failure)
   else
     reply 200
       (JArr (map JObj
                (order_by [("order_index", true)]
                   (matching
                      (FEq "is_active" (JBool true)
                       :: (if truthy (prop (req_query req) "module_type")
                           then [FEq "module_type"
                                   (nullish (prop (req_query req) "module_type")
                                      JNull)]
                           else []))
                      (w_db w spotlight_items))))),
   advance [Select spotlight_items] w).
Proof.
  unfold SpotLight.get_list. cbv zeta. unfold bind. rewrite run_step.
  destruct (fault 0 w); [reflexivity|].
  destruct (truthy (prop (req_query req) "module_type"));
    unfold eval;
    cbn [q_filters q_order q_range q_limit q_cols eq_ where_ select app order];
    rewrite map_project_all; reflexivity.
Qed.

Lemma holds_deactivate v r :
  holds (FEq "id" v) (deactivate r) = holds (FEq "id" v) r.
Proof. apply holds_id_written. discriminate. Qed.

Lemma deactivate_inactive r :
  holds (FEq "is_active" (JBool true)) (deactivate r) = false.
Proof.
  cbn [holds]. unfold deactivate, written. now rewrite assoc_assign_same.
Qed.

(** X16.  DELETE /api/spotlight/:id, on a table whose ids are text,
    hides an item and does not look at the outcome of its update: the
    answer is always 200 [{success: true}]; when the
    backend fails nothing changes all the same; when it does not, the
    rows with that id get is_active false and keep every other column,
    the other rows and tables stay as they are, repeating the deletion
    changes nothing more, and no item with that id is listed by GET
    /api/spotlight afterwards. *)
Theorem X16_spotlight_soft_delete :
  forall (req : request) (w : world) (id : string),
    param req "id" = Some (JStr id) ->
    string_ids (w_db w spotlight_items) ->
    let res := fst (SpotLight.delete_by_id req w) in
    let w' := snd (SpotLight.delete_by_id req w) in
    res = reply 200 (JObj [("success", JBool true)]) /\
    (fault 0 w = true -> same_data w w') /\
    (fault 0 w = false ->
     w_db w' spotlight_items
     = map (fun r => if satisfies [FEq "id" (JStr id)] r
                     then deactivate r else r) (w_db w spotlight_items) /\
     (forall t, t <> spotlight_items -> w_db w' t = w_db w t) /\
     (fault 1 w = false ->
      w_db (snd (SpotLight.delete_by_id req w')) spotlight_items
      = w_db w' spotlight_items) /\
     (forall req' xs r,
         body (fst (SpotLight.get_list req' w')) = Json (JArr xs) ->
         In (JObj r) xs -> assoc "id" r <> Some (JStr id))).
Proof.
  intros req w id P _. cbv zeta. rewrite spotlight_delete_steps, P.
  cbn [fst snd nullish]. rewrite update_step by reflexivity.
  split; [reflexivity|]. split.
  - intros ->. split; reflexivity.
  - intros F. rewrite F. cbn [snd].
    split; [cbn [w_db set_db]; now rewrite with_rows_same|].
    split; [intros t N; cbn [w_db set_db];
            now rewrite with_rows_other by congruence|].
    split.
    + intros F1. rewrite spotlight_delete_steps, P. cbn [snd nullish].
      rewrite update_step by reflexivity.
      assert (F' : fault 0 (set_db
                    (with_rows spotlight_items
                       (map (fun r => if satisfies [FEq "id" (JStr id)] r
                                      then assign_all [("is_active", JBool false)] r
                                      else r) (w_db w spotlight_items))
                       (w_db w)) (advance [Update spotlight_items] w)) = false)
        by (rewrite <- F1; apply (fault_advance 0 [Update spotlight_items] w)).
      rewrite F'. cbn [snd w_db set_db]. rewrite !with_rows_same, map_map.
      apply map_ext. intros r.
      destruct (satisfies [FEq "id" (JStr id)] r) eqn:S; [|now rewrite S].
      change (assign_all [("is_active", JBool false)] r) with (deactivate r).
      rewrite satisfies_one, holds_deactivate, <- satisfies_one, S.
      unfold deactivate, written. cbn [assign_all fold_left fst snd].
      apply assign_assign.
    + intros req' xs r. rewrite spotlight_list_steps.
      assert (F' : forall db, fault 0 (set_db db (advance [Update spotlight_items] w))
                              = fault 1 w)
        by (intros db; apply (fault_advance 0 [Update spotlight_items] w)).
      rewrite F'. destruct (fault 1 w); [discriminate|].
      cbn [fst body reply w_db set_db]. rewrite with_rows_same.
      intros [= <-] I.
      apply in_map_iff in I. destruct I as [x [[= ->] I]].
      apply In_order_by in I. pose proof (In_matching _ _ _ I) as S.
      unfold matching in I. apply filter_In in I. destruct I as [I _].
      apply in_map_iff in I. destruct I as [y [Y _]].
      assert (A : holds (FEq "is_active" (JBool true)) r = true)
        by (eapply satisfies_In; [exact S|now left]).
      clear S. intros E. rewrite <- Y in A, E.
      match type of Y with
      | (if ?b then _ else _) = _ => destruct b eqn:Sy
      end.
      * apply (eq_trans (eq_sym (deactivate_inactive y))) in A. discriminate.
      * assert (H : satisfies [FEq "id" (JStr id)] y = true)
          by (rewrite satisfies_one; now apply holds_id).
        apply (eq_trans (eq_sym H)) in Sy. discriminate.
Qed.

Lemma X16_witness :
  param (Cases.spotlight_delete "s1") "id" = Some (JStr "s1") /\
  string_ids (w_db Cases.gallery spotlight_items) /\
  w_db (snd (SpotLight.delete_by_id (Cases.spotlight_delete "s1") Cases.gallery))
    spotlight_items
  = [Cases.teaser; deactivate Cases.banner] /\
  body (fst (SpotLight.get_list (Cases.spotlight_list [])
               (snd (SpotLight.delete_by_id (Cases.spotlight_delete "s1")
                       Cases.gallery))))
  = Json (JArr [JObj Cases.teaser]).
Proof.
  assert (S : string_ids (w_db Cases.gallery spotlight_items)).
  { intros r [<-|[<-|[]]]; eexists; reflexivity. }
  split; [reflexivity|]. split; [exact S|]. split; [|reflexivity].
  exact (proj1 (proj2 (proj2 (X16_spotlight_soft_delete
                                (Cases.spotlight_delete "s1") Cases.gallery "s1"
                                eq_refl S)) eq_refl)).
Defined.

(* ===================================================================== *)
(** * The spotlight: reordering                                          *)
(* ===================================================================== *)

Lemma reorder_steps req w order :
  prop (req_body req) "order" = Some (JArr order) ->
  (forall o, In o order -> o <> JNull) ->
  SpotLight.reorder req w =
  (reply 200 (JObj [("message", JStr "Order updated")]),
   snd (SpotLight.reorder_jobs order w)).
Proof.
  intros P N. unfold SpotLight.reorder. rewrite P.
  assert (E : existsb (fun o => match o with JNull => true | _ => false end) order
              = false).
  { destruct (existsb _ order) eqn:E; [|reflexivity].
    apply existsb_exists in E. destruct E as [o [I H]].
    destruct o; try discriminate. now destruct (N JNull I). }
  rewrite E. unfold bind. destruct (SpotLight.reorder_jobs order w). reflexivity.
Qed.

Lemma reorder_jobs_inv order w :
  let w' := snd (SpotLight.reorder_jobs order w) in
  w_log w' = w_log w ++ repeat (Update spotlight_items) (List.length order) /\
  w_sessions w' = w_sessions w /\
  (forall t, t <> spotlight_items -> w_db w' t = w_db w t) /\
  (forall k, k <> "order_index" ->
             map (assoc k) (w_db w' spotlight_items)
             = map (assoc k) (w_db w spotlight_items)).
Proof.
  revert w. induction order as [|o rest IH]; intros w; cbv zeta.
  - cbn. rewrite app_nil_r. repeat split; reflexivity.
  - cbn [SpotLight.reorder_jobs]. unfold bind. rewrite update_step by reflexivity.
    destruct (fault 0 w).
    + destruct (IH (advance [Update spotlight_items] w)) as [L [S [O K]]].
      cbv zeta in *. rewrite L. cbn [List.length repeat advance w_log].
      rewrite <- app_assoc. repeat split; assumption.
    + match goal with
      | |- context [SpotLight.reorder_jobs rest ?w1] =>
          destruct (IH w1) as [L [S [O K]]]
      end.
      cbv zeta in *. rewrite L. cbn [List.length repeat advance w_log set_db].
      rewrite <- app_assoc. split; [reflexivity|]. split; [exact S|]. split.
      * intros t N. rewrite (O t N). cbn [w_db set_db].
        now rewrite with_rows_other by congruence.
      * intros k N. rewrite (K k N). cbn [w_db set_db].
        rewrite with_rows_same, map_map. apply map_ext. intros r.
        destruct (satisfies _ r); [|reflexivity].
        apply assoc_assign_all_other.
        destruct (prop (Some o) "order_index"); cbn; [|tauto].
        intros [H|[]]. congruence.
Qed.

Lemma reorder_jobs_clean order w :
  clean w ->
  w_db (snd (SpotLight.reorder_jobs order w)) spotlight_items
  = map (fun r =>
           fold_left
             (fun acc o =>
                if names o acc
                then assign_all
                       (literal_of [("order_index", prop (Some o) "order_index")])
                       acc
                else acc) order r)
      (w_db w spotlight_items).
Proof.
  revert w. induction order as [|o rest IH]; intros w C.
  - cbn. now rewrite map_id.
  - cbn [SpotLight.reorder_jobs]. unfold bind.
    rewrite update_step, (clean_fault _ _ C) by reflexivity.
    rewrite IH by (apply clean_set_db; now apply clean_advance).
    cbn [w_db set_db]. rewrite with_rows_same, map_map.
    apply map_ext. intros r. cbn [fold_left].
    rewrite satisfies_one. reflexivity.
Qed.

Lemma names_assigned o x r :
  names o (assign "order_index" x r) = names o r.
Proof. unfold names. apply holds_id_written. discriminate. Qed.

Lemma reorder_fold_unnamed order r :
  (forall o, In o order -> names o r = false) ->
  fold_left
    (fun acc o =>
       if names o acc
       then assign_all (literal_of [("order_index", prop (Some o) "order_index")]) acc
       else acc) order r = r.
Proof.
  induction order as [|o rest IH]; intros N; [reflexivity|].
  cbn [fold_left]. rewrite (N o (or_introl eq_refl)).
  apply IH. intros o' I. apply N. now right.
Qed.

Lemma reorder_fold_named order o x r acc :
  names o r = true ->
  prop (Some o) "order_index" = Some x ->
  (forall o', In o' order -> names o' r = true -> o' = o) ->
  (acc = assign "order_index" x r \/ (acc = r /\ In o order)) ->
  fold_left
    (fun acc o =>
       if names o acc
       then assign_all (literal_of [("order_index", prop (Some o) "order_index")]) acc
       else acc) order acc = assign "order_index" x r.
Proof.
  intros No Px. revert acc.
  induction order as [|e rest IH]; intros acc U [A|[A I]].
  - exact A.
  - destruct I.
  - subst acc. cbn [fold_left]. rewrite names_assigned.
    apply (IH _ (fun o' I' => U o' (or_intror I'))). left.
    destruct (names e r) eqn:Ne; [|reflexivity].
    rewrite (U e (or_introl eq_refl) Ne), Px. cbn. apply assign_assign.
  - subst acc. cbn [fold_left].
    apply (IH _ (fun o' I' => U o' (or_intror I'))).
    destruct (names e r) eqn:Ne.
    + left. rewrite (U e (or_introl eq_refl) Ne), Px. reflexivity.
    + right. split; [reflexivity|]. destruct I as [->|I]; [congruence|exact I].
Qed.

(** X17.  PUT /api/spotlight/reorder/list with a list of entries, none
    of them [null]: one update is issued per entry and none of their
    outcomes is looked at, so the answer is 200 "Order updated" whatever
    the backend does; only the order_index column of the spotlight can
    have changed, in any case; and on a sound backend, with text ids, an
    item that no entry names is left as it is, and an item that the
    entries name once gets the order_index of that entry. *)
Theorem X17_spotlight_reorder :
  forall (req : request) (w : world) (order : list json),
    prop (req_body req) "order" = Some (JArr order) ->
    (forall o, In o order -> o <> JNull) ->
    let res := fst (SpotLight.reorder req w) in
    let w' := snd (SpotLight.reorder req w) in
    res = reply 200 (JObj [("message", JStr "Order updated")]) /\
    w_log w' = w_log w ++ repeat (Update spotlight_items) (List.length order) /\
    (forall t, t <> spotlight_items -> w_db w' t = w_db w t) /\
    (forall k, k <> "order_index" ->
               map (assoc k) (w_db w' spotlight_items)
               = map (assoc k) (w_db w spotlight_items)) /\
    (clean w -> string_ids (w_db w spotlight_items) -> well_formed order ->
     forall n r,
       nth_error (w_db w spotlight_items) n = Some r ->
       ((forall o, In o order -> names o r = false) ->
        nth_error (w_db w' spotlight_items) n = Some r) /\
       (forall o x,
           In o order -> names o r = true ->
           prop (Some o) "order_index" = Some x ->
           (forall o', In o' order -> names o' r = true -> o' = o) ->
           nth_error (w_db w' spotlight_items) n
           = Some (assign "order_index" x r))).
Proof.
  intros req w order P N. cbv zeta. rewrite (reorder_steps req w order P N).
  cbn [fst snd]. destruct (reorder_jobs_inv order w) as [L [_ [O K]]].
  split; [reflexivity|]. split; [exact L|]. split; [exact O|].
  split; [exact K|].
  intros C _ _ n r R. rewrite (reorder_jobs_clean order w C).
  rewrite nth_error_map, R. cbn [option_map]. split.
  - intros U. now rewrite reorder_fold_unnamed.
  - intros o x I No Px U.
    rewrite (reorder_fold_named order o x r r No Px U); [reflexivity|].
    right. now split.
Qed.

Lemma X17_witness :
  clean Cases.gallery /\
  string_ids (w_db Cases.gallery spotlight_items) /\
  well_formed [Cases.place "s2" 1; Cases.place "s1" 2] /\
  nth_error
    (w_db (snd (SpotLight.reorder
                  (Cases.spotlight_reorder
                     [Cases.place "s2" 1; Cases.place "s1" 2])
                  Cases.gallery)) spotlight_items) 0
  = Some (assign "order_index" (JNum 1) Cases.teaser) /\
  nth_error
    (w_db (snd (SpotLight.reorder
                  (Cases.spotlight_reorder
                     [Cases.place "s2" 1; Cases.place "s1" 2])
                  Cases.gallery)) spotlight_items) 1
  = Some (assign "order_index" (JNum 2) Cases.banner).
Proof.
  assert (C : clean Cases.gallery) by reflexivity.
  assert (S : string_ids (w_db Cases.gallery spotlight_items)).
  { intros r [<-|[<-|[]]]; eexists; reflexivity. }
  assert (W : well_formed [Cases.place "s2" 1; Cases.place "s1" 2]).
  { intros o [<-|[<-|[]]]; eexists; reflexivity. }
  assert (N : forall o, In o [Cases.place "s2" 1; Cases.place "s1" 2] -> o <> JNull).
  { intros o [<-|[<-|[]]]; discriminate. }
  split; [exact C|]. split; [exact S|]. split; [exact W|].
  pose proof (proj2 (proj2 (proj2 (proj2
                (X17_spotlight_reorder
                   (Cases.spotlight_reorder
                      [Cases.place "s2" 1; Cases.place "s1" 2])
                   Cases.gallery _ eq_refl N)))) C S W) as H.
  split.
  - apply (proj2 (H 0%nat Cases.teaser eq_refl) (Cases.place "s2" 1) (JNum 1));
      [now left|reflexivity|reflexivity|].
    intros o' [<-|[<-|[]]] E; [reflexivity|vm_compute in E; discriminate].
  - apply (proj2 (H 1%nat Cases.banner eq_refl) (Cases.place "s1" 2) (JNum 2));
      [right; now left|reflexivity|reflexivity|].
    intros o' [<-|[<-|[]]] E; [vm_compute in E; discriminate|reflexivity].
Defined.

(* ===================================================================== *)
(** * The spotlight: uploads                                             *)
(* ===================================================================== *)

Lemma upload_file_step bucket path w :
  upload_file bucket path w =
  (if fault 0 w then Error backend_failure else Data tt,
   advance [Upload bucket] w).
Proof.
  unfold upload_file, bind. rewrite backend_step.
  destruct (fault 0 w); reflexivity.
Qed.

Lemma uploadToSupabase_steps file folder w :
  SpotLight.uploadToSupabase file folder w =
  (if fault 0 w then inl backend_failure
   else inr (getPublicUrl "spotlight"
               (folder ++ "/" ++ Z_to_string (w_clock w (w_ticks w)) ++ "."
                  ++ SpotLight.extension (originalname file))),
   advance [Upload "spotlight"] (ticked 1 w)).
Proof.
  unfold SpotLight.uploadToSupabase, bind. rewrite new_Date_step.
  cbv zeta. rewrite upload_file_step.
  change (fault 0 (ticked 1 w)) with (fault 0 w).
  destruct (fault 0 w); reflexivity.
Qed.

Lemma split_aux_app sep cur l1 l2 :
  exists pre,
    split_aux sep cur (l1 ++ sep :: l2) = pre ++ split_aux sep [] l2.
Proof.
  revert cur. induction l1 as [|c l1 IH]; intros cur.
  - cbn [app split_aux]. rewrite Ascii.eqb_refl.
    now exists [string_of_list_ascii (rev cur)].
  - cbn [app split_aux]. destruct (Ascii.eqb c sep).
    + destruct (IH []) as [pre E]. rewrite E.
      now exists (string_of_list_ascii (rev cur) :: pre).
    + apply IH.
Qed.

Lemma last_app_cons {A} (l : list A) x m d : last (l ++ x :: m) d = last (x :: m) d.
Proof.
  induction l as [|a l IH]; [reflexivity|].
  cbn [app]. rewrite <- IH. destruct (l ++ x :: m) eqn:E; [|reflexivity].
  now destruct l.
Qed.

(** X18.  The extension an uploaded file is stored under is what follows
    the last dot of its name: a name without a dot is its own extension
    in full, and whatever comes before a dot does not count. *)
Theorem X18_extension :
  forall name base ext : string,
    (free_of "." name -> SpotLight.extension name = name) /\
    (free_of "." ext ->
     SpotLight.extension (base ++ "." ++ ext) = ext).
Proof.
  intros name base ext. unfold SpotLight.extension. split; intros F.
  - now rewrite (split_free _ _ F).
  - unfold split. rewrite list_ascii_app. cbn [append list_ascii_of_string].
    destruct (split_aux_app "." [] (list_ascii_of_string base)
                (list_ascii_of_string ext)) as [pre E].
    rewrite E. fold (split "." ext). rewrite (split_free _ _ F).
    apply last_app_cons.
Qed.

Lemma X18_witness :
  free_of "." "README" /\ free_of "." "png" /\
  SpotLight.extension "README" = "README" /\
  SpotLight.extension "summer.sale.png" = "png".
Proof.
  assert (A : free_of "." "README")
    by (intros d H; cbn in H; intuition (subst; discriminate)).
  assert (B : free_of "." "png")
    by (intros d H; cbn in H; intuition (subst; discriminate)).
  split; [exact A|]. split; [exact B|]. split.
  - exact (proj1 (X18_extension "README" EmptyString EmptyString) A).
  - exact (proj2 (X18_extension EmptyString "summer.sale" "png") B).
Defined.

(** X19.  POST /api/spotlight with a file: when the upload fails the
    answer is 500 and no row is read or written; on a sound backend one
    row is appended whose media_url is the public address of
    [videos/<ms>.<ext>] for media_type "video" and of [images/<ms>.<ext>]
    otherwise, [<ms>] being the time of the call and [<ext>] the
    extension of the file's name, whose thumbnail_url is the placeholder
    for a video and empty otherwise, and whose module_type is "global"
    unless the body gives one. *)
Theorem X19_spotlight_upload :
  forall (req : request) (w : world) (file : upload) (o : list (string * json)),
    req_body req = Some (JObj o) -> req_file req = Some file ->
    let video := Restaurants.is_string (assoc "media_type" o) "video" in
    let path :=
      ((if video then "videos" else "images") ++ "/"
         ++ Z_to_string (w_clock w (w_ticks w)) ++ "."
         ++ SpotLight.extension (originalname file))%string in
    let res := fst (SpotLight.create req w) in
    let w' := snd (SpotLight.create req w) in
    (fault 0 w = true ->
     res = reply_error 500 (message backend_failure) /\
     w_log w' = w_log w ++ [Upload "spotlight"] /\ same_data w w') /\
    (clean w ->
     exists r,
       res = reply 200 (JObj r) /\
       w_db w' spotlight_items = w_db w spotlight_items ++ [r] /\
       w_log w' = w_log w ++ [Upload "spotlight"; Select spotlight_items;
                              Insert spotlight_items] /\
       assoc "media_url" r = Some (JStr (getPublicUrl "spotlight" path)) /\
       assoc "thumbnail_url" r
       = Some (JStr (if video
                     then "https://placehold.co/300x400?text=Video+Preview"
                     else EmptyString)) /\
       assoc "module_type" r
       = Some (or_else (assoc "module_type" o) (JStr "global"))).
Proof.
  intros req w file o B F. cbv zeta.
  unfold SpotLight.create. rewrite B, F. cbn [prop]. cbv zeta.
  unfold bind, ret. rewrite uploadToSupabase_steps.
  split.
  - intros E. rewrite E. cbn [fst snd].
    repeat split; reflexivity.
  - intros C. rewrite (clean_fault _ _ C).
    rewrite run_step.
    assert (C1 : clean (advance [Upload "spotlight"] (ticked 1 w)))
      by (apply clean_advance, clean_ticked, C).
    rewrite (clean_fault _ _ C1). rewrite insert_step by reflexivity.
    rewrite (clean_fault _ _ (clean_advance _ _ C1)).
    match goal with
    | |- context [assoc "id" (literal_of ?l)] =>
        assert (R : assoc "id" (literal_of l) = None /\
                    assoc "media_url" (literal_of l) = nth 3 (map snd l) None /\
                    assoc "thumbnail_url" (literal_of l) = nth 4 (map snd l) None /\
                    assoc "module_type" (literal_of l) = nth 5 (map snd l) None)
          by (destruct (assoc "title" o), (assoc "subtitle" o),
                       (assoc "media_type" o); repeat split; reflexivity);
        destruct R as [R1 [R2 [R3 R4]]]
    end.
    rewrite R1. eexists. split; [reflexivity|]. cbn [fst snd].
    split; [cbn [w_db set_db]; now rewrite with_rows_same|].
    split; [cbn [w_log set_db advance ticked]; now rewrite <- !app_assoc|].
    split; [exact R2|]. split; [exact R3|exact R4].
Qed.

Lemma X19_witness :
  clean Cases.gallery /\
  exists r,
    fst (SpotLight.create Cases.clip Cases.gallery) = reply 200 (JObj r) /\
    assoc "media_url" r
    = Some (JStr "/storage/v1/object/public/spotlight/videos/1700000000000.mp4") /\
    assoc "module_type" r = Some (JStr "global").
Proof.
  assert (C : clean Cases.gallery) by reflexivity.
  split; [exact C|].
  destruct (proj2 (X19_spotlight_upload Cases.clip Cases.gallery _ _
                     eq_refl eq_refl) C)
    as [r [R [_ [_ [U [_ G]]]]]].
  exists r. split; [exact R|]. split.
  - vm_compute in U. exact U.
  - exact G.
Defined.

(* ===================================================================== *)
(** * The spotlight: what the list shows                                 *)
(* ===================================================================== *)

Lemma insert_by_ascending l :
  forall zs x z,
    map (assoc "order_index") l = map (fun y => Some (JNum y)) zs ->
    assoc "order_index" x = Some (JNum z) ->
    exists zs',
      map (assoc "order_index") (insert_by [("order_index", true)] x l)
      = map (fun y => Some (JNum y)) zs' /\
      (ascending zs -> ascending zs') /\
      (forall b, (b <= z)%Z -> ascending (b :: zs) -> ascending (b :: zs')).
Proof.
  induction l as [|y l IH]; intros zs x z M X.
  - destruct zs; [|discriminate]. exists [z]. cbn [insert_by map].
    rewrite X. repeat split; cbn; auto.
  - destruct zs as [|zy zs]; [discriminate|]. cbn [map] in M.
    injection M as Y M.
    cbn [insert_by compare_rows]. rewrite X, Y. cbn [compare_value].
    destruct (Z.compare_spec z zy) as [E|E|E].
    + exists (z :: zy :: zs). cbn [map]. rewrite X, Y, M.
      split; [reflexivity|]. split.
      * intros A. split; [lia|exact A].
      * intros b L A. split; [exact L|]. split; [lia|apply A].
    + exists (z :: zy :: zs). cbn [map]. rewrite X, Y, M.
      split; [reflexivity|]. split.
      * intros A. split; [lia|exact A].
      * intros b L A. split; [exact L|]. split; [lia|apply A].
    + destruct (IH zs x z M X) as [zs' [M' [_ A']]].
      exists (zy :: zs'). cbn [map]. rewrite Y, M'.
      split; [reflexivity|]. split.
      * intros A. apply A'; [lia|exact A].
      * intros b L A. destruct A as [A1 A2].
        assert (T : ascending (zy :: zs')) by (apply A'; [lia|exact A2]).
        destruct zs'; [cbn; auto|]. split; [exact A1|exact T].
Qed.

Lemma order_by_ascending rs :
  indexed rs ->
  exists zs,
    map (assoc "order_index") (order_by [("order_index", true)] rs)
    = map (fun y => Some (JNum y)) zs /\ ascending zs.
Proof.
  unfold order_by. induction rs as [|x rs IH]; intros I.
  - now exists [].
  - destruct (IH (fun r H => I r (or_intror H))) as [zs [M A]].
    destruct (I x (or_introl eq_refl)) as [z X].
    destruct (insert_by_ascending _ zs x z M X) as [zs' [M' [A' _]]].
    exists zs'. split; [exact M'|auto].
Qed.

Lemma indexed_matching fs rs : indexed rs -> indexed (matching fs rs).
Proof.
  intros I r H. apply I. unfold matching in H.
  apply filter_In in H. tauto.
Qed.

Lemma holds_bool c b r :
  holds (FEq c (JBool b)) r = true <-> assoc c r = Some (JBool b).
Proof.
  cbn [holds]. destruct (assoc c r) as [x|]; [|split; discriminate].
  destruct x; cbn [scalar_eqb]; try (split; discriminate).
  split.
  - intros H. apply Bool.eqb_prop in H. now subst.
  - intros [= ->]. apply Bool.eqb_reflx.
Qed.

Lemma holds_text c s r :
  holds (FEq c (JStr s)) r = true <-> assoc c r = Some (JStr s).
Proof.
  cbn [holds]. destruct (assoc c r) as [x|]; [|split; discriminate].
  rewrite scalar_eqb_str. split; congruence.
Qed.

(** X20.  GET /api/spotlight on a spotlight whose items carry whole
    order indexes: unless the read fails (500), the answer is 200 with
    exactly the items of the table that are active and, when a
    module_type is asked for, of that module type, in ascending order of
    order_index. *)
Theorem X20_spotlight_list :
  forall (req : request) (w : world),
    indexed (w_db w spotlight_items) ->
    (prop (req_query req) "module_type" = None \/
     exists m, prop (req_query req) "module_type" = Some (JStr m)) ->
    let res := fst (SpotLight.get_list req w) in
    (fault 0 w = true -> res = reply_error 500 (message backend_failure)) /\
    (fault 0 w = false ->
     exists items zs,
       res = reply 200 (JArr (map JObj items)) /\
       map (assoc "order_index") items = map (fun z => Some (JNum z)) zs /\
       ascending zs /\
       forall r,
         In r items <->
         In r (w_db w spotlight_items) /\
         assoc "is_active" r = Some (JBool true) /\
         (forall m, prop (req_query req) "module_type" = Some (JStr m) ->
                    m <> EmptyString ->
                    assoc "module_type" r = Some (JStr m))).
Proof.
  intros req w I Q. cbv zeta. rewrite spotlight_list_steps. cbn [fst].
  split; [intros ->; reflexivity|]. intros ->.
  set (fs := FEq "is_active" (JBool true) :: _).
  destruct (order_by_ascending (matching fs (w_db w spotlight_items))
              (indexed_matching _ _ I)) as [zs [M A]].
  eexists. exists zs. split; [reflexivity|]. split; [exact M|].
  split; [exact A|]. intros r.
  assert (P : In r (order_by [("order_index", true)]
                      (matching fs (w_db w spotlight_items)))
              <-> In r (matching fs (w_db w spotlight_items))).
  { split; apply Permutation_in;
      [apply order_by_perm|apply Permutation_sym, order_by_perm]. }
  rewrite P. unfold matching. rewrite filter_In. subst fs.
  destruct Q as [Q|[m Q]]; rewrite Q.
  - cbn [truthy satisfies forallb]. rewrite Bool.andb_true_r, holds_bool.
    split; [intros [H1 H2]|intros [H1 [H2 _]]]; repeat split; auto.
    intros m [=].
  - cbn [truthy nullish]. destruct (String.eqb m EmptyString) eqn:E;
      cbn [negb satisfies forallb].
    + apply String.eqb_eq in E. rewrite Bool.andb_true_r, holds_bool.
      split; [intros [H1 H2]|intros [H1 [H2 _]]]; repeat split; auto.
      intros m' [= <-] N. contradiction.
    + apply String.eqb_neq in E.
      rewrite Bool.andb_true_r, Bool.andb_true_iff, holds_bool, holds_text.
      split; [intros [H1 [H2 H3]]|intros [H1 [H2 H3]]]; repeat split; auto.
      intros m' [= <-] _. exact H3.
Qed.

Lemma X20_witness :
  indexed (w_db Cases.gallery spotlight_items) /\
  exists items zs,
    fst (SpotLight.get_list (Cases.spotlight_list []) Cases.gallery)
    = reply 200 (JArr (map JObj items)) /\
    map (assoc "order_index") items = map (fun z => Some (JNum z)) zs /\
    ascending zs.
Proof.
  assert (I : indexed (w_db Cases.gallery spotlight_items)).
  { intros r [<-|[<-|[]]]; eexists; reflexivity. }
  split; [exact I|].
  destruct (proj2 (X20_spotlight_list (Cases.spotlight_list []) Cases.gallery I
                     (or_introl eq_refl)) eq_refl)
    as [items [zs [R [M [A _]]]]].
  exists items, zs. split; [exact R|]. split; [exact M|exact A].
Defined.

(* ===================================================================== *)
(** * The spotlight: editing an item                                     *)
(* ===================================================================== *)

Lemma assoc_absent {A} k (l : list (string * A)) :
  ~ In k (map fst l) -> assoc k l = None.
Proof.
  induction l as [|[k' v] l IH]; intros N; [reflexivity|].
  cbn [assoc]. destruct (String.eqb k k') eqn:E.
  - apply String.eqb_eq in E. subst. exfalso. apply N. now left.
  - apply IH. intros H. apply N. now right.
Qed.

Lemma assoc_assign_all {A} k (patch o : list (string * A)) :
  NoDup (map fst patch) ->
  assoc k (assign_all patch o)
  = match assoc k patch with Some v => Some v | None => assoc k o end.
Proof.
  unfold assign_all. revert o.
  induction patch as [|[k' v'] patch IH]; intros o D; [reflexivity|].
  cbn [map fst] in D. inversion D as [|? ? N D']; subst.
  cbn [fold_left fst snd assoc]. rewrite (IH _ D').
  destruct (String.eqb k k') eqn:E.
  - apply String.eqb_eq in E. subst k'.
    rewrite (assoc_absent _ _ N). apply assoc_assign_same.
  - apply String.eqb_neq in E.
    rewrite assoc_assign_other by congruence. reflexivity.
Qed.

Lemma unmatched_unchanged fs (f : row -> row) rs :
  matching fs rs = [] ->
  map (fun r => if satisfies fs r then f r else r) rs = rs.
Proof.
  intros B. rewrite <- (map_id rs) at 2. apply map_ext_in. intros x I.
  destruct (satisfies fs x) eqn:S; [|reflexivity].
  exfalso. unfold matching in B.
  assert (H : In x (List.filter (satisfies fs) rs))
    by (apply filter_In; now split).
  now rewrite B in H.
Qed.

Lemma spotlight_update_single data id w :
  update_single spotlight_items data [FEq "id" (JStr id)] None w =
  if fault 0 w
  then (Error backend_failure, advance [Update spotlight_items] w)
  else
    (match map (assign_all data) (by_id spotlight_items id w) with
     | [x] => Data x
     | _ => Error not_single
     end,
     set_db
       (with_rows spotlight_items
          (map (fun r => if satisfies [FEq "id" (JStr id)] r
                         then assign_all data r else r)
             (w_db w spotlight_items))
          (w_db w))
       (advance [Update spotlight_items] w)).
Proof.
  unfold update_single, bind. rewrite update_step by reflexivity.
  destruct (fault 0 w); [reflexivity|]. unfold by_id.
  destruct (map (assign_all data) _) as [|x [|y l]]; reflexivity.
Qed.

Lemma spotlight_put_steps rt req w id o :
  param req "id" = Some (JStr id) -> req_body req = Some (JObj o) ->
  let lit :=
    literal_of
      [("title", assoc "title" o); ("subtitle", assoc "subtitle" o);
       ("media_type", assoc "media_type" o);
       ("module_type", assoc "module_type" o);
       ("updated_at", Some (JStr (toISOString rt (w_clock w (w_ticks w)))))] in
  let video := Restaurants.is_string (assoc "media_type" o) "video" in
  let finish data w1 :=
    let (r, w2) :=
      update_single spotlight_items data [FEq "id" (JStr id)] None w1 in
    (match r with
     | Error e => reply_error 500 (message e)
     | Data d => reply 200 (JObj d)
     end, w2) in
  SpotLightUpdate.put_by_id rt req w =
  match req_file req with
  | None => finish lit (ticked 1 w)
  | Some file =>
      let w1 := advance [Upload "spotlight"] (ticked 2 w) in
      if fault 0 w
      then (reply_error 500 (message backend_failure), w1)
      else
        let url :=
          getPublicUrl "spotlight"
            ((if video then "videos" else "images") ++ "/"
               ++ Z_to_string (w_clock w (S (w_ticks w))) ++ "."
               ++ SpotLight.extension (originalname file)) in
        let withUrl := assign "media_url" (JStr url) lit in
        finish (if video
                then assign "thumbnail_url"
                       (JStr "https://placehold.co/300x400?text=Preview") withUrl
                else withUrl) w1
  end.
Proof.
  intros P B. cbv zeta. unfold SpotLightUpdate.put_by_id. rewrite B, P.
  cbn [prop nullish]. unfold bind, ret. rewrite new_Date_step.
  destruct (req_file req) as [file|].
  - rewrite uploadToSupabase_steps.
    change (fault 0 (ticked 1 w)) with (fault 0 w).
    rewrite ticked_ticked. cbn [Nat.add].
    destruct (fault 0 w); [reflexivity|].
    destruct (update_single _ _ _ _ _) as [[e|d] w2]; reflexivity.
  - destruct (update_single _ _ _ _ _) as [[e|d] w2]; reflexivity.
Qed.

(** X21.  PUT /api/spotlight/:id with an object as body, on a table
    whose ids are text.  When the first call to the backend fails, the
    answer is 500 and nothing is changed.  On a sound backend: without
    an item of that id the answer is 500 and nothing is changed; with
    one, the answer is 200 with the item as updated, the other items
    being left alone.  In the updated item updated_at is the time of the
    call; title, subtitle, media_type and module_type have the value the
    body gives and, where it gives none, the value they had; without a
    file every other column is as it was; with a file media_url is the
    public address of the upload and thumbnail_url the placeholder for a
    video, unchanged otherwise. *)
Theorem X21_spotlight_update :
  forall (rt : runtime) (req : request) (w : world) (id : string)
         (o : list (string * json)),
    param req "id" = Some (JStr id) -> req_body req = Some (JObj o) ->
    string_ids (w_db w spotlight_items) ->
    let video := Restaurants.is_string (assoc "media_type" o) "video" in
    let res := fst (SpotLightUpdate.put_by_id rt req w) in
    let w' := snd (SpotLightUpdate.put_by_id rt req w) in
    (fault 0 w = true ->
     res = reply_error 500 (message backend_failure) /\ same_data w w') /\
    (clean w -> by_id spotlight_items id w = [] ->
     res = reply_error 500 (message not_single) /\
     forall t, w_db w' t = w_db w t) /\
    (clean w ->
     forall r, by_id spotlight_items id w = [r] ->
     exists data r',
       res = reply 200 (JObj r') /\
       patched spotlight_items id data w w' /\
       by_id spotlight_items id w' = [r'] /\
       assoc "updated_at" r'
       = Some (JStr (toISOString rt (w_clock w (w_ticks w)))) /\
       (forall k, In k ["title"; "subtitle"; "media_type"; "module_type"] ->
                  assoc k r'
                  = match assoc k o with
                    | Some v => Some v
                    | None => assoc k r
                    end) /\
       match req_file req with
       | None =>
           forall k,
             ~ In k ["title"; "subtitle"; "media_type"; "module_type";
                     "updated_at"] ->
             assoc k r' = assoc k r
       | Some file =>
           assoc "media_url" r'
           = Some (JStr (getPublicUrl "spotlight"
                           ((if video then "videos" else "images") ++ "/"
                              ++ Z_to_string (w_clock w (S (w_ticks w))) ++ "."
                              ++ SpotLight.extension (originalname file)))) /\
           assoc "thumbnail_url" r'
           = (if video
              then Some (JStr "https://placehold.co/300x400?text=Preview")
              else assoc "thumbnail_url" r)
       end).
Proof.
  intros rt req w id o P B _. cbv zeta.
  rewrite (spotlight_put_steps rt req w id o P B). cbv zeta.
  split; [|split].
  - intros F. destruct (req_file req) as [file|].
    + rewrite F. split; [reflexivity|]. split; reflexivity.
    + rewrite spotlight_update_single.
      change (fault 0 (ticked 1 w)) with (fault 0 w). rewrite F.
      split; [reflexivity|]. split; reflexivity.
  - intros C E.
    assert (U : forall data w1,
               w_db w1 = w_db w -> clean w1 ->
               let p := update_single spotlight_items data
                          [FEq "id" (JStr id)] None w1 in
               fst p = Error not_single /\
               forall t, w_db (snd p) t = w_db w t).
    { intros data w1 D C1. cbv zeta. rewrite spotlight_update_single.
      rewrite (clean_fault _ _ C1). unfold by_id. rewrite D.
      unfold by_id in E. rewrite E. split; [reflexivity|].
      intros t. cbn [snd w_db set_db].
      destruct (table_eq_dec spotlight_items t) as [<-|N].
      - rewrite with_rows_same. now apply unmatched_unchanged.
      - now rewrite with_rows_other. }
    destruct (req_file req) as [file|].
    + rewrite (clean_fault _ _ C).
      match goal with
      | |- context [update_single _ ?d _ _ ?w1] =>
          destruct (U d w1 eq_refl) as [U1 U2];
            [apply clean_advance, clean_ticked, C|];
            destruct (update_single _ d _ _ w1) as [x w2]
      end.
      cbn [fst snd] in *. subst x. split; [reflexivity|exact U2].
    + match goal with
      | |- context [update_single _ ?d _ _ ?w1] =>
          destruct (U d w1 eq_refl) as [U1 U2];
            [apply clean_ticked, C|];
            destruct (update_single _ d _ _ w1) as [x w2]
      end.
      cbn [fst snd] in *. subst x. split; [reflexivity|exact U2].
  - intros C r E.
    assert (U : forall data w1,
               w_db w1 = w_db w -> w_sessions w1 = w_sessions w -> clean w1 ->
               ~ In "id" (map fst data) ->
               let p := update_single spotlight_items data
                          [FEq "id" (JStr id)] None w1 in
               fst p = Data (assign_all data r) /\
               patched spotlight_items id data w (snd p) /\
               by_id spotlight_items id (snd p) = [assign_all data r]).
    { intros data w1 D S C1 N. cbv zeta. rewrite spotlight_update_single.
      rewrite (clean_fault _ _ C1). cbn [fst snd]. unfold by_id in E.
      split; [|split].
      - unfold by_id. rewrite D, E. reflexivity.
      - split; [|split].
        + cbn [w_db set_db]. now rewrite with_rows_same, D.
        + intros t' N'. cbn [w_db set_db].
          rewrite with_rows_other by congruence. now rewrite D.
        + exact S.
      - rewrite by_id_set_db, D, matching_mapped, E; [reflexivity|].
        intros x. cbn [holds]. now rewrite assoc_assign_all_other. }
    destruct (req_file req) as [file|].
    + rewrite (clean_fault _ _ C).
      match goal with
      | |- context [update_single _ ?d _ _ ?w1] =>
          exists d, (assign_all d r);
            destruct (U d w1 eq_refl eq_refl) as [U1 [U2 U3]];
            [apply clean_advance, clean_ticked, C| |
             destruct (update_single _ d _ _ w1) as [x w2]]
      end.
      * destruct (assoc "title" o), (assoc "subtitle" o),
          (assoc "media_type" o) as [m|], (assoc "module_type" o);
          try destruct (Restaurants.is_string (Some m) "video");
          cbn [literal_of assign String.eqb Ascii.eqb Bool.eqb map fst
                 Restaurants.is_string In];
          intuition discriminate.
      * cbn [fst snd] in *. subst x.
        split; [reflexivity|]. split; [exact U2|]. split; [exact U3|].
        destruct (assoc "title" o) eqn:E1, (assoc "subtitle" o) eqn:E2,
          (assoc "media_type" o) as [m|] eqn:E3, (assoc "module_type" o) eqn:E4;
          try destruct (Restaurants.is_string (Some m) "video");
          cbn [literal_of assign String.eqb Ascii.eqb Bool.eqb
                 Restaurants.is_string];
          (split; [unfold assign_all; cbn [fold_left fst snd];
                   repeat first [rewrite assoc_assign_same
                                | rewrite assoc_assign_other by discriminate];
                   reflexivity|]);
          (split;
           [intros k [<-|[<-|[<-|[<-|[]]]]]; rewrite ?E1, ?E2, ?E3, ?E4;
            unfold assign_all; cbn [fold_left fst snd];
            repeat first [rewrite assoc_assign_same
                         | rewrite assoc_assign_other by discriminate];
            reflexivity|]);
          (split; unfold assign_all; cbn [fold_left fst snd];
           repeat first [rewrite assoc_assign_same
                        | rewrite assoc_assign_other by discriminate];
           reflexivity).
    + match goal with
      | |- context [update_single _ ?d _ _ ?w1] =>
          exists d, (assign_all d r);
            destruct (U d w1 eq_refl eq_refl) as [U1 [U2 U3]];
            [apply clean_ticked, C| |
             destruct (update_single _ d _ _ w1) as [x w2]]
      end.
      * destruct (assoc "title" o), (assoc "subtitle" o),
          (assoc "media_type" o), (assoc "module_type" o);
          cbn; intuition discriminate.
      * cbn [fst snd] in *. subst x.
        split; [reflexivity|]. split; [exact U2|]. split; [exact U3|].
        destruct (assoc "title" o) eqn:E1, (assoc "subtitle" o) eqn:E2,
          (assoc "media_type" o) eqn:E3, (assoc "module_type" o) eqn:E4;
          cbn [literal_of];
          (split; [unfold assign_all; cbn [fold_left fst snd];
                   repeat first [rewrite assoc_assign_same
                                | rewrite assoc_assign_other by discriminate];
                   reflexivity|]);
          (split;
           [intros k [<-|[<-|[<-|[<-|[]]]]]; rewrite ?E1, ?E2, ?E3, ?E4;
            unfold assign_all; cbn [fold_left fst snd];
            repeat first [rewrite assoc_assign_same
                         | rewrite assoc_assign_other by discriminate];
            reflexivity|]);
          (intros k N; unfold assign_all; cbn [fold_left fst snd];
           repeat (rewrite assoc_assign_other
                    by (intros <-; apply N; cbn; tauto));
           reflexivity).
Qed.

Lemma X21_witness :
  string_ids (w_db Cases.gallery spotlight_items) /\
  clean Cases.gallery /\
  by_id spotlight_items "s1" Cases.gallery = [Cases.banner] /\
  exists r',
    fst (SpotLightUpdate.put_by_id Fixtures.rt
           (Cases.spotlight_put "s1" [("title", JStr "renamed")]) Cases.gallery)
    = reply 200 (JObj r') /\
    assoc "title" r' = Some (JStr "renamed") /\
    assoc "module_type" r' = Some (JStr "dining") /\
    assoc "order_index" r' = Some (JNum 1).
Proof.
  assert (S : string_ids (w_db Cases.gallery spotlight_items)).
  { intros r [<-|[<-|[]]]; eexists; reflexivity. }
  assert (C : clean Cases.gallery) by reflexivity.
  split; [exact S|]. split; [exact C|]. split; [reflexivity|].
  destruct (proj2 (proj2 (X21_spotlight_update Fixtures.rt
                            (Cases.spotlight_put "s1" [("title", JStr "renamed")])
                            Cases.gallery "s1" _ eq_refl eq_refl S))
              C Cases.banner eq_refl)
    as [data [r' [R [_ [_ [_ [K O]]]]]]].
  exists r'. split; [exact R|]. split; [|split].
  - exact (K "title" (or_introl eq_refl)).
  - exact (K "module_type" (or_intror (or_intror (or_intror (or_introl eq_refl))))).
  - apply (O "order_index"). cbn. intuition discriminate.
Defined.

(* ===================================================================== *)
(** * Login or register: what goes wrong                                 *)
(* ===================================================================== *)

Lemma sign_without payload secret w :
  secret = None \/ secret = Some EmptyString ->
  AuthAuto.sign payload secret w = (None, w).
Proof. intros [->| ->]; reflexivity. Qed.

Lemma auth_steps rt secret req w i :
  supplied req "id" = Some (JStr i) ->
  AuthAuto.authHandler rt secret req w =
  let w1 := advance [Select users] w in
  if fault 0 w
  then (inl (AuthAuto.failure 500 "DB error"), w1)
  else
    match by_id users i w with
    | [] =>
        let created :=
          literal_of
            [("id", Some (JStr i)); ("email", supplied req "email");
             ("role", Some (JStr "user"));
             ("created_at",
              Some (JStr (toISOString rt (w_clock w (w_ticks w)))));
             ("last_login",
              Some (JStr (toISOString rt (w_clock w (S (w_ticks w))))));
             ("last_opened",
              Some (JStr (toISOString rt (w_clock w (S (S (w_ticks w)))))))] in
        let w2 := advance [Insert users] (ticked 3 w1) in
        if fault 1 w
        then (inl (AuthAuto.failure 500 "Registration failed"), w2)
        else
          let (tk, w3) :=
            AuthAuto.sign [("id", Some (JStr i)); ("email", supplied req "email");
                           ("role", Some (JStr "user"))] secret
              (set_db (with_rows users (w_db w users ++ [created]) (w_db w)) w2) in
          (match tk with
           | None => inl (AuthAuto.failure 500 "Unexpected server error")
           | Some token =>
               inr {| AuthAuto.mode := "registered"; AuthAuto.token := token;
                      AuthAuto.user := created |}
           end, w3)
    | [u] =>
        let stamp := logged_in_at rt (w_clock w (w_ticks w))
                       (w_clock w (S (w_ticks w))) in
        let w2 := advance [Update users] (ticked 2 w1) in
        let (tk, w3) :=
          AuthAuto.sign [("id", Some (JStr i)); ("email", supplied req "email");
                         ("role", assoc "role" u)] secret
            (if fault 1 w then w2
             else set_db
                    (with_rows users
                       (map (fun r => if satisfies [FEq "id" (JStr i)] r
                                      then stamp r else r) (w_db w users))
                       (w_db w)) w2) in
        (match tk with
         | None => inl (AuthAuto.failure 500 "Unexpected server error")
         | Some token =>
             inr {| AuthAuto.mode := "logged_in"; AuthAuto.token := token;
                    AuthAuto.user := u |}
         end, w3)
    | _ :: _ :: _ => (inl (AuthAuto.failure 500 "DB error"), w1)
    end.
Proof.
  intros I. unfold AuthAuto.authHandler.
  rewrite (supplied_truthy req i I). cbn [negb].
  fold (supplied req "id"). fold (supplied req "email"). rewrite I.
  cbn [nullish]. unfold bind. cbv zeta.
  rewrite maybeSingle_by_id. destruct (fault 0 w) eqn:F0; [reflexivity|].
  destruct (by_id users i w) as [|u [|u' l]] eqn:E; [| |reflexivity].
  - rewrite !new_Date_step, !ticked_ticked, insert_step by reflexivity. cbn [Nat.add].
    change (fault 0 (ticked 3 (advance [Select users] w))) with
      (fault 0 (advance [Select users] w)).
    rewrite (fault_advance 0 [Select users] w). cbn [List.length Nat.add].
    destruct (fault 1 w); [reflexivity|].
    match goal with
    | |- context [assoc "id" (literal_of ?l)] =>
        assert (R : assoc "id" (literal_of l) = Some (JStr i) /\
                    assoc "role" (literal_of l) = Some (JStr "user"))
          by (split; apply registered_row);
        destruct R as [R1 R3]
    end.
    rewrite R1.
    change (w_db (ticked 3 (advance [Select users] w)) users)
      with (w_db w users).
    unfold by_id in E. rewrite (no_row_no_clash _ _ E), R3.
    unfold AuthAuto.sign. destruct secret as [key|]; [|reflexivity].
    destruct (String.eqb key EmptyString); reflexivity.
  - rewrite !new_Date_step, !ticked_ticked, update_step by reflexivity. cbn [Nat.add].
    change (fault 0 (ticked 2 (advance [Select users] w))) with
      (fault 0 (advance [Select users] w)).
    rewrite (fault_advance 0 [Select users] w). cbn [List.length Nat.add].
    unfold AuthAuto.sign.
    destruct (fault 1 w), secret as [key|]; try reflexivity;
      destruct (String.eqb key EmptyString); reflexivity.
Qed.

(** X22.  POST /api/auth/login-or-register when something goes wrong.
    A body without a supabase_user is answered 400 without any call to
    the backend.  For a supplied identity: a failed lookup, or more than
    one registry row for it, gives 500 "DB error"; a failed insertion of
    a new user gives 500 "Registration failed"; in these cases nothing
    stored has changed.  But the outcome of the update of a known user's
    login times is not looked at: when it fails, the caller is logged in
    all the same, with a token, while the registry is as it was. *)
Theorem X22_auth_failures :
  forall (rt : runtime) (secret : option string) (req : request) (w : world),
    let out := fst (AuthAuto.authHandler rt secret req w) in
    let w' := snd (AuthAuto.authHandler rt secret req w) in
    (forall o, req_body req = Some (JObj o) ->
               truthy (assoc "supabase_user" o) = false ->
               out = inl (AuthAuto.failure 400 "Supabase user is required.") /\
               w' = w) /\
    (forall i,
        supplied req "id" = Some (JStr i) ->
        (fault 0 w = true ->
         out = inl (AuthAuto.failure 500 "DB error") /\ same_data w w') /\
        (fault 0 w = false -> (2 <= List.length (by_id users i w))%nat ->
         out = inl (AuthAuto.failure 500 "DB error") /\ same_data w w') /\
        (fault 0 w = false -> fault 1 w = true -> by_id users i w = [] ->
         out = inl (AuthAuto.failure 500 "Registration failed") /\
         same_data w w') /\
        (fault 0 w = false -> fault 1 w = true ->
         forall u, by_id users i w = [u] ->
         same_data w w' /\
         forall key, secret = Some key -> key <> EmptyString ->
                     exists s, out = inr s /\
                               AuthAuto.mode s = "logged_in" /\
                               AuthAuto.user s = u /\
                               AuthAuto.signed_with (AuthAuto.token s) = key)).
Proof.
  intros rt secret req w. cbv zeta. split.
  - intros o B T. unfold AuthAuto.authHandler. rewrite B. cbn [prop].
    rewrite T. split; reflexivity.
  - intros i I. rewrite (auth_steps rt secret req w i I). cbv zeta.
    split; [|split; [|split]].
    + intros ->. split; [reflexivity|]. split; reflexivity.
    + intros -> L. destruct (by_id users i w) as [|u [|u' l]];
        cbn in L; try lia. split; [reflexivity|]. split; reflexivity.
    + intros -> -> ->. split; [reflexivity|]. split; reflexivity.
    + intros -> -> u ->. split.
      * destruct secret as [key|]; [|split; reflexivity].
        unfold AuthAuto.sign. destruct (String.eqb key EmptyString);
          split; reflexivity.
      * intros key -> K. rewrite sign_step by exact K.
        eexists. split; [reflexivity|]. repeat split.
Qed.

Lemma X22_witness :
  exists s,
    fst (AuthAuto.authHandler Fixtures.rt (Some "k")
           (Fixtures.logs_in Fixtures.member_id "mira@x.io")
           (Cases.failing [false; true] Fixtures.world0)) = inr s /\
    AuthAuto.mode s = "logged_in" /\ AuthAuto.user s = Cases.member /\
    AuthAuto.signed_with (AuthAuto.token s) = "k".
Proof.
  apply (proj2 (proj2 (proj2 (proj2
                  (proj2 (X22_auth_failures Fixtures.rt (Some "k")
                            (Fixtures.logs_in Fixtures.member_id "mira@x.io")
                            (Cases.failing [false; true] Fixtures.world0))
                     Fixtures.member_id eq_refl)))
                  eq_refl eq_refl Cases.member eq_refl)
           "k" eq_refl).
  discriminate.
Defined.

(** X23.  POST /api/auth/login-or-register on a server without signing
    secret (unset or empty), the backend being sound: every call for a
    supplied identity is answered 500 "Unexpected server error", and yet
    it has written: a new identity has got its registry row, a known one
    its new login times. *)
Theorem X23_auth_without_secret :
  forall (rt : runtime) (secret : option string) (req : request) (w : world)
         (i : string),
    clean w -> secret = None \/ secret = Some EmptyString ->
    supplied req "id" = Some (JStr i) ->
    (List.length (by_id users i w) <= 1)%nat ->
    let out := fst (AuthAuto.authHandler rt secret req w) in
    let w' := snd (AuthAuto.authHandler rt secret req w) in
    out = inl (AuthAuto.failure 500 "Unexpected server error") /\
    (by_id users i w = [] ->
     exists r, w_db w' users = w_db w users ++ [r] /\
               assoc "id" r = Some (JStr i) /\
               assoc "email" r = supplied req "email" /\
               assoc "role" r = Some (JStr "user")) /\
    (forall u, by_id users i w = [u] ->
               w_db w' users
               = map (fun r => if satisfies [FEq "id" (JStr i)] r
                               then logged_in_at rt (w_clock w (w_ticks w))
                                      (w_clock w (S (w_ticks w))) r
                               else r) (w_db w users)).
Proof.
  intros rt secret req w i C S I L. cbv zeta.
  rewrite (auth_steps rt secret req w i I). cbv zeta.
  rewrite !(clean_fault _ _ C).
  destruct (by_id users i w) as [|u [|u' l]]; [| |cbn in L; lia];
    rewrite (sign_without _ _ _ S); cbn [fst snd].
  - split; [reflexivity|]. split; [|discriminate]. intros _.
    eexists. split; [cbn [w_db set_db]; now rewrite with_rows_same|].
    repeat split; apply registered_row.
  - split; [reflexivity|]. split; [discriminate|]. intros u0 _.
    cbn [w_db set_db]. now rewrite with_rows_same.
Qed.

Lemma X23_witness :
  clean Fixtures.world0 /\
  fst (AuthAuto.authHandler Fixtures.rt None
         (Fixtures.logs_in Fixtures.newcomer_id "n@x.io") Fixtures.world0)
  = inl (AuthAuto.failure 500 "Unexpected server error") /\
  exists r,
    w_db (snd (AuthAuto.authHandler Fixtures.rt None
                 (Fixtures.logs_in Fixtures.newcomer_id "n@x.io")
                 Fixtures.world0)) users
    = w_db Fixtures.world0 users ++ [r] /\
    assoc "id" r = Some (JStr Fixtures.newcomer_id).
Proof.
  assert (C : clean Fixtures.world0) by reflexivity.
  split; [exact C|].
  destruct (X23_auth_without_secret Fixtures.rt None
              (Fixtures.logs_in Fixtures.newcomer_id "n@x.io") Fixtures.world0
              Fixtures.newcomer_id C (or_introl eq_refl) eq_refl)
    as [O [N _]].
  - vm_compute. lia.
  - split; [exact O|]. destruct (N eq_refl) as [r [D [R _]]].
    exists r. split; [exact D|exact R].
Defined.

(* ===================================================================== *)
(** * Creating users: what one registration does                         *)
(* ===================================================================== *)

Lemma signUp_step w :
  signUp w =
  (match w_signups w with
   | [] => SignUpError "sign-up unavailable"
   | a :: _ => a
   end,
   {| w_db := w_db w; w_sessions := w_sessions w; w_faults := w_faults w;
      w_signups := tl (w_signups w); w_clock := w_clock w;
      w_ticks := w_ticks w; w_log := w_log w ++ [SignUp] |}).
Proof. unfold signUp. destruct (w_signups w); reflexivity. Qed.

Lemma truthy_Some (v : value) : truthy v = true -> exists j, v = Some j.
Proof. destruct v as [j|]; [eauto|discriminate]. Qed.

Lemma truthy_text (s : option string) :
  truthy (option_map JStr s) = true -> exists x, s = Some x.
Proof. destruct s as [x|]; [eauto|discriminate]. Qed.

(** One registration: the registry grows by the row answered, or nothing
    stored changes. *)
Lemma createOneUser_effect more u w :
  u <> JNull ->
  exists o w',
    CreateUser.createOneUser more (Some u) w = (Some o, w') /\
    w_sessions w' = w_sessions w /\
    (forall t, t <> users -> w_db w' t = w_db w t) /\
    match o with
    | CreateUser.Created user =>
        w_db w' users = w_db w users ++ [user] /\
        (exists uid tok rest,
            w_signups w = SignedUp (Some uid) (Some tok) :: rest /\
            assoc "id" user = Some (JStr uid)) /\
        assoc "email" user = prop (Some u) "email" /\
        assoc "role" user = prop (Some u) "role" /\
        w_log w' = w_log w ++ [SignUp; Insert users]
    | CreateUser.Failed _ _ => w_db w' = w_db w
    end.
Proof.
  intros N. unfold CreateUser.createOneUser.
  destruct u as [| | | | |o]; try contradiction;
    try (eexists; eexists; split; [reflexivity|]; repeat split; reflexivity).
  cbn [prop].
  destruct (truthy (assoc "email" o)) eqn:Te;
    [|eexists; eexists; split; [reflexivity|]; repeat split; reflexivity].
  destruct (truthy (assoc "password" o)) eqn:Tp;
    [|eexists; eexists; split; [reflexivity|]; repeat split; reflexivity].
  destruct (truthy (assoc "role" o)) eqn:Tr;
    [|eexists; eexists; split; [reflexivity|]; repeat split; reflexivity].
  cbn [negb orb]. unfold bind. rewrite signUp_step.
  destruct (w_signups w) as [|[msg|uid tok] rest] eqn:S;
    try (eexists; eexists; split; [reflexivity|]; repeat split; reflexivity).
  destruct (truthy (option_map JStr uid)) eqn:Tu;
    [|eexists; eexists; split; [reflexivity|]; repeat split; reflexivity].
  destruct (truthy (option_map JStr tok)) eqn:Tt;
    [|eexists; eexists; split; [reflexivity|]; repeat split; reflexivity].
  cbn [negb]. rewrite insert_step by reflexivity.
  match goal with
  | |- context [if fault 0 ?w1 then _ else _] =>
      destruct (fault 0 w1);
        [eexists; eexists; split; [reflexivity|]; repeat split; reflexivity|]
  end.
  match goal with
  | |- context [if ?c then (Error unique_violation, _) else _] =>
      destruct c;
        [eexists; eexists; split; [reflexivity|]; repeat split; reflexivity|]
  end.
  destruct (truthy_text _ Tu) as [x ->], (truthy_text _ Tt) as [y ->].
  destruct (truthy_Some _ Te) as [e Ee], (truthy_Some _ Tr) as [r Er].
  eexists. eexists. split; [reflexivity|].
  split; [reflexivity|]. split.
  - intros t Nt. cbn [w_db set_db advance]. apply with_rows_other. congruence.
  - split; [cbn [w_db set_db advance]; now rewrite with_rows_same|].
    split; [exists x, y, rest; split; [reflexivity|]; rewrite Ee; reflexivity|].
    rewrite Ee, Er. cbn [app literal_of option_map assoc String.eqb Ascii.eqb
                           Bool.eqb].
    split; [reflexivity|]. split; [reflexivity|].
    cbn [w_log set_db advance]. now rewrite <- app_assoc.
Qed.

Lemma attempts_registry more us w :
  (forall u, In u us -> u <> JNull) ->
  let l := fst (attempts more us w) in
  let w' := snd (attempts more us w) in
  map JObj (w_db w' users) = map JObj (w_db w users) ++ created_of l /\
  (forall t, t <> users -> w_db w' t = w_db w t) /\
  w_sessions w' = w_sessions w /\
  (forall c, In c (created_of l) ->
             exists user u, c = JObj user /\ In u us /\
                            assoc "email" user = prop (Some u) "email" /\
                            assoc "role" user = prop (Some u) "role").
Proof.
  revert w. induction us as [|u rest IH]; intros w N; cbv zeta.
  - cbn. rewrite app_nil_r. repeat split; auto. intros c [].
  - cbn [attempts].
    destruct (createOneUser_effect more u w (N u (or_introl eq_refl)))
      as [o [w1 [E [S [O P]]]]].
    rewrite E.
    specialize (IH w1 (fun x I => N x (or_intror I))). cbv zeta in IH.
    destruct (attempts more rest w1) as [l w2]. cbn [fst snd] in *.
    destruct IH as [R [O' [S' C']]].
    split; [|split; [|split]].
    + rewrite R. destruct o as [e h|user]; cbn [created_of].
      * now rewrite P.
      * destruct P as [P _]. rewrite P, map_app, <- app_assoc. reflexivity.
    + intros t Nt. now rewrite O', O.
    + now rewrite S'.
    + intros c I.
      assert (T : forall c, In c (created_of l) ->
                  exists user u0, c = JObj user /\ In u0 (u :: rest) /\
                                  assoc "email" user = prop (Some u0) "email" /\
                                  assoc "role" user = prop (Some u0) "role").
      { intros c0 I0. destruct (C' c0 I0) as [user [u0 [A [B D]]]].
        exists user, u0. split; [exact A|]. split; [now right|exact D]. }
      destruct o as [e h|user]; cbn [created_of] in I; [now apply T|].
      destruct I as [<-|I]; [|now apply T].
      destruct P as [_ [_ [Pe [Pr _]]]].
      exists user, u. split; [reflexivity|]. split; [now left|]. now split.
Qed.

(** X24.  POST /api/auth/create-user with a single user (an object
    without a [users] array), in the versions that also take batches:
    the answer is 201 or 400 and never anything else; a 400 has stored
    nothing; a 201 has appended exactly the answered row to the
    registry, with the id the sign-up returned and the email and role of
    the body, after one sign-up and one insertion; and a body without
    email, password or role is refused 400 without any call at all. *)
Theorem X24_create_single_user :
  forall (more : json -> list (string * value)) (req : request) (w : world)
         (o : list (string * json)),
    req_body req = Some (JObj o) ->
    CreateUser.isBulk (req_body req) = false ->
    let res := fst (CreateUser.create_user more req w) in
    let w' := snd (CreateUser.create_user more req w) in
    (status res = 201%Z \/ status res = 400%Z) /\
    (status res = 400%Z -> same_data w w') /\
    (status res = 201%Z ->
     exists user uid tok rest,
       res = reply 201 (JObj [("user", JObj user)]) /\
       w_db w' users = w_db w users ++ [user] /\
       (forall t, t <> users -> w_db w' t = w_db w t) /\
       w_signups w = SignedUp (Some uid) (Some tok) :: rest /\
       assoc "id" user = Some (JStr uid) /\
       assoc "email" user = assoc "email" o /\
       assoc "role" user = assoc "role" o /\
       w_log w' = w_log w ++ [SignUp; Insert users]) /\
    ((truthy (assoc "email" o) && truthy (assoc "password" o)
      && truthy (assoc "role" o))%bool = false ->
     res = reply 400
             (JObj [("ok", JBool false);
                    ("error", JStr "Email, password and role are required")]) /\
     w' = w).
Proof.
  intros more req w o B NB. cbv zeta. unfold CreateUser.create_user.
  rewrite NB, B. unfold bind.
  split; [|split; [|split]].
  - destruct (createOneUser_effect more (JObj o) w) as [out [w1 [E _]]];
      [discriminate|].
    rewrite E. destruct out; [right|left]; reflexivity.
  - destruct (createOneUser_effect more (JObj o) w) as [out [w1 [E [S [_ P]]]]];
      [discriminate|].
    rewrite E. destruct out; cbn [fst snd ret status reply].
    + intros _. split; [exact P|exact S].
    + discriminate.
  - destruct (createOneUser_effect more (JObj o) w) as [out [w1 [E [S [O P]]]]];
      [discriminate|].
    rewrite E. destruct out as [e h|user]; cbn [fst snd ret status reply].
    + discriminate.
    + intros _. destruct P as [P1 [[uid [tok [rest [P2 P3]]]] [P4 [P5 P6]]]].
      exists user, uid, tok, rest. repeat split; auto.
  - intros T. unfold CreateUser.createOneUser. cbn [prop].
    destruct (truthy (assoc "email" o)), (truthy (assoc "password" o)),
      (truthy (assoc "role" o)); try discriminate; split; reflexivity.
Qed.

Lemma X24_witness :
  exists user,
    fst (CreateUser.create_user CreateUser.membership
           (Fixtures.request_of None [] [] (Some (Fixtures.candidate "n@x.io")))
           Fixtures.world0)
    = reply 201 (JObj [("user", JObj user)]) /\
    assoc "id" user = Some (JStr Fixtures.newcomer_id) /\
    assoc "email" user = Some (JStr "n@x.io").
Proof.
  destruct (proj1 (proj2 (proj2
              (X24_create_single_user CreateUser.membership
                 (Fixtures.request_of None [] []
                    (Some (Fixtures.candidate "n@x.io")))
                 Fixtures.world0 _ eq_refl eq_refl))))
    as [user [uid [tok [rest [R [_ [_ [S [I [E _]]]]]]]]]].
  - vm_compute. reflexivity.
  - exists user. split; [exact R|]. split; [|exact E].
    injection S as <- _ _. exact I.
Defined.

(** X25.  POST /api/auth/create-user with a batch of 1 to 200 entries,
    none of them [null]: what the report lists under [created] is
    exactly what has been appended to the registry, in that order; the
    other tables are untouched; and every created row carries the email
    and the role of an entry of the batch. *)
Theorem X25_bulk_report_is_registry_growth :
  forall (more : json -> list (string * value)) (req : request)
         (us : list json) (w : world),
    bulk_of req us -> us <> [] -> (List.length us <= 200)%nat ->
    (forall u, In u us -> u <> JNull) ->
    let res := fst (CreateUser.create_user more req w) in
    let w' := snd (CreateUser.create_user more req w) in
    exists created failed,
      res = {| status := 200; body := report created failed |} /\
      map JObj (w_db w' users) = map JObj (w_db w users) ++ created /\
      (forall t, t <> users -> w_db w' t = w_db w t) /\
      (forall c, In c created ->
                 exists user u, c = JObj user /\ In u us /\
                                assoc "email" user = prop (Some u) "email" /\
                                assoc "role" user = prop (Some u) "role").
Proof.
  intros more req us w B NE L N. cbv zeta.
  rewrite (create_user_bulk more req us w B).
  destruct us as [|u0 rest] eqn:U; [contradiction|]. rewrite <- U in *.
  assert (Z0 : Nat.eqb (List.length us) 0 = false)
    by (subst us; reflexivity).
  assert (Z1 : Nat.ltb 200 (List.length us) = false)
    by (apply Nat.ltb_ge; exact L).
  rewrite Z0, Z1, (bulk_loop_eq more us [] [] w N). cbn [app fst snd].
  destruct (attempts_registry more us w N) as [R [O [_ C]]].
  exists (created_of (fst (attempts more us w))),
         (failed_of (fst (attempts more us w))).
  split; [reflexivity|]. split; [exact R|]. split; [exact O|exact C].
Qed.

Lemma X25_witness :
  bulk_of (Fixtures.creates [Fixtures.candidate "n@x.io"; JNum 3])
    [Fixtures.candidate "n@x.io"; JNum 3] /\
  exists created failed,
    fst (CreateUser.create_user CreateUser.plain
           (Fixtures.creates [Fixtures.candidate "n@x.io"; JNum 3])
           Fixtures.world0)
    = {| status := 200; body := report created failed |} /\
    map JObj (w_db (snd (CreateUser.create_user CreateUser.plain
                           (Fixtures.creates [Fixtures.candidate "n@x.io"; JNum 3])
                           Fixtures.world0)) users)
    = map JObj (w_db Fixtures.world0 users) ++ created.
Proof.
  assert (B : bulk_of (Fixtures.creates [Fixtures.candidate "n@x.io"; JNum 3])
                [Fixtures.candidate "n@x.io"; JNum 3])
    by (eexists; split; reflexivity).
  split; [exact B|].
  destruct (X25_bulk_report_is_registry_growth CreateUser.plain
              (Fixtures.creates [Fixtures.candidate "n@x.io"; JNum 3])
              [Fixtures.candidate "n@x.io"; JNum 3] Fixtures.world0 B)
    as [created [failed [R [G _]]]].
  - discriminate.
  - cbn. lia.
  - intros u [<-|[<-|[]]]; discriminate.
  - exists created, failed. split; [exact R|exact G].
Defined.

(* ===================================================================== *)
(** * Creating users: the first version of the route and the later one   *)
(* ===================================================================== *)

(** X26.  POST /api/auth/create-user with a single user, as first
    written and as rewritten with the batch mode (common columns): both
    versions make the same calls and leave the same world, and they
    answer 201 in the same cases, with the same body.  They differ on
    failures: where the first version answers 202 (a user was signed up
    but no session came back) or 500 (the sign-up returned no user), the
    later one answers 400; in both of these cases the sign-up has been
    made and no profile row is stored. *)
Theorem X26_first_and_later_version :
  forall (req : request) (w : world) (o : list (string * json)),
    req_body req = Some (JObj o) ->
    CreateUser.isBulk (req_body req) = false ->
    let later := CreateUser.create_user CreateUser.plain req w in
    exists first,
      CreateUserFirst.create_user req w = (Some first, snd later) /\
      (status first = 201%Z <-> status (fst later) = 201%Z) /\
      (status first = 201%Z -> first = fst later) /\
      (status first <> 201%Z -> status (fst later) = 400%Z) /\
      (status first = 202%Z \/ status first = 500%Z ->
       w_log (snd later) = w_log w ++ [SignUp] /\ same_data w (snd later)) /\
      (status first = 202%Z ->
       exists uid tok rest,
         w_signups w = SignedUp (Some uid) tok :: rest /\
         truthy (option_map JStr tok) = false /\
         first = reply 202
                   (JObj [("message", JStr CreateUserFirst.no_session_message);
                          ("user",
                           JObj (literal_of [("id", Some (JStr uid));
                                             ("email", assoc "email" o)]))])).
Proof.
  intros req w o B NB. cbv zeta.
  unfold CreateUserFirst.create_user, CreateUser.create_user,
    CreateUser.createOneUser.
  rewrite NB, B. cbn [prop].
  destruct (truthy (assoc "email" o)) eqn:Te;
    [|eexists; split; [reflexivity|]; cbn;
      repeat split; try discriminate; intuition discriminate].
  destruct (truthy (assoc "password" o)) eqn:Tp;
    [|eexists; split; [reflexivity|]; cbn;
      repeat split; try discriminate; intuition discriminate].
  destruct (truthy (assoc "role" o)) eqn:Tr;
    [|eexists; split; [reflexivity|]; cbn;
      repeat split; try discriminate; intuition discriminate].
  cbn [negb orb]. unfold bind. rewrite signUp_step.
  destruct (w_signups w) as [|[msg|uid tok] rest] eqn:S;
    try (eexists; split; [reflexivity|]; cbn;
         repeat split; try discriminate; intuition discriminate).
  destruct (truthy (option_map JStr uid)) eqn:Tu;
    [|eexists; split; [reflexivity|]; cbn;
      repeat split; try discriminate; intuition discriminate].
  destruct (truthy_text _ Tu) as [x ->].
  destruct (truthy (option_map JStr tok)) eqn:Tt; cbn [negb].
  - unfold CreateUser.plain. cbn [app]. rewrite !insert_step by reflexivity.
    match goal with
    | |- context [if fault 0 ?w1 then _ else _] =>
        destruct (fault 0 w1);
          [eexists; split; [reflexivity|]; cbn;
           repeat split; try discriminate; intuition discriminate|]
    end.
    cbn [option_map literal_of assoc String.eqb Ascii.eqb Bool.eqb].
    destruct (existsb (same_id (JStr x)) _);
      [eexists; split; [reflexivity|]; cbn;
       repeat split; try discriminate; intuition discriminate|].
    eexists. split; [reflexivity|]. cbn [fst snd ret status reply].
    repeat split; try discriminate; try tauto; intuition discriminate.
  - eexists. split; [reflexivity|]. cbn [fst snd ret status reply reply_error].
    split; [split; discriminate|]. split; [discriminate|].
    split; [reflexivity|]. split; [intros _; repeat split; reflexivity|].
    intros _. exists x, tok, rest. repeat split. exact Tt.
Qed.

Lemma X26_witness :
  exists first,
    CreateUserFirst.create_user
      (Fixtures.request_of None [] [] (Some (Fixtures.candidate "n@x.io")))
      Fixtures.world0
    = (Some first,
       snd (CreateUser.create_user CreateUser.plain
              (Fixtures.request_of None [] []
                 (Some (Fixtures.candidate "n@x.io")))
              Fixtures.world0)) /\
    (status first = 201%Z ->
     first = fst (CreateUser.create_user CreateUser.plain
                    (Fixtures.request_of None [] []
                       (Some (Fixtures.candidate "n@x.io")))
                    Fixtures.world0)).
Proof.
  destruct (X26_first_and_later_version
              (Fixtures.request_of None [] [] (Some (Fixtures.candidate "n@x.io")))
              Fixtures.world0 _ eq_refl eq_refl)
    as [first [E [_ [A _]]]].
  exists first. split; [exact E|exact A].
Defined.

(* ===================================================================== *)
(** * Employees: adding one and removing it again                        *)
(* ===================================================================== *)

Lemma merged_fresh rt clock tick existing emp :
  listed existing ->
  Corporates.str emp "user_id" <> EmptyString ->
  (forall e, In e existing ->
             Corporates.uid_of e <> Corporates.str emp "user_id") ->
  merged rt clock tick existing [emp]
  = existing ++ [Corporates.entry emp (toISOString rt (clock tick))].
Proof.
  intros L U F. unfold merged.
  rewrite (load_existing_list existing L). cbn [merge_at].
  rewrite sset_fresh.
  - unfold JsMap.values. rewrite map_app, map_map. cbn [map snd].
    now rewrite map_id.
  - destruct (JsMap.has String.eqb _ _) eqn:H; [|reflexivity].
    apply shas_In in H. unfold JsMap.keys in H. rewrite map_map in H.
    cbn [fst] in H. apply in_map_iff in H. destruct H as [e [E I]].
    now destruct (F e I).
Qed.

Lemma without_added u es x :
  (forall e, In e es -> Corporates.uid_of e <> u) ->
  Corporates.uid_of x = u ->
  without u (es ++ [x]) = es.
Proof.
  intros F X. unfold without. rewrite filter_app. cbn [List.filter].
  rewrite X, String.eqb_refl. cbn [negb]. rewrite app_nil_r.
  now apply without_absent.
Qed.

(** X27.  Adding one employee to a corporate and removing that employee
    again, by admins on a sound backend: when the corporate's employees
    have distinct, non-empty user_ids, none of them the new one, the
    registry vouches for the new employee and the seats allow one more,
    both calls answer 200 and the corporate's row is afterwards exactly
    what it was before; the other tables are untouched. *)
Theorem X27_add_then_remove :
  forall (rt : runtime) (add remove : request) (w : world) (cid : string)
         (emp : list (string * json)) (corp : row),
    clean w -> keyed users w -> is_admin add w -> is_admin remove w ->
    Corporates.CorporateIdParamSchema rt add = Some cid ->
    Corporates.AddEmployeesSchema rt (req_body add) = Some [emp] ->
    Corporates.RemoveEmployeeParamSchema rt remove
    = Some (cid, Corporates.str emp "user_id") ->
    by_id corporate cid w = [corp] ->
    (exists es, assoc "employees" corp = Some (JArr es)) ->
    listed (Corporates.employees_of corp) ->
    Corporates.str emp "user_id" <> EmptyString ->
    (forall e, In e (Corporates.employees_of corp) ->
               Corporates.uid_of e <> Corporates.str emp "user_id") ->
    vouched emp w ->
    Corporates.seats_exceeded (seats_of rt corp)
      (S (List.length (Corporates.employees_of corp))) = false ->
    let w1 := snd (Corporates.add_employees rt add w) in
    let w2 := snd (Corporates.remove_employee rt remove w1) in
    status (fst (Corporates.add_employees rt add w)) = 200%Z /\
    Corporates.employees_of
      (nth 0 (by_id corporate cid w1) [])
    = Corporates.employees_of corp
      ++ [Corporates.entry emp (toISOString rt (w_clock w (w_ticks w)))] /\
    status (fst (Corporates.remove_employee rt remove w1)) = 200%Z /\
    by_id corporate cid w2 = [corp] /\
    (forall t, t <> corporate -> w_db w2 t = w_db w t).
Proof.
  intros rt add remove w cid emp corp C K A A' P B R E [es Ec] L U F V S.
  cbv zeta.
  pose proof (add_employees_clean rt add w cid [emp] corp C K A P B E) as H.
  cbv zeta in H.
  rewrite (check_of_vouched [emp] w K) in H
    by (intros x [<-|[]]; exact V).
  rewrite (merged_fresh rt _ _ _ emp L U F) in H.
  rewrite length_app, Nat.add_comm in H. cbn [List.length Nat.add] in H.
  rewrite S in H. destruct H as [r [w1 [H [St [C1 [W _]]]]]].
  rewrite H. cbn [fst snd].
  destruct W as [_ [E1 [EO [_ [O SS]]]]].
  assert (Us : w_db w1 users = w_db w users) by (apply O; discriminate).
  destruct (remove_employee_clean rt remove w1 cid _ _ C1
              (keyed_transfer users w w1 Us K)
              (is_admin_transfer remove w w1 Us SS A') R E1)
    as [r2 [w2 [H2 [St2 [_ W2]]]]].
  rewrite H2. cbn [fst snd]. rewrite E1. cbn [nth].
  split; [exact St|]. split; [exact EO|]. split; [exact St2|].
  destruct W2 as [_ [E2 [_ [_ [O2 _]]]]].
  split.
  - rewrite E2, EO.
    rewrite (without_added _ _ _ F) by apply uid_of_entry.
    unfold written. rewrite assign_assign.
    unfold Corporates.employees_of. rewrite Ec.
    now rewrite (assign_same _ _ _ Ec).
  - intros t N. now rewrite (O2 t N), (O t N).
Qed.

Lemma X27_witness :
  clean Cases.roomy /\
  is_admin (Fixtures.adds [Fixtures.newcomer_entry "p@x.io"]) Cases.roomy /\
  by_id corporate Fixtures.corporate_id Cases.roomy = [Cases.firm] /\
  by_id corporate Fixtures.corporate_id
    (snd (Corporates.remove_employee Fixtures.rt
            (Fixtures.removes Fixtures.partner_id)
            (snd (Corporates.add_employees Fixtures.rt
                    (Fixtures.adds [Fixtures.newcomer_entry "p@x.io"])
                    Cases.roomy))))
  = [Cases.firm].
Proof.
  assert (C : clean Cases.roomy) by reflexivity.
  assert (A : is_admin (Fixtures.adds [Fixtures.newcomer_entry "p@x.io"])
                Cases.roomy)
    by (exists Fixtures.admin_id; split; reflexivity).
  assert (A' : is_admin (Fixtures.removes Fixtures.partner_id) Cases.roomy)
    by (exists Fixtures.admin_id; split; reflexivity).
  assert (P : Corporates.AddEmployeesSchema Fixtures.rt
                (req_body (Fixtures.adds [Fixtures.newcomer_entry "p@x.io"]))
              = Some [[("user_id", JStr Fixtures.partner_id); ("name", JStr "Pia");
                       ("email", JStr "p@x.io"); ("phone", JStr "2")]])
    by (vm_compute; reflexivity).
  assert (R : Corporates.RemoveEmployeeParamSchema Fixtures.rt
                (Fixtures.removes Fixtures.partner_id)
              = Some (Fixtures.corporate_id, Fixtures.partner_id))
    by (vm_compute; reflexivity).
  assert (I : Corporates.CorporateIdParamSchema Fixtures.rt
                (Fixtures.adds [Fixtures.newcomer_entry "p@x.io"])
              = Some Fixtures.corporate_id)
    by (vm_compute; reflexivity).
  split; [exact C|]. split; [exact A|]. split; [reflexivity|].
  refine (proj1 (proj2 (proj2 (proj2
            (X27_add_then_remove Fixtures.rt
               (Fixtures.adds [Fixtures.newcomer_entry "p@x.io"])
               (Fixtures.removes Fixtures.partner_id)
               Cases.roomy Fixtures.corporate_id _ Cases.firm
               C eq_refl A A' I P R eq_refl _ _ _ _ _ _))))).
  - eexists. reflexivity.
  - split.
    + vm_compute. repeat constructor; cbn; intuition discriminate.
    + intros e [<-|[]]. vm_compute. discriminate.
  - discriminate.
  - intros e [<-|[]]. vm_compute. discriminate.
  - eexists. split; vm_compute; reflexivity.
  - vm_compute. reflexivity.
Defined.

(* ===================================================================== *)
(** * Employees: what the two routes can and cannot do                   *)
(* ===================================================================== *)

Lemma employees_update_shape cid es cols w0 w :
  w_db w0 = w_db w -> w_sessions w0 = w_sessions w ->
  let p := update_single corporate [("employees", JArr es)]
             [FEq "id" (JStr cid)] cols w0 in
  same_data w (snd p) \/
  patched corporate cid [("employees", JArr es)] w (snd p).
Proof.
  intros D S. cbv zeta. unfold update_single, bind. rewrite update_step by reflexivity.
  destruct (fault 0 w0); [left; split; [exact D|exact S]|].
  right.
  assert (P : patched corporate cid [("employees", JArr es)] w
                (set_db
                   (with_rows corporate
                      (map (fun r => if satisfies [FEq "id" (JStr cid)] r
                                     then assign_all [("employees", JArr es)] r
                                     else r) (w_db w0 corporate))
                      (w_db w0))
                   (advance [Update corporate] w0))).
  { rewrite D. split; [|split].
    - cbn [w_db set_db]. now rewrite with_rows_same.
    - intros t N. cbn [w_db set_db]. now rewrite with_rows_other by congruence.
    - exact S. }
  destruct (map (assign_all [("employees", JArr es)]) _) as [|a [|b m]];
    exact P.
Qed.

Lemma add_employees_shape rt req w cid incoming :
  Corporates.CorporateIdParamSchema rt req = Some cid ->
  Corporates.AddEmployeesSchema rt (req_body req) = Some incoming ->
  let res := fst (Corporates.add_employees rt req w) in
  let w' := snd (Corporates.add_employees rt req w) in
  (status res = 200%Z -> is_admin req w) /\
  (same_data w w' \/
   exists es, patched corporate cid [("employees", JArr es)] w w').
Proof.
  intros P B. cbv zeta. unfold Corporates.add_employees. rewrite P, B.
  unfold bind. unfold Corporates.requireAdmin.
  destruct (requireAdmin_world req w) as [l W].
  destruct (Restaurants.requireAdmin req w) as [[r|c] w1] eqn:G;
    cbn [snd] in W; subst w1.
  - destruct (requireAdmin_refuses req w r _ G) as [_ [S|[S|S]]];
      cbn [fst snd ret]; (split; [rewrite S; discriminate|left; split; reflexivity]).
  - pose proof (requireAdmin_sound req w c _ G) as A.
    split; [intros _; exact A|].
    rewrite single_by_id.
    destruct (if fault 0 (advance l w) then _ else _) as [corp|e];
      [|left; split; reflexivity].
    rewrite run_step.
    destruct (if fault 0 (advance [Select corporate] (advance l w)) then _ else _)
      as [[usersRows n]|e]; [|left; split; reflexivity].
    destruct (Corporates.check_users _ incoming);
      [left; split; reflexivity|].
    rewrite merge_incoming_eq.
    destruct (Corporates.seats_exceeded _ _); [left; split; reflexivity|].
    match goal with
    | |- context [update_single corporate [("employees", JArr ?es)] _ ?cols ?w0] =>
        destruct (employees_update_shape cid es cols w0 w eq_refl eq_refl)
          as [H|H];
          destruct (update_single corporate [("employees", JArr es)] _ cols w0)
            as [[u|e] w2]; cbn [fst snd ret] in *;
          first [left; exact H | right; exists es; exact H]
    end.
Qed.

Lemma remove_employee_shape rt req w cid userId :
  Corporates.RemoveEmployeeParamSchema rt req = Some (cid, userId) ->
  let res := fst (Corporates.remove_employee rt req w) in
  let w' := snd (Corporates.remove_employee rt req w) in
  (status res = 200%Z -> is_admin req w) /\
  (same_data w w' \/
   exists es, patched corporate cid [("employees", JArr es)] w w').
Proof.
  intros P. cbv zeta. unfold Corporates.remove_employee. rewrite P.
  unfold bind. unfold Corporates.requireAdmin.
  destruct (requireAdmin_world req w) as [l W].
  destruct (Restaurants.requireAdmin req w) as [[r|c] w1] eqn:G;
    cbn [snd] in W; subst w1.
  - destruct (requireAdmin_refuses req w r _ G) as [_ [S|[S|S]]];
      cbn [fst snd ret]; (split; [rewrite S; discriminate|left; split; reflexivity]).
  - pose proof (requireAdmin_sound req w c _ G) as A.
    split; [intros _; exact A|].
    rewrite single_by_id.
    destruct (if fault 0 (advance l w) then _ else _) as [corp|e];
      [|left; split; reflexivity].
    match goal with
    | |- context [update_single corporate [("employees", JArr ?es)] _ ?cols ?w0] =>
        destruct (employees_update_shape cid es cols w0 w eq_refl eq_refl)
          as [H|H];
          destruct (update_single corporate [("employees", JArr es)] _ cols w0)
            as [[u|e] w2]; cbn [fst snd ret] in *;
          first [left; exact H | right; exists es; exact H]
    end.
Qed.

Lemma employees_only cid es w w' :
  same_data w w' \/ patched corporate cid [("employees", JArr es)] w w' ->
  (forall t, t <> corporate -> w_db w' t = w_db w t) /\
  List.length (w_db w' corporate) = List.length (w_db w corporate) /\
  (forall k, k <> "employees" ->
             map (assoc k) (w_db w' corporate)
             = map (assoc k) (w_db w corporate)).
Proof.
  intros [[D _]|[R [O _]]].
  - rewrite D. repeat split; reflexivity.
  - split; [exact O|]. rewrite R. split; [apply length_map|].
    intros k N. rewrite map_map. apply map_ext. intros x.
    destruct (satisfies [FEq "id" (JStr cid)] x); [|reflexivity].
    apply assoc_assign_all_other. cbn. intuition congruence.
Qed.

(** X28.  The two routes on the employees of a corporate, whatever the
    caller and the backend do.  They validate first: a corporate id that
    is not a UUID, then a body the schema refuses (an empty list of
    employees, for one), and for the removal parameters that are not
    UUIDs, are answered 400 without any call to the platform.  They
    answer 200 only to an admin or superadmin.  And all they can change
    is the employees column of the corporate table: no other table, no
    other column, no row added or removed. *)
Theorem X28_employees_routes_guarded :
  forall (rt : runtime) (req : request) (w : world),
    let add := Corporates.add_employees rt req w in
    let remove := Corporates.remove_employee rt req w in
    (Corporates.CorporateIdParamSchema rt req = None ->
     add = (reply_error 400 "Invalid corporate id", w)) /\
    (Corporates.CorporateIdParamSchema rt req <> None ->
     Corporates.AddEmployeesSchema rt (req_body req) = None ->
     add = (reply_error 400 "Invalid body", w)) /\
    (forall o, req_body req = Some (JObj o) ->
               assoc "employees" o = Some (JArr []) ->
               Corporates.AddEmployeesSchema rt (req_body req) = None) /\
    (Corporates.RemoveEmployeeParamSchema rt req = None ->
     remove = (reply_error 400 "Invalid params", w)) /\
    (status (fst add) = 200%Z -> is_admin req w) /\
    (status (fst remove) = 200%Z -> is_admin req w) /\
    (forall w', w' = snd add \/ w' = snd remove ->
                (forall t, t <> corporate -> w_db w' t = w_db w t) /\
                List.length (w_db w' corporate)
                = List.length (w_db w corporate) /\
                (forall k, k <> "employees" ->
                           map (assoc k) (w_db w' corporate)
                           = map (assoc k) (w_db w corporate))).
Proof.
  intros rt req w. cbv zeta.
  assert (Same : forall w0, w0 = w ->
            (forall t, t <> corporate -> w_db w0 t = w_db w t) /\
            List.length (w_db w0 corporate) = List.length (w_db w corporate) /\
            (forall k, k <> "employees" ->
                       map (assoc k) (w_db w0 corporate)
                       = map (assoc k) (w_db w corporate)))
    by (intros w0 ->; repeat split; reflexivity).
  assert (RA : (status (fst (Corporates.remove_employee rt req w)) = 200%Z ->
                is_admin req w) /\
               (forall t, t <> corporate ->
                  w_db (snd (Corporates.remove_employee rt req w)) t = w_db w t) /\
               List.length (w_db (snd (Corporates.remove_employee rt req w)) corporate)
               = List.length (w_db w corporate) /\
               (forall k, k <> "employees" ->
                  map (assoc k) (w_db (snd (Corporates.remove_employee rt req w)) corporate)
                  = map (assoc k) (w_db w corporate))).
  { destruct (Corporates.RemoveEmployeeParamSchema rt req) as [[c u]|] eqn:R.
    - destruct (remove_employee_shape rt req w c u R) as [A [H|[es H]]];
        (split; [exact A|]).
      + exact (employees_only c [] w _ (or_introl H)).
      + exact (employees_only c es w _ (or_intror H)).
    - unfold Corporates.remove_employee. rewrite R. cbn [fst snd ret].
      split; [discriminate|]. now apply Same. }
  assert (AA : (status (fst (Corporates.add_employees rt req w)) = 200%Z ->
                is_admin req w) /\
               (forall t, t <> corporate ->
                  w_db (snd (Corporates.add_employees rt req w)) t = w_db w t) /\
               List.length (w_db (snd (Corporates.add_employees rt req w)) corporate)
               = List.length (w_db w corporate) /\
               (forall k, k <> "employees" ->
                  map (assoc k) (w_db (snd (Corporates.add_employees rt req w)) corporate)
                  = map (assoc k) (w_db w corporate))).
  { destruct (Corporates.CorporateIdParamSchema rt req) as [cid|] eqn:P.
    2:{ unfold Corporates.add_employees. rewrite P. cbn [fst snd ret].
        split; [discriminate|]. now apply Same. }
    destruct (Corporates.AddEmployeesSchema rt (req_body req))
      as [incoming|] eqn:B.
    2:{ unfold Corporates.add_employees. rewrite P, B. cbn [fst snd ret].
        split; [discriminate|]. now apply Same. }
    destruct (add_employees_shape rt req w cid incoming P B) as [A [H|[es H]]];
      (split; [exact A|]).
    - exact (employees_only cid [] w _ (or_introl H)).
    - exact (employees_only cid es w _ (or_intror H)). }
  split; [|split; [|split; [|split; [|split; [|split]]]]].
  - intros P. unfold Corporates.add_employees. now rewrite P.
  - intros P B. unfold Corporates.add_employees.
    destruct (Corporates.CorporateIdParamSchema rt req); [|contradiction].
    now rewrite B.
  - intros o B E. rewrite B. unfold Corporates.AddEmployeesSchema.
    cbn [prop]. rewrite E. reflexivity.
  - intros P. unfold Corporates.remove_employee. now rewrite P.
  - apply AA.
  - apply RA.
  - intros w' [E|E]; subst w'; [apply AA|apply RA].
Qed.

Lemma X28_witness :
  Corporates.add_employees Fixtures.rt (Fixtures.adds []) Fixtures.world0
  = (reply_error 400 "Invalid body", Fixtures.world0).
Proof.
  apply (proj1 (proj2 (X28_employees_routes_guarded Fixtures.rt
                         (Fixtures.adds []) Fixtures.world0))).
  - vm_compute. discriminate.
  - apply (proj1 (proj2 (proj2 (X28_employees_routes_guarded Fixtures.rt
                                  (Fixtures.adds []) Fixtures.world0)))
             _ eq_refl eq_refl).
Defined.

(* ===================================================================== *)
(** * Restaurants: who can change what                                   *)
(* ===================================================================== *)

Lemma guard_outcome req id w :
  (exists l, snd (Restaurants.requireRestaurantWriteAccess req id w)
             = advance l w) /\
  match fst (Restaurants.requireRestaurantWriteAccess req id w) with
  | inl r => status r <> 200%Z
  | inr _ => may_write req id w
  end.
Proof.
  split; [apply guard_world|]. rewrite guard_steps. unfold may_write, identity.
  destruct (Restaurants.getBearerToken req) as [tok|]; [|cbn; discriminate].
  destruct (fault 0 w); [cbn; discriminate|].
  destruct (assoc tok (w_sessions w)) as [uid|]; [|cbn; discriminate].
  destruct (fault 1 w); [cbn; discriminate|].
  unfold resolved_role, role_of.
  destruct (by_id users uid w) as [|u [|u' l]] eqn:U; [| |cbn; discriminate];
    cbv zeta.
  - cbn. discriminate.
  - rewrite isAdminRole_or_null, isPartnerRole_or_null.
    destruct (Restaurants.isAdminRole (assoc "role" u)) eqn:A.
    + cbn [fst]. exists uid. split; [reflexivity|]. rewrite U. now left.
    + destruct (Restaurants.isPartnerRole (assoc "role" u)) eqn:P;
        [|cbn; discriminate].
      destruct (fault 2 w); [cbn; discriminate|].
      destruct (by_id restaurants id w) as [|r [|r' l']] eqn:R;
        [cbn; discriminate| |cbn; discriminate].
      destruct (Restaurants.is_string (assoc "owner_user_id" r) uid) eqn:O;
        [|cbn; discriminate].
      cbn [fst]. exists uid. split; [reflexivity|]. rewrite U. right.
      split; [exact P|]. exists r. split; [reflexivity|].
      now apply is_string_true.
Qed.

Lemma others_mapped id (f : row -> row) rs :
  (forall r, holds (FEq "id" (JStr id)) (f r) = holds (FEq "id" (JStr id)) r) ->
  List.filter (fun r => negb (satisfies [FEq "id" (JStr id)] r))
    (map (fun r => if satisfies [FEq "id" (JStr id)] r then f r else r) rs)
  = List.filter (fun r => negb (satisfies [FEq "id" (JStr id)] r)) rs.
Proof.
  intros F. induction rs as [|r rs IH]; [reflexivity|].
  cbn [map List.filter]. rewrite (satisfies_one _ r).
  destruct (holds (FEq "id" (JStr id)) r) eqn:E.
  - rewrite satisfies_one, F, E. cbn [negb]. exact IH.
  - rewrite satisfies_one, E. cbn [negb]. now rewrite IH.
Qed.

Lemma others_removed id rs :
  List.filter (fun r => negb (satisfies [FEq "id" (JStr id)] r))
    (List.filter (fun r => negb (satisfies [FEq "id" (JStr id)] r)) rs)
  = List.filter (fun r => negb (satisfies [FEq "id" (JStr id)] r)) rs.
Proof.
  induction rs as [|r rs IH]; [reflexivity|]. cbn [List.filter].
  destruct (negb (satisfies [FEq "id" (JStr id)] r)) eqn:E; [|exact IH].
  cbn [List.filter]. now rewrite E, IH.
Qed.

(** X29.  PUT and DELETE /api/restaurants/:id, whatever the backend
    does.  A 200 is only ever answered to a caller who may write that
    restaurant (an admin or superadmin, or the partner who owns it).
    And either nothing stored has changed, or the caller may write the
    restaurant, the other tables are as they were and so is every
    restaurant with another id. *)
Theorem X29_restaurant_writes_are_authorised :
  forall (rt : runtime) (req : request) (w : world) (out : response * world),
    out = Restaurants.put_by_id rt req w \/
    out = Restaurants.delete_by_id rt req w ->
    (status (fst out) = 200%Z ->
     exists id, Restaurants.IdSchema rt (param req "id") = Some id /\
                may_write req id w) /\
    (same_data w (snd out) \/
     exists id,
       Restaurants.IdSchema rt (param req "id") = Some id /\
       may_write req id w /\
       (forall t, t <> restaurants -> w_db (snd out) t = w_db w t) /\
       List.filter (fun r => negb (satisfies [FEq "id" (JStr id)] r))
         (w_db (snd out) restaurants)
       = List.filter (fun r => negb (satisfies [FEq "id" (JStr id)] r))
           (w_db w restaurants)).
Proof.
  intros rt req w out [E|E]; subst out.
  - unfold Restaurants.put_by_id.
    destruct (Restaurants.IdSchema rt (param req "id")) as [id|];
      [|cbn; split; [discriminate|left; split; reflexivity]].
    destruct (Restaurants.UpdateRestaurantSchema rt (req_body req))
      as [patch|] eqn:P;
      [|cbn; split; [discriminate|left; split; reflexivity]].
    unfold bind.
    destruct (guard_outcome req id w) as [[l G] O].
    destruct (Restaurants.requireRestaurantWriteAccess req id w) as [[r|c] w1];
      cbn [fst snd] in G, O; subst w1.
    + cbn [fst snd ret]. split; [intros S; now destruct O|].
      left. split; reflexivity.
    + split; [intros _; exists id; now split|].
      unfold update_single, bind. rewrite update_step_full.
      destruct (fault 0 (advance l w)); [left; split; reflexivity|].
      destruct (update_repeats restaurants patch [FEq "id" (JStr id)]
                  (w_db (advance l w) restaurants));
        [left; split; reflexivity|].
      right. exists id. split; [reflexivity|]. split; [exact O|].
      destruct (update_schema_keys rt _ _ P) as [K _].
      assert (N : ~ In "id" (map fst patch)).
      { intros H. apply K in H. cbn in H. intuition discriminate. }
      destruct (map (assign_all patch) _) as [|a [|b m]]; cbn [snd ret];
        (split;
         [intros t Nt; cbn [w_db set_db advance];
          now rewrite with_rows_other by congruence|
          cbn [w_db set_db advance]; rewrite with_rows_same;
          apply others_mapped; intros x; cbn [holds];
          now rewrite assoc_assign_all_other]).
  - unfold Restaurants.delete_by_id.
    destruct (Restaurants.IdSchema rt (param req "id")) as [id|];
      [|cbn; split; [discriminate|left; split; reflexivity]].
    destruct (Restaurants.DeleteQuerySchema rt (req_query req)) as [hard|];
      [|cbn; split; [discriminate|left; split; reflexivity]].
    unfold bind.
    destruct (guard_outcome req id w) as [[l G] O].
    destruct (Restaurants.requireRestaurantWriteAccess req id w) as [[r|c] w1];
      cbn [fst snd] in G, O; subst w1.
    + cbn [fst snd ret]. split; [intros S; now destruct O|].
      left. split; reflexivity.
    + split; [intros _; exists id; now split|].
      rewrite maybeSingle_by_id.
      destruct (if fault 0 (advance l w) then _ else _) as [[x|]|e];
        [|left; split; reflexivity|left; split; reflexivity].
      destruct hard.
      * rewrite delete_step.
        destruct (fault 0 (advance [Select restaurants] (advance l w)));
          [left; split; reflexivity|].
        right. exists id. split; [reflexivity|]. split; [exact O|].
        cbn [snd ret]. split.
        -- intros t Nt. cbn [w_db set_db advance].
           now rewrite with_rows_other by congruence.
        -- cbn [w_db set_db advance]. rewrite with_rows_same.
           apply others_removed.
      * rewrite update_step by reflexivity.
        destruct (fault 0 (advance [Select restaurants] (advance l w)));
          [left; split; reflexivity|].
        right. exists id. split; [reflexivity|]. split; [exact O|].
        cbn [snd ret]. split.
        -- intros t Nt. cbn [w_db set_db advance].
           now rewrite with_rows_other by congruence.
        -- cbn [w_db set_db advance]. rewrite with_rows_same.
           apply others_mapped. intros y. cbn [holds].
           now rewrite assoc_assign_all_other
             by (cbn; intuition discriminate).
Qed.

Lemma X29_witness :
  exists id,
    Restaurants.IdSchema Fixtures.rt
      (param (Fixtures.owner_deletes []) "id") = Some id /\
    may_write (Fixtures.owner_deletes []) id Fixtures.world0.
Proof.
  apply (proj1 (X29_restaurant_writes_are_authorised Fixtures.rt
                  (Fixtures.owner_deletes []) Fixtures.world0 _
                  (or_intror eq_refl))).
  vm_compute. reflexivity.
Defined.

(* ===================================================================== *)
(** * The spotlight: a new item goes last                                *)
(* ===================================================================== *)



